(** * ZeticML inference framework: a shallow embedding and its properties

    The development follows the C++ sources of the framework:

    - [neural_network_interface.h]: the abstract interface [NeuralNetwork];
    - [linear_regression.cpp], [logistic_regression.cpp],
      [multi_class_classifier.cpp], [two_layer_mlp.cpp]: the four models;
    - [model_registry.h]: the factory [ModelRegistry::create_model];
    - [test_data_loader.h]: the line-oriented test-case loader
      [TestDataLoader];
    - [tests/test_neural_interface.cpp]: the loader [load_test_cases] of the
      unit tests.

    Conventions of the embedding.

    - A call either returns, throws a C++ exception, or has undefined
      behaviour (an unchecked [operator[]] outside the vector, the
      dereference of an [end()] iterator): type [outcome].
    - A [std::vector<T>] is a [list T]; [v[i]] is the checked read [vec_at],
      [v[i] = x] the checked write [vec_set]; both are [Undefined] out of
      range, as in C++.
    - [size_t] is a 64-bit unsigned integer.  Sizes are natural numbers and
      every [size_t] addition and multiplication of the sources is written
      with its wrap-around ([size_add], [size_mul]).
    - [float] arithmetic is a parameter of the models (class [FloatOps]).
      Its intended instance is IEEE-754 binary32 with round-to-nearest-even,
      taken from the standard library's [SpecFloat]: every [+], [-], [*]
      and [/] of the sources is one correctly rounded operation (no fused
      multiply-add, no wider intermediate format).  [std::exp] and
      [std::stof] belong to the C and C++ libraries, not to the framework,
      and stay parameters.  The second instance, the real numbers, gives
      the value the code computes when no operation rounds.
    - The file system is outside the model: a loader receives the lines
      [std::getline] would read, or nothing when the file cannot be
      opened. *)

From Stdlib Require Import String Ascii DecimalString DecimalNat Bool Arith PeanoNat NArith ZArith Lia.
From Stdlib Require Import QArith Qabs.
From Stdlib Require Import Floats.SpecFloat.
From Stdlib Require Import Reals Lra.
From Stdlib Require Import List.
Import ListNotations.

Local Open Scope string_scope.
Local Open Scope list_scope.
Local Open Scope nat_scope.

Set Implicit Arguments.

(* ================================================================= *)
(** * Outcomes of a call *)

(** The framework throws [std::invalid_argument] (dimension checks and the
    factory) and [std::runtime_error] (the loader); [std::stof] throws
    [std::invalid_argument] or [std::out_of_range]; [what] is the message. *)
Inductive exception : Type :=
| invalid_argument (what : string)
| out_of_range (what : string)
| runtime_error (what : string).

Inductive outcome (A : Type) : Type :=
| Returns (a : A)
| Throws (e : exception)
| Undefined.

Arguments Returns {A} a.
Arguments Throws {A} e.
Arguments Undefined {A}.

Definition bind {A B : Type} (c : outcome A) (k : A -> outcome B) : outcome B :=
  match c with
  | Returns a => k a
  | Throws e => Throws e
  | Undefined => Undefined
  end.

Declare Scope cpp_scope.
Delimit Scope cpp_scope with cpp.
Notation "x <- c ;; k" := (bind c (fun x => k))
  (at level 61, c at next level, right associativity) : cpp_scope.
Local Open Scope cpp_scope.

(** A member function that may modify its object: the outcome and the state
    of the object after the call.  [commit] ends a body that has computed
    the new state; a body that does not return leaves [self] as it was when
    the body started (no body of the framework throws after a write). *)
Definition commit {S : Type} (self : S) (body : outcome S) : outcome unit * S :=
  match body with
  | Returns self' => (Returns tt, self')
  | Throws e => (Throws e, self)
  | Undefined => (Undefined, self)
  end.

Definition what (e : exception) : string :=
  match e with
  | invalid_argument w => w
  | out_of_range w => w
  | runtime_error w => w
  end.

(** The two error kinds of the specification, as the sources raise them. *)
Definition DimensionMismatch (e : exception) : Prop :=
  e = invalid_argument "Input size mismatch" \/
  e = invalid_argument "Parameter size mismatch".

Definition UnknownModelType (e : exception) : Prop :=
  exists (arity type_name : string),
    e = invalid_argument
          ("Unknown " ++ arity ++ "-parameter model type: " ++ type_name)%string.

(* ================================================================= *)
(** * [size_t] and [std::vector] *)

Definition SIZE_MODULUS : N := 2 ^ 64.

Definition size_wrap (x : nat) : nat := N.to_nat (N.of_nat x mod SIZE_MODULUS).
Definition size_add (a b : nat) : nat := size_wrap (a + b).
Definition size_mul (a b : nat) : nat := size_wrap (a * b).

(** [x] is representable in a [size_t]. *)
Definition fits (x : nat) : Prop := (N.of_nat x < SIZE_MODULUS)%N.

(** [v[i]], read. *)
Definition vec_at {A : Type} (v : list A) (i : nat) : outcome A :=
  match nth_error v i with
  | Some x => Returns x
  | None => Undefined
  end.

Fixpoint update {A : Type} (v : list A) (i : nat) (x : A) : list A :=
  match v, i with
  | [], _ => []
  | _ :: t, O => x :: t
  | h :: t, S j => h :: update t j x
  end.

(** [v[i] = x]. *)
Definition vec_set {A : Type} (v : list A) (i : nat) (x : A) : outcome (list A) :=
  if i <? length v then Returns (update v i x) else Undefined.

(** [std::vector<T> v(n, x)] and [v.resize(n, x)] on an empty vector. *)
Definition vec_make {A : Type} (n : nat) (x : A) : list A := repeat x n.

(** The [k] consecutive blocks of [n] entries of a flat vector. *)
Definition rows_of {A : Type} (n k : nat) (flat : list A) : list (list A) :=
  map (fun c => firstn n (skipn (c * n) flat)) (seq 0 k).

(** [for (size_t i = start; i < start + count; ++i) body], threading the
    variables the body assigns. *)
Fixpoint for_loop {S : Type} (count start : nat)
    (body : nat -> S -> outcome S) (s : S) : outcome S :=
  match count with
  | O => Returns s
  | Datatypes.S c => s' <- body start s ;; for_loop c (Datatypes.S start) body s'
  end.

Notation "'for_' n" := (for_loop n 0) (at level 10, n at level 9) : cpp_scope.

(* ================================================================= *)
(** * [float] arithmetic *)

Class FloatOps (F : Type) : Type := {
  f0 : F;                      (* 0.0f *)
  f1 : F;                      (* 1.0f *)
  fadd : F -> F -> F;
  fsub : F -> F -> F;
  fmul : F -> F -> F;
  fdiv : F -> F -> F;
  fneg : F -> F;
  fltb : F -> F -> bool;       (* operator< *)
  fexp : F -> F                (* std::exp *)
}.

(** ** IEEE-754 binary32 *)

Definition float : Type := spec_float.
Definition prec32 : Z := 24.
Definition emax32 : Z := 128.

Definition b32_zero : float := S754_zero false.
Definition b32_nan : float := S754_nan.
Definition b32_inf : float := S754_infinity false.
Definition b32_of_Z (z : Z) : float := binary_normalize prec32 emax32 z 0 false.
Definition b32_one : float := b32_of_Z 1.

(** The float nearest to [num/den]: a decimal literal or a parsed number. *)
Definition b32_lit (num den : Z) : float :=
  SFdiv prec32 emax32 (b32_of_Z num) (b32_of_Z den).

(** [std::exp] is the parameter [expf]. *)
Definition binary32 (expf : float -> float) : FloatOps float := {|
  f0 := b32_zero;
  f1 := b32_one;
  fadd := SFadd prec32 emax32;
  fsub := SFsub prec32 emax32;
  fmul := SFmul prec32 emax32;
  fdiv := SFdiv prec32 emax32;
  fneg := SFopp;
  fltb := SFltb;
  fexp := expf
|}.

Definition b32_finite (x : float) : bool :=
  match x with
  | S754_zero _ | S754_finite _ _ _ => true
  | S754_infinity _ | S754_nan => false
  end.

(** The rational a finite float stands for. *)
Definition b32_to_Q (x : float) : option Q :=
  match x with
  | S754_zero _ => Some 0%Q
  | S754_finite s m e =>
      let v := (inject_Z (Zpos m) * Qpower 2 e)%Q in
      Some (if s then Qopp v else v)
  | S754_infinity _ | S754_nan => None
  end.

(** [x] is a finite float within [tol] of the rational [q]. *)
Definition b32_near (tol q : Q) (x : float) : bool :=
  match b32_to_Q x with
  | Some v => Qle_bool (Qabs (v - q)) tol
  | None => false
  end.

(** ** Exact arithmetic on the reals *)

Definition real_arith : FloatOps R := {|
  f0 := 0%R;
  f1 := 1%R;
  fadd := Rplus;
  fsub := Rminus;
  fmul := Rmult;
  fdiv := Rdiv;
  fneg := Ropp;
  fltb := fun x y => if Rlt_dec x y then true else false;
  fexp := exp
|}.

(** [init + term 0 + term 1 + ... + term (n-1)], added in this order: the
    value of [acc = init; for (i < n) acc += term(i);]. *)
Definition sum_from {F : Type} {ops : FloatOps F}
    (init : F) (n : nat) (term : nat -> F) : F :=
  fold_left (fun acc i => fadd acc (term i)) (seq 0 n) init.

(* ================================================================= *)
(** * The models *)

Module LinearRegression.
Section Model.
Context {F : Type} {ops : FloatOps F}.

Record t : Type := {
  weights_ : list F;
  bias_ : F;
  input_size_ : nat
}.

(** [LinearRegression::LinearRegression(size_t input_size)] *)
Definition ctor (input_size : nat) : t := {|
  weights_ := vec_make input_size f0;
  bias_ := f0;
  input_size_ := input_size
|}.

Definition forward (self : t) (input : list F) : outcome (list F) :=
  if negb (length input =? input_size_ self) then
    Throws (invalid_argument "Input size mismatch")
  else
    result <- for_ (input_size_ self) (fun i result =>
                w <- vec_at (weights_ self) i ;;
                x <- vec_at input i ;;
                Returns (fadd result (fmul w x))) (bias_ self) ;;
    Returns [result].

Definition set_parameters (parameters : list F) (self : t) : outcome unit * t :=
  if negb (length parameters =? size_add (input_size_ self) 1) then
    (Throws (invalid_argument "Parameter size mismatch"), self)
  else
    commit self (
      weights <- for_ (input_size_ self) (fun i weights =>
                   p <- vec_at parameters i ;;
                   vec_set weights i p) (weights_ self) ;;
      bias <- vec_at parameters (input_size_ self) ;;
      Returns {| weights_ := weights; bias_ := bias;
                 input_size_ := input_size_ self |}).

Definition input_size (self : t) : nat := input_size_ self.
Definition output_size (self : t) : nat := 1.
Definition get_model_type (self : t) : string := "Linear Regression".

(** The class invariant: [weights_] has [input_size_] entries. *)
Definition wf (self : t) : Prop := length (weights_ self) = input_size_ self.
End Model.
Arguments t F : clear implicits.
End LinearRegression.

Module LogisticRegression.
Section Model.
Context {F : Type} {ops : FloatOps F}.

Record t : Type := {
  weights_ : list F;
  bias_ : F;
  input_size_ : nat
}.

(** [LogisticRegression::LogisticRegression(size_t input_size)] *)
Definition ctor (input_size : nat) : t := {|
  weights_ := vec_make input_size f0;
  bias_ := f0;
  input_size_ := input_size
|}.

(** The first block of [forward]: the linear combination. *)
Definition linear_output (self : t) (input : list F) : outcome F :=
  for_ (input_size_ self) (fun i linear_output =>
    w <- vec_at (weights_ self) i ;;
    x <- vec_at input i ;;
    Returns (fadd linear_output (fmul w x))) (bias_ self).

Definition forward (self : t) (input : list F) : outcome (list F) :=
  if negb (length input =? input_size_ self) then
    Throws (invalid_argument "Input size mismatch")
  else
    linear_output <- linear_output self input ;;
    let sigmoid_output := fdiv f1 (fadd f1 (fexp (fneg linear_output))) in
    Returns [sigmoid_output].

Definition set_parameters (parameters : list F) (self : t) : outcome unit * t :=
  if negb (length parameters =? size_add (input_size_ self) 1) then
    (Throws (invalid_argument "Parameter size mismatch"), self)
  else
    commit self (
      weights <- for_ (input_size_ self) (fun i weights =>
                   p <- vec_at parameters i ;;
                   vec_set weights i p) (weights_ self) ;;
      bias <- vec_at parameters (input_size_ self) ;;
      Returns {| weights_ := weights; bias_ := bias;
                 input_size_ := input_size_ self |}).

Definition input_size (self : t) : nat := input_size_ self.
Definition output_size (self : t) : nat := 1.
Definition get_model_type (self : t) : string := "Logistic Regression".

Definition wf (self : t) : Prop := length (weights_ self) = input_size_ self.
End Model.
Arguments t F : clear implicits.
End LogisticRegression.

(** [std::max(a, b)]: [(a < b) ? b : a]. *)
Definition std_max {F : Type} {ops : FloatOps F} (a b : F) : F :=
  if fltb a b then b else a.

(** [std::max_element(v.begin(), v.end())], as the position of the iterator
    it returns: the first largest element, or [v.end()] (position
    [length v]) when [v] is empty. *)
Fixpoint max_element_from {F : Type} {ops : FloatOps F}
    (largest : nat) (largest_val : F) (first : nat) (rest : list F) : nat :=
  match rest with
  | [] => largest
  | y :: rest' =>
      if fltb largest_val y
      then max_element_from first y (S first) rest'
      else max_element_from largest largest_val (S first) rest'
  end.

Definition max_element {F : Type} {ops : FloatOps F} (v : list F) : nat :=
  match v with
  | [] => 0
  | x :: rest => max_element_from 0 x 1 rest
  end.

(** [std::to_string] of an unsigned and of a signed integer. *)
Definition to_string (n : nat) : string :=
  DecimalString.NilEmpty.string_of_uint (Nat.to_uint n).

Definition to_string_int (z : Z) : string :=
  DecimalString.NilEmpty.string_of_int (Z.to_int z).

Module MultiClassClassifier.
Section Model.
Context {F : Type} {ops : FloatOps F}.

Record t : Type := {
  weights_ : list (list F);      (* [num_classes][input_size] *)
  biases_ : list F;              (* [num_classes] *)
  input_size_ : nat;
  num_classes_ : nat
}.

(** [MultiClassClassifier(size_t input_size, size_t num_classes)] *)
Definition ctor (input_size num_classes : nat) : t := {|
  weights_ := vec_make num_classes (vec_make input_size f0);
  biases_ := vec_make num_classes f0;
  input_size_ := input_size;
  num_classes_ := num_classes
|}.

(** The first block of [forward]: the logit of every class. *)
Definition compute_logits (self : t) (input : list F) : outcome (list F) :=
  for_ (num_classes_ self) (fun c logits =>
    b <- vec_at (biases_ self) c ;;
    logits <- vec_set logits c b ;;
    for_ (input_size_ self) (fun i logits =>
      l <- vec_at logits c ;;
      row <- vec_at (weights_ self) c ;;
      w <- vec_at row i ;;
      x <- vec_at input i ;;
      vec_set logits c (fadd l (fmul w x))) logits)
    (vec_make (num_classes_ self) f0).

(** The second block of [forward]: softmax with the maximum subtracted. *)
Definition softmax (num_classes : nat) (logits : list F) : outcome (list F) :=
  let probabilities := vec_make num_classes f0 in
  max_logit <- vec_at logits (max_element logits) ;;
  ps <- for_ num_classes (fun c '(probabilities, sum_exp) =>
          l <- vec_at logits c ;;
          probabilities <- vec_set probabilities c (fexp (fsub l max_logit)) ;;
          p <- vec_at probabilities c ;;
          Returns (probabilities, fadd sum_exp p)) (probabilities, f0) ;;
  let '(probabilities, sum_exp) := ps in
  for_ num_classes (fun c probabilities =>
    p <- vec_at probabilities c ;;
    vec_set probabilities c (fdiv p sum_exp)) probabilities.

Definition forward (self : t) (input : list F) : outcome (list F) :=
  if negb (length input =? input_size_ self) then
    Throws (invalid_argument "Input size mismatch")
  else
    logits <- compute_logits self input ;;
    softmax (num_classes_ self) logits.

Definition set_parameters (parameters : list F) (self : t) : outcome unit * t :=
  let expected_size :=
    size_add (size_mul (num_classes_ self) (input_size_ self)) (num_classes_ self) in
  if negb (length parameters =? expected_size) then
    (Throws (invalid_argument "Parameter size mismatch"), self)
  else
    commit self (
      st <- for_ (num_classes_ self) (fun c st =>
              for_ (input_size_ self) (fun i '(weights, param_idx) =>
                p <- vec_at parameters param_idx ;;
                row <- vec_at weights c ;;
                row <- vec_set row i p ;;
                weights <- vec_set weights c row ;;
                Returns (weights, size_add param_idx 1)) st)
            (weights_ self, 0) ;;
      let '(weights, param_idx) := st in
      st <- for_ (num_classes_ self) (fun c '(biases, param_idx) =>
              p <- vec_at parameters param_idx ;;
              biases <- vec_set biases c p ;;
              Returns (biases, size_add param_idx 1))
            (biases_ self, param_idx) ;;
      let '(biases, _) := st in
      Returns {| weights_ := weights; biases_ := biases;
                 input_size_ := input_size_ self;
                 num_classes_ := num_classes_ self |}).

Definition input_size (self : t) : nat := input_size_ self.
Definition output_size (self : t) : nat := num_classes_ self.
Definition get_model_type (self : t) : string :=
  ("Multi-Class Classifier (" ++ to_string (num_classes_ self) ++ " classes)")%string.

(** The logit of class [c], over the stored weights and biases. *)
Definition stored_logit (self : t) (x : list F) (c : nat) : F :=
  sum_from (nth c (biases_ self) f0) (input_size_ self)
    (fun i => fmul (nth i (nth c (weights_ self) []) f0) (nth i x f0)).

(** The class invariant: the shapes given in the header. *)
Definition wf (self : t) : Prop :=
  length (weights_ self) = num_classes_ self /\
  Forall (fun row => length row = input_size_ self) (weights_ self) /\
  length (biases_ self) = num_classes_ self.
End Model.
Arguments t F : clear implicits.
End MultiClassClassifier.

Module TwoLayerMLP.
Section Model.
Context {F : Type} {ops : FloatOps F}.

Record t : Type := {
  W1_ : list F;        (* [input_size * hidden_size] *)
  b1_ : list F;        (* [hidden_size] *)
  W2_ : list F;        (* [hidden_size * output_size] *)
  b2_ : list F;        (* [output_size] *)
  input_size_ : nat;
  hidden_size_ : nat;
  output_size_ : nat
}.

(** [TwoLayerMLP(size_t input_size, size_t hidden_size, size_t output_size)] *)
Definition ctor (input_size hidden_size output_size : nat) : t := {|
  W1_ := vec_make (size_mul input_size hidden_size) f0;
  b1_ := vec_make hidden_size f0;
  W2_ := vec_make (size_mul hidden_size output_size) f0;
  b2_ := vec_make output_size f0;
  input_size_ := input_size;
  hidden_size_ := hidden_size;
  output_size_ := output_size
|}.

(** The first block of [forward]: the hidden layer after ReLU. *)
Definition hidden_layer (self : t) (input : list F) : outcome (list F) :=
  for_ (hidden_size_ self) (fun h hidden =>
    b <- vec_at (b1_ self) h ;;
    hidden <- vec_set hidden h b ;;
    hidden <- for_ (input_size_ self) (fun i hidden =>
                acc <- vec_at hidden h ;;
                w <- vec_at (W1_ self) (size_add (size_mul i (hidden_size_ self)) h) ;;
                x <- vec_at input i ;;
                vec_set hidden h (fadd acc (fmul w x))) hidden ;;
    acc <- vec_at hidden h ;;
    vec_set hidden h (std_max f0 acc))
    (vec_make (hidden_size_ self) f0).

(** The second block of [forward]: the linear read-out. *)
Definition output_layer (self : t) (hidden : list F) : outcome (list F) :=
  for_ (output_size_ self) (fun o output =>
    b <- vec_at (b2_ self) o ;;
    output <- vec_set output o b ;;
    for_ (hidden_size_ self) (fun h output =>
      acc <- vec_at output o ;;
      w <- vec_at (W2_ self) (size_add (size_mul h (output_size_ self)) o) ;;
      x <- vec_at hidden h ;;
      vec_set output o (fadd acc (fmul w x))) output)
    (vec_make (output_size_ self) f0).

Definition forward (self : t) (input : list F) : outcome (list F) :=
  if negb (length input =? input_size_ self) then
    Throws (invalid_argument "Input size mismatch")
  else
    hidden <- hidden_layer self input ;;
    output_layer self hidden.

(** One of the four copy loops of [set_parameters]:
    [for (i = 0; i < dst.size(); ++i) dst[i] = parameters[idx++];] *)
Definition copy_block (parameters : list F) (dst : list F) (idx : nat)
    : outcome (list F * nat) :=
  for_ (length dst) (fun i '(dst, idx) =>
    p <- vec_at parameters idx ;;
    dst <- vec_set dst i p ;;
    Returns (dst, size_add idx 1)) (dst, idx).

Definition set_parameters (parameters : list F) (self : t) : outcome unit * t :=
  let expected_size :=
    size_add (size_add (size_add (length (W1_ self)) (length (b1_ self)))
                       (length (W2_ self))) (length (b2_ self)) in
  if negb (length parameters =? expected_size) then
    (Throws (invalid_argument "Parameter size mismatch"), self)
  else
    commit self (
      st <- copy_block parameters (W1_ self) 0 ;;
      let '(W1, idx) := st in
      st <- copy_block parameters (b1_ self) idx ;;
      let '(b1, idx) := st in
      st <- copy_block parameters (W2_ self) idx ;;
      let '(W2, idx) := st in
      st <- copy_block parameters (b2_ self) idx ;;
      let '(b2, _) := st in
      Returns {| W1_ := W1; b1_ := b1; W2_ := W2; b2_ := b2;
                 input_size_ := input_size_ self;
                 hidden_size_ := hidden_size_ self;
                 output_size_ := output_size_ self |}).

Definition input_size (self : t) : nat := input_size_ self.
Definition output_size (self : t) : nat := output_size_ self.
Definition get_model_type (self : t) : string := "Two-Layer MLP".

(** The hidden activations and the outputs, over the stored vectors. *)
Definition stored_hidden (self : t) (x : list F) : list F :=
  map (fun j =>
         std_max f0
           (sum_from (nth j (b1_ self) f0) (input_size_ self)
              (fun i => fmul (nth (i * hidden_size_ self + j) (W1_ self) f0)
                             (nth i x f0))))
      (seq 0 (hidden_size_ self)).

Definition stored_output (self : t) (hidden : list F) : list F :=
  map (fun o =>
         sum_from (nth o (b2_ self) f0) (hidden_size_ self)
           (fun j => fmul (nth (j * output_size_ self + o) (W2_ self) f0)
                          (nth j hidden f0)))
      (seq 0 (output_size_ self)).

(** The class invariant: the shapes given in the header. *)
Definition wf (self : t) : Prop :=
  length (W1_ self) = input_size_ self * hidden_size_ self /\
  length (b1_ self) = hidden_size_ self /\
  length (W2_ self) = hidden_size_ self * output_size_ self /\
  length (b2_ self) = output_size_ self.
End Model.
Arguments t F : clear implicits.
End TwoLayerMLP.

(* ================================================================= *)
(** * The interface [NeuralNetwork] and the registry *)

(** The four classes that implement the abstract interface; a call through
    the base class dispatches on the dynamic type. *)
Inductive NeuralNetwork (F : Type) : Type :=
| Linear (m : LinearRegression.t F)
| Logistic (m : LogisticRegression.t F)
| MultiClass (m : MultiClassClassifier.t F)
| MLP (m : TwoLayerMLP.t F).

Arguments Linear {F} m.
Arguments Logistic {F} m.
Arguments MultiClass {F} m.
Arguments MLP {F} m.

Section Interface.
Context {F : Type} {ops : FloatOps F}.

Definition forward (self : NeuralNetwork F) (input : list F) : outcome (list F) :=
  match self with
  | Linear m => LinearRegression.forward m input
  | Logistic m => LogisticRegression.forward m input
  | MultiClass m => MultiClassClassifier.forward m input
  | MLP m => TwoLayerMLP.forward m input
  end.

Definition set_parameters (parameters : list F) (self : NeuralNetwork F)
    : outcome unit * NeuralNetwork F :=
  match self with
  | Linear m =>
      let '(r, m') := LinearRegression.set_parameters parameters m in (r, Linear m')
  | Logistic m =>
      let '(r, m') := LogisticRegression.set_parameters parameters m in (r, Logistic m')
  | MultiClass m =>
      let '(r, m') := MultiClassClassifier.set_parameters parameters m in (r, MultiClass m')
  | MLP m =>
      let '(r, m') := TwoLayerMLP.set_parameters parameters m in (r, MLP m')
  end.

Definition input_size (self : NeuralNetwork F) : nat :=
  match self with
  | Linear m => LinearRegression.input_size m
  | Logistic m => LogisticRegression.input_size m
  | MultiClass m => MultiClassClassifier.input_size m
  | MLP m => TwoLayerMLP.input_size m
  end.

Definition output_size (self : NeuralNetwork F) : nat :=
  match self with
  | Linear m => LinearRegression.output_size m
  | Logistic m => LogisticRegression.output_size m
  | MultiClass m => MultiClassClassifier.output_size m
  | MLP m => TwoLayerMLP.output_size m
  end.

Definition get_model_type (self : NeuralNetwork F) : string :=
  match self with
  | Linear m => LinearRegression.get_model_type m
  | Logistic m => LogisticRegression.get_model_type m
  | MultiClass m => MultiClassClassifier.get_model_type m
  | MLP m => TwoLayerMLP.get_model_type m
  end.

(** The class invariant of the dynamic type. *)
Definition wf (self : NeuralNetwork F) : Prop :=
  match self with
  | Linear m => LinearRegression.wf m
  | Logistic m => LogisticRegression.wf m
  | MultiClass m => MultiClassClassifier.wf m
  | MLP m => TwoLayerMLP.wf m
  end.

(** The number of values [set_parameters] compares [parameters.size()]
    with, as each class computes it. *)
Definition expected_parameter_count (self : NeuralNetwork F) : nat :=
  match self with
  | Linear m => size_add (LinearRegression.input_size_ m) 1
  | Logistic m => size_add (LogisticRegression.input_size_ m) 1
  | MultiClass m =>
      size_add (size_mul (MultiClassClassifier.num_classes_ m)
                         (MultiClassClassifier.input_size_ m))
               (MultiClassClassifier.num_classes_ m)
  | MLP m =>
      size_add (size_add (size_add (length (TwoLayerMLP.W1_ m))
                                   (length (TwoLayerMLP.b1_ m)))
                         (length (TwoLayerMLP.W2_ m)))
               (length (TwoLayerMLP.b2_ m))
  end.

(** The shape-derived number of parameters, in unbounded arithmetic. *)
Definition parameter_count (self : NeuralNetwork F) : nat :=
  match self with
  | Linear m => LinearRegression.input_size_ m + 1
  | Logistic m => LogisticRegression.input_size_ m + 1
  | MultiClass m =>
      MultiClassClassifier.num_classes_ m * MultiClassClassifier.input_size_ m
      + MultiClassClassifier.num_classes_ m
  | MLP m =>
      TwoLayerMLP.input_size_ m * TwoLayerMLP.hidden_size_ m
      + TwoLayerMLP.hidden_size_ m
      + TwoLayerMLP.hidden_size_ m * TwoLayerMLP.output_size_ m
      + TwoLayerMLP.output_size_ m
  end.

(** The stored parameters in the order [set_parameters] reads them. *)
Definition stored_parameters (self : NeuralNetwork F) : list F :=
  match self with
  | Linear m => LinearRegression.weights_ m ++ [LinearRegression.bias_ m]
  | Logistic m => LogisticRegression.weights_ m ++ [LogisticRegression.bias_ m]
  | MultiClass m =>
      concat (MultiClassClassifier.weights_ m) ++ MultiClassClassifier.biases_ m
  | MLP m =>
      TwoLayerMLP.W1_ m ++ TwoLayerMLP.b1_ m ++ TwoLayerMLP.W2_ m ++ TwoLayerMLP.b2_ m
  end.
End Interface.

Module ModelRegistry.
Section Registry.
Context {F : Type} {ops : FloatOps F}.

(** [create_model(type_name, input_size)] *)
Definition create_model1 (type_name : string) (input_size : nat)
    : outcome (NeuralNetwork F) :=
  if String.eqb type_name "linear" then
    Returns (Linear (LinearRegression.ctor input_size))
  else if String.eqb type_name "logistic" then
    Returns (Logistic (LogisticRegression.ctor input_size))
  else
    Throws (invalid_argument
              ("Unknown single-parameter model type: " ++ type_name)%string).

(** [create_model(type_name, input_size, param2)] *)
Definition create_model2 (type_name : string) (input_size param2 : nat)
    : outcome (NeuralNetwork F) :=
  if String.eqb type_name "multiclass" then
    Returns (MultiClass (MultiClassClassifier.ctor input_size param2))
  else
    Throws (invalid_argument
              ("Unknown two-parameter model type: " ++ type_name)%string).

(** [create_model(type_name, input_size, hidden_size, output_size)] *)
Definition create_model3 (type_name : string)
    (input_size hidden_size output_size : nat) : outcome (NeuralNetwork F) :=
  if String.eqb type_name "mlp" then
    Returns (MLP (TwoLayerMLP.ctor input_size hidden_size output_size))
  else
    Throws (invalid_argument
              ("Unknown three-parameter model type: " ++ type_name)%string).

(** Overload resolution of a call [create_model(type_name, shape...)]:
    the number of integers selects the overload; with no or more than
    three integers the call has no overload and is not a program. *)
Definition create_model (type_name : string) (shape : list nat)
    : option (outcome (NeuralNetwork F)) :=
  match shape with
  | [input_size] => Some (create_model1 type_name input_size)
  | [input_size; param2] => Some (create_model2 type_name input_size param2)
  | [input_size; hidden_size; output_size] =>
      Some (create_model3 type_name input_size hidden_size output_size)
  | _ => None
  end.
End Registry.

Definition is_registered (type_name : string) : bool :=
  String.eqb type_name "linear" || String.eqb type_name "logistic" ||
  String.eqb type_name "multiclass" || String.eqb type_name "mlp".

Definition get_registered_types : list string :=
  ["linear"; "logistic"; "multiclass"; "mlp"].

(** The number of shape integers the constructor behind [type_name]
    takes. *)
Definition arity (type_name : string) : option nat :=
  if String.eqb type_name "linear" then Some 1
  else if String.eqb type_name "logistic" then Some 1
  else if String.eqb type_name "multiclass" then Some 2
  else if String.eqb type_name "mlp" then Some 3
  else None.
End ModelRegistry.

(* ================================================================= *)
(** * The test-case loader *)

Definition INT_MAX : Z := 2147483647.

Module TestDataLoader.

(** The characters of [" \t\r\n"]. *)
Definition is_blank (c : ascii) : bool :=
  Ascii.eqb c " "%char || Ascii.eqb c (ascii_of_nat 9) ||
  Ascii.eqb c (ascii_of_nat 13) || Ascii.eqb c (ascii_of_nat 10).

(** [str.find_first_not_of(" \t\r\n")]; [None] is [npos]. *)
Fixpoint find_first_not_of (str : string) : option nat :=
  match str with
  | EmptyString => None
  | String c rest =>
      if is_blank c then option_map S (find_first_not_of rest) else Some 0
  end.

(** [str.find_last_not_of(" \t\r\n")]; [None] is [npos]. *)
Fixpoint find_last_not_of (str : string) : option nat :=
  match str with
  | EmptyString => None
  | String c rest =>
      match find_last_not_of rest with
      | Some i => Some (S i)
      | None => if is_blank c then None else Some 0
      end
  end.

Definition trim (str : string) : string :=
  match find_first_not_of str with
  | None => ""
  | Some start =>
      match find_last_not_of str with
      | Some end_ => substring start (end_ - start + 1) str
      | None => ""   (* not reached: a first one exists, so does a last *)
      end
  end.

(** The tokens successive [std::getline(ss, token, delim)] calls read from
    a stream over [str]; [token] holds the characters read since the last
    delimiter.  At the end of the stream a call that reads no character
    fails, so no empty token follows a final delimiter. *)
Fixpoint getline_tokens (delim : ascii) (str token : string) : list string :=
  match str with
  | EmptyString => if String.eqb token "" then [] else [token]
  | String c rest =>
      if Ascii.eqb c delim then token :: getline_tokens delim rest ""
      else getline_tokens delim rest (token ++ String c "")%string
  end.

Section Loader.
Context {F : Type}.
(** [std::stof]: the exception it throws, or the value it returns. *)
Variable stof : string -> exception + F.

Definition call_stof (token : string) : outcome F :=
  match stof token with
  | inl e => Throws e
  | inr v => Returns v
  end.

Record TestCase : Type := {
  input : list F;
  expected_output : list F;
  description : string
}.

Definition parse_float_list (str : string) : outcome (list F) :=
  fold_left (fun acc token =>
    values <- acc ;;
    let token := trim token in
    if negb (String.eqb token "") then
      v <- call_stof token ;;
      Returns (values ++ [v])
    else Returns values)
    (getline_tokens ","%char str "") (Returns []).

Definition parse_line (line : string) (line_number : Z) : outcome TestCase :=
  match index 0 "->" line with
  | None => Throws (runtime_error "Missing '->' separator")
  | Some arrow_pos =>
      let input_str := substring 0 arrow_pos line in
      inputs <- parse_float_list (trim input_str) ;;
      let output_str :=
        substring (arrow_pos + 2) (String.length line - (arrow_pos + 2)) line in
      outputs <- parse_float_list (trim output_str) ;;
      let description := ("Line " ++ to_string_int line_number)%string in
      Returns {| input := inputs; expected_output := outputs;
                 description := description |}
  end.

(** What a run of [load_from_file] leaves behind: the vector it returns and
    the lines it has written to [std::cerr] and [std::cout]. *)
Record loaded : Type := {
  test_cases : list TestCase;
  cerr : list string;
  cout : list string
}.

(** One turn of the [while (std::getline(file, line))] loop.  The counter
    is an [int]: incrementing it at [INT_MAX] is undefined. *)
Definition load_line (filename : string) (st : loaded * Z) (line : string)
    : outcome (loaded * Z) :=
  let '(acc, line_number) := st in
  if (INT_MAX <=? line_number)%Z then Undefined else
  let line_number := (line_number + 1)%Z in
  if String.eqb line "" || match get 0 line with
                           | Some c => Ascii.eqb c "#"%char
                           | None => false
                           end
  then Returns (acc, line_number)
  else
    match parse_line line line_number with
    | Returns test_case =>
        Returns ({| test_cases := test_cases acc ++ [test_case];
                    cerr := cerr acc; cout := cout acc |}, line_number)
    | Throws e =>
        Returns ({| test_cases := test_cases acc;
                    cerr := cerr acc ++
                      [("Error parsing line " ++ to_string_int line_number ++
                        " in " ++ filename ++ ": " ++ what e)%string];
                    cout := cout acc |}, line_number)
    | Undefined => Undefined
    end.

(** [file] is what the file system holds under [filename]: [None] when the
    file cannot be opened, else its lines as [std::getline] reads them. *)
Definition load_from_file (filename : string) (file : option (list string))
    : outcome loaded :=
  match file with
  | None =>
      Returns {| test_cases := [];
                 cerr := [("Warning: Could not open test file: " ++ filename)%string];
                 cout := [] |}
  | Some lines =>
      st <- fold_left (fun st line => st <- st ;; load_line filename st line)
              lines (Returns ({| test_cases := []; cerr := []; cout := [] |}, 0%Z)) ;;
      let '(acc, _) := st in
      Returns {| test_cases := test_cases acc;
                 cerr := cerr acc;
                 cout := cout acc ++
                   [("Loaded " ++ to_string (length (test_cases acc)) ++
                     " test cases from " ++ filename)%string] |}
  end.

(** The loop skips a line that is empty or starts with ['#']. *)
Definition skipped (line : string) : bool :=
  String.eqb line "" || match get 0 line with
                        | Some c => Ascii.eqb c "#"%char
                        | None => false
                        end.

(** What the lines after line [line_number] contribute, each on its own:
    the test case of every line that is not skipped and parses, and the
    report of every line that is not skipped and does not parse. *)
Fixpoint cases_from (line_number : Z) (lines : list string) : list TestCase :=
  match lines with
  | [] => []
  | line :: rest =>
      let line_number := (line_number + 1)%Z in
      (if skipped line then []
       else match parse_line line line_number with
            | Returns test_case => [test_case]
            | _ => []
            end) ++ cases_from line_number rest
  end.

Fixpoint reports_from (filename : string) (line_number : Z) (lines : list string)
    : list string :=
  match lines with
  | [] => []
  | line :: rest =>
      let line_number := (line_number + 1)%Z in
      (if skipped line then []
       else match parse_line line line_number with
            | Throws e =>
                [("Error parsing line " ++ to_string_int line_number ++
                  " in " ++ filename ++ ": " ++ what e)%string]
            | _ => []
            end) ++ reports_from filename line_number rest
  end.
End Loader.
Arguments TestCase F : clear implicits.
Arguments loaded F : clear implicits.
End TestDataLoader.

(** ** The loader of the unit tests

    [load_test_cases] of [tests/test_neural_interface.cpp]: the three-field
    form [input | parameters | expected output]. *)

Module TestHarness.
Section Loader.
Context {F : Type}.
Variable stof : string -> exception + F.

Record TestCase : Type := {
  input : list F;
  parameters : list F;
  expected_output : list F;
  description : string
}.

(** [while (std::getline(stream, value, ',')) v.push_back(std::stof(value));] *)
Definition parse_values (str : string) : outcome (list F) :=
  fold_left (fun acc value =>
    values <- acc ;;
    v <- TestDataLoader.call_stof stof value ;;
    Returns (values ++ [v]))
    (TestDataLoader.getline_tokens ","%char str "") (Returns []).

(** The body of the [try] block once both separators are found. *)
Definition parse_fields (line : string) (line_number : Z) (pipe1 pipe2 : nat)
    : outcome TestCase :=
  let input_str := substring 0 pipe1 line in
  let param_str := substring (pipe1 + 3) (pipe2 - pipe1 - 3) line in
  let output_str := substring (pipe2 + 3) (String.length line - (pipe2 + 3)) line in
  let description := ("Line " ++ to_string_int line_number)%string in
  inputs <- parse_values input_str ;;
  params <- parse_values param_str ;;
  outputs <- parse_values output_str ;;
  Returns {| input := inputs; parameters := params; expected_output := outputs;
             description := description |}.

(** [line.find(" | ")] and [line.find(" | ", pipe1 + 3)]; when the first is
    [npos], [pipe1 + 3] wraps around to 2. *)
Definition find_pipes (line : string) : option nat * option nat :=
  let pipe1 := index 0 " | " line in
  let from := match pipe1 with Some p => p + 3 | None => 2 end in
  (pipe1, index from " | " line).

Record loaded : Type := {
  cases : list TestCase;
  cout : list string
}.

(** One turn of the [while (std::getline(file, line))] loop. *)
Definition load_line (st : loaded * Z) (line : string) : outcome (loaded * Z) :=
  let '(acc, line_number) := st in
  if (INT_MAX <=? line_number)%Z then Undefined else
  let line_number := (line_number + 1)%Z in
  if TestDataLoader.skipped line then Returns (acc, line_number)
  else
    match find_pipes line with
    | (Some pipe1, Some pipe2) =>
        match parse_fields line line_number pipe1 pipe2 with
        | Returns test_case =>
            Returns ({| cases := cases acc ++ [test_case]; cout := cout acc |},
                     line_number)
        | Throws e =>
            Returns ({| cases := cases acc;
                        cout := cout acc ++
                          [("Error parsing line " ++ to_string_int line_number ++
                            ": " ++ what e)%string] |}, line_number)
        | Undefined => Undefined
        end
    | _ => Returns (acc, line_number)
    end.

Definition load_test_cases (filename : string) (file : option (list string))
    : outcome loaded :=
  match file with
  | None =>
      Returns {| cases := [];
                 cout := [("Warning: Could not open test file: " ++ filename)%string] |}
  | Some lines =>
      st <- fold_left (fun st line => st <- st ;; load_line st line)
              lines (Returns ({| cases := []; cout := [] |}, 0%Z)) ;;
      let '(acc, _) := st in
      Returns {| cases := cases acc;
                 cout := cout acc ++
                   [("Loaded " ++ to_string (length (cases acc)) ++
                     " test cases from " ++ filename)%string] |}
  end.

(** What the lines after line [line_number] contribute, each on its own. *)
Fixpoint cases_from (line_number : Z) (lines : list string) : list TestCase :=
  match lines with
  | [] => []
  | line :: rest =>
      let line_number := (line_number + 1)%Z in
      (if TestDataLoader.skipped line then []
       else match find_pipes line with
            | (Some pipe1, Some pipe2) =>
                match parse_fields line line_number pipe1 pipe2 with
                | Returns test_case => [test_case]
                | _ => []
                end
            | _ => []
            end) ++ cases_from line_number rest
  end.

Fixpoint reports_from (line_number : Z) (lines : list string) : list string :=
  match lines with
  | [] => []
  | line :: rest =>
      let line_number := (line_number + 1)%Z in
      (if TestDataLoader.skipped line then []
       else match find_pipes line with
            | (Some pipe1, Some pipe2) =>
                match parse_fields line line_number pipe1 pipe2 with
                | Throws e =>
                    [("Error parsing line " ++ to_string_int line_number ++
                      ": " ++ what e)%string]
                | _ => []
                end
            | _ => []
            end) ++ reports_from line_number rest
  end.
End Loader.
Arguments TestCase F : clear implicits.
Arguments loaded F : clear implicits.
End TestHarness.

(* ================================================================= *)
(** * Closed forms

    The values the loops of the models compute, written over the flat
    parameter vector [ps] with total reads ([nth] with default [f0]); the
    sums add their terms from left to right, starting from the bias, as the
    loops do. *)

Section ClosedForms.
Context {F : Type} {ops : FloatOps F}.

(** Linear and logistic models: [n] weights, then the bias. *)
Definition linear_spec (n : nat) (ps x : list F) : F :=
  sum_from (nth n ps f0) n (fun i => fmul (nth i ps f0) (nth i x f0)).

Definition sigmoid (z : F) : F := fdiv f1 (fadd f1 (fexp (fneg z))).

(** Multi-class model: the weight of input [i] for class [c] is
    [ps[c*n + i]], the bias of class [c] is [ps[k*n + c]]. *)
Definition logit_spec (n k : nat) (ps x : list F) (c : nat) : F :=
  sum_from (nth (k * n + c) ps f0) n
    (fun i => fmul (nth (c * n + i) ps f0) (nth i x f0)).

Definition logits_spec (n k : nat) (ps x : list F) : list F :=
  map (logit_spec n k ps x) (seq 0 k).

Definition softmax_spec (logits : list F) : list F :=
  let max_logit := nth (max_element logits) logits f0 in
  let exps := map (fun z => fexp (fsub z max_logit)) logits in
  let sum_exp := fold_left fadd exps f0 in
  map (fun p => fdiv p sum_exp) exps.

(** Two-layer perceptron: [W1[i][j] = ps[i*h + j]], [b1[j] = ps[n*h + j]],
    [W2[j][o] = ps[n*h + h + j*m + o]], [b2[o] = ps[n*h + h + h*m + o]]. *)
Definition pre_activation_spec (n h : nat) (ps x : list F) (j : nat) : F :=
  sum_from (nth (n * h + j) ps f0) n
    (fun i => fmul (nth (i * h + j) ps f0) (nth i x f0)).

Definition hidden_spec (n h : nat) (ps x : list F) : list F :=
  map (fun j => std_max f0 (pre_activation_spec n h ps x j)) (seq 0 h).

Definition output_spec (n h m : nat) (ps x : list F) : list F :=
  let hidden := hidden_spec n h ps x in
  map (fun o =>
         sum_from (nth (n * h + h + h * m + o) ps f0) h
           (fun j => fmul (nth (n * h + h + j * m + o) ps f0) (nth j hidden f0)))
      (seq 0 m).

(** The sum [0 + 1 + 1 + ... + 1] of [k] ones, as the softmax loop
    accumulates it when every exponential is one. *)
Definition count_of_ones (k : nat) : F := fold_left fadd (repeat f1 k) f0.

(** The order facts about [operator<] that the rectifier relies on. *)
Definition lt_zero_sound : Prop :=
  fltb f0 f0 = false /\ forall x : F, fltb f0 x = true -> fltb x f0 = false.
End ClosedForms.

(* ================================================================= *)
(** * A reference [std::stof] for decimal literals

    [stof_decimal] reads blanks, an optional sign, digits and an optional
    fraction, and ignores what follows, as [std::stof] does; it throws
    [std::invalid_argument] when no digit is found.  Exponents, [inf] and
    [nan] are not read.  The examples use it where a concrete [std::stof] is
    needed. *)

Definition digit_of (c : ascii) : option Z :=
  let n := nat_of_ascii c in
  if (48 <=? n) && (n <=? 57) then Some (Z.of_nat (n - 48)) else None.

Fixpoint skip_blanks (s : string) : string :=
  match s with
  | String c rest => if TestDataLoader.is_blank c then skip_blanks rest else s
  | EmptyString => s
  end.

(** Reads digits; returns the number read so far, the count of digits and
    the rest of the string. *)
Fixpoint read_digits (s : string) (acc : Z) (count : nat) : Z * nat * string :=
  match s with
  | String c rest =>
      match digit_of c with
      | Some d => read_digits rest (10 * acc + d)%Z (S count)
      | None => (acc, count, s)
      end
  | EmptyString => (acc, count, s)
  end.

Definition stof_decimal (s : string) : exception + float :=
  let s := skip_blanks s in
  let '(negative, s) :=
    match s with
    | String "-" rest => (true, rest)
    | String "+" rest => (false, rest)
    | _ => (false, s)
    end in
  let '(int_part, int_digits, s) := read_digits s 0%Z 0 in
  let '(mantissa, frac_digits) :=
    match s with
    | String "." rest =>
        let '(m, all_digits, _) := read_digits rest int_part int_digits in
        (m, all_digits - int_digits)
    | _ => (int_part, 0)
    end in
  if int_digits + frac_digits =? 0 then inl (invalid_argument "stof")
  else inr (b32_lit (if negative then - mantissa else mantissa)%Z
                    (10 ^ Z.of_nat frac_digits)%Z).

(* ================================================================= *)
(** * A reference [std::exp]

    [exp_reference] has the values the C standard fixes for [exp] (one at
    both zeros, NaN at NaN, [+inf] at [+inf] and on overflow, [+0] at
    [-inf]) and elsewhere rounds to binary32 a fixed-point evaluation of the
    exponential series, after halving the argument eight times.  The
    examples use it where a concrete [std::exp] is needed. *)

(** Fixed-point numbers: the integer [a] stands for [a * 2^-200]. *)
Definition fx_bits : Z := 200.
Definition fx_one : Z := 2 ^ fx_bits.
Definition fx_mul (a b : Z) : Z := (a * b / fx_one)%Z.

(** [acc + term*r/i + term*r^2/(i*(i+1)) + ...], [terms] terms. *)
Fixpoint fx_exp_series (terms : nat) (r term acc i : Z) : Z :=
  match terms with
  | O => acc
  | S t => let term' := (fx_mul term r / i)%Z in
           fx_exp_series t r term' (acc + term')%Z (i + 1)%Z
  end.

Fixpoint fx_square_times (s : nat) (y : Z) : Z :=
  match s with
  | O => y
  | S s' => fx_square_times s' (fx_mul y y)
  end.

Definition exp_reference (x : float) : float :=
  match x with
  | S754_nan => S754_nan
  | S754_infinity false => S754_infinity false
  | S754_infinity true => S754_zero false
  | S754_zero _ => b32_one
  | S754_finite s m e =>
      if SFleb (b32_of_Z 89) x then S754_infinity false
      else if SFleb x (b32_of_Z (-104)) then S754_zero false
      else
        let r := ((if s then Zneg m else Zpos m) * 2 ^ (e + fx_bits - 8))%Z in
        let y := fx_square_times 8 (fx_exp_series 20 r fx_one fx_one 1) in
        binary_normalize prec32 emax32 y (- fx_bits) false
  end.

(** The quotient [1.0f / (0.0f + 1.0f + ... + 1.0f)] with [k] ones: what the
    softmax loops compute for each class when every logit is zero. *)
Definition b32_uniform_entry (k : nat) : float :=
  SFdiv prec32 emax32 b32_one
    (fold_left (SFadd prec32 emax32) (repeat b32_one k) b32_zero).

(** Structural equality of floats. *)
Definition b32_eqb (x y : float) : bool :=
  match x, y with
  | S754_zero s, S754_zero s' => Bool.eqb s s'
  | S754_infinity s, S754_infinity s' => Bool.eqb s s'
  | S754_nan, S754_nan => true
  | S754_finite s m e, S754_finite s' m' e' =>
      Bool.eqb s s' && Pos.eqb m m' && Z.eqb e e'
  | _, _ => false
  end.

(* ================================================================= *)
(** * The examples of the specification, in binary32 *)

Definition floats (l : list (Z * Z)) : list float :=
  map (fun '(num, den) => b32_lit num den) l.

(** Linear regressor: parameters [0.5, 0.3, 0.2, 0.1], input [1.0, 2.0, -0.5]. *)
Definition linear_example_params : list float :=
  floats [(5, 10); (3, 10); (2, 10); (1, 10)]%Z.
Definition linear_example_input : list float :=
  floats [(1, 1); (2, 1); (-5, 10)]%Z.

(** Multi-class classifier: parameters
    [1.0, 0.5, 0.2, -0.5, 1.2, -0.1, 0.2, -0.8, 0.3], input [0.6, -0.4]. *)
Definition multiclass_example_params : list float :=
  floats [(10, 10); (5, 10); (2, 10); (-5, 10); (12, 10); (-1, 10);
          (2, 10); (-8, 10); (3, 10)]%Z.
Definition multiclass_example_input : list float :=
  floats [(6, 10); (-4, 10)]%Z.


(** Multi-class classifier with one input and one class, weight 3e38 and
    bias 0: on the input 10 the logit overflows. *)
Definition overflow_params : list float := floats [(3 * 10 ^ 38, 1); (0, 1)]%Z.

(** Multi-class classifier with one input and two classes, weights 1000 and
    -1000 and biases 0: on the input 1 the logits are 1000 and -1000. *)
Definition large_logit_params : list float :=
  floats [(1000, 1); (-1000, 1); (0, 1); (0, 1)]%Z.

(** A test file: a comment, an empty line, a two-field line, a three-field
    line, a line whose number does not parse, and a two-field line with
    blanks and a trailing comma. *)
Definition three_field_line : string :=
  "1.0,2.0,-0.5 | 0.5,0.3,0.2,0.1 | 1.1".

Definition loader_example_lines : list string :=
  ["# input -> expected"; "";
   "1.0,2.0,-0.5 -> 1.1";
   three_field_line;
   "abc -> 1";
   " 0.5 , 0.25->2 , "].

(** All entries of a vector are finite floats. *)
Definition all_finite (v : list float) : Prop :=
  Forall (fun x => b32_finite x = true) v.

(* ================================================================= *)
(** * Shapes of strings

    The vocabulary of the properties of the loaders: strings of blanks,
    strings with no blank at either end, strings without a given
    character. *)

Fixpoint all_blank (s : string) : bool :=
  match s with
  | EmptyString => true
  | String c rest => TestDataLoader.is_blank c && all_blank rest
  end.

Fixpoint last_char (s : string) : option ascii :=
  match s with
  | EmptyString => None
  | String c EmptyString => Some c
  | String _ rest => last_char rest
  end.

(** [s] is not empty and neither begins nor ends with a blank. *)
Definition unpadded (s : string) : bool :=
  match get 0 s, last_char s with
  | Some a, Some b => negb (TestDataLoader.is_blank a) && negb (TestDataLoader.is_blank b)
  | _, _ => false
  end.

Fixpoint free_of (delim : ascii) (s : string) : bool :=
  match s with
  | EmptyString => true
  | String c rest => negb (Ascii.eqb c delim) && free_of delim rest
  end.

(** The values of a list of fields of which some hold no value. *)
Definition some_values {A : Type} (l : list (option A)) : list A :=
  flat_map (fun o => match o with Some v => [v] | None => [] end) l.

(** The lines the loader of the unit tests drops without a report: those
    that are not skipped and in which [" | "] is not found twice. *)
Definition dropped (line : string) : bool :=
  negb (TestDataLoader.skipped line) &&
  match TestHarness.find_pipes line with
  | (Some _, Some _) => false
  | _ => true
  end.

(** What a field of a list holds for [TestDataLoader::parse_float_list]:
    nothing, when it is empty once trimmed, or the value [std::stof] reads
    from it. *)
Definition field_holds {F : Type} (stof : string -> exception + F)
    (f : string) (o : option F) : Prop :=
  match o with
  | None => TestDataLoader.trim f = ""
  | Some v => TestDataLoader.trim f <> "" /\ stof (TestDataLoader.trim f) = inr v
  end.

(** [NeuralNetwork::print_info]: the line it writes to [std::cout]. *)
Definition print_info {F : Type} (self : NeuralNetwork F) : string :=
  ("Model: " ++ get_model_type self ++
   " (Input: " ++ to_string (input_size self) ++
   ", Output: " ++ to_string (output_size self) ++ ")")%string.

(* ================================================================= *)
(** * Binary32 numbers as reals

    The vocabulary of the statements about rounding: the real a float
    stands for, the floats of the format (finite and in canonical form),
    and the floats that are at most zero. *)

(** [2^e] for an integer [e]. *)
Definition pow2 (e : Z) : R := powerRZ 2 e.

(** The real a finite float stands for; zero for the others. *)
Definition b32_to_R (x : float) : R :=
  match x with
  | S754_finite s m e =>
      ((if s then - IZR (Zpos m) else IZR (Zpos m)) * pow2 e)%R
  | _ => 0%R
  end.

(** A float of the format: finite, with its mantissa and exponent in
    canonical form. *)
Definition b32_regular (x : float) : bool :=
  b32_finite x && SpecFloat.valid_binary prec32 emax32 x.

(** Zero of either sign, a negative float of the format, or [-inf]. *)
Definition b32_nonpos (x : float) : bool :=
  match x with
  | S754_zero _ => true
  | S754_finite true m e => SpecFloat.bounded prec32 emax32 m e
  | S754_infinity true => true
  | _ => false
  end.

(** Zero of either sign, or a positive float of the format. *)
Definition b32_nonneg (x : float) : bool :=
  match x with
  | S754_zero _ => true
  | S754_finite false m e => SpecFloat.bounded prec32 emax32 m e
  | _ => false
  end.

(** A float of the format between zero and one. *)
Definition b32_unit (x : float) : bool :=
  b32_nonneg x && SFleb x b32_one.

(** The exponent of the format for a number of magnitude [2^z]. *)
Definition fexp32 (z : Z) : Z := Z.max (z - 24) (-149).

(** The float [2^24]: the accumulated count of ones stays there. *)
Definition b32_two_24 : float := S754_finite false 8388608 1.

(** The float [2^15], above every partial sum of at most 8192 terms that
    are at most one. *)
Definition b32_sum_cap : float := S754_finite false 8388608 (-8).

(** The position a shift record gives a real [x] among the integers:
    with [q = 2*m + r], [2*x] is [q] when the sticky bit is clear and lies
    strictly between [q] and [q + 1] when it is set. *)
Definition shr_inv (mrs : shr_record) (x : R) : Prop :=
  let q := IZR (2 * shr_m mrs + (if shr_r mrs then 1 else 0)) in
  if shr_s mrs then (q < 2 * x < q + 1)%R else (2 * x = q)%R.

(** The float of sign [sx], mantissa [m <= 2^24] and exponent [e]. *)
Definition b32_pack (sx : bool) (m e : Z) : float :=
  match m with
  | Z0 => S754_zero sx
  | Zpos p =>
      if (m =? 2 ^ 24)%Z then
        if (e + 1 <=? 104)%Z then S754_finite sx (2 ^ 23) (e + 1)
        else S754_infinity sx
      else if (e <=? 104)%Z then S754_finite sx p e
      else S754_infinity sx
  | Zneg _ => S754_nan
  end.

(** [r] is the float of sign [sx] whose magnitude is the real [v >= 0]
    rounded to nearest: on the grid of step [2^e'], where [e'] is the
    exponent of the format for the magnitude of [v], the mantissa [m'] is
    an integer nearest to [v / 2^e']. *)
Definition b32_rounds (v : R) (sx : bool) (r : float) : Prop :=
  exists m' e' : Z,
    (-149 <= e')%Z /\ (0 <= m' <= 2 ^ 24)%Z /\
    (v * pow2 (- e') < IZR (2 ^ 24))%R /\
    ((-149 < e')%Z -> (IZR (2 ^ 23) <= v * pow2 (- e'))%R) /\
    (Rabs (IZR m' - v * pow2 (- e')) <= / 2)%R /\
    (forall G : Z, (v * pow2 (- e') <= IZR G)%R -> (m' <= G)%Z) /\
    (forall G : Z, (IZR G <= v * pow2 (- e'))%R -> (G <= m')%Z) /\
    r = b32_pack sx m' e'.

(* ================================================================= *)
(** * Properties *)

Unset Implicit Arguments.

(** ** [size_t] arithmetic *)

Lemma size_wrap_small (x : nat) : fits x -> size_wrap x = x.
Proof.
  unfold fits, size_wrap. intros H.
  rewrite N.mod_small by exact H. apply Nat2N.id.
Qed.

Lemma fits_le (x y : nat) : x <= y -> fits y -> fits x.
Proof. unfold fits. intros Hle Hy. lia. Qed.

Lemma size_add_small (a b : nat) : fits (a + b) -> size_add a b = a + b.
Proof. apply size_wrap_small. Qed.

Lemma size_mul_small (a b : nat) : fits (a * b) -> size_mul a b = a * b.
Proof. apply size_wrap_small. Qed.

(** ** Vectors *)

Section Vectors.
Context {A : Type}.
Implicit Types (v : list A) (i : nat) (x d : A).

Lemma vec_at_nth v i d : i < length v -> vec_at v i = Returns (nth i v d).
Proof.
  intros H. unfold vec_at.
  rewrite (nth_error_nth' v d H). reflexivity.
Qed.

Lemma vec_at_outside v i : length v <= i -> vec_at v i = Undefined.
Proof.
  intros H. unfold vec_at.
  apply nth_error_None in H. rewrite H. reflexivity.
Qed.

Lemma vec_at_defined v i : vec_at v i <> Undefined -> i < length v.
Proof.
  intros H. destruct (Nat.lt_ge_cases i (length v)) as [Hlt | Hge]; [exact Hlt |].
  exfalso. apply H, vec_at_outside, Hge.
Qed.

Lemma vec_set_inside v i x : i < length v -> vec_set v i x = Returns (update v i x).
Proof.
  intros H. unfold vec_set.
  apply Nat.ltb_lt in H. rewrite H. reflexivity.
Qed.

Lemma length_update v i x : length (update v i x) = length v.
Proof.
  revert i. induction v as [| a v IH]; intros [| i]; simpl; auto.
Qed.

Lemma nth_update_same v i x d : i < length v -> nth i (update v i x) d = x.
Proof.
  revert i. induction v as [| a v IH]; intros [| i] H; simpl in *; try lia; auto.
  apply IH. lia.
Qed.

Lemma nth_update_other v i j x d : i <> j -> nth j (update v i x) d = nth j v d.
Proof.
  revert i j. induction v as [| a v IH]; intros [| i] [| j] H; simpl; auto; try lia.
Qed.

Lemma update_update v i x y : update (update v i x) i y = update v i y.
Proof.
  revert i. induction v as [| a v IH]; intros [| i]; simpl; auto.
  f_equal. apply IH.
Qed.

Lemma update_nth v i d : update v i (nth i v d) = v.
Proof.
  revert i. induction v as [| a v IH]; intros [| i]; simpl; auto.
  f_equal. apply IH.
Qed.

(** Writing cell [i] splits the vector around it. *)
Lemma update_split v i x :
  i < length v -> update v i x = firstn i v ++ x :: skipn (S i) v.
Proof.
  revert i. induction v as [| a v IH]; intros [| i] H; simpl in *; try lia; auto.
  f_equal. apply IH. lia.
Qed.

Lemma firstn_update_last v i x :
  i < length v -> firstn (S i) (update v i x) = firstn i v ++ [x].
Proof.
  revert i. induction v as [| a v IH]; intros [| i] H; simpl in *; try lia; auto.
  f_equal. apply IH. lia.
Qed.

Lemma skipn_update_before v i j x : i < j -> skipn j (update v i x) = skipn j v.
Proof.
  revert i j. induction v as [| a v IH]; intros [| i] [| j] H; simpl; try lia; auto.
  apply IH. lia.
Qed.

Lemma nth_repeat_default (n i : nat) (x : A) : nth i (repeat x n) x = x.
Proof.
  revert i. induction n as [| n IH]; intros [| i]; simpl; auto.
Qed.
End Vectors.

(** ** Loops *)

Section Loops.
Context {S : Type}.

(** A loop whose body returns [step i s] as long as the invariant holds
    runs to its end and computes the fold of [step]. *)
Lemma for_loop_fold (Inv : nat -> S -> Prop) (step : nat -> S -> S)
    (body : nat -> S -> outcome S) (count start : nat) (s : S) :
  (forall i s, start <= i < start + count -> Inv i s ->
               body i s = Returns (step i s) /\ Inv (Datatypes.S i) (step i s)) ->
  Inv start s ->
  for_loop count start body s
    = Returns (fold_left (fun s i => step i s) (seq start count) s) /\
  Inv (start + count) (fold_left (fun s i => step i s) (seq start count) s).
Proof.
  revert start s. induction count as [| count IH]; intros start s Hbody Hinv.
  - simpl. rewrite Nat.add_0_r. split; [reflexivity | exact Hinv].
  - destruct (Hbody start s) as [Hb Hi]; [lia | exact Hinv |].
    simpl. rewrite Hb. simpl.
    replace (start + Datatypes.S count) with (Datatypes.S start + count) by lia.
    apply IH; [| exact Hi].
    intros i s' Hr. apply Hbody. lia.
Qed.

Lemma for_loop_ext (body body' : nat -> S -> outcome S) (count start : nat) (s : S) :
  (forall i s, start <= i < start + count -> body i s = body' i s) ->
  for_loop count start body s = for_loop count start body' s.
Proof.
  revert start s. induction count as [| count IH]; intros start s H; simpl; [reflexivity |].
  rewrite H by lia. destruct (body' start s); simpl; try reflexivity.
  apply IH. intros i s' Hr. apply H. lia.
Qed.
End Loops.

Section CellLoops.
Context {A : Type}.

(** A loop that accumulates into cell [c] of a vector:
    [for (i...) v[c] = g(v[c], i)]. *)
Lemma for_loop_cell (d : A) (g : A -> nat -> A) (c : nat)
    (body : nat -> list A -> outcome (list A)) (count start : nat) (v : list A) :
  (forall i v, start <= i < start + count -> c < length v ->
               body i v = Returns (update v c (g (nth c v d) i))) ->
  c < length v ->
  for_loop count start body v
    = Returns (update v c (fold_left g (seq start count) (nth c v d))).
Proof.
  intros Hbody Hc.
  destruct (@for_loop_fold (list A)
              (fun _ w => length w = length v /\
                          forall j, j <> c -> nth j w d = nth j v d)
              (fun i w => update w c (g (nth c w d) i))
              body count start v) as [Hrun _].
  - intros i w Hr [Hlen Hsame]. split.
    + apply Hbody; [exact Hr | lia].
    + split; [rewrite length_update; exact Hlen |].
      intros j Hj. rewrite nth_update_other by congruence. apply Hsame, Hj.
  - split; [reflexivity | auto].
  - rewrite Hrun. f_equal.
    clear Hrun Hbody. revert start v Hc.
    induction count as [| count IH]; intros start v Hc; simpl.
    + symmetry. apply update_nth.
    + rewrite IH by (rewrite length_update; exact Hc).
      rewrite update_update, nth_update_same by exact Hc. reflexivity.
Qed.

(** A loop that gives every cell its final value, one cell a turn:
    [for (c...) v[c] = h(c)]. *)
Lemma for_loop_fill (h : nat -> A)
    (body : nat -> list A -> outcome (list A)) (count start : nat) (v : list A) :
  (forall c v, start <= c < start + count -> c < length v ->
               body c v = Returns (update v c (h c))) ->
  start + count <= length v ->
  for_loop count start body v
    = Returns (firstn start v ++ map h (seq start count) ++ skipn (start + count) v).
Proof.
  revert start v. induction count as [| count IH]; intros start v Hbody Hlen.
  - simpl. rewrite Nat.add_0_r, firstn_skipn. reflexivity.
  - simpl. rewrite Hbody by lia. simpl.
    rewrite IH.
    + rewrite firstn_update_last, skipn_update_before by lia.
      replace (Datatypes.S start + count) with (start + Datatypes.S count) by lia.
      rewrite <- app_assoc. reflexivity.
    + intros c w Hr Hc. apply Hbody; [lia | exact Hc].
    + rewrite length_update. lia.
Qed.

Lemma for_loop_fill_all (h : nat -> A)
    (body : nat -> list A -> outcome (list A)) (v : list A) :
  (forall c v, c < length v -> body c v = Returns (update v c (h c))) ->
  for_loop (length v) 0 body v = Returns (map h (seq 0 (length v))).
Proof.
  intros Hbody. rewrite (for_loop_fill h); [| intros; apply Hbody; lia | lia].
  simpl. rewrite skipn_all, app_nil_r. reflexivity.
Qed.
End CellLoops.

Lemma map_nth_seq {A : Type} (l : list A) (d : A) (start count : nat) :
  start + count <= length l ->
  map (fun i => nth i l d) (seq start count) = firstn count (skipn start l).
Proof.
  intros H. apply (nth_ext _ _ d d).
  - rewrite length_map, length_seq, length_firstn, length_skipn. lia.
  - intros i Hi. rewrite length_map, length_seq in Hi.
    rewrite (nth_indep _ d (nth 0 l d)) by (rewrite length_map, length_seq; exact Hi).
    rewrite (map_nth (fun i => nth i l d)), seq_nth by exact Hi.
    rewrite nth_firstn. apply Nat.ltb_lt in Hi. rewrite Hi.
    rewrite nth_skipn. reflexivity.
Qed.

Lemma map_nth_seq_all {A : Type} (l : list A) (d : A) :
  map (fun i => nth i l d) (seq 0 (length l)) = l.
Proof.
  rewrite map_nth_seq by lia. simpl. apply firstn_all.
Qed.

(** ** The loops shared by the models *)

Section SharedLoops.
Context {F : Type} {ops : FloatOps F}.

(** The accumulation loop of the linear and logistic models. *)
Lemma dot_loop (w x : list F) (n : nat) (b : F) :
  n <= length w -> n <= length x ->
  for_ n (fun i acc =>
            wi <- vec_at w i ;;
            xi <- vec_at x i ;;
            Returns (fadd acc (fmul wi xi))) b
  = Returns (sum_from b n (fun i => fmul (nth i w f0) (nth i x f0))).
Proof.
  intros Hw Hx.
  destruct (@for_loop_fold F (fun _ _ => True)
              (fun i acc => fadd acc (fmul (nth i w f0) (nth i x f0)))
              (fun i acc => wi <- vec_at w i ;; xi <- vec_at x i ;;
                            Returns (fadd acc (fmul wi xi)))
              n 0 b) as [Hrun _]; [| exact I | exact Hrun].
  intros i acc Hi _. split; [| exact I].
  rewrite (vec_at_nth w _ f0), (vec_at_nth x _ f0) by lia. reflexivity.
Qed.

(** The copy loop [for (i < n) dst[i] = parameters[i]]. *)
Lemma copy_loop (parameters dst : list F) :
  length dst <= length parameters ->
  for_ (length dst) (fun i dst =>
                       p <- vec_at parameters i ;;
                       vec_set dst i p) dst
  = Returns (firstn (length dst) parameters).
Proof.
  intros H.
  assert (Hgen : forall count start v,
             start + count <= length parameters -> length v = length dst ->
             start + count <= length dst ->
             for_loop count start (fun i dst => p <- vec_at parameters i ;;
                                                vec_set dst i p) v
             = Returns (firstn start v ++
                        map (fun i => nth i parameters f0) (seq start count) ++
                        skipn (start + count) v)).
  { intros count start v Hp Hv Hc. apply for_loop_fill; [| lia].
    intros c w Hr Hcw. rewrite (vec_at_nth parameters _ f0) by lia. simpl.
    apply vec_set_inside, Hcw. }
  rewrite Hgen by lia. simpl.
  rewrite skipn_all, app_nil_r. f_equal. apply map_nth_seq. simpl. lia.
Qed.
End SharedLoops.

Section LinearProps.
Context {F : Type} {ops : FloatOps F}.
Import LinearRegression.

Lemma Linear_ctor_wf (n : nat) : wf (ctor n).
Proof. unfold wf, ctor, vec_make. simpl. apply repeat_length. Qed.

Lemma Linear_forward_wf (self : t F) (x : list F) :
  wf self -> length x = input_size_ self ->
  forward self x
  = Returns [sum_from (bias_ self) (input_size_ self)
               (fun i => fmul (nth i (weights_ self) f0) (nth i x f0))].
Proof.
  unfold wf, forward. intros Hwf Hx.
  rewrite Hx, Nat.eqb_refl. simpl.
  rewrite dot_loop by lia. reflexivity.
Qed.

Lemma Linear_forward_mismatch (self : t F) (x : list F) :
  length x <> input_size_ self ->
  forward self x = Throws (invalid_argument "Input size mismatch").
Proof.
  unfold forward. intros H. apply Nat.eqb_neq in H. rewrite H. reflexivity.
Qed.

Lemma Linear_set_parameters_mismatch (self : t F) (ps : list F) :
  length ps <> size_add (input_size_ self) 1 ->
  set_parameters ps self
  = (Throws (invalid_argument "Parameter size mismatch"), self).
Proof.
  unfold set_parameters. intros H. apply Nat.eqb_neq in H. rewrite H. reflexivity.
Qed.

Lemma Linear_set_parameters_ok (self : t F) (ps : list F) :
  wf self -> fits (input_size_ self + 1) ->
  length ps = input_size_ self + 1 ->
  set_parameters ps self
  = (Returns tt, {| weights_ := firstn (input_size_ self) ps;
                    bias_ := nth (input_size_ self) ps f0;
                    input_size_ := input_size_ self |}).
Proof.
  unfold wf, set_parameters. intros Hwf Hfit Hps.
  rewrite size_add_small, Hps, Nat.eqb_refl by exact Hfit. simpl.
  rewrite <- Hwf at 1. rewrite copy_loop by lia. simpl.
  rewrite (vec_at_nth ps _ f0) by lia. simpl. rewrite Hwf. reflexivity.
Qed.
End LinearProps.

Lemma fold_left_ext_in {A B : Type} (f g : A -> B -> A) (l : list B) (a : A) :
  (forall a b, In b l -> f a b = g a b) -> fold_left f l a = fold_left g l a.
Proof.
  revert a. induction l as [| b l IH]; intros a H; simpl; [reflexivity |].
  rewrite H by (left; reflexivity). apply IH.
  intros a' b' Hin. apply H. right. exact Hin.
Qed.

Lemma sum_from_ext {F : Type} {ops : FloatOps F} (b : F) (n : nat) (t t' : nat -> F) :
  (forall i, i < n -> t i = t' i) -> sum_from b n t = sum_from b n t'.
Proof.
  intros H. unfold sum_from. apply fold_left_ext_in.
  intros acc i Hi. apply in_seq in Hi. rewrite H by lia. reflexivity.
Qed.

Section LinearSpec.
Context {F : Type} {ops : FloatOps F}.

(** After a successful [set_parameters], [forward] computes the closed
    form over the flat vector. *)
Lemma Linear_forward_after_set (self : LinearRegression.t F) (ps x : list F) :
  LinearRegression.wf self ->
  fits (LinearRegression.input_size_ self + 1) ->
  length ps = LinearRegression.input_size_ self + 1 ->
  length x = LinearRegression.input_size_ self ->
  LinearRegression.forward (snd (LinearRegression.set_parameters ps self)) x
  = Returns [linear_spec (LinearRegression.input_size_ self) ps x].
Proof.
  intros Hwf Hfit Hps Hx.
  rewrite Linear_set_parameters_ok by assumption. simpl.
  rewrite Linear_forward_wf.
  - simpl. unfold linear_spec. do 2 f_equal.
    apply sum_from_ext. intros i Hi.
    rewrite nth_firstn. apply Nat.ltb_lt in Hi. rewrite Hi. reflexivity.
  - unfold LinearRegression.wf. simpl. rewrite length_firstn. lia.
  - exact Hx.
Qed.
End LinearSpec.

(** C8.  A linear regressor with [n] inputs takes [n + 1] parameters, the
    [n] weights followed by the bias: [set_parameters] accepts a vector of
    that length and rejects every other length.  After it, [forward] on an
    input [x] of length [n] returns the one-element vector
    [bias + w[0]*x[0] + ... + w[n-1]*x[n-1]], with no nonlinearity, and on
    an input of any other length throws the dimension error.  In binary32,
    parameters [0.5, 0.3, 0.2, 0.1] and input [1.0, 2.0, -0.5] give the
    float [1.1].  The shape is one whose count [n + 1] a [size_t] holds. *)
Theorem linear_regression_spec :
  (forall (F : Type) (ops : FloatOps F) (self : LinearRegression.t F) (ps : list F),
      let n := LinearRegression.input_size_ self in
      LinearRegression.wf self -> fits (n + 1) ->
      (length ps <> n + 1 ->
         exists e, LinearRegression.set_parameters ps self = (Throws e, self) /\
                   DimensionMismatch e) /\
      (length ps = n + 1 ->
         exists self',
           LinearRegression.set_parameters ps self = (Returns tt, self') /\
           LinearRegression.input_size self' = n /\
           LinearRegression.output_size self' = 1 /\
           LinearRegression.weights_ self' ++ [LinearRegression.bias_ self'] = ps /\
           (forall x, length x = n ->
              LinearRegression.forward self' x = Returns [linear_spec n ps x]) /\
           (forall x, length x <> n ->
              exists e, LinearRegression.forward self' x = Throws e /\
                        DimensionMismatch e))) /\
  (forall expf : float -> float,
      let ops := binary32 expf in
      LinearRegression.forward
        (snd (LinearRegression.set_parameters linear_example_params
                (LinearRegression.ctor 3)))
        linear_example_input
      = Returns [b32_lit 11 10]).
Proof.
  split.
  - intros F ops self ps n Hwf Hfit. split.
    + intros Hlen. eexists. split.
      * apply Linear_set_parameters_mismatch.
        rewrite size_add_small by exact Hfit. exact Hlen.
      * right. reflexivity.
    + intros Hlen. eexists. split; [apply Linear_set_parameters_ok; assumption |].
      split; [reflexivity |]. split; [reflexivity |]. split.
      * simpl. fold n. 
        rewrite <- (firstn_skipn n ps) at 3. f_equal.
        apply (nth_ext _ _ f0 f0).
        -- simpl. rewrite length_skipn. lia.
        -- intros i Hi. simpl in Hi. assert (i = 0) by lia. subst i.
           simpl. rewrite nth_skipn. f_equal. lia.
      * split.
        -- intros x Hx.
           rewrite <- (Linear_forward_after_set self ps x) by assumption.
           rewrite Linear_set_parameters_ok by assumption. reflexivity.
        -- intros x Hx. eexists. split.
           ++ apply Linear_forward_mismatch. simpl. exact Hx.
           ++ left. reflexivity.
  - intros expf ops. vm_compute. reflexivity.
Qed.

Lemma linear_regression_spec_witness :
  let ops := binary32 (fun x => x) in
  let self := LinearRegression.ctor (F := float) 3 in
  LinearRegression.wf self /\ fits (3 + 1) /\
  length linear_example_params = 3 + 1 /\
  exists self',
    LinearRegression.set_parameters linear_example_params self = (Returns tt, self') /\
    LinearRegression.forward self' linear_example_input
    = Returns [linear_spec 3 linear_example_params linear_example_input].
Proof.
  intros ops self.
  assert (Hwf : LinearRegression.wf self) by reflexivity.
  assert (Hfit : fits (3 + 1)) by reflexivity.
  assert (Hlen : length linear_example_params = 3 + 1) by reflexivity.
  destruct linear_regression_spec as [Hspec _].
  destruct (Hspec float ops self linear_example_params Hwf Hfit) as [_ Hok].
  destruct (Hok Hlen) as (self' & Hset & _ & _ & _ & Hfwd & _).
  repeat split; try assumption.
  exists self'. split; [exact Hset |]. apply Hfwd. reflexivity.
Defined.

(** ** Logistic regression *)

Section LogisticProps.
Context {F : Type} {ops : FloatOps F}.
Import LogisticRegression.

Lemma Logistic_ctor_wf (n : nat) : wf (ctor n).
Proof. unfold wf, ctor, vec_make. simpl. apply repeat_length. Qed.

Lemma Logistic_linear_output_wf (self : t F) (x : list F) :
  wf self -> length x = input_size_ self ->
  linear_output self x
  = Returns (sum_from (bias_ self) (input_size_ self)
               (fun i => fmul (nth i (weights_ self) f0) (nth i x f0))).
Proof.
  unfold wf, linear_output. intros Hwf Hx. apply dot_loop; lia.
Qed.

Lemma Logistic_forward_wf (self : t F) (x : list F) :
  wf self -> length x = input_size_ self ->
  forward self x
  = Returns [sigmoid (sum_from (bias_ self) (input_size_ self)
               (fun i => fmul (nth i (weights_ self) f0) (nth i x f0)))].
Proof.
  unfold forward. intros Hwf Hx.
  rewrite Hx, Nat.eqb_refl. simpl.
  rewrite Logistic_linear_output_wf by assumption. reflexivity.
Qed.

Lemma Logistic_forward_mismatch (self : t F) (x : list F) :
  length x <> input_size_ self ->
  forward self x = Throws (invalid_argument "Input size mismatch").
Proof.
  unfold forward. intros H. apply Nat.eqb_neq in H. rewrite H. reflexivity.
Qed.

Lemma Logistic_set_parameters_mismatch (self : t F) (ps : list F) :
  length ps <> size_add (input_size_ self) 1 ->
  set_parameters ps self
  = (Throws (invalid_argument "Parameter size mismatch"), self).
Proof.
  unfold set_parameters. intros H. apply Nat.eqb_neq in H. rewrite H. reflexivity.
Qed.

Lemma Logistic_set_parameters_ok (self : t F) (ps : list F) :
  wf self -> fits (input_size_ self + 1) ->
  length ps = input_size_ self + 1 ->
  set_parameters ps self
  = (Returns tt, {| weights_ := firstn (input_size_ self) ps;
                    bias_ := nth (input_size_ self) ps f0;
                    input_size_ := input_size_ self |}).
Proof.
  unfold wf, set_parameters. intros Hwf Hfit Hps.
  rewrite size_add_small, Hps, Nat.eqb_refl by exact Hfit. simpl.
  rewrite <- Hwf at 1. rewrite copy_loop by lia. simpl.
  rewrite (vec_at_nth ps _ f0) by lia. simpl. rewrite Hwf. reflexivity.
Qed.
End LogisticProps.

(** [n] weights followed by the bias are the whole vector. *)
Lemma firstn_app_nth {A : Type} (ps : list A) (n : nat) (d : A) :
  length ps = n + 1 -> firstn n ps ++ [nth n ps d] = ps.
Proof.
  intros H. rewrite <- (firstn_skipn n ps) at 3. f_equal.
  apply (nth_ext _ _ d d).
  - simpl. rewrite length_skipn. lia.
  - intros i Hi. simpl in Hi. assert (i = 0) by lia. subst i.
    simpl. rewrite nth_skipn. f_equal. lia.
Qed.

(** ** More loop and list tools *)

(** A loop whose state after [i] turns is [closed i]. *)
Lemma for_loop_closed {St : Type} (closed : nat -> St)
    (body : nat -> St -> outcome St) (count start : nat) :
  (forall i, start <= i < start + count ->
             body i (closed i) = Returns (closed (Datatypes.S i))) ->
  for_loop count start body (closed start) = Returns (closed (start + count)).
Proof.
  revert start. induction count as [| count IH]; intros start H; simpl.
  - rewrite Nat.add_0_r. reflexivity.
  - rewrite H by lia. simpl.
    replace (start + S count) with (S start + count) by lia.
    apply IH. intros i Hi. apply H. lia.
Qed.

Section Prefixes.
Context {A : Type}.
Implicit Types (a b : list A) (d : A).

Lemma firstn_S_nth a i d :
  i < length a -> firstn (S i) a = firstn i a ++ [nth i a d].
Proof.
  revert a. induction i as [| i IH]; intros [| x a] H; simpl in *; try lia; auto.
  f_equal. apply IH. lia.
Qed.

Lemma nth_prefix_suffix a b i d :
  length a = length b -> nth i (firstn i a ++ skipn i b) d = nth i b d.
Proof.
  revert a b. induction i as [| i IH]; intros [| x a] [| y b] H;
    simpl in *; try discriminate; auto.
Qed.

Lemma length_prefix_suffix a b i :
  length a = length b -> length (firstn i a ++ skipn i b) = length b.
Proof.
  intros H. rewrite length_app, length_firstn, length_skipn. lia.
Qed.

(** Writing cell [i] of a vector that agrees with [a] before [i] and with
    [b] from [i] on extends the agreement with [a] by one cell. *)
Lemma update_prefix_suffix a b i d :
  length a = length b -> i < length a ->
  update (firstn i a ++ skipn i b) i (nth i a d)
  = firstn (S i) a ++ skipn (S i) b.
Proof.
  revert a b. induction i as [| i IH]; intros [| x a] [| y b] H Hi;
    simpl in *; try discriminate; try lia; auto.
  f_equal. apply IH; lia.
Qed.
End Prefixes.

(** [for (c < v.size()) v[c] = f(v[c])]. *)
Lemma map_in_place_loop {A : Type} (f : A -> A) (v : list A) (d : A)
    (body : nat -> list A -> outcome (list A)) :
  (forall c w, c < length w -> body c w = Returns (update w c (f (nth c w d)))) ->
  for_loop (length v) 0 body v = Returns (map f v).
Proof.
  intros Hbody.
  pose (closed := fun i => firstn i (map f v) ++ skipn i v).
  change v with (closed 0) at 2.
  rewrite (for_loop_closed closed).
  - unfold closed. simpl.
    rewrite skipn_all, app_nil_r, firstn_all2 by (rewrite length_map; lia).
    reflexivity.
  - intros i Hi. unfold closed.
    rewrite Hbody by (rewrite length_prefix_suffix; [lia | apply length_map]).
    rewrite nth_prefix_suffix by apply length_map.
    f_equal.
    rewrite <- (update_prefix_suffix (map f v) v i (f d))
      by (rewrite ?length_map; lia).
    f_equal. rewrite (map_nth f). reflexivity.
Qed.

(** ** [std::max_element] *)

Section MaxElement.
Context {F : Type} {ops : FloatOps F}.

Lemma max_element_from_lt (rest : list F) (largest first : nat) (lv : F) :
  largest < first -> max_element_from largest lv first rest < first + length rest.
Proof.
  revert largest first lv. induction rest as [| y rest IH]; intros largest first lv H; simpl.
  - lia.
  - destruct (fltb lv y).
    + specialize (IH first (S first) y). lia.
    + specialize (IH largest (S first) lv). lia.
Qed.

(** On a vector that is not empty the iterator can be dereferenced. *)
Lemma max_element_lt (v : list F) : v <> [] -> max_element v < length v.
Proof.
  destruct v as [| x rest]; [congruence |]. intros _. simpl.
  apply (max_element_from_lt rest 0 1 x). lia.
Qed.

(** On the empty vector it is [end()]. *)
Lemma max_element_nil : vec_at ([] : list F) (max_element []) = Undefined.
Proof. reflexivity. Qed.
End MaxElement.

(** ** Multi-class classifier: [forward] *)

Section MultiClassForward.
Context {F : Type} {ops : FloatOps F}.
Import MultiClassClassifier.

Lemma MultiClass_ctor_wf (n k : nat) : wf (ctor n k).
Proof.
  unfold wf, ctor, vec_make. simpl. repeat split.
  - apply repeat_length.
  - apply Forall_forall. intros row Hin.
    apply repeat_spec in Hin. subst row. apply repeat_length.
  - apply repeat_length.
Qed.

Lemma MultiClass_compute_logits_wf (self : t F) (x : list F) :
  wf self -> length x = input_size_ self ->
  compute_logits self x
  = Returns (map (stored_logit self x) (seq 0 (num_classes_ self))).
Proof.
  intros (Hw & Hrows & Hb) Hx. unfold compute_logits.
  rewrite (for_loop_fill (stored_logit self x)).
  - simpl. unfold vec_make.
    rewrite skipn_all2 by (rewrite repeat_length; lia).
    rewrite app_nil_r. reflexivity.
  - intros c v Hc Hcv.
    rewrite (vec_at_nth (biases_ self) _ f0) by lia. simpl.
    rewrite vec_set_inside by exact Hcv. simpl.
    rewrite (for_loop_cell f0
               (fun l i => fadd l (fmul (nth i (nth c (weights_ self) []) f0)
                                        (nth i x f0))) c).
    + rewrite update_update, nth_update_same by exact Hcv. reflexivity.
    + intros i w Hi Hcw.
      rewrite (vec_at_nth w _ f0) by exact Hcw. simpl.
      rewrite (vec_at_nth (weights_ self) _ []) by lia. simpl.
      assert (Hrow : length (nth c (weights_ self) []) = input_size_ self).
      { rewrite Forall_forall in Hrows. apply Hrows, nth_In. lia. }
      rewrite (vec_at_nth (nth c (weights_ self) []) _ f0) by lia. simpl.
      rewrite (vec_at_nth x _ f0) by lia. simpl.
      apply vec_set_inside, Hcw.
    + rewrite length_update. exact Hcv.
  - unfold vec_make. rewrite repeat_length. lia.
Qed.

(** The exponentials of the shifted logits and their running sum. *)
Lemma softmax_exp_loop (logits probabilities : list F) (max_logit : F) :
  length probabilities = length logits ->
  for_ (length logits) (fun c '(probabilities, sum_exp) =>
          l <- vec_at logits c ;;
          probabilities <- vec_set probabilities c (fexp (fsub l max_logit)) ;;
          p <- vec_at probabilities c ;;
          Returns (probabilities, fadd sum_exp p)) (probabilities, f0)
  = Returns (map (fun z => fexp (fsub z max_logit)) logits,
             fold_left fadd (map (fun z => fexp (fsub z max_logit)) logits) f0).
Proof.
  intros Hlen.
  set (e := fun z => fexp (fsub z max_logit)).
  pose (closed := fun i => (firstn i (map e logits) ++ skipn i probabilities,
                            fold_left fadd (firstn i (map e logits)) f0)).
  change (probabilities, f0) with (closed 0).
  rewrite (for_loop_closed closed).
  - unfold closed. simpl.
    rewrite skipn_all2 by lia.
    rewrite app_nil_r, firstn_all2 by (rewrite length_map; lia).
    reflexivity.
  - intros i Hi. unfold closed.
    assert (Hm : length (map e logits) = length probabilities)
      by (rewrite length_map; lia).
    rewrite (vec_at_nth logits _ f0) by lia. cbn [bind].
    rewrite vec_set_inside by (rewrite length_prefix_suffix; [lia | exact Hm]).
    cbn [bind].
    replace (fexp (fsub (nth i logits f0) max_logit))
      with (nth i (map e logits) (e f0)) by apply (map_nth e).
    rewrite update_prefix_suffix by lia.
    rewrite (vec_at_nth _ _ (e f0))
      by (rewrite length_prefix_suffix; [lia | exact Hm]).
    cbn [bind]. do 2 f_equal.
    rewrite (firstn_S_nth _ _ (e f0)) by lia.
    rewrite fold_left_app. cbn [fold_left]. f_equal.
    rewrite <- app_assoc, app_nth2 by (rewrite length_firstn; lia).
    rewrite length_firstn, Nat.min_l, Nat.sub_diag by lia. reflexivity.
Qed.

Lemma MultiClass_softmax_ok (logits : list F) :
  logits <> [] ->
  softmax (length logits) logits = Returns (softmax_spec logits).
Proof.
  intros Hne. unfold softmax, softmax_spec.
  rewrite (vec_at_nth logits _ f0) by (apply max_element_lt, Hne). cbn [bind].
  rewrite softmax_exp_loop by (unfold vec_make; apply repeat_length).
  cbn [bind].
  set (exps := map _ logits).
  replace (length logits) with (length exps)
    by (unfold exps; apply length_map).
  apply (map_in_place_loop _ _ f0).
  intros c w Hc.
  rewrite (vec_at_nth w _ f0) by exact Hc. cbn [bind].
  apply vec_set_inside, Hc.
Qed.

Lemma MultiClass_softmax_empty : softmax 0 ([] : list F) = Undefined.
Proof. reflexivity. Qed.

Lemma MultiClass_forward_wf (self : t F) (x : list F) :
  wf self -> num_classes_ self <> 0 -> length x = input_size_ self ->
  forward self x
  = Returns (softmax_spec (map (stored_logit self x) (seq 0 (num_classes_ self)))).
Proof.
  intros Hwf Hk Hx. unfold forward.
  rewrite Hx, Nat.eqb_refl. cbn [negb].
  rewrite MultiClass_compute_logits_wf by assumption. cbn [bind].
  rewrite <- MultiClass_softmax_ok.
  - rewrite length_map, length_seq. reflexivity.
  - destruct (num_classes_ self); [congruence | discriminate].
Qed.

Lemma MultiClass_forward_no_class (self : t F) (x : list F) :
  wf self -> num_classes_ self = 0 -> length x = input_size_ self ->
  forward self x = Undefined.
Proof.
  intros Hwf Hk Hx. unfold forward.
  rewrite Hx, Nat.eqb_refl. cbn [negb].
  rewrite MultiClass_compute_logits_wf by assumption.
  rewrite Hk. reflexivity.
Qed.

Lemma MultiClass_forward_mismatch (self : t F) (x : list F) :
  length x <> input_size_ self ->
  forward self x = Throws (invalid_argument "Input size mismatch").
Proof.
  unfold forward. intros H. apply Nat.eqb_neq in H. rewrite H. reflexivity.
Qed.
End MultiClassForward.

(** ** Copy loops with a running index *)

Lemma firstn_plus {A : Type} (a b : nat) (l : list A) :
  firstn (a + b) l = firstn a l ++ firstn b (skipn a l).
Proof.
  revert l. induction a as [| a IH]; intros [| x l]; simpl; auto.
  - rewrite firstn_nil. reflexivity.
  - f_equal. apply IH.
Qed.

Lemma nth_chunk {A : Type} (l : list A) (off n i : nat) (d : A) :
  i < n -> nth i (firstn n (skipn off l)) d = nth (off + i) l d.
Proof.
  intros H. rewrite nth_firstn. apply Nat.ltb_lt in H. rewrite H.
  apply nth_skipn.
Qed.

Lemma length_chunk {A : Type} (l : list A) (off n : nat) :
  off + n <= length l -> length (firstn n (skipn off l)) = n.
Proof.
  intros H. rewrite length_firstn, length_skipn. lia.
Qed.

(** [for (i < dst.size()) dst[i] = parameters[idx++];] *)
Lemma copy_idx_loop {A : Type} (d : A) (parameters dst : list A) (idx : nat) :
  idx + length dst <= length parameters -> fits (length parameters) ->
  for_ (length dst) (fun i '(dst, idx) =>
          p <- vec_at parameters idx ;;
          dst <- vec_set dst i p ;;
          Returns (dst, size_add idx 1)) (dst, idx)
  = Returns (firstn (length dst) (skipn idx parameters), idx + length dst).
Proof.
  intros Hlen Hfit.
  set (a := firstn (length dst) (skipn idx parameters)).
  assert (Ha : length a = length dst) by (apply length_chunk; lia).
  pose (closed := fun i => (firstn i a ++ skipn i dst, idx + i)).
  replace (dst, idx) with (closed 0)
    by (unfold closed; simpl; rewrite Nat.add_0_r; reflexivity).
  rewrite (for_loop_closed closed).
  - unfold closed. cbn [Nat.add].
    rewrite skipn_all, app_nil_r, firstn_all2 by lia. reflexivity.
  - intros i Hi. unfold closed.
    rewrite (vec_at_nth parameters _ d) by lia. cbn [bind].
    rewrite vec_set_inside by (rewrite length_prefix_suffix; lia). cbn [bind].
    rewrite <- (nth_chunk parameters idx (length dst) i d) by lia. fold a.
    rewrite update_prefix_suffix by lia.
    rewrite size_add_small by (apply (fits_le _ (length parameters)); [lia | exact Hfit]).
    do 2 f_equal. lia.
Qed.

(** ** Multi-class classifier: [set_parameters] *)

Section MultiClassSet.
Context {F : Type} {ops : FloatOps F}.
Import MultiClassClassifier.

(** The inner loop: row [c] of the weights receives [n] parameters. *)
Lemma MultiClass_row_loop (parameters : list F) (weights : list (list F))
    (n c idx : nat) :
  c < length weights -> length (nth c weights []) = n ->
  idx + n <= length parameters -> fits (length parameters) ->
  for_ n (fun i '(weights, param_idx) =>
            p <- vec_at parameters param_idx ;;
            row <- vec_at weights c ;;
            row <- vec_set row i p ;;
            weights <- vec_set weights c row ;;
            Returns (weights, size_add param_idx 1)) (weights, idx)
  = Returns (update weights c (firstn n (skipn idx parameters)), idx + n).
Proof.
  intros Hc Hrow Hlen Hfit.
  set (a := firstn n (skipn idx parameters)).
  set (row0 := nth c weights []) in *.
  assert (Ha : length a = n) by (apply length_chunk; lia).
  pose (closed := fun i => (update weights c (firstn i a ++ skipn i row0), idx + i)).
  replace (weights, idx) with (closed 0).
  2:{ unfold closed. simpl. rewrite Nat.add_0_r. unfold row0.
      rewrite update_nth. reflexivity. }
  rewrite (for_loop_closed closed).
  - unfold closed. cbn [Nat.add].
    rewrite skipn_all2, app_nil_r, firstn_all2 by lia. reflexivity.
  - intros i Hi. unfold closed.
    rewrite (vec_at_nth parameters _ f0) by lia. cbn [bind].
    rewrite (vec_at_nth _ _ []) by (rewrite length_update; exact Hc). cbn [bind].
    rewrite nth_update_same by exact Hc.
    rewrite vec_set_inside by (rewrite length_prefix_suffix; lia). cbn [bind].
    rewrite vec_set_inside by (rewrite length_update; exact Hc). cbn [bind].
    rewrite update_update.
    rewrite <- (nth_chunk parameters idx n i f0) by lia. fold a.
    rewrite update_prefix_suffix by lia.
    rewrite size_add_small by (apply (fits_le _ (length parameters)); [lia | exact Hfit]).
    do 2 f_equal. lia.
Qed.

Lemma length_rows_of (n k : nat) (parameters : list F) :
  length (rows_of n k parameters) = k.
Proof. unfold rows_of. rewrite length_map, length_seq. reflexivity. Qed.

Lemma nth_rows_of (n k c : nat) (parameters : list F) :
  c < k -> nth c (rows_of n k parameters) [] = firstn n (skipn (c * n) parameters).
Proof.
  intros H. unfold rows_of.
  rewrite (nth_indep _ [] ((fun c => firstn n (skipn (c * n) parameters)) 0))
    by (rewrite length_map, length_seq; exact H).
  rewrite (map_nth (fun c => firstn n (skipn (c * n) parameters))).
  rewrite seq_nth by exact H. reflexivity.
Qed.

Lemma concat_rows_of (n k : nat) (parameters : list F) :
  concat (rows_of n k parameters) = firstn (k * n) parameters.
Proof.
  unfold rows_of. induction k as [| k IH].
  - reflexivity.
  - rewrite seq_S, map_app, concat_app, IH. simpl.
    rewrite app_nil_r, Nat.add_comm, firstn_plus. reflexivity.
Qed.

(** The outer loop: every row receives its block. *)
Lemma MultiClass_weights_loop (parameters : list F) (weights : list (list F))
    (n k : nat) :
  length weights = k -> Forall (fun row => length row = n) weights ->
  k * n <= length parameters -> fits (length parameters) ->
  for_ k (fun c st =>
            for_ n (fun i '(weights, param_idx) =>
                      p <- vec_at parameters param_idx ;;
                      row <- vec_at weights c ;;
                      row <- vec_set row i p ;;
                      weights <- vec_set weights c row ;;
                      Returns (weights, size_add param_idx 1)) st)
    (weights, 0)
  = Returns (rows_of n k parameters, k * n).
Proof.
  intros Hk Hrows Hlen Hfit.
  pose (closed := fun c => (firstn c (rows_of n k parameters) ++ skipn c weights,
                            c * n)).
  change (weights, 0) with (closed 0).
  rewrite (for_loop_closed closed).
  - unfold closed. cbn [Nat.add].
    rewrite skipn_all2, app_nil_r, firstn_all2
      by (rewrite ?length_rows_of; lia).
    reflexivity.
  - intros c Hc. unfold closed.
    assert (Hr : length (rows_of n k parameters) = length weights)
      by (rewrite length_rows_of; lia).
    rewrite MultiClass_row_loop.
    + rewrite <- (nth_rows_of n k c parameters) by lia.
      rewrite update_prefix_suffix by lia.
      do 2 f_equal. simpl. lia.
    + rewrite length_prefix_suffix; lia.
    + rewrite nth_prefix_suffix by exact Hr.
      rewrite Forall_forall in Hrows. apply Hrows, nth_In. lia.
    + assert (c * n + n <= k * n) by nia. lia.
    + exact Hfit.
Qed.

Lemma MultiClass_set_parameters_mismatch (self : t F) (ps : list F) :
  length ps <> size_add (size_mul (num_classes_ self) (input_size_ self))
                        (num_classes_ self) ->
  set_parameters ps self
  = (Throws (invalid_argument "Parameter size mismatch"), self).
Proof.
  unfold set_parameters. intros H. apply Nat.eqb_neq in H. rewrite H. reflexivity.
Qed.

Lemma MultiClass_expected_size (n k : nat) :
  fits (k * n + k) -> size_add (size_mul k n) k = k * n + k.
Proof.
  intros H. rewrite size_mul_small by (apply (fits_le _ (k * n + k)); [lia | exact H]).
  apply size_add_small, H.
Qed.

Lemma MultiClass_set_parameters_ok (self : t F) (ps : list F) :
  let n := input_size_ self in
  let k := num_classes_ self in
  wf self -> fits (k * n + k) -> length ps = k * n + k ->
  set_parameters ps self
  = (Returns tt, {| weights_ := rows_of n k ps;
                    biases_ := firstn k (skipn (k * n) ps);
                    input_size_ := n;
                    num_classes_ := k |}).
Proof.
  intros n k (Hw & Hrows & Hb) Hfit Hps. subst n k. unfold set_parameters.
  rewrite MultiClass_expected_size, Hps, Nat.eqb_refl by exact Hfit.
  cbn [negb].
  rewrite MultiClass_weights_loop; try assumption; try lia;
    [| rewrite Hps; exact Hfit].
  unfold commit. cbn [bind].
  rewrite <- Hb at 1.
  rewrite (copy_idx_loop f0) by (rewrite ?Hps; try lia; exact Hfit).
  cbn [bind]. rewrite Hb. reflexivity.
Qed.
End MultiClassSet.

Section MultiClassSpec.
Context {F : Type} {ops : FloatOps F}.
Import MultiClassClassifier.

(** The object [set_parameters] leaves behind. *)
Lemma MultiClass_loaded_wf (n k : nat) (ps : list F) :
  length ps = k * n + k ->
  wf {| weights_ := rows_of n k ps;
        biases_ := firstn k (skipn (k * n) ps);
        input_size_ := n; num_classes_ := k |}.
Proof.
  intros Hps. unfold wf. cbn [weights_ biases_ input_size_ num_classes_].
  repeat split.
  - apply length_rows_of.
  - apply Forall_forall. intros row Hin.
    apply (In_nth _ _ []) in Hin. destruct Hin as (c & Hc & <-).
    rewrite length_rows_of in Hc. rewrite nth_rows_of by exact Hc.
    apply length_chunk. assert (c * n + n <= k * n) by nia. lia.
  - apply length_chunk. lia.
Qed.

Lemma MultiClass_loaded_logit (n k c : nat) (ps x : list F) :
  c < k ->
  stored_logit {| weights_ := rows_of n k ps;
                  biases_ := firstn k (skipn (k * n) ps);
                  input_size_ := n; num_classes_ := k |} x c
  = logit_spec n k ps x c.
Proof.
  intros Hc. unfold stored_logit, logit_spec.
  cbn [weights_ biases_ input_size_ num_classes_].
  rewrite nth_chunk by exact Hc.
  apply sum_from_ext. intros i Hi.
  rewrite nth_rows_of, nth_chunk by assumption. reflexivity.
Qed.

Lemma MultiClass_loaded_stored (n k : nat) (ps : list F) :
  length ps = k * n + k ->
  concat (rows_of n k ps) ++ firstn k (skipn (k * n) ps) = ps.
Proof.
  intros Hps. rewrite concat_rows_of.
  rewrite (firstn_all2 (skipn (k * n) ps)) by (rewrite length_skipn; lia).
  apply firstn_skipn.
Qed.

Lemma MultiClass_logits_after_set (self : t F) (ps x : list F) :
  let n := input_size_ self in
  let k := num_classes_ self in
  wf self -> fits (k * n + k) -> length ps = k * n + k -> length x = n ->
  compute_logits (snd (set_parameters ps self)) x = Returns (logits_spec n k ps x).
Proof.
  intros n k Hwf Hfit Hps Hx. subst n k.
  rewrite MultiClass_set_parameters_ok by assumption. cbn [snd].
  rewrite MultiClass_compute_logits_wf
    by (try apply MultiClass_loaded_wf; assumption).
  cbn [num_classes_]. unfold logits_spec. f_equal.
  apply map_ext_in. intros c Hc. apply in_seq in Hc.
  apply MultiClass_loaded_logit. lia.
Qed.

Lemma MultiClass_forward_after_set (self : t F) (ps x : list F) :
  let n := input_size_ self in
  let k := num_classes_ self in
  wf self -> fits (k * n + k) -> length ps = k * n + k -> length x = n ->
  k <> 0 ->
  forward (snd (set_parameters ps self)) x
  = Returns (softmax_spec (logits_spec n k ps x)).
Proof.
  intros n k Hwf Hfit Hps Hx Hk. subst n k.
  rewrite MultiClass_set_parameters_ok by assumption. cbn [snd].
  rewrite MultiClass_forward_wf
    by (try apply MultiClass_loaded_wf; assumption).
  cbn [num_classes_]. unfold logits_spec. do 2 f_equal.
  apply map_ext_in. intros c Hc. apply in_seq in Hc.
  apply MultiClass_loaded_logit. lia.
Qed.
End MultiClassSpec.

(** ** Two-layer perceptron *)

Section MLPProps.
Context {F : Type} {ops : FloatOps F}.
Import TwoLayerMLP.

Lemma MLP_ctor_wf (n h m : nat) :
  fits (n * h) -> fits (h * m) -> wf (ctor n h m).
Proof.
  intros H1 H2. unfold wf, ctor, vec_make. simpl.
  rewrite !repeat_length, !size_mul_small by assumption. auto.
Qed.

Lemma flat_index (i rows cols j : nat) :
  fits (rows * cols) -> i < rows -> j < cols ->
  size_add (size_mul i cols) j = i * cols + j /\ i * cols + j < rows * cols.
Proof.
  intros Hfit Hi Hj.
  assert (Hlt : i * cols + j < rows * cols) by nia.
  split; [| exact Hlt].
  rewrite size_mul_small by (apply (fits_le _ (rows * cols)); [lia | exact Hfit]).
  apply size_add_small. apply (fits_le _ (rows * cols)); [lia | exact Hfit].
Qed.

Lemma MLP_hidden_layer_wf (self : t F) (x : list F) :
  wf self -> fits (input_size_ self * hidden_size_ self) ->
  length x = input_size_ self ->
  hidden_layer self x = Returns (stored_hidden self x).
Proof.
  intros (HW1 & Hb1 & HW2 & Hb2) Hfit Hx. unfold hidden_layer, stored_hidden.
  rewrite (for_loop_fill
             (fun j => std_max f0
                (sum_from (nth j (b1_ self) f0) (input_size_ self)
                   (fun i => fmul (nth (i * hidden_size_ self + j) (W1_ self) f0)
                                  (nth i x f0))))).
  - simpl. unfold vec_make.
    rewrite skipn_all2 by (rewrite repeat_length; lia).
    rewrite app_nil_r. reflexivity.
  - intros j v Hj Hjv.
    rewrite (vec_at_nth (b1_ self) _ f0) by lia. cbn [bind].
    rewrite vec_set_inside by exact Hjv. cbn [bind].
    rewrite (for_loop_cell f0
               (fun acc i => fadd acc (fmul (nth (i * hidden_size_ self + j) (W1_ self) f0)
                                            (nth i x f0))) j).
    + cbn [bind].
      rewrite (vec_at_nth _ _ f0) by (rewrite !length_update; exact Hjv).
      cbn [bind].
      rewrite vec_set_inside by (rewrite !length_update; exact Hjv).
      rewrite !nth_update_same, !update_update
        by (rewrite ?length_update; exact Hjv).
      reflexivity.
    + intros i w Hi Hjw.
      destruct (flat_index i (input_size_ self) (hidden_size_ self) j)
        as [Hidx Hin]; [exact Hfit | lia | lia |].
      rewrite (vec_at_nth w _ f0) by exact Hjw. cbn [bind].
      rewrite Hidx.
      rewrite (vec_at_nth (W1_ self) _ f0) by lia. cbn [bind].
      rewrite (vec_at_nth x _ f0) by lia. cbn [bind].
      apply vec_set_inside, Hjw.
    + rewrite length_update. exact Hjv.
  - unfold vec_make. rewrite repeat_length. lia.
Qed.

Lemma MLP_output_layer_wf (self : t F) (hidden : list F) :
  wf self -> fits (hidden_size_ self * output_size_ self) ->
  length hidden = hidden_size_ self ->
  output_layer self hidden = Returns (stored_output self hidden).
Proof.
  intros (HW1 & Hb1 & HW2 & Hb2) Hfit Hh. unfold output_layer, stored_output.
  rewrite (for_loop_fill
             (fun o => sum_from (nth o (b2_ self) f0) (hidden_size_ self)
                (fun j => fmul (nth (j * output_size_ self + o) (W2_ self) f0)
                               (nth j hidden f0)))).
  - simpl. unfold vec_make.
    rewrite skipn_all2 by (rewrite repeat_length; lia).
    rewrite app_nil_r. reflexivity.
  - intros o v Ho Hov.
    rewrite (vec_at_nth (b2_ self) _ f0) by lia. cbn [bind].
    rewrite vec_set_inside by exact Hov. cbn [bind].
    rewrite (for_loop_cell f0
               (fun acc j => fadd acc (fmul (nth (j * output_size_ self + o) (W2_ self) f0)
                                            (nth j hidden f0))) o).
    + rewrite update_update, nth_update_same by exact Hov. reflexivity.
    + intros j w Hj How.
      destruct (flat_index j (hidden_size_ self) (output_size_ self) o)
        as [Hidx Hin]; [exact Hfit | lia | lia |].
      rewrite (vec_at_nth w _ f0) by exact How. cbn [bind].
      rewrite Hidx.
      rewrite (vec_at_nth (W2_ self) _ f0) by lia. cbn [bind].
      rewrite (vec_at_nth hidden _ f0) by lia. cbn [bind].
      apply vec_set_inside, How.
    + rewrite length_update. exact Hov.
  - unfold vec_make. rewrite repeat_length. lia.
Qed.

Lemma length_stored_hidden (self : t F) (x : list F) :
  length (stored_hidden self x) = hidden_size_ self.
Proof. unfold stored_hidden. rewrite length_map, length_seq. reflexivity. Qed.

Lemma MLP_forward_wf (self : t F) (x : list F) :
  wf self ->
  fits (input_size_ self * hidden_size_ self) ->
  fits (hidden_size_ self * output_size_ self) ->
  length x = input_size_ self ->
  forward self x = Returns (stored_output self (stored_hidden self x)).
Proof.
  intros Hwf Hf1 Hf2 Hx. unfold forward.
  rewrite Hx, Nat.eqb_refl. cbn [negb].
  rewrite MLP_hidden_layer_wf by assumption. cbn [bind].
  apply MLP_output_layer_wf; try assumption. apply length_stored_hidden.
Qed.

Lemma MLP_forward_mismatch (self : t F) (x : list F) :
  length x <> input_size_ self ->
  forward self x = Throws (invalid_argument "Input size mismatch").
Proof.
  unfold forward. intros H. apply Nat.eqb_neq in H. rewrite H. reflexivity.
Qed.
End MLPProps.

Section MLPSet.
Context {F : Type} {ops : FloatOps F}.
Import TwoLayerMLP.

Lemma MLP_copy_block (parameters dst : list F) (idx : nat) :
  idx + length dst <= length parameters -> fits (length parameters) ->
  copy_block parameters dst idx
  = Returns (firstn (length dst) (skipn idx parameters), idx + length dst).
Proof. apply (copy_idx_loop f0). Qed.

Lemma MLP_set_parameters_mismatch (self : t F) (ps : list F) :
  length ps <> size_add (size_add (size_add (length (W1_ self)) (length (b1_ self)))
                                  (length (W2_ self))) (length (b2_ self)) ->
  set_parameters ps self
  = (Throws (invalid_argument "Parameter size mismatch"), self).
Proof.
  unfold set_parameters. intros H. apply Nat.eqb_neq in H. rewrite H. reflexivity.
Qed.

Lemma MLP_expected_size (a b c d : nat) :
  fits (a + b + c + d) ->
  size_add (size_add (size_add a b) c) d = a + b + c + d.
Proof.
  intros H.
  rewrite (size_add_small a b) by (apply (fits_le _ (a + b + c + d)); [lia | exact H]).
  rewrite (size_add_small (a + b) c) by (apply (fits_le _ (a + b + c + d)); [lia | exact H]).
  apply size_add_small, H.
Qed.

Lemma MLP_set_parameters_ok (self : t F) (ps : list F) :
  let n := input_size_ self in
  let h := hidden_size_ self in
  let m := output_size_ self in
  wf self -> fits (n * h + h + h * m + m) ->
  length ps = n * h + h + h * m + m ->
  set_parameters ps self
  = (Returns tt, {| W1_ := firstn (n * h) ps;
                    b1_ := firstn h (skipn (n * h) ps);
                    W2_ := firstn (h * m) (skipn (n * h + h) ps);
                    b2_ := firstn m (skipn (n * h + h + h * m) ps);
                    input_size_ := n; hidden_size_ := h; output_size_ := m |}).
Proof.
  intros n h m (HW1 & Hb1 & HW2 & Hb2) Hfit Hps. subst n h m.
  unfold set_parameters.
  rewrite HW1, Hb1, HW2, Hb2.
  rewrite MLP_expected_size, Hps, Nat.eqb_refl by exact Hfit.
  cbn [negb]. unfold commit.
  assert (Hfp : fits (length ps)) by (rewrite Hps; exact Hfit).
  rewrite MLP_copy_block by (rewrite ?HW1; try lia; exact Hfp). cbn [bind].
  rewrite MLP_copy_block by (rewrite ?Hb1, ?HW1; try lia; exact Hfp). cbn [bind].
  rewrite MLP_copy_block by (rewrite ?HW2, ?Hb1, ?HW1; try lia; exact Hfp). cbn [bind].
  rewrite MLP_copy_block by (rewrite ?Hb2, ?HW2, ?Hb1, ?HW1; try lia; exact Hfp).
  cbn [bind]. rewrite HW1, Hb1, HW2, Hb2. reflexivity.
Qed.

Lemma MLP_loaded_wf (n h m : nat) (ps : list F) :
  length ps = n * h + h + h * m + m ->
  wf {| W1_ := firstn (n * h) ps;
        b1_ := firstn h (skipn (n * h) ps);
        W2_ := firstn (h * m) (skipn (n * h + h) ps);
        b2_ := firstn m (skipn (n * h + h + h * m) ps);
        input_size_ := n; hidden_size_ := h; output_size_ := m |}.
Proof.
  intros Hps. unfold wf.
  cbn [W1_ b1_ W2_ b2_ input_size_ hidden_size_ output_size_].
  rewrite length_firstn, !length_chunk by lia. lia.
Qed.

Lemma MLP_loaded_stored (n h m : nat) (ps : list F) :
  length ps = n * h + h + h * m + m ->
  firstn (n * h) ps ++ firstn h (skipn (n * h) ps)
    ++ firstn (h * m) (skipn (n * h + h) ps)
    ++ firstn m (skipn (n * h + h + h * m) ps) = ps.
Proof.
  intros Hps.
  rewrite (firstn_all2 (skipn (n * h + h + h * m) ps)) by (rewrite length_skipn; lia).
  replace (n * h + h + h * m) with (h * m + (n * h + h)) by lia.
  rewrite <- (skipn_skipn (h * m) (n * h + h) ps), firstn_skipn.
  replace (n * h + h) with (h + n * h) by lia.
  rewrite <- (skipn_skipn h (n * h) ps).
  rewrite firstn_skipn. apply firstn_skipn.
Qed.

Lemma MLP_loaded_hidden (n h m : nat) (ps x : list F) :
  stored_hidden {| W1_ := firstn (n * h) ps;
                   b1_ := firstn h (skipn (n * h) ps);
                   W2_ := firstn (h * m) (skipn (n * h + h) ps);
                   b2_ := firstn m (skipn (n * h + h + h * m) ps);
                   input_size_ := n; hidden_size_ := h; output_size_ := m |} x
  = hidden_spec n h ps x.
Proof.
  unfold stored_hidden, hidden_spec, pre_activation_spec.
  cbn [W1_ b1_ W2_ b2_ input_size_ hidden_size_ output_size_].
  apply map_ext_in. intros j Hj. apply in_seq in Hj.
  rewrite nth_chunk by lia. f_equal.
  apply sum_from_ext. intros i Hi.
  rewrite nth_firstn.
  assert (Hlt : i * h + j < n * h) by nia.
  apply Nat.ltb_lt in Hlt. rewrite Hlt. reflexivity.
Qed.

Lemma MLP_loaded_output (n h m : nat) (ps hidden : list F) :
  stored_output {| W1_ := firstn (n * h) ps;
                   b1_ := firstn h (skipn (n * h) ps);
                   W2_ := firstn (h * m) (skipn (n * h + h) ps);
                   b2_ := firstn m (skipn (n * h + h + h * m) ps);
                   input_size_ := n; hidden_size_ := h; output_size_ := m |} hidden
  = map (fun o =>
           sum_from (nth (n * h + h + h * m + o) ps f0) h
             (fun j => fmul (nth (n * h + h + j * m + o) ps f0) (nth j hidden f0)))
        (seq 0 m).
Proof.
  unfold stored_output.
  cbn [W1_ b1_ W2_ b2_ input_size_ hidden_size_ output_size_].
  apply map_ext_in. intros o Ho. apply in_seq in Ho.
  rewrite nth_chunk by lia.
  apply sum_from_ext. intros j Hj.
  rewrite nth_chunk by nia. do 2 f_equal. lia.
Qed.

Lemma MLP_forward_after_set (self : t F) (ps x : list F) :
  let n := input_size_ self in
  let h := hidden_size_ self in
  let m := output_size_ self in
  wf self -> fits (n * h + h + h * m + m) ->
  length ps = n * h + h + h * m + m -> length x = n ->
  forward (snd (set_parameters ps self)) x = Returns (output_spec n h m ps x).
Proof.
  intros n h m Hwf Hfit Hps Hx. subst n h m.
  rewrite MLP_set_parameters_ok by assumption. cbn [snd].
  rewrite MLP_forward_wf; try assumption.
  - rewrite MLP_loaded_hidden, MLP_loaded_output. reflexivity.
  - apply MLP_loaded_wf, Hps.
  - cbn [input_size_ hidden_size_]. eapply fits_le; [| exact Hfit]. lia.
  - cbn [output_size_ hidden_size_]. eapply fits_le; [| exact Hfit]. lia.
Qed.
End MLPSet.

(** ** The interface *)

Section InterfaceProps.
Context {F : Type} {ops : FloatOps F}.

(** For a shape whose parameter count a [size_t] holds, the count the
    code compares with is the shape-derived one. *)
Lemma expected_parameter_count_exact (self : NeuralNetwork F) :
  wf self -> fits (parameter_count self) ->
  expected_parameter_count self = parameter_count self.
Proof.
  destruct self as [m | m | m | m]; simpl; intros Hwf Hfit.
  - apply size_add_small, Hfit.
  - apply size_add_small, Hfit.
  - apply MultiClass_expected_size, Hfit.
  - destruct Hwf as (-> & -> & -> & ->). apply MLP_expected_size, Hfit.
Qed.

Lemma set_parameters_mismatch (self : NeuralNetwork F) (ps : list F) :
  length ps <> expected_parameter_count self ->
  set_parameters ps self
  = (Throws (invalid_argument "Parameter size mismatch"), self).
Proof.
  destruct self as [m | m | m | m]; simpl; intros H.
  - rewrite Linear_set_parameters_mismatch by exact H. reflexivity.
  - rewrite Logistic_set_parameters_mismatch by exact H. reflexivity.
  - rewrite MultiClass_set_parameters_mismatch by exact H. reflexivity.
  - rewrite MLP_set_parameters_mismatch by exact H. reflexivity.
Qed.

Lemma set_parameters_ok (self : NeuralNetwork F) (ps : list F) :
  wf self -> fits (parameter_count self) -> length ps = parameter_count self ->
  exists self',
    set_parameters ps self = (Returns tt, self') /\
    stored_parameters self' = ps /\
    wf self' /\
    input_size self' = input_size self /\
    output_size self' = output_size self /\
    parameter_count self' = parameter_count self.
Proof.
  destruct self as [m | m | m | m]; simpl; intros Hwf Hfit Hps.
  - rewrite Linear_set_parameters_ok by assumption.
    eexists. split; [reflexivity |]. simpl. repeat split.
    + apply firstn_app_nth, Hps.
    + unfold LinearRegression.wf. simpl. rewrite length_firstn. lia.
  - rewrite Logistic_set_parameters_ok by assumption.
    eexists. split; [reflexivity |]. simpl. repeat split.
    + apply firstn_app_nth, Hps.
    + unfold LogisticRegression.wf. simpl. rewrite length_firstn. lia.
  - rewrite MultiClass_set_parameters_ok by assumption.
    eexists. split; [reflexivity |]. simpl.
    split; [apply MultiClass_loaded_stored, Hps |].
    split; [apply MultiClass_loaded_wf, Hps |]. auto.
  - rewrite MLP_set_parameters_ok by assumption.
    eexists. split; [reflexivity |]. simpl.
    split; [apply MLP_loaded_stored, Hps |].
    split; [apply MLP_loaded_wf, Hps |]. auto.
Qed.
End InterfaceProps.

(** C1.  For each of the four models, [set_parameters] with a vector whose
    length differs from the expected count throws the dimension error and
    leaves the object as it was, so that every later [forward] returns what
    it returned before the rejected call.  With a vector of the expected
    length it returns and the stored parameters are exactly the given
    vector; the shape is unchanged.  The expected count is the shape-derived
    one whenever a [size_t] holds it. *)
Theorem set_parameters_all_or_nothing :
  forall (F : Type) (ops : FloatOps F) (self : NeuralNetwork F) (ps : list F),
    (length ps <> expected_parameter_count self ->
       exists e,
         set_parameters ps self = (Throws e, self) /\ DimensionMismatch e /\
         forall x, forward (snd (set_parameters ps self)) x = forward self x) /\
    (wf self -> fits (parameter_count self) ->
       expected_parameter_count self = parameter_count self /\
       (length ps = parameter_count self ->
          exists self',
            set_parameters ps self = (Returns tt, self') /\
            stored_parameters self' = ps /\
            wf self' /\
            input_size self' = input_size self /\
            output_size self' = output_size self)).
Proof.
  intros F ops self ps. split.
  - intros Hlen. eexists. split; [apply set_parameters_mismatch, Hlen |].
    split; [right; reflexivity |].
    intros x. rewrite set_parameters_mismatch by exact Hlen. reflexivity.
  - intros Hwf Hfit. split; [apply expected_parameter_count_exact; assumption |].
    intros Hlen.
    destruct (set_parameters_ok self ps Hwf Hfit Hlen)
      as (self' & Hset & Hst & Hwf' & Hin & Hout & _).
    exists self'. auto.
Qed.

Lemma set_parameters_all_or_nothing_witness :
  let ops := binary32 (fun x => x) in
  let self := MultiClass (MultiClassClassifier.ctor (F := float) 2 3) in
  (length linear_example_params <> expected_parameter_count self /\
   set_parameters linear_example_params self
   = (Throws (invalid_argument "Parameter size mismatch"), self)) /\
  (wf self /\ fits (parameter_count self) /\
   length multiclass_example_params = parameter_count self /\
   exists self',
     set_parameters multiclass_example_params self = (Returns tt, self') /\
     stored_parameters self' = multiclass_example_params).
Proof.
  intros ops self.
  destruct (set_parameters_all_or_nothing float ops self linear_example_params)
    as [Hrej _].
  destruct (set_parameters_all_or_nothing float ops self multiclass_example_params)
    as [_ Hacc].
  assert (Hne : length linear_example_params <> expected_parameter_count self)
    by (vm_compute; discriminate).
  assert (Hwf : wf self) by apply MultiClass_ctor_wf.
  assert (Hfit : fits (parameter_count self)) by reflexivity.
  assert (Hlen : length multiclass_example_params = parameter_count self)
    by reflexivity.
  split.
  - split; [exact Hne |].
    destruct (Hrej Hne) as (e & He & _). rewrite He. f_equal.
    apply set_parameters_mismatch in Hne. congruence.
  - split; [exact Hwf | split; [exact Hfit | split; [exact Hlen |]]].
    destruct (Hacc Hwf Hfit) as [_ Hok].
    destruct (Hok Hlen) as (self' & Hset & Hst & _).
    exists self'. auto.
Defined.

(** ** Order facts of the two arithmetics *)

Lemma binary32_lt_zero_sound (expf : float -> float) :
  lt_zero_sound (ops := binary32 expf).
Proof.
  split; [reflexivity |].
  intros x H. destruct x as [s | s | | s m e]; try destruct s;
    cbv in H |- *; congruence.
Qed.

Lemma real_lt_zero_sound : lt_zero_sound (ops := real_arith).
Proof.
  split; simpl.
  - destruct (Rlt_dec 0 0) as [H | H]; [lra | reflexivity].
  - intros x. destruct (Rlt_dec 0 x), (Rlt_dec x 0); try reflexivity; try discriminate; lra.
Qed.

(** The rectifier never returns a negative number. *)
Lemma std_max_zero_not_negative {F : Type} {ops : FloatOps F} (a : F) :
  lt_zero_sound -> fltb (std_max f0 a) f0 = false.
Proof.
  intros [Hirr Hasym]. unfold std_max.
  destruct (fltb f0 a) eqn:E; [apply Hasym, E | exact Hirr].
Qed.

(** In binary32 it returns a number that is at least zero; in particular it
    is not a NaN, whatever its argument. *)
Lemma b32_std_max_zero_nonneg (expf : float -> float) (a : float) :
  SFleb b32_zero (std_max (ops := binary32 expf) b32_zero a) = true.
Proof.
  unfold std_max. simpl.
  destruct a as [s | s | | s m e]; try destruct s; reflexivity.
Qed.

Lemma nth_map_seq {A : Type} (f : nat -> A) (n j : nat) (d : A) :
  j < n -> nth j (map f (seq 0 n)) d = f j.
Proof.
  intros H.
  rewrite (nth_indep _ d (f 0)) by (rewrite length_map, length_seq; exact H).
  rewrite (map_nth f), seq_nth by exact H. reflexivity.
Qed.

(** The hidden activations of the perceptron in binary32: at least zero,
    for every parameter vector and every input, NaN and infinities
    included. *)
Lemma b32_hidden_nonneg (expf : float -> float) (n h : nat) (ps x : list float) (j : nat) :
  j < h ->
  SFleb b32_zero (nth j (hidden_spec (ops := binary32 expf) n h ps x) b32_zero) = true.
Proof.
  intros Hj. unfold hidden_spec.
  rewrite (nth_map_seq
             (fun j => std_max (ops := binary32 expf) f0
                         (pre_activation_spec (ops := binary32 expf) n h ps x j)))
    by exact Hj.
  apply b32_std_max_zero_nonneg.
Qed.

(** The rectifier is the larger of zero and its argument: the argument
    where [0 < a], and zero otherwise (also for a NaN, which compares false
    with everything). *)
Lemma std_max_zero_cases {F : Type} {ops : FloatOps F} (a : F) :
  (fltb f0 a = true -> std_max f0 a = a) /\
  (fltb f0 a = false -> std_max f0 a = f0).
Proof.
  unfold std_max. split; intros H; rewrite H; reflexivity.
Qed.

(** In binary32 the rectified value is [+0] or its argument, and it is not
    below its argument unless that is a NaN. *)
Lemma b32_std_max_zero_larger (expf : float -> float) (a : float) :
  let r := std_max (ops := binary32 expf) b32_zero a in
  (r = a \/ r = b32_zero) /\
  (a <> b32_nan -> SFleb a r = true) /\
  (SFltb b32_zero a = true -> r = a) /\
  (SFltb b32_zero a = false -> r = b32_zero).
Proof.
  unfold std_max. simpl.
  destruct (SFltb b32_zero a) eqn:E.
  - split; [left; reflexivity |]. split; [| split; [reflexivity | discriminate]].
    intros _. destruct a as [s | s | | s m e]; try destruct s; try discriminate;
      try reflexivity.
    unfold SFleb, SFcompare. rewrite Z.compare_refl, Pos.compare_cont_refl.
    reflexivity.
  - split; [right; reflexivity |]. split; [| split; [discriminate | reflexivity]].
    intros Hn. destruct a as [s | s | | s m e]; try destruct s; try discriminate;
      try reflexivity.
    contradiction Hn. reflexivity.
Qed.

(** Over the reals the rectifier is [Rmax 0]. *)
Lemma real_std_max_zero (a : R) : std_max (ops := real_arith) 0%R a = Rmax 0 a.
Proof.
  unfold std_max. simpl.
  destruct (Rlt_dec 0 a) as [H | H].
  - rewrite Rmax_right by lra. reflexivity.
  - rewrite Rmax_left by lra. reflexivity.
Qed.

(** C2.  A two-layer perceptron with [n] inputs, [h] hidden units and [m]
    outputs takes [n*h + h + h*m + m] parameters: the first-layer weights
    (input [i], hidden unit [j] at index [i*h + j]), the [h] first-layer
    biases, the second-layer weights (index [j*m + o] of their block) and
    the [m] second-layer biases.  After [set_parameters], [forward] on an
    input of length [n] computes [hidden[j] = max(0, b1[j] + sum_i
    W1[i][j]*input[i])] and returns [output[o] = b2[o] + sum_j
    W2[j][o]*hidden[j]], with no activation on the outputs.  The rectifier
    is pinned down: a hidden activation is its pre-activation where that is
    above zero, and zero otherwise; over the reals it is [Rmax 0] of the
    pre-activation; in binary32 it is [+0] or the pre-activation, at least
    zero (so not a NaN) and not below a pre-activation that is a number.
    The shape is one whose parameter count a [size_t] holds, which every
    constructed object of such a shape satisfies. *)
Theorem two_layer_mlp_spec :
  (forall (F : Type) (ops : FloatOps F) (self : TwoLayerMLP.t F) (ps : list F),
    let n := TwoLayerMLP.input_size_ self in
    let h := TwoLayerMLP.hidden_size_ self in
    let m := TwoLayerMLP.output_size_ self in
    TwoLayerMLP.wf self -> fits (n * h + h + h * m + m) ->
    (length ps <> n * h + h + h * m + m ->
       exists e, TwoLayerMLP.set_parameters ps self = (Throws e, self) /\
                 DimensionMismatch e) /\
    (length ps = n * h + h + h * m + m ->
       exists self',
         TwoLayerMLP.set_parameters ps self = (Returns tt, self') /\
         TwoLayerMLP.W1_ self' = firstn (n * h) ps /\
         TwoLayerMLP.b1_ self' = firstn h (skipn (n * h) ps) /\
         TwoLayerMLP.W2_ self' = firstn (h * m) (skipn (n * h + h) ps) /\
         TwoLayerMLP.b2_ self' = firstn m (skipn (n * h + h + h * m) ps) /\
         forall x, length x = n ->
           TwoLayerMLP.hidden_layer self' x = Returns (hidden_spec n h ps x) /\
           TwoLayerMLP.forward self' x = Returns (output_spec n h m ps x) /\
           (forall j, j < h ->
              nth j (hidden_spec n h ps x) f0
              = std_max f0 (pre_activation_spec n h ps x j)) /\
           (forall j, j < h ->
              (fltb f0 (pre_activation_spec n h ps x j) = true ->
                 nth j (hidden_spec n h ps x) f0 = pre_activation_spec n h ps x j) /\
              (fltb f0 (pre_activation_spec n h ps x j) = false ->
                 nth j (hidden_spec n h ps x) f0 = f0)) /\
           (lt_zero_sound ->
              forall j, j < h -> fltb (nth j (hidden_spec n h ps x) f0) f0 = false))) /\
  (forall (expf : float -> float) (n h : nat) (ps x : list float) (j : nat),
     j < h ->
     SFleb b32_zero (nth j (hidden_spec (ops := binary32 expf) n h ps x) b32_zero)
     = true) /\
  (forall (expf : float -> float) (n h : nat) (ps x : list float) (j : nat),
     j < h ->
     let pre := pre_activation_spec (ops := binary32 expf) n h ps x j in
     let hid := nth j (hidden_spec (ops := binary32 expf) n h ps x) b32_zero in
     (hid = pre \/ hid = b32_zero) /\
     (pre <> b32_nan -> SFleb pre hid = true) /\
     (SFltb b32_zero pre = true -> hid = pre) /\
     (SFltb b32_zero pre = false -> hid = b32_zero)) /\
  (forall (n h : nat) (ps x : list R) (j : nat),
     j < h ->
     nth j (hidden_spec (ops := real_arith) n h ps x) 0%R
     = Rmax 0 (pre_activation_spec (ops := real_arith) n h ps x j)) /\
  (forall (F : Type) (ops : FloatOps F) (n h m : nat),
     fits (n * h) -> fits (h * m) ->
     TwoLayerMLP.wf (TwoLayerMLP.ctor n h m)).
Proof.
  split; [| split; [exact b32_hidden_nonneg | split; [| split]]].
  - intros F ops self ps n h m Hwf Hfit. split.
    + intros Hlen. eexists. split; [| right; reflexivity].
      apply MLP_set_parameters_mismatch.
      destruct Hwf as (-> & -> & -> & ->).
      rewrite MLP_expected_size by exact Hfit. exact Hlen.
    + intros Hlen. eexists. split; [apply MLP_set_parameters_ok; assumption |].
      cbn [TwoLayerMLP.W1_ TwoLayerMLP.b1_ TwoLayerMLP.W2_ TwoLayerMLP.b2_].
      do 4 (split; [reflexivity |]).
      intros x Hx.
      assert (Hwf' := MLP_loaded_wf n h m ps Hlen).
      assert (Hf1 : fits (n * h)) by (eapply fits_le; [| exact Hfit]; lia).
      assert (Hf2 : fits (h * m)) by (eapply fits_le; [| exact Hfit]; lia).
      assert (Hnth : forall j, j < h ->
                nth j (hidden_spec n h ps x) f0
                = std_max f0 (pre_activation_spec n h ps x j)).
      { intros j Hj. unfold hidden_spec.
        apply (nth_map_seq (fun j => std_max f0 (pre_activation_spec n h ps x j))), Hj. }
      split; [| split; [| split; [| split]]].
      * rewrite MLP_hidden_layer_wf by assumption.
        rewrite MLP_loaded_hidden. reflexivity.
      * rewrite <- (MLP_forward_after_set self ps x) by assumption.
        rewrite MLP_set_parameters_ok by assumption. reflexivity.
      * exact Hnth.
      * intros j Hj. rewrite (Hnth j Hj). apply std_max_zero_cases.
      * intros Hord j Hj. rewrite (Hnth j Hj).
        apply std_max_zero_not_negative, Hord.
  - intros expf n h ps x j Hj. unfold hidden_spec.
    rewrite (nth_map_seq
               (fun j => std_max (ops := binary32 expf) f0
                           (pre_activation_spec (ops := binary32 expf) n h ps x j)))
      by exact Hj.
    apply b32_std_max_zero_larger.
  - intros n h ps x j Hj. unfold hidden_spec.
    rewrite (nth_map_seq
               (fun j => std_max (ops := real_arith) f0
                           (pre_activation_spec (ops := real_arith) n h ps x j)))
      by exact Hj.
    apply real_std_max_zero.
  - intros F ops n h m. apply MLP_ctor_wf.
Qed.

Lemma two_layer_mlp_spec_witness :
  let ops := binary32 (fun x => x) in
  let self := TwoLayerMLP.ctor (F := float) 2 3 2 in
  let ps := repeat (b32_lit 1 10) 17 in
  let x := floats [(15, 10); (-8, 10)]%Z in
  TwoLayerMLP.wf self /\ fits (2 * 3 + 3 + 3 * 2 + 2) /\
  length ps = 2 * 3 + 3 + 3 * 2 + 2 /\ length x = 2 /\ lt_zero_sound /\
  fltb f0 (pre_activation_spec 2 3 ps x 1) = true /\
  exists self',
    TwoLayerMLP.set_parameters ps self = (Returns tt, self') /\
    TwoLayerMLP.forward self' x = Returns (output_spec 2 3 2 ps x) /\
    nth 1 (hidden_spec 2 3 ps x) f0 = pre_activation_spec 2 3 ps x 1 /\
    fltb (nth 1 (hidden_spec 2 3 ps x) f0) f0 = false.
Proof.
  intros ops self ps x.
  assert (Hwf : TwoLayerMLP.wf self) by (apply MLP_ctor_wf; reflexivity).
  assert (Hfit : fits (2 * 3 + 3 + 3 * 2 + 2)) by reflexivity.
  assert (Hlen : length ps = 2 * 3 + 3 + 3 * 2 + 2) by reflexivity.
  assert (Hx : length x = 2) by reflexivity.
  assert (Hord : lt_zero_sound (ops := ops)) by apply binary32_lt_zero_sound.
  assert (Hpos : fltb f0 (pre_activation_spec 2 3 ps x 1) = true)
    by (vm_compute; reflexivity).
  do 6 (split; [assumption |]).
  destruct two_layer_mlp_spec as [Hspec _].
  destruct (Hspec float ops self ps Hwf Hfit) as [_ Hok].
  destruct (Hok Hlen) as (self' & Hset & _ & _ & _ & _ & Hfwd).
  destruct (Hfwd x Hx) as (_ & Hout & _ & Hcases & Hnn).
  exists self'. split; [exact Hset |]. split; [exact Hout |].
  assert (H1 : 1 < 3) by lia.
  split; [exact (proj1 (Hcases 1 H1) Hpos) | exact (Hnn Hord 1 H1)].
Defined.

(** ** The multi-class example *)

(** The logits the code computes for the example of the specification, for
    every [std::exp]: the floats nearest to 0.6, just below -0.48, and 1.06. *)
Lemma multiclass_example_logits_value (expf : float -> float) :
  MultiClassClassifier.compute_logits (ops := binary32 expf)
    (snd (MultiClassClassifier.set_parameters multiclass_example_params
            (MultiClassClassifier.ctor (ops := binary32 expf) 2 3)))
    multiclass_example_input
  = Returns [S754_finite false 10066330 (-24);
             S754_finite true 16106128 (-25);
             S754_finite false 8891924 (-23)].
Proof. vm_compute. reflexivity. Qed.

(** C3, as stated, fails on its example: with parameters
    [1.0, 0.5, 0.2, -0.5, 1.2, -0.1, 0.2, -0.8, 0.3] and input [0.6, -0.4]
    the logits the code computes are not [0.4, -0.88, 0.74]; none of the
    three is within 0.1 of the claimed value. *)
Lemma multiclass_example_logits_not_as_claimed :
  exists z0 z1 z2 : float,
    (forall expf : float -> float,
       MultiClassClassifier.compute_logits (ops := binary32 expf)
         (snd (MultiClassClassifier.set_parameters multiclass_example_params
                 (MultiClassClassifier.ctor (ops := binary32 expf) 2 3)))
         multiclass_example_input
       = Returns [z0; z1; z2]) /\
    b32_near (1 # 10) (4 # 10) z0 = false /\
    b32_near (1 # 10) (-88 # 100) z1 = false /\
    b32_near (1 # 10) (74 # 100) z2 = false.
Proof.
  do 3 eexists. split; [exact multiclass_example_logits_value |].
  vm_compute. auto.
Qed.

(** C3, amended.  A multi-class classifier with [n] inputs and [k] classes
    takes [k*n + k] parameters: for each class its [n] weights, then the [k]
    biases as a trailing block.  After [set_parameters], on an input of
    length [n], the logit of class [c] is [bias[c] + sum_i
    weight[c][i]*input[i]] and, for [k >= 1], [forward] returns the softmax
    of the logits.  For the example of the specification ([n = 2], [k = 3])
    this layout gives the logits [0.6, -0.48, 1.06], up to binary32
    rounding.  The shape is one whose parameter count a [size_t] holds. *)
Theorem multi_class_classifier_spec :
  (forall (F : Type) (ops : FloatOps F) (self : MultiClassClassifier.t F)
          (ps : list F),
    let n := MultiClassClassifier.input_size_ self in
    let k := MultiClassClassifier.num_classes_ self in
    MultiClassClassifier.wf self -> fits (k * n + k) ->
    (length ps <> k * n + k ->
       exists e, MultiClassClassifier.set_parameters ps self = (Throws e, self) /\
                 DimensionMismatch e) /\
    (length ps = k * n + k ->
       exists self',
         MultiClassClassifier.set_parameters ps self = (Returns tt, self') /\
         MultiClassClassifier.weights_ self' = rows_of n k ps /\
         MultiClassClassifier.biases_ self' = firstn k (skipn (k * n) ps) /\
         forall x, length x = n ->
           MultiClassClassifier.compute_logits self' x
           = Returns (logits_spec n k ps x) /\
           (k <> 0 ->
            MultiClassClassifier.forward self' x
            = Returns (softmax_spec (logits_spec n k ps x))))) /\
  (forall expf : float -> float,
     exists z0 z1 z2 : float,
       MultiClassClassifier.compute_logits (ops := binary32 expf)
         (snd (MultiClassClassifier.set_parameters multiclass_example_params
                 (MultiClassClassifier.ctor (ops := binary32 expf) 2 3)))
         multiclass_example_input
       = Returns [z0; z1; z2] /\
       b32_near (1 # 1000000) (6 # 10) z0 = true /\
       b32_near (1 # 1000000) (-48 # 100) z1 = true /\
       b32_near (1 # 1000000) (106 # 100) z2 = true).
Proof.
  split.
  - intros F ops self ps n k Hwf Hfit. split.
    + intros Hlen. eexists. split; [| right; reflexivity].
      apply MultiClass_set_parameters_mismatch.
      rewrite MultiClass_expected_size by exact Hfit. exact Hlen.
    + intros Hlen. eexists.
      split; [apply MultiClass_set_parameters_ok; assumption |].
      cbn [MultiClassClassifier.weights_ MultiClassClassifier.biases_].
      do 2 (split; [reflexivity |]).
      intros x Hx. split.
      * rewrite <- (MultiClass_logits_after_set self ps x) by assumption.
        rewrite MultiClass_set_parameters_ok by assumption. reflexivity.
      * intros Hk.
        rewrite <- (MultiClass_forward_after_set self ps x) by assumption.
        rewrite MultiClass_set_parameters_ok by assumption. reflexivity.
  - intros expf. do 3 eexists.
    split; [apply multiclass_example_logits_value |].
    vm_compute. auto.
Qed.

Lemma multi_class_classifier_spec_witness :
  let ops := binary32 (fun x => x) in
  let self := MultiClassClassifier.ctor (F := float) 2 3 in
  MultiClassClassifier.wf self /\ fits (3 * 2 + 3) /\
  length multiclass_example_params = 3 * 2 + 3 /\
  length multiclass_example_input = 2 /\
  exists self',
    MultiClassClassifier.set_parameters multiclass_example_params self
    = (Returns tt, self') /\
    MultiClassClassifier.forward self' multiclass_example_input
    = Returns (softmax_spec
                 (logits_spec 2 3 multiclass_example_params multiclass_example_input)).
Proof.
  intros ops self.
  assert (Hwf : MultiClassClassifier.wf self) by apply MultiClass_ctor_wf.
  assert (Hfit : fits (3 * 2 + 3)) by reflexivity.
  assert (Hlen : length multiclass_example_params = 3 * 2 + 3) by reflexivity.
  assert (Hx : length multiclass_example_input = 2) by reflexivity.
  do 4 (split; [assumption |]).
  destruct multi_class_classifier_spec as [Hspec _].
  destruct (Hspec float ops self multiclass_example_params Hwf Hfit) as [_ Hok].
  destruct (Hok Hlen) as (self' & Hset & _ & _ & Hfwd).
  destruct (Hfwd multiclass_example_input Hx) as [_ Hout].
  exists self'. split; [exact Hset |]. apply Hout. discriminate.
Defined.

(** ** The registry *)

Section RegistryProps.
Context {F : Type} {ops : FloatOps F}.

Lemma unknown_single (type_name : string) :
  UnknownModelType
    (invalid_argument ("Unknown single-parameter model type: " ++ type_name)%string).
Proof. exists "single", type_name. reflexivity. Qed.

Lemma unknown_two (type_name : string) :
  UnknownModelType
    (invalid_argument ("Unknown two-parameter model type: " ++ type_name)%string).
Proof. exists "two", type_name. reflexivity. Qed.

Lemma unknown_three (type_name : string) :
  UnknownModelType
    (invalid_argument ("Unknown three-parameter model type: " ++ type_name)%string).
Proof. exists "three", type_name. reflexivity. Qed.

(** A name outside the registered set fails in every overload. *)
Lemma create_model_unregistered (type_name : string) (shape : list nat) :
  ModelRegistry.is_registered type_name = false ->
  1 <= length shape <= 3 ->
  exists e, ModelRegistry.create_model (F := F) type_name shape = Some (Throws e) /\
            UnknownModelType e.
Proof.
  unfold ModelRegistry.is_registered. intros Hreg Hlen.
  apply orb_false_iff in Hreg. destruct Hreg as [Hreg Hmlp].
  apply orb_false_iff in Hreg. destruct Hreg as [Hreg Hmulti].
  apply orb_false_iff in Hreg. destruct Hreg as [Hlin Hlog].
  destruct shape as [| a [| b [| c [| d rest]]]]; simpl in Hlen; try lia;
    unfold ModelRegistry.create_model, ModelRegistry.create_model1,
      ModelRegistry.create_model2, ModelRegistry.create_model3;
    rewrite ?Hlin, ?Hlog, ?Hmulti, ?Hmlp;
    eexists; (split; [reflexivity |]);
    auto using unknown_single, unknown_two, unknown_three.
Qed.

(** A registered name with a number of integers that is not the one of its
    constructor fails as well. *)
Lemma create_model_wrong_arity (type_name : string) (shape : list nat) (a : nat) :
  ModelRegistry.arity type_name = Some a ->
  length shape <> a -> 1 <= length shape <= 3 ->
  exists e, ModelRegistry.create_model (F := F) type_name shape = Some (Throws e) /\
            UnknownModelType e.
Proof.
  unfold ModelRegistry.arity. intros Har Hne Hlen.
  destruct (String.eqb_spec type_name "linear") as [-> | Hlin];
    [| destruct (String.eqb_spec type_name "logistic") as [-> | Hlog];
       [| destruct (String.eqb_spec type_name "multiclass") as [-> | Hmulti];
          [| destruct (String.eqb_spec type_name "mlp") as [-> | Hmlp];
             [| discriminate]]]];
    injection Har as <-;
    destruct shape as [| x [| y [| z [| w rest]]]]; simpl in Hne, Hlen; try lia;
    eexists; (split; [reflexivity |]);
    auto using unknown_single, unknown_two, unknown_three.
Qed.

(** With the number of integers of its constructor, a registered name
    yields an object of the matching class and of the given shape. *)
Lemma create_model_registered (n k h m : nat) :
  ModelRegistry.create_model (F := F) "linear" [n]
  = Some (Returns (Linear (LinearRegression.ctor n))) /\
  ModelRegistry.create_model (F := F) "logistic" [n]
  = Some (Returns (Logistic (LogisticRegression.ctor n))) /\
  ModelRegistry.create_model (F := F) "multiclass" [n; k]
  = Some (Returns (MultiClass (MultiClassClassifier.ctor n k))) /\
  ModelRegistry.create_model (F := F) "mlp" [n; h; m]
  = Some (Returns (MLP (TwoLayerMLP.ctor n h m))).
Proof. repeat split. Qed.
End RegistryProps.

(** C7.  The factory builds the class its identifier names:
    [create_model("linear", 3)] returns a model with [input_size() == 3] and
    [output_size() == 1], and likewise for the other three identifiers.  An
    identifier outside the registered four fails with the unknown-type
    error, for instance ["bogus"]; so does a registered identifier called
    with one, two or three integers when that is not the number its
    constructor takes, for instance ["linear"] with two integers. *)
Theorem create_model_spec :
  forall (F : Type) (ops : FloatOps F),
    (exists model,
       ModelRegistry.create_model (F := F) "linear" [3] = Some (Returns model) /\
       input_size model = 3 /\ output_size model = 1 /\
       get_model_type model = "Linear Regression") /\
    (forall n k h m : nat,
       ModelRegistry.create_model (F := F) "linear" [n]
       = Some (Returns (Linear (LinearRegression.ctor n))) /\
       ModelRegistry.create_model (F := F) "logistic" [n]
       = Some (Returns (Logistic (LogisticRegression.ctor n))) /\
       ModelRegistry.create_model (F := F) "multiclass" [n; k]
       = Some (Returns (MultiClass (MultiClassClassifier.ctor n k))) /\
       ModelRegistry.create_model (F := F) "mlp" [n; h; m]
       = Some (Returns (MLP (TwoLayerMLP.ctor n h m)))) /\
    (forall (type_name : string) (shape : list nat),
       ModelRegistry.is_registered type_name = false ->
       1 <= length shape <= 3 ->
       exists e, ModelRegistry.create_model (F := F) type_name shape = Some (Throws e) /\
                 UnknownModelType e) /\
    (forall (type_name : string) (shape : list nat) (a : nat),
       ModelRegistry.arity type_name = Some a ->
       length shape <> a -> 1 <= length shape <= 3 ->
       exists e, ModelRegistry.create_model (F := F) type_name shape = Some (Throws e) /\
                 UnknownModelType e) /\
    ModelRegistry.create_model (F := F) "bogus" [2]
    = Some (Throws (invalid_argument "Unknown single-parameter model type: bogus")) /\
    ModelRegistry.create_model (F := F) "linear" [2; 3]
    = Some (Throws (invalid_argument "Unknown two-parameter model type: linear")).
Proof.
  intros F ops.
  split; [eexists; repeat split |].
  split; [exact create_model_registered |].
  split; [exact create_model_unregistered |].
  split; [exact create_model_wrong_arity |].
  split; reflexivity.
Qed.

(** ** Zero classes *)

(** C10.  Neither the constructor of the multi-class classifier nor the
    factory rejects [num_classes == 0]: the factory returns the object the
    constructor builds.  For an object with at least one class, [forward] on
    an input of length [input_size] returns, so every vector access it makes
    is inside its vector.  For an object with no class, [forward] on such an
    input computes the empty vector of logits and dereferences
    [max_element] of it, the end iterator: undefined behaviour. *)
Theorem multi_class_zero_classes :
  forall (F : Type) (ops : FloatOps F),
    (forall n : nat,
       ModelRegistry.create_model (F := F) "multiclass" [n; 0]
       = Some (Returns (MultiClass (MultiClassClassifier.ctor n 0))) /\
       MultiClassClassifier.wf (MultiClassClassifier.ctor (F := F) n 0) /\
       MultiClassClassifier.num_classes_ (MultiClassClassifier.ctor (F := F) n 0) = 0) /\
    (forall (self : MultiClassClassifier.t F) (x : list F),
       MultiClassClassifier.wf self ->
       1 <= MultiClassClassifier.num_classes_ self ->
       length x = MultiClassClassifier.input_size_ self ->
       exists out, MultiClassClassifier.forward self x = Returns out /\
                   length out = MultiClassClassifier.num_classes_ self) /\
    (forall (self : MultiClassClassifier.t F) (x : list F),
       MultiClassClassifier.wf self ->
       MultiClassClassifier.num_classes_ self = 0 ->
       length x = MultiClassClassifier.input_size_ self ->
       MultiClassClassifier.compute_logits self x = Returns [] /\
       vec_at ([] : list F) (max_element []) = Undefined /\
       MultiClassClassifier.forward self x = Undefined).
Proof.
  intros F ops. split; [| split].
  - intros n. split; [reflexivity |]. split; [apply MultiClass_ctor_wf | reflexivity].
  - intros self x Hwf Hk Hx. eexists. split.
    + apply MultiClass_forward_wf; [exact Hwf | lia | exact Hx].
    + unfold softmax_spec. rewrite !length_map, length_seq. reflexivity.
  - intros self x Hwf Hk Hx. split; [| split].
    + rewrite MultiClass_compute_logits_wf by assumption. rewrite Hk. reflexivity.
    + reflexivity.
    + apply MultiClass_forward_no_class; assumption.
Qed.

Lemma multi_class_zero_classes_witness :
  let ops := binary32 (fun x => x) in
  let one := MultiClassClassifier.ctor (F := float) 2 1 in
  let none := MultiClassClassifier.ctor (F := float) 2 0 in
  (MultiClassClassifier.wf one /\ 1 <= MultiClassClassifier.num_classes_ one /\
   length multiclass_example_input = MultiClassClassifier.input_size_ one /\
   exists out, MultiClassClassifier.forward one multiclass_example_input = Returns out) /\
  (MultiClassClassifier.wf none /\ MultiClassClassifier.num_classes_ none = 0 /\
   length multiclass_example_input = MultiClassClassifier.input_size_ none /\
   MultiClassClassifier.forward none multiclass_example_input = Undefined).
Proof.
  intros ops one none.
  destruct (multi_class_zero_classes float ops) as (_ & Hin & Hout).
  assert (Hwf1 : MultiClassClassifier.wf one) by apply MultiClass_ctor_wf.
  assert (Hwf0 : MultiClassClassifier.wf none) by apply MultiClass_ctor_wf.
  assert (Hk1 : 1 <= MultiClassClassifier.num_classes_ one) by (simpl; lia).
  assert (Hk0 : MultiClassClassifier.num_classes_ none = 0) by reflexivity.
  assert (Hx1 : length multiclass_example_input = MultiClassClassifier.input_size_ one)
    by reflexivity.
  assert (Hx0 : length multiclass_example_input = MultiClassClassifier.input_size_ none)
    by reflexivity.
  split.
  - do 3 (split; [assumption |]).
    destruct (Hin one multiclass_example_input Hwf1 Hk1 Hx1) as (out & Hfwd & _).
    exists out. exact Hfwd.
  - do 3 (split; [assumption |]).
    apply (Hout none multiclass_example_input Hwf0 Hk0 Hx0).
Defined.

(** ** The test-case loader *)

Section LoaderProps.
Context {F : Type}.
Variable stof : string -> exception + F.
Import TestDataLoader.

Lemma call_stof_defined (token : string) : call_stof stof token <> Undefined.
Proof. unfold call_stof. destruct (stof token); discriminate. Qed.

Lemma parse_float_list_defined (str : string) :
  parse_float_list stof str <> Undefined.
Proof.
  unfold parse_float_list.
  assert (Hgen : forall tokens acc,
             acc <> Undefined ->
             fold_left (fun acc token =>
                          values <- acc ;;
                          let token := trim token in
                          if negb (String.eqb token "") then
                            v <- call_stof stof token ;; Returns (values ++ [v])
                          else Returns values) tokens acc <> Undefined).
  { induction tokens as [| token tokens IH]; intros acc Hacc; simpl; [exact Hacc |].
    apply IH. destruct acc as [values | e |]; simpl; try discriminate; try congruence.
    destruct (negb (String.eqb (trim token) "")); [| discriminate].
    pose proof (call_stof_defined (trim token)) as Hs.
    destruct (call_stof stof (trim token)); simpl; congruence. }
  apply Hgen. discriminate.
Qed.

Lemma parse_line_defined (line : string) (line_number : Z) :
  parse_line stof line line_number <> Undefined.
Proof.
  unfold parse_line. destruct (index 0 "->" line) as [pos |]; [| discriminate].
  pose proof (parse_float_list_defined (trim (substring 0 pos line))) as H1.
  destruct (parse_float_list stof (trim (substring 0 pos line)));
    simpl; try congruence.
  pose proof (parse_float_list_defined
                (trim (substring (pos + 2) (String.length line - (pos + 2)) line))) as H2.
  destruct (parse_float_list stof
              (trim (substring (pos + 2) (String.length line - (pos + 2)) line)));
    simpl; congruence.
Qed.

(** A line without ["->"] is malformed, whatever else it holds. *)
Lemma parse_line_no_arrow (line : string) (line_number : Z) :
  index 0 "->" line = None ->
  parse_line stof line line_number = Throws (runtime_error "Missing '->' separator").
Proof. unfold parse_line. intros ->. reflexivity. Qed.

(** A line with ["->"] is split at its first occurrence. *)
Lemma parse_line_arrow (line : string) (line_number : Z) (pos : nat)
    (ins outs : list F) :
  index 0 "->" line = Some pos ->
  parse_float_list stof (trim (substring 0 pos line)) = Returns ins ->
  parse_float_list stof
    (trim (substring (pos + 2) (String.length line - (pos + 2)) line)) = Returns outs ->
  parse_line stof line line_number
  = Returns {| input := ins; expected_output := outs;
               description := ("Line " ++ to_string_int line_number)%string |}.
Proof. unfold parse_line. intros -> -> ->. reflexivity. Qed.

(** The loop treats every line on its own. *)
Lemma load_lines (filename : string) (lines : list string) (acc : loaded F)
    (line_number : Z) :
  (line_number + Z.of_nat (length lines) <= INT_MAX)%Z ->
  fold_left (fun st line => st <- st ;; load_line stof filename st line)
    lines (Returns (acc, line_number))
  = Returns ({| test_cases := test_cases acc ++ cases_from stof line_number lines;
                cerr := cerr acc ++ reports_from stof filename line_number lines;
                cout := cout acc |},
             (line_number + Z.of_nat (length lines))%Z).
Proof.
  revert acc line_number.
  induction lines as [| line rest IH]; intros acc line_number Hmax.
  - simpl. rewrite !app_nil_r, Z.add_0_r. destruct acc; reflexivity.
  - cbn [fold_left bind load_line cases_from reports_from].
    cbn [length] in Hmax. rewrite Nat2Z.inj_succ in Hmax.
    destruct (INT_MAX <=? line_number)%Z eqn:Emax; [apply Z.leb_le in Emax; lia |].
    fold (skipped line).
    replace (line_number + Z.of_nat (length (line :: rest)))%Z
      with (line_number + 1 + Z.of_nat (length rest))%Z
      by (cbn [length]; lia).
    destruct (skipped line).
    + rewrite IH by lia. reflexivity.
    + pose proof (parse_line_defined line (line_number + 1)) as Hdef.
      destruct (parse_line stof line (line_number + 1)) as [tc | e |];
        [| | congruence]; rewrite IH by lia; cbn [test_cases cerr cout];
        rewrite <- ?app_assoc; reflexivity.
Qed.

Lemma load_from_file_lines (filename : string) (lines : list string) :
  (Z.of_nat (length lines) <= INT_MAX)%Z ->
  exists r,
    load_from_file stof filename (Some lines) = Returns r /\
    test_cases r = cases_from stof 0 lines /\
    cerr r = reports_from stof filename 0 lines.
Proof.
  intros Hmax. unfold load_from_file.
  rewrite load_lines by lia. cbn [bind test_cases cerr cout].
  eexists. split; [reflexivity |]. split; reflexivity.
Qed.

Lemma cases_from_app (line_number : Z) (before after : list string) :
  cases_from stof line_number (before ++ after)
  = cases_from stof line_number before
    ++ cases_from stof (line_number + Z.of_nat (length before)) after.
Proof.
  revert line_number. induction before as [| line rest IH]; intros line_number.
  - simpl. rewrite Z.add_0_r. reflexivity.
  - cbn [app cases_from length]. rewrite IH, <- app_assoc.
    rewrite Nat2Z.inj_succ. do 3 f_equal. lia.
Qed.

(** A line that is not skipped and parses is loaded, whatever the lines
    before it hold. *)
Lemma well_formed_line_loaded (before after : list string) (line : string)
    (test_case : TestCase F) :
  skipped line = false ->
  parse_line stof line (Z.of_nat (length before) + 1) = Returns test_case ->
  exists loaded_before loaded_after,
    cases_from stof 0 (before ++ line :: after)
    = loaded_before ++ test_case :: loaded_after.
Proof.
  intros Hskip Hparse. rewrite cases_from_app.
  cbn [cases_from]. rewrite Hskip.
  replace (0 + Z.of_nat (length before) + 1)%Z with (Z.of_nat (length before) + 1)%Z by lia.
  rewrite Hparse. do 2 eexists. reflexivity.
Qed.
End LoaderProps.

(** ** The loader of the unit tests *)

Section HarnessProps.
Context {F : Type}.
Variable stof : string -> exception + F.
Import TestHarness.

Lemma parse_values_defined (str : string) : parse_values stof str <> Undefined.
Proof.
  unfold parse_values.
  assert (Hgen : forall tokens acc,
             acc <> Undefined ->
             fold_left (fun acc value =>
                          values <- acc ;;
                          v <- TestDataLoader.call_stof stof value ;;
                          Returns (values ++ [v])) tokens acc <> Undefined).
  { induction tokens as [| token tokens IH]; intros acc Hacc; simpl; [exact Hacc |].
    apply IH. destruct acc as [values | e |]; simpl; try discriminate; try congruence.
    pose proof (call_stof_defined stof token) as Hs.
    destruct (TestDataLoader.call_stof stof token); simpl; congruence. }
  apply Hgen. discriminate.
Qed.

Lemma parse_fields_defined (line : string) (line_number : Z) (pipe1 pipe2 : nat) :
  parse_fields stof line line_number pipe1 pipe2 <> Undefined.
Proof.
  unfold parse_fields.
  pose proof (parse_values_defined (substring 0 pipe1 line)) as H1.
  destruct (parse_values stof (substring 0 pipe1 line)); simpl; try congruence.
  pose proof (parse_values_defined
                (substring (pipe1 + 3) (pipe2 - pipe1 - 3) line)) as H2.
  destruct (parse_values stof (substring (pipe1 + 3) (pipe2 - pipe1 - 3) line));
    simpl; try congruence.
  pose proof (parse_values_defined
                (substring (pipe2 + 3) (String.length line - (pipe2 + 3)) line)) as H3.
  destruct (parse_values stof
              (substring (pipe2 + 3) (String.length line - (pipe2 + 3)) line));
    simpl; congruence.
Qed.

Lemma harness_load_lines (lines : list string) (acc : loaded F) (line_number : Z) :
  (line_number + Z.of_nat (length lines) <= INT_MAX)%Z ->
  fold_left (fun st line => st <- st ;; load_line stof st line)
    lines (Returns (acc, line_number))
  = Returns ({| cases := cases acc ++ cases_from stof line_number lines;
                cout := cout acc ++ reports_from stof line_number lines |},
             (line_number + Z.of_nat (length lines))%Z).
Proof.
  revert acc line_number.
  induction lines as [| line rest IH]; intros acc line_number Hmax.
  - simpl. rewrite !app_nil_r, Z.add_0_r. destruct acc; reflexivity.
  - cbn [fold_left bind load_line cases_from reports_from].
    cbn [length] in Hmax. rewrite Nat2Z.inj_succ in Hmax.
    destruct (INT_MAX <=? line_number)%Z eqn:Emax; [apply Z.leb_le in Emax; lia |].
    replace (line_number + Z.of_nat (length (line :: rest)))%Z
      with (line_number + 1 + Z.of_nat (length rest))%Z
      by (cbn [length]; lia).
    destruct (TestDataLoader.skipped line); [rewrite IH by lia; reflexivity |].
    destruct (find_pipes line) as [[pipe1 |] [pipe2 |]];
      try (rewrite IH by lia; reflexivity).
    pose proof (parse_fields_defined line (line_number + 1) pipe1 pipe2) as Hdef.
    destruct (parse_fields stof line (line_number + 1) pipe1 pipe2) as [tc | e |];
      [| | congruence]; rewrite IH by lia; cbn [cases cout];
      rewrite <- ?app_assoc; reflexivity.
Qed.

Lemma load_test_cases_lines (filename : string) (lines : list string) :
  (Z.of_nat (length lines) <= INT_MAX)%Z ->
  exists r,
    load_test_cases stof filename (Some lines) = Returns r /\
    cases r = cases_from stof 0 lines /\
    cout r = reports_from stof 0 lines ++
             [("Loaded " ++ to_string (length (cases_from stof 0 lines)) ++
               " test cases from " ++ filename)%string].
Proof.
  intros Hmax. unfold load_test_cases.
  rewrite harness_load_lines by lia. cbn [bind cases cout].
  eexists. split; [reflexivity |]. split; reflexivity.
Qed.

(** A line in which [" | "] does not occur twice contributes nothing, not
    even a report. *)
Lemma harness_skips_silently (line : string) (line_number : Z) :
  (fst (find_pipes line) = None \/ snd (find_pipes line) = None) ->
  cases_from stof line_number [line] = [] /\
  reports_from stof line_number [line] = [].
Proof.
  intros H. cbn [cases_from reports_from].
  destruct (TestDataLoader.skipped line); [split; reflexivity |].
  destruct (find_pipes line) as [[pipe1 |] [pipe2 |]]; simpl in H;
    try (split; reflexivity).
  destruct H; discriminate.
Qed.
End HarnessProps.

(** C9, as stated, fails on the three-field form: [TestDataLoader] finds no
    ["->"] in such a line, reports it as malformed and loads nothing from
    it. *)
Lemma three_field_line_rejected :
  exists r,
    TestDataLoader.load_from_file stof_decimal "cases.txt" (Some [three_field_line])
    = Returns r /\
    TestDataLoader.test_cases r = [] /\
    TestDataLoader.cerr r
    = ["Error parsing line 1 in cases.txt: Missing '->' separator"].
Proof. eexists. split; [vm_compute; reflexivity |]. split; reflexivity. Qed.

(** C9, amended.  [TestDataLoader] reads the two-field form: a line is split
    at its first ["->"] into the input and the expected output, two
    comma-separated lists of numbers.  A line without ["->"], a three-field
    line among them, is malformed.  A line that is empty or begins with
    ['#'] is skipped without a report.  Every other line is either loaded or
    reported on [std::cerr] with its number, on its own: a malformed line
    does not stop the loading, and a line that parses is loaded whatever the
    lines before it hold.  The three-field form is read by the other loader
    of the repository, [load_test_cases] of the unit tests, which treats
    every line on its own as well and loads from the example file the
    three-field line only.  The file has at most [INT_MAX] lines. *)
Theorem test_data_loader_spec :
  (forall (F : Type) (stof : string -> exception + F) (filename : string),
    (forall line line_number,
       index 0 "->" line = None ->
       TestDataLoader.parse_line stof line line_number
       = Throws (runtime_error "Missing '->' separator")) /\
    (forall line line_number pos ins outs,
       index 0 "->" line = Some pos ->
       TestDataLoader.parse_float_list stof
         (TestDataLoader.trim (substring 0 pos line)) = Returns ins ->
       TestDataLoader.parse_float_list stof
         (TestDataLoader.trim
            (substring (pos + 2) (String.length line - (pos + 2)) line))
       = Returns outs ->
       TestDataLoader.parse_line stof line line_number
       = Returns {| TestDataLoader.input := ins;
                    TestDataLoader.expected_output := outs;
                    TestDataLoader.description :=
                      ("Line " ++ to_string_int line_number)%string |}) /\
    (forall lines,
       (Z.of_nat (length lines) <= INT_MAX)%Z ->
       exists r,
         TestDataLoader.load_from_file stof filename (Some lines) = Returns r /\
         TestDataLoader.test_cases r = TestDataLoader.cases_from stof 0 lines /\
         TestDataLoader.cerr r = TestDataLoader.reports_from stof filename 0 lines) /\
    (forall before after line test_case,
       TestDataLoader.skipped line = false ->
       TestDataLoader.parse_line stof line (Z.of_nat (length before) + 1)
       = Returns test_case ->
       exists loaded_before loaded_after,
         TestDataLoader.cases_from stof 0 (before ++ line :: after)
         = loaded_before ++ test_case :: loaded_after)) /\
  (exists r,
     TestDataLoader.load_from_file stof_decimal "cases.txt" (Some loader_example_lines)
     = Returns r /\
     TestDataLoader.test_cases r
     = [ {| TestDataLoader.input := floats [(1, 1); (2, 1); (-5, 10)]%Z;
            TestDataLoader.expected_output := floats [(11, 10)]%Z;
            TestDataLoader.description := "Line 3" |};
         {| TestDataLoader.input := floats [(5, 10); (25, 100)]%Z;
            TestDataLoader.expected_output := floats [(2, 1)]%Z;
            TestDataLoader.description := "Line 6" |} ] /\
     TestDataLoader.cerr r
     = ["Error parsing line 4 in cases.txt: Missing '->' separator";
        "Error parsing line 5 in cases.txt: stof"]) /\
  (forall (F : Type) (stof : string -> exception + F) (filename : string)
          (lines : list string),
     (Z.of_nat (length lines) <= INT_MAX)%Z ->
     exists r,
       TestHarness.load_test_cases stof filename (Some lines) = Returns r /\
       TestHarness.cases r = TestHarness.cases_from stof 0 lines /\
       TestHarness.cout r
       = TestHarness.reports_from stof 0 lines ++
         [("Loaded " ++ to_string (length (TestHarness.cases_from stof 0 lines)) ++
           " test cases from " ++ filename)%string]) /\
  (exists r,
     TestHarness.load_test_cases stof_decimal "cases.txt" (Some loader_example_lines)
     = Returns r /\
     TestHarness.cases r
     = [ {| TestHarness.input := floats [(1, 1); (2, 1); (-5, 10)]%Z;
            TestHarness.parameters := linear_example_params;
            TestHarness.expected_output := floats [(11, 10)]%Z;
            TestHarness.description := "Line 4" |} ] /\
     TestHarness.cout r = ["Loaded 1 test cases from cases.txt"]).
Proof.
  split; [| split; [| split]].
  - intros F stof filename.
    split; [apply parse_line_no_arrow |].
    split; [apply parse_line_arrow |].
    split; [apply load_from_file_lines |].
    apply well_formed_line_loaded.
  - eexists. split; [vm_compute; reflexivity |]. split; reflexivity.
  - intros F stof filename lines. apply load_test_cases_lines.
  - eexists. split; [vm_compute; reflexivity |]. split; reflexivity.
Qed.

Lemma test_data_loader_spec_witness :
  let lines := loader_example_lines in
  (Z.of_nat (length lines) <= INT_MAX)%Z /\
  index 0 "->" three_field_line = None /\
  (exists r,
     TestDataLoader.load_from_file stof_decimal "cases.txt" (Some lines) = Returns r /\
     TestDataLoader.test_cases r = TestDataLoader.cases_from stof_decimal 0 lines) /\
  TestDataLoader.parse_line stof_decimal three_field_line 4
  = Throws (runtime_error "Missing '->' separator").
Proof.
  intros lines.
  assert (Hmax : (Z.of_nat (length lines) <= INT_MAX)%Z) by (vm_compute; discriminate).
  assert (Hno : index 0 "->" three_field_line = None) by reflexivity.
  destruct test_data_loader_spec as [Hspec _].
  destruct (Hspec float stof_decimal "cases.txt") as (Hbad & _ & Hload & _).
  split; [exact Hmax |]. split; [exact Hno |]. split.
  - destruct (Hload lines Hmax) as (r & Hr & Hcases & _).
    exists r. split; assumption.
  - apply Hbad, Hno.
Defined.

(** ** Freshly constructed models *)

Lemma nth_repeat_inside {A : Type} (x d : A) (n i : nat) :
  i < n -> nth i (repeat x n) d = x.
Proof.
  revert i. induction n as [| n IH]; intros [| i] H; simpl; try lia; auto.
  apply IH. lia.
Qed.

Lemma map_const_seq {A : Type} (x : A) (start n : nat) :
  map (fun _ => x) (seq start n) = repeat x n.
Proof.
  revert start. induction n as [| n IH]; intros start; simpl; [reflexivity |].
  f_equal. apply IH.
Qed.

Section SumInvariant.
Context {F : Type} {ops : FloatOps F}.

(** A property the initial value has and every addition keeps holds of the
    sum. *)
Lemma sum_from_invariant (P : F -> Prop) (init : F) (n : nat) (term : nat -> F) :
  P init ->
  (forall acc i, i < n -> P acc -> P (fadd acc (term i))) ->
  P (sum_from init n term).
Proof.
  unfold sum_from. intros Hinit Hstep.
  assert (Hgen : forall l acc, (forall i, In i l -> i < n) -> P acc ->
                               P (fold_left (fun acc i => fadd acc (term i)) l acc)).
  { induction l as [| i l IH]; intros acc Hl Hacc; simpl; [exact Hacc |].
    apply IH; [intros j Hj; apply Hl; right; exact Hj |].
    apply Hstep; [apply Hl; left; reflexivity | exact Hacc]. }
  apply Hgen; [| exact Hinit].
  intros i Hi. apply in_seq in Hi. lia.
Qed.
End SumInvariant.

(** *** Binary32 facts about zero *)

Lemma b32_add_zero_mul_zero (x : float) :
  b32_finite x = true ->
  SFadd prec32 emax32 b32_zero (SFmul prec32 emax32 b32_zero x) = b32_zero.
Proof.
  destruct x as [s | s | | s m e]; try discriminate; intros _; destruct s; reflexivity.
Qed.

(** With a zero weight the accumulator stays [+0] or becomes NaN, whatever
    the input. *)
Lemma b32_zero_or_nan_step (acc x : float) :
  acc = b32_zero \/ acc = b32_nan ->
  SFadd prec32 emax32 acc (SFmul prec32 emax32 b32_zero x) = b32_zero \/
  SFadd prec32 emax32 acc (SFmul prec32 emax32 b32_zero x) = b32_nan.
Proof.
  intros [-> | ->]; destruct x as [s | s | | s m e]; try destruct s; simpl; auto.
Qed.

Lemma b32_relu_zero_or_nan (expf : float -> float) (acc : float) :
  acc = b32_zero \/ acc = b32_nan ->
  std_max (ops := binary32 expf) b32_zero acc = b32_zero.
Proof. intros [-> | ->]; reflexivity. Qed.

Section FreshBinary32.
Variable expf : float -> float.
Let ops : FloatOps float := binary32 expf.
Existing Instance ops.

Lemma b32_zero_weight_sum (n : nat) (w : nat -> float) (x : list float) :
  length x = n -> all_finite x ->
  (forall i, i < n -> w i = b32_zero) ->
  sum_from b32_zero n (fun i => fmul (w i) (nth i x f0)) = b32_zero.
Proof.
  intros Hx Hfin Hw.
  apply (sum_from_invariant (fun acc => acc = b32_zero)); [reflexivity |].
  intros acc i Hi ->. rewrite Hw by exact Hi.
  apply b32_add_zero_mul_zero.
  unfold all_finite in Hfin. rewrite Forall_forall in Hfin.
  apply Hfin, nth_In. lia.
Qed.

Lemma b32_zero_weight_sum_any (n : nat) (w : nat -> float) (x : list float) :
  (forall i, i < n -> w i = b32_zero) ->
  let s := sum_from b32_zero n (fun i => fmul (w i) (nth i x f0)) in
  s = b32_zero \/ s = b32_nan.
Proof.
  intros Hw.
  apply (sum_from_invariant (fun acc => acc = b32_zero \/ acc = b32_nan));
    [left; reflexivity |].
  intros acc i Hi Hacc. rewrite Hw by exact Hi.
  apply b32_zero_or_nan_step, Hacc.
Qed.

Lemma fresh_linear_forward (n : nat) (x : list float) :
  length x = n -> all_finite x ->
  LinearRegression.forward (LinearRegression.ctor n) x = Returns [b32_zero].
Proof.
  intros Hx Hfin.
  rewrite Linear_forward_wf by (try apply Linear_ctor_wf; exact Hx).
  cbn [LinearRegression.ctor LinearRegression.bias_ LinearRegression.weights_
       LinearRegression.input_size_].
  do 2 f_equal.
  apply (b32_zero_weight_sum n (fun i => nth i (vec_make n f0) f0)); try assumption.
  intros i Hi. apply nth_repeat_default.
Qed.

Lemma fresh_logistic_forward (n : nat) (x : list float) :
  expf (S754_zero true) = b32_one ->
  length x = n -> all_finite x ->
  LogisticRegression.forward (LogisticRegression.ctor n) x = Returns [b32_lit 1 2].
Proof.
  intros Hexp Hx Hfin.
  rewrite Logistic_forward_wf by (try apply Logistic_ctor_wf; exact Hx).
  cbn [LogisticRegression.ctor LogisticRegression.bias_ LogisticRegression.weights_
       LogisticRegression.input_size_].
  rewrite (b32_zero_weight_sum n (fun i => nth i (vec_make n f0) f0));
    try assumption.
  - unfold sigmoid. cbn [fneg fexp ops binary32 SFopp b32_zero negb].
    rewrite Hexp. reflexivity.
  - intros i Hi. apply nth_repeat_default.
Qed.
End FreshBinary32.

Section FreshBinary32More.
Variable expf : float -> float.
Let ops : FloatOps float := binary32 expf.
Existing Instance ops.

Lemma all_finite_zeros (n : nat) : all_finite (repeat b32_zero n).
Proof.
  apply Forall_forall. intros x Hx. apply repeat_spec in Hx. subst x. reflexivity.
Qed.

Lemma max_element_zeros (k : nat) : max_element (repeat b32_zero k) = 0.
Proof.
  destruct k as [| k]; [reflexivity |]. simpl.
  generalize 1. induction k as [| k IH]; intros first; simpl; [reflexivity | apply IH].
Qed.

Lemma softmax_spec_zeros (k : nat) :
  expf b32_zero = b32_one ->
  softmax_spec (repeat b32_zero k) = repeat (fdiv f1 (count_of_ones k)) k.
Proof.
  intros Hexp. unfold softmax_spec.
  rewrite max_element_zeros.
  assert (Hmax : nth 0 (repeat b32_zero k) f0 = b32_zero) by apply nth_repeat_default.
  rewrite Hmax, map_repeat.
  cbn [fsub fexp ops binary32]. 
  replace (SFsub prec32 emax32 b32_zero b32_zero) with b32_zero by reflexivity.
  rewrite Hexp, map_repeat. reflexivity.
Qed.

Lemma fresh_multiclass_logits (n k : nat) (x : list float) :
  length x = n -> all_finite x ->
  map (MultiClassClassifier.stored_logit (MultiClassClassifier.ctor n k) x) (seq 0 k)
  = repeat b32_zero k.
Proof.
  intros Hx Hfin. rewrite <- (map_const_seq b32_zero 0 k).
  apply map_ext_in. intros c Hc. apply in_seq in Hc.
  unfold MultiClassClassifier.stored_logit.
  cbn [MultiClassClassifier.ctor MultiClassClassifier.biases_
       MultiClassClassifier.weights_ MultiClassClassifier.input_size_].
  unfold vec_make. rewrite nth_repeat_default.
  apply (b32_zero_weight_sum expf n
           (fun i => nth i (nth c (repeat (repeat f0 n) k) []) f0)); try assumption.
  intros i Hi. rewrite nth_repeat_inside by lia. apply nth_repeat_default.
Qed.

Lemma fresh_multiclass_forward (n k : nat) (x : list float) :
  expf b32_zero = b32_one ->
  1 <= k -> length x = n -> all_finite x ->
  MultiClassClassifier.forward (MultiClassClassifier.ctor n k) x
  = Returns (repeat (fdiv f1 (count_of_ones k)) k).
Proof.
  intros Hexp Hk Hx Hfin.
  rewrite MultiClass_forward_wf
    by (try apply MultiClass_ctor_wf; try exact Hx; simpl; lia).
  cbn [MultiClassClassifier.ctor MultiClassClassifier.num_classes_].
  change (MultiClassClassifier.stored_logit _ x)
    with (MultiClassClassifier.stored_logit (MultiClassClassifier.ctor n k) x).
  rewrite fresh_multiclass_logits by assumption.
  rewrite softmax_spec_zeros by exact Hexp. reflexivity.
Qed.

Lemma fresh_mlp_hidden (n h m : nat) (x : list float) :
  TwoLayerMLP.stored_hidden (TwoLayerMLP.ctor n h m) x = repeat b32_zero h.
Proof.
  unfold TwoLayerMLP.stored_hidden.
  cbn [TwoLayerMLP.ctor TwoLayerMLP.b1_ TwoLayerMLP.W1_ TwoLayerMLP.input_size_
       TwoLayerMLP.hidden_size_].
  rewrite <- (map_const_seq b32_zero 0 h).
  apply map_ext_in. intros j Hj.
  unfold vec_make. rewrite nth_repeat_default.
  apply b32_relu_zero_or_nan.
  apply (b32_zero_weight_sum_any expf n
           (fun i => nth (i * h + j) (repeat f0 (size_mul n h)) f0)).
  intros i Hi. apply nth_repeat_default.
Qed.

Lemma fresh_mlp_output (n h m : nat) :
  TwoLayerMLP.stored_output (TwoLayerMLP.ctor n h m) (repeat b32_zero h)
  = repeat b32_zero m.
Proof.
  unfold TwoLayerMLP.stored_output.
  cbn [TwoLayerMLP.ctor TwoLayerMLP.b2_ TwoLayerMLP.W2_ TwoLayerMLP.output_size_
       TwoLayerMLP.hidden_size_].
  rewrite <- (map_const_seq b32_zero 0 m).
  apply map_ext_in. intros o Ho.
  unfold vec_make. rewrite nth_repeat_default.
  apply (b32_zero_weight_sum expf h
           (fun j => nth (j * m + o) (repeat f0 (size_mul h m)) f0)).
  - apply repeat_length.
  - apply all_finite_zeros.
  - intros j Hj. apply nth_repeat_default.
Qed.

Lemma fresh_mlp_forward (n h m : nat) (x : list float) :
  fits (n * h) -> fits (h * m) -> length x = n ->
  TwoLayerMLP.forward (TwoLayerMLP.ctor n h m) x = Returns (repeat b32_zero m).
Proof.
  intros Hf1 Hf2 Hx.
  rewrite MLP_forward_wf by (try apply MLP_ctor_wf; assumption).
  rewrite fresh_mlp_hidden, fresh_mlp_output. reflexivity.
Qed.
End FreshBinary32More.

Lemma b32_eqb_eq (x y : float) : b32_eqb x y = true -> x = y.
Proof.
  destruct x as [s | s | | s m e], y as [s' | s' | | s' m' e']; simpl;
    try discriminate; intros H; try reflexivity.
  - apply Bool.eqb_prop in H. congruence.
  - apply Bool.eqb_prop in H. congruence.
  - apply andb_true_iff in H. destruct H as [H He].
    apply andb_true_iff in H. destruct H as [Hs Hm].
    apply Bool.eqb_prop in Hs. apply Pos.eqb_eq in Hm. apply Z.eqb_eq in He.
    congruence.
Qed.

(** Up to 256 classes the accumulated count is the number of classes, so
    the quotient is the float nearest to [1/k]. *)
Lemma b32_uniform_entry_small (k : nat) :
  k <= 256 -> b32_uniform_entry k = b32_lit 1 (Z.of_nat k).
Proof.
  intros Hk.
  assert (Hall : forallb (fun k => b32_eqb (b32_uniform_entry k)
                                           (b32_lit 1 (Z.of_nat k)))
                         (seq 0 257) = true) by (vm_compute; reflexivity).
  rewrite forallb_forall in Hall.
  apply b32_eqb_eq, Hall, in_seq. lia.
Qed.

(** *** A fresh model is a model loaded with zeros *)

Lemma chunk_repeat {A : Type} (x : A) (off n total : nat) :
  off + n <= total -> firstn n (skipn off (repeat x total)) = repeat x n.
Proof.
  intros H. apply (nth_ext _ _ x x).
  - rewrite length_chunk by (rewrite repeat_length; lia).
    symmetry. apply repeat_length.
  - intros i Hi. rewrite length_chunk in Hi by (rewrite repeat_length; lia).
    rewrite nth_chunk by exact Hi. rewrite !nth_repeat_default. reflexivity.
Qed.

Lemma firstn_repeat_le {A : Type} (x : A) (n total : nat) :
  n <= total -> firstn n (repeat x total) = repeat x n.
Proof. intros H. apply (chunk_repeat x 0 n total). lia. Qed.

Lemma rows_of_repeat {A : Type} (x : A) (n k total : nat) :
  k * n <= total -> rows_of n k (repeat x total) = repeat (repeat x n) k.
Proof.
  intros H. unfold rows_of. rewrite <- (map_const_seq (repeat x n) 0 k).
  apply map_ext_in. intros c Hc. apply in_seq in Hc.
  apply chunk_repeat. assert (c * n + n <= k * n) by nia. lia.
Qed.

Section FreshIsZero.
Context {F : Type} {ops : FloatOps F}.

Lemma fresh_linear_is_zero (n : nat) :
  fits (n + 1) ->
  LinearRegression.set_parameters (repeat f0 (n + 1)) (LinearRegression.ctor n)
  = (Returns tt, LinearRegression.ctor n).
Proof.
  intros Hfit.
  rewrite Linear_set_parameters_ok;
    [| apply Linear_ctor_wf | exact Hfit | apply repeat_length].
  cbn [LinearRegression.ctor LinearRegression.input_size_].
  rewrite firstn_repeat_le, nth_repeat_default by lia. reflexivity.
Qed.

Lemma fresh_logistic_is_zero (n : nat) :
  fits (n + 1) ->
  LogisticRegression.set_parameters (repeat f0 (n + 1)) (LogisticRegression.ctor n)
  = (Returns tt, LogisticRegression.ctor n).
Proof.
  intros Hfit.
  rewrite Logistic_set_parameters_ok;
    [| apply Logistic_ctor_wf | exact Hfit | apply repeat_length].
  cbn [LogisticRegression.ctor LogisticRegression.input_size_].
  rewrite firstn_repeat_le, nth_repeat_default by lia. reflexivity.
Qed.

Lemma fresh_multiclass_is_zero (n k : nat) :
  fits (k * n + k) ->
  MultiClassClassifier.set_parameters (repeat f0 (k * n + k))
    (MultiClassClassifier.ctor n k)
  = (Returns tt, MultiClassClassifier.ctor n k).
Proof.
  intros Hfit.
  rewrite MultiClass_set_parameters_ok;
    [| apply MultiClass_ctor_wf | exact Hfit | apply repeat_length].
  cbn [MultiClassClassifier.ctor MultiClassClassifier.input_size_
       MultiClassClassifier.num_classes_].
  rewrite rows_of_repeat, chunk_repeat by lia. reflexivity.
Qed.

Lemma fresh_mlp_is_zero (n h m : nat) :
  fits (n * h + h + h * m + m) ->
  TwoLayerMLP.set_parameters (repeat f0 (n * h + h + h * m + m))
    (TwoLayerMLP.ctor n h m)
  = (Returns tt, TwoLayerMLP.ctor n h m).
Proof.
  intros Hfit.
  assert (Hf1 : fits (n * h)) by (eapply fits_le; [| exact Hfit]; lia).
  assert (Hf2 : fits (h * m)) by (eapply fits_le; [| exact Hfit]; lia).
  rewrite MLP_set_parameters_ok;
    [| apply MLP_ctor_wf; assumption | exact Hfit | apply repeat_length].
  unfold TwoLayerMLP.ctor, vec_make.
  cbn [TwoLayerMLP.input_size_ TwoLayerMLP.hidden_size_ TwoLayerMLP.output_size_].
  rewrite firstn_repeat_le, !chunk_repeat by lia.
  rewrite !size_mul_small by assumption. reflexivity.
Qed.
End FreshIsZero.

(** C6, as stated, fails on inputs that are not finite: a fresh linear
    regressor returns NaN on the input [NaN] and on the input [+inf], for
    every [std::exp]. *)
Lemma fresh_linear_not_zero :
  exists out_nan out_inf : list float,
    (forall expf : float -> float,
       let ops := binary32 expf in
       LinearRegression.forward (LinearRegression.ctor 1) [b32_nan]
       = Returns out_nan) /\
    (forall expf : float -> float,
       let ops := binary32 expf in
       LinearRegression.forward (LinearRegression.ctor 1) [b32_inf]
       = Returns out_inf) /\
    out_nan = [b32_nan] /\ out_inf = [b32_nan].
Proof.
  exists [b32_nan], [b32_nan]. repeat split.
Qed.

(** C6, amended.  For every arithmetic, loading a freshly constructed
    model with zeros leaves it as it was constructed: a fresh model is the
    model whose parameters are all zero, on every input.  In binary32, with
    a [std::exp] that is one at both zeros, a freshly constructed model on
    an input of the right length returns: the linear regressor [0] and the
    logistic regressor [0.5], when the entries of the input are finite; the
    multi-class classifier with [k >= 1] classes, when the entries of the
    input are finite, [k] equal entries [1/s], where [s] is the sum of [k]
    ones as the loop accumulates it (for [k <= 256], [s] is [k] and the
    entry is the float nearest to [1/k]); the perceptron all zeros, for
    every input.  The shapes are those whose parameter count a [size_t]
    holds. *)
Theorem fresh_model_outputs :
  (forall (F : Type) (ops : FloatOps F),
     (forall n, fits (n + 1) ->
        LinearRegression.set_parameters (repeat f0 (n + 1))
          (LinearRegression.ctor n)
        = (Returns tt, LinearRegression.ctor n)) /\
     (forall n, fits (n + 1) ->
        LogisticRegression.set_parameters (repeat f0 (n + 1))
          (LogisticRegression.ctor n)
        = (Returns tt, LogisticRegression.ctor n)) /\
     (forall n k, fits (k * n + k) ->
        MultiClassClassifier.set_parameters (repeat f0 (k * n + k))
          (MultiClassClassifier.ctor n k)
        = (Returns tt, MultiClassClassifier.ctor n k)) /\
     (forall n h m, fits (n * h + h + h * m + m) ->
        TwoLayerMLP.set_parameters (repeat f0 (n * h + h + h * m + m))
          (TwoLayerMLP.ctor n h m)
        = (Returns tt, TwoLayerMLP.ctor n h m))) /\
  (forall expf : float -> float,
     let ops := binary32 expf in
     expf (S754_zero false) = b32_one ->
     expf (S754_zero true) = b32_one ->
     (forall n x, length x = n -> all_finite x ->
        LinearRegression.forward (LinearRegression.ctor n) x = Returns [b32_zero]) /\
     (forall n x, length x = n -> all_finite x ->
        LogisticRegression.forward (LogisticRegression.ctor n) x
        = Returns [b32_lit 1 2]) /\
     (forall n k x, 1 <= k -> length x = n -> all_finite x ->
        MultiClassClassifier.forward (MultiClassClassifier.ctor n k) x
        = Returns (repeat (b32_uniform_entry k) k)) /\
     (forall k, 1 <= k <= 256 -> b32_uniform_entry k = b32_lit 1 (Z.of_nat k)) /\
     (forall n h m x, fits (n * h) -> fits (h * m) -> length x = n ->
        TwoLayerMLP.forward (TwoLayerMLP.ctor n h m) x = Returns (repeat b32_zero m))).
Proof.
  split.
  - intros F ops.
    split; [intros; apply fresh_linear_is_zero; assumption |].
    split; [intros; apply fresh_logistic_is_zero; assumption |].
    split; [intros; apply fresh_multiclass_is_zero; assumption |].
    intros; apply fresh_mlp_is_zero; assumption.
  - intros expf ops Hpos Hneg.
    split; [intros; apply fresh_linear_forward; assumption |].
    split; [intros; apply fresh_logistic_forward; assumption |].
    split; [intros; apply fresh_multiclass_forward; assumption |].
    split; [intros; apply b32_uniform_entry_small; lia |].
    intros; apply fresh_mlp_forward; assumption.
Qed.

Lemma fresh_model_outputs_witness :
  let ops := binary32 exp_reference in
  let x := multiclass_example_input in
  exp_reference (S754_zero false) = b32_one /\
  exp_reference (S754_zero true) = b32_one /\
  length x = 2 /\ all_finite x /\ fits (2 * 3) /\ fits (3 * 2) /\
  fits (2 * 3 + 3 + 3 * 2 + 2) /\
  TwoLayerMLP.set_parameters (repeat b32_zero (2 * 3 + 3 + 3 * 2 + 2))
    (TwoLayerMLP.ctor 2 3 2)
  = (Returns tt, TwoLayerMLP.ctor 2 3 2) /\
  LinearRegression.forward (LinearRegression.ctor 2) x = Returns [b32_zero] /\
  LogisticRegression.forward (LogisticRegression.ctor 2) x = Returns [b32_lit 1 2] /\
  MultiClassClassifier.forward (MultiClassClassifier.ctor 2 3) x
  = Returns (repeat (b32_lit 1 3) 3) /\
  TwoLayerMLP.forward (TwoLayerMLP.ctor 2 3 2) x = Returns [b32_zero; b32_zero].
Proof.
  intros ops x.
  assert (Hpos : exp_reference (S754_zero false) = b32_one) by reflexivity.
  assert (Hneg : exp_reference (S754_zero true) = b32_one) by reflexivity.
  assert (Hx : length x = 2) by reflexivity.
  assert (Hfin : all_finite x) by (repeat constructor).
  assert (Hf1 : fits (2 * 3)) by reflexivity.
  assert (Hf2 : fits (3 * 2)) by reflexivity.
  assert (Hf3 : fits (2 * 3 + 3 + 3 * 2 + 2)) by reflexivity.
  destruct fresh_model_outputs as [Hzero Hfresh].
  destruct (Hzero float ops) as (_ & _ & _ & Hload).
  destruct (Hfresh exp_reference Hpos Hneg)
    as (Hlin & Hlog & Hmc & Hcount & Hmlp).
  do 7 (split; [assumption |]).
  split; [apply (Hload 2 3 2); assumption |].
  split; [apply Hlin; assumption |].
  split; [apply Hlog; assumption |].
  split.
  - assert (Hk : 1 <= 3) by lia.
    pose proof (Hmc 2 3 x Hk Hx Hfin) as Hout.
    rewrite (Hcount 3) in Hout by lia. exact Hout.
  - apply (Hmlp 2 3 2 x); assumption.
Defined.

(** ** Exact arithmetic *)

Section ExactArithmetic.
Local Open Scope R_scope.


(** Sums of reals accumulated from the left. *)
Lemma fold_left_Rplus (l : list R) (a : R) :
  fold_left Rplus l a = a + fold_left Rplus l 0.
Proof.
  revert a. induction l as [| x l IH]; intros a; simpl; [lra |].
  rewrite (IH (a + x)), (IH (0 + x)). lra.
Qed.

Lemma fold_left_Rplus_scaled (l : list R) (s : R) :
  fold_left Rplus (map (fun p => p / s) l) 0 = fold_left Rplus l 0 / s.
Proof.
  induction l as [| x l IH]; simpl.
  - unfold Rdiv. lra.
  - rewrite (fold_left_Rplus _ (0 + x / s)), (fold_left_Rplus _ (0 + x)), IH.
    unfold Rdiv. lra.
Qed.

Lemma fold_left_Rplus_nonneg (l : list R) :
  Forall (fun p => 0 < p) l -> 0 <= fold_left Rplus l 0.
Proof.
  induction 1 as [| x l Hx Hl IH]; simpl; [lra |].
  rewrite fold_left_Rplus. lra.
Qed.

Lemma fold_left_Rplus_bounds (l : list R) (p : R) :
  Forall (fun p => 0 < p) l -> In p l -> 0 < p <= fold_left Rplus l 0.
Proof.
  induction 1 as [| x l Hx Hl IH]; simpl; [contradiction |].
  intros [<- | Hin]; rewrite fold_left_Rplus.
  - pose proof (fold_left_Rplus_nonneg l Hl). lra.
  - specialize (IH Hin). lra.
Qed.

(** Over the reals [std::max_element] finds a maximum. *)
Lemma real_max_element_from_max (rest : list R) (largest first : nat) (lv : R)
    (all : list R) :
  nth largest all 0 = lv ->
  (forall i : nat, (i < length rest)%nat ->
                   nth (first + i) all 0 = nth i rest 0) ->
  let r := max_element_from (ops := real_arith) largest lv first rest in
  lv <= nth r all 0 /\ forall y, In y rest -> y <= nth r all 0.
Proof.
  revert largest first lv. induction rest as [| y rest IH];
    intros largest first lv Hlv Hrest; simpl.
  - split; [lra | contradiction].
  - assert (Hy : nth first all 0 = y).
    { rewrite <- (Nat.add_0_r first). apply (Hrest 0%nat). simpl. lia. }
    assert (Hrest' : forall i, (i < length rest)%nat ->
                               nth (S first + i) all 0 = nth i rest 0).
    { intros i Hi. replace (S first + i)%nat with (first + S i)%nat by lia.
      apply (Hrest (S i)). simpl. lia. }
    destruct (Rlt_dec lv y) as [Hlt | Hge].
    + destruct (IH first (S first) y Hy Hrest') as [H1 H2].
      split; [lra |]. intros y' [<- | Hin]; [exact H1 | apply H2, Hin].
    + destruct (IH largest (S first) lv Hlv Hrest') as [H1 H2].
      split; [exact H1 |]. intros y' [<- | Hin]; [lra | apply H2, Hin].
Qed.

Lemma real_max_element_max (logits : list R) (z : R) :
  In z logits -> z <= nth (max_element (ops := real_arith) logits) logits 0.
Proof.
  destruct logits as [| x rest]; [contradiction |]. intros Hin. simpl max_element.
  destruct (real_max_element_from_max rest 0 1 x (x :: rest)) as [H1 H2].
  - reflexivity.
  - intros i Hi. reflexivity.
  - destruct Hin as [<- | Hin]; [exact H1 | apply H2, Hin].
Qed.

(** Over the reals the softmax of a vector that is not empty is a
    probability distribution, and no exponent is positive. *)
Lemma real_softmax_distribution (logits : list R) :
  logits <> [] ->
  let out := softmax_spec (ops := real_arith) logits in
  length out = length logits /\
  Forall (fun p => 0 < p <= 1) out /\
  fold_left Rplus out 0 = 1 /\
  Forall (fun z => z - nth (max_element (ops := real_arith) logits) logits 0 <= 0) logits.
Proof.
  intros Hne out. subst out. unfold softmax_spec. simpl.
  set (mx := nth (max_element (ops := real_arith) logits) logits 0).
  set (exps := map (fun z => exp (z - mx)) logits).
  set (s := fold_left Rplus exps 0).
  assert (Hpos : Forall (fun p => 0 < p) exps).
  { apply Forall_forall. intros p Hp. apply in_map_iff in Hp.
    destruct Hp as (z & <- & _). apply exp_pos. }
  assert (Hs : 0 < s).
  { destruct logits as [| z rest]; [congruence |].
    destruct (fold_left_Rplus_bounds exps (exp (z - mx)) Hpos) as [H1 H2];
      [left; reflexivity | fold s in H2; lra]. }
  split; [unfold exps; rewrite !length_map; reflexivity |].
  split; [| split].
  - apply Forall_forall. intros q Hq. apply in_map_iff in Hq.
    destruct Hq as (p & <- & Hp).
    destruct (fold_left_Rplus_bounds exps p Hpos Hp) as [H1 H2]. fold s in H2.
    split.
    + apply Rdiv_lt_0_compat; assumption.
    + apply (Rmult_le_reg_r s); [exact Hs |].
      unfold Rdiv. rewrite Rmult_assoc, Rinv_l by lra. lra.
  - rewrite fold_left_Rplus_scaled. fold s. apply Rdiv_diag. lra.
  - apply Forall_forall. intros z Hz.
    pose proof (real_max_element_max logits z Hz). fold mx in H. lra.
Qed.
End ExactArithmetic.

(** ** Rounding in binary32 *)

Section Pow2.
Local Open Scope R_scope.

Lemma pow2_pos (e : Z) : 0 < pow2 e.
Proof. apply powerRZ_lt. lra. Qed.

Lemma pow2_add (a b : Z) : pow2 (a + b) = pow2 a * pow2 b.
Proof. apply powerRZ_add. lra. Qed.

Lemma pow2_0 : pow2 0 = 1.
Proof. reflexivity. Qed.

Lemma pow2_IZR (n : Z) : (0 <= n)%Z -> pow2 n = IZR (2 ^ n).
Proof.
  intros Hn. unfold pow2. destruct n as [| p | p]; [reflexivity | | lia].
  symmetry. apply (Zpower_pos_powerRZ 2 p).
Qed.

Lemma pow2_ge_1 (n : Z) : (0 <= n)%Z -> 1 <= pow2 n.
Proof.
  intros Hn. rewrite pow2_IZR by exact Hn. apply IZR_le.
  assert (0 < 2 ^ n)%Z by (apply Z.pow_pos_nonneg; lia). lia.
Qed.

Lemma pow2_le (a b : Z) : (a <= b)%Z -> pow2 a <= pow2 b.
Proof.
  intros H. replace b with (a + (b - a))%Z by lia. rewrite pow2_add.
  pose proof (pow2_pos a). pose proof (pow2_ge_1 (b - a) ltac:(lia)). nra.
Qed.

Lemma pow2_lt (a b : Z) : (a < b)%Z -> pow2 a < pow2 b.
Proof.
  intros H. replace b with (a + (b - a))%Z by lia. rewrite pow2_add.
  pose proof (pow2_pos a).
  assert (2 <= pow2 (b - a)).
  { rewrite pow2_IZR by lia. apply IZR_le.
    replace (b - a)%Z with (1 + (b - a - 1))%Z by lia.
    rewrite Z.pow_add_r by lia.
    assert (0 < 2 ^ (b - a - 1))%Z by (apply Z.pow_pos_nonneg; lia). lia. }
  nra.
Qed.

Lemma pow2_S (a : Z) : pow2 (a + 1) = 2 * pow2 a.
Proof. rewrite pow2_add, (pow2_IZR 1) by lia. simpl. lra. Qed.

Lemma pow2_opp (a : Z) : pow2 a * pow2 (- a) = 1.
Proof. rewrite <- pow2_add. replace (a + - a)%Z with 0%Z by lia. apply pow2_0. Qed.
End Pow2.

(** The number of binary digits. *)
Lemma digits2_size (m : positive) : digits2_pos m = Pos.size m.
Proof. induction m as [m IH | m IH |]; simpl; rewrite ?IH; reflexivity. Qed.

Lemma digits2_bounds (m : positive) :
  (2 ^ (Zpos (digits2_pos m) - 1) <= Zpos m < 2 ^ Zpos (digits2_pos m))%Z.
Proof.
  rewrite digits2_size. split.
  - pose proof (Pos.size_le m) as H.
    assert (H2 : (2 ^ Zpos (Pos.size m) <= 2 * Zpos m)%Z).
    { change (2 * Zpos m)%Z with (Zpos m~0). rewrite <- Pos2Z.inj_pow.
      apply Pos2Z.pos_le_pos, H. }
    replace (Zpos (Pos.size m)) with (1 + (Zpos (Pos.size m) - 1))%Z in H2 by lia.
    rewrite Z.pow_add_r in H2 by lia. lia.
  - pose proof (Pos.size_gt m) as H.
    rewrite <- Pos2Z.inj_pow. apply Pos2Z.pos_lt_pos, H.
Qed.

Lemma Zdigits2_bounds (m : Z) :
  (0 < m)%Z -> (2 ^ (Zdigits2 m - 1) <= m < 2 ^ Zdigits2 m)%Z.
Proof. destruct m as [| p | p]; try lia. intros _. apply digits2_bounds. Qed.

Lemma Zdigits2_nonneg (m : Z) : (0 <= Zdigits2 m)%Z.
Proof. destruct m; simpl; lia. Qed.

(** The digits of a number between two powers of two. *)
Lemma Zdigits2_unique (m d : Z) :
  (2 ^ (d - 1) <= m < 2 ^ d)%Z -> (0 < d)%Z -> Zdigits2 m = d.
Proof.
  intros [Hlo Hhi] Hd.
  assert (Hm : (0 < m)%Z).
  { assert (0 < 2 ^ (d - 1))%Z by (apply Z.pow_pos_nonneg; lia). lia. }
  destruct (Zdigits2_bounds m Hm) as [Hlo' Hhi'].
  pose proof (Zdigits2_nonneg m) as Hn.
  destruct (Z.lt_trichotomy (Zdigits2 m) d) as [H | [H | H]]; [| exact H |].
  - assert (2 ^ Zdigits2 m <= 2 ^ (d - 1))%Z by (apply Z.pow_le_mono_r; lia). lia.
  - assert (2 ^ d <= 2 ^ (Zdigits2 m - 1))%Z by (apply Z.pow_le_mono_r; lia). lia.
Qed.

(** *** Shifting a mantissa to the right *)

Section ShiftRight.
Local Open Scope R_scope.

Lemma fexp32_eq (z : Z) : SpecFloat.fexp prec32 emax32 z = fexp32 z.
Proof. reflexivity. Qed.

Lemma shr_1_nonneg (m : Z) (r s : bool) :
  (0 <= m)%Z ->
  shr_1 {| shr_m := m; shr_r := r; shr_s := s |}
  = {| shr_m := Z.div2 m; shr_r := Z.odd m; shr_s := r || s |}.
Proof. destruct m as [| [p | p |] | p]; try lia; reflexivity. Qed.

Lemma IZR_div2 (m : Z) :
  IZR m = 2 * IZR (Z.div2 m) + (if Z.odd m then 1 else 0).
Proof.
  rewrite (Z.div2_odd m) at 1. rewrite plus_IZR, mult_IZR.
  destruct (Z.odd m); simpl; lra.
Qed.

Lemma shr_1_inv (mrs : shr_record) (x : R) :
  (0 <= shr_m mrs)%Z -> shr_inv mrs x ->
  shr_inv (shr_1 mrs) (x * pow2 (-1)) /\ (0 <= shr_m (shr_1 mrs))%Z.
Proof.
  destruct mrs as [m r s]. cbn [shr_m]. intros Hm Hinv.
  rewrite shr_1_nonneg by exact Hm. split; [| apply Z.div2_nonneg, Hm].
  assert (Hh : pow2 (-1) = / 2) by (unfold pow2; simpl; lra).
  rewrite Hh. unfold shr_inv in *. cbn [shr_m shr_r shr_s] in *.
  rewrite plus_IZR, mult_IZR in *.
  pose proof (IZR_div2 m) as Hd.
  destruct r, s, (Z.odd m); simpl in *; lra.
Qed.

Lemma shr_iter_inv (p : positive) (mrs : shr_record) (x : R) :
  (0 <= shr_m mrs)%Z -> shr_inv mrs x ->
  shr_inv (SpecFloat.iter_pos shr_1 p mrs) (x * pow2 (- Zpos p)) /\
  (0 <= shr_m (SpecFloat.iter_pos shr_1 p mrs))%Z.
Proof.
  revert mrs x. induction p as [p IH | p IH |]; intros mrs x Hm Hinv.
  - cbn [SpecFloat.iter_pos].
    destruct (shr_1_inv mrs x Hm Hinv) as [H1 Hm1].
    destruct (IH _ _ Hm1 H1) as [H2 Hm2].
    destruct (IH _ _ Hm2 H2) as [H3 Hm3].
    split; [| exact Hm3].
    replace (x * pow2 (- Zpos p~1))
      with (x * pow2 (-1) * pow2 (- Zpos p) * pow2 (- Zpos p)); [exact H3 |].
    replace (- Zpos p~1)%Z with (-1 + (- Zpos p + - Zpos p))%Z by lia.
    rewrite !pow2_add. ring.
  - cbn [SpecFloat.iter_pos].
    destruct (IH _ _ Hm Hinv) as [H2 Hm2].
    destruct (IH _ _ Hm2 H2) as [H3 Hm3].
    split; [| exact Hm3].
    replace (x * pow2 (- Zpos p~0))
      with (x * pow2 (- Zpos p) * pow2 (- Zpos p)); [exact H3 |].
    replace (- Zpos p~0)%Z with (- Zpos p + - Zpos p)%Z by lia.
    rewrite !pow2_add. ring.
  - cbn [SpecFloat.iter_pos]. apply shr_1_inv; assumption.
Qed.

(** [shr] by [n >= 0] places: the exponent grows by [n]. *)
Lemma shr_inv_shift (mrs : shr_record) (e n : Z) (v : R) :
  (0 <= n)%Z -> (0 <= shr_m mrs)%Z -> shr_inv mrs (v * pow2 (- e)) ->
  shr_inv (fst (shr mrs e n)) (v * pow2 (- (e + n))) /\
  (0 <= shr_m (fst (shr mrs e n)))%Z /\
  snd (shr mrs e n) = (e + n)%Z.
Proof.
  intros Hn Hm Hinv. destruct n as [| p | p]; [| | lia].
  - simpl. rewrite Z.add_0_r. auto.
  - cbn [shr fst snd].
    destruct (shr_iter_inv p mrs _ Hm Hinv) as [H1 H2].
    split; [| split; [exact H2 | reflexivity]].
    replace (- (e + Zpos p))%Z with (- e + - Zpos p)%Z by lia.
    rewrite pow2_add, <- Rmult_assoc. exact H1.
Qed.

Lemma shr_inv_floor (mrs : shr_record) (x : R) :
  shr_inv mrs x -> IZR (shr_m mrs) <= x < IZR (shr_m mrs) + 1.
Proof.
  destruct mrs as [m r s]. unfold shr_inv. cbn [shr_m shr_r shr_s].
  rewrite plus_IZR, mult_IZR. destruct r, s; simpl; lra.
Qed.

(** Rounding to nearest on the grid of integers. *)
Lemma round_nearest_even_spec (mrs : shr_record) (x : R) :
  shr_inv mrs x ->
  let m' := round_nearest_even (shr_m mrs) (loc_of_shr_record mrs) in
  Rabs (IZR m' - x) <= / 2 /\
  (forall G : Z, x <= IZR G -> (m' <= G)%Z) /\
  (forall G : Z, IZR G <= x -> (G <= m')%Z) /\
  (shr_m mrs <= m' <= shr_m mrs + 1)%Z.
Proof.
  destruct mrs as [m r s]. intros Hinv m'. unfold shr_inv in Hinv.
  cbn [shr_m shr_r shr_s] in *. rewrite plus_IZR, mult_IZR in Hinv.
  assert (Hcases : (m' = m /\ IZR m <= x <= IZR m + / 2) \/
                   (m' = (m + 1)%Z /\ IZR m + / 2 <= x < IZR m + 1)).
  { subst m'. destruct r, s; simpl in *; try (left; split; [reflexivity | lra]);
      try (right; split; [reflexivity | lra]).
    destruct (Z.even m); [left | right]; split; try reflexivity; lra. }
  destruct Hcases as [[-> Hx] | [-> Hx]].
  - split; [apply Rabs_le; lra |]. split; [| split; [| lia]].
    + intros G HG. apply le_IZR. lra.
    + intros G HG. apply Z.lt_succ_r, lt_IZR. rewrite succ_IZR.
      assert (x < IZR m + 1) by lra. lra.
  - rewrite plus_IZR. split; [apply Rabs_le; lra |]. split; [| split; [| lia]].
    + intros G HG. apply Z.le_succ_l, lt_IZR. lra.
    + intros G HG. apply Z.lt_succ_r, lt_IZR. rewrite succ_IZR, plus_IZR. lra.
Qed.
End ShiftRight.

(** *** The two shifts of [binary_round_aux] *)

Section RoundAux.
Local Open Scope R_scope.

Lemma shr_nonpos (mrs : shr_record) (e n : Z) :
  (n <= 0)%Z -> shr mrs e n = (mrs, e).
Proof. destruct n as [| p | p]; try lia; reflexivity. Qed.

Lemma shr_m_of_loc (m : Z) (l : location) : shr_m (shr_record_of_loc m l) = m.
Proof. destruct l as [| []]; reflexivity. Qed.

Lemma loc_of_shr_of_loc (m : Z) (l : location) :
  loc_of_shr_record (shr_record_of_loc m l) = l.
Proof. destruct l as [| []]; reflexivity. Qed.

Lemma Zdigits2_le_24 (m : Z) : (0 < m < 2 ^ 24)%Z -> (Zdigits2 m <= 24)%Z.
Proof.
  intros [H0 H1]. destruct (Zdigits2_bounds m H0) as [Hlo _].
  destruct (Z_le_gt_dec (Zdigits2 m) 24) as [H | H]; [exact H |].
  assert (2 ^ 24 <= 2 ^ (Zdigits2 m - 1))%Z by (apply Z.pow_le_mono_r; lia). lia.
Qed.

(** The second shift of [binary_round_aux]: it absorbs the carry of the
    rounding. *)
Lemma binary_round_aux_pack (sx : bool) (m e : Z) :
  (0 <= m <= 2 ^ 24)%Z -> (-149 <= e)%Z ->
  (let '(mrs, e') :=
     shr (shr_record_of_loc m loc_Exact) e (fexp32 (Zdigits2 m + e) - e) in
   match shr_m mrs with
   | Z0 => S754_zero sx
   | Zpos p => if (e' <=? emax32 - prec32)%Z then S754_finite sx p e'
               else S754_infinity sx
   | Zneg _ => S754_nan
   end) = b32_pack sx m e.
Proof.
  intros Hm He.
  destruct (Z.eq_dec m 0) as [-> | Hm0].
  - rewrite shr_nonpos by (unfold fexp32; simpl; lia). reflexivity.
  - destruct (Z.eq_dec m (2 ^ 24)) as [-> | Hm1].
    + change (Zdigits2 (2 ^ 24)) with 25%Z.
      replace (fexp32 (25 + e) - e)%Z with 1%Z by (unfold fexp32; lia).
      reflexivity.
    + assert (Hd : (Zdigits2 m <= 24)%Z) by (apply Zdigits2_le_24; lia).
      rewrite shr_nonpos by (unfold fexp32; lia).
      cbn [shr_m shr_record_of_loc]. unfold b32_pack.
      destruct m as [| p | p]; try lia.
      apply Z.eqb_neq in Hm1. rewrite Hm1. reflexivity.
Qed.

Lemma binary_round_aux_spec (sx : bool) (mx ex : Z) (lx : location) (v : R) :
  (0 <= mx)%Z ->
  shr_inv (shr_record_of_loc mx lx) (v * pow2 (- ex)) ->
  (ex <= fexp32 (Zdigits2 mx + ex))%Z ->
  b32_rounds v sx (binary_round_aux prec32 emax32 sx mx ex lx).
Proof.
  intros Hmx Hinv Hex. set (e' := fexp32 (Zdigits2 mx + ex)).
  assert (Hn : (0 <= e' - ex)%Z) by (subst e'; lia).
  assert (Hm0 : (0 <= shr_m (shr_record_of_loc mx lx))%Z)
    by (rewrite shr_m_of_loc; exact Hmx).
  destruct (shr_inv_shift _ ex (e' - ex) v Hn Hm0 Hinv) as (H1 & Hm1 & He1).
  replace (ex + (e' - ex))%Z with e' in H1, He1 by lia.
  unfold binary_round_aux, shr_fexp. rewrite !fexp32_eq. fold e'.
  destruct (shr (shr_record_of_loc mx lx) ex (e' - ex)) as [mrs1 e1].
  cbn [fst snd] in H1, Hm1, He1. subst e1.
  set (x := v * pow2 (- e')) in *.
  destruct (round_nearest_even_spec mrs1 x H1) as (Herr & Hup & Hlow & Hnear).
  set (m' := round_nearest_even (shr_m mrs1) (loc_of_shr_record mrs1)) in *.
  pose proof (shr_inv_floor mrs1 x H1) as Hfloor.
  pose proof (shr_inv_floor _ _ Hinv) as Hv. rewrite shr_m_of_loc in Hv.
  set (d := Zdigits2 mx) in *.
  assert (Hd0 : (0 <= d)%Z) by apply Zdigits2_nonneg.
  assert (Hmxd : (mx + 1 <= 2 ^ d)%Z).
  { destruct (Z.eq_dec mx 0) as [E | E].
    - subst mx d. simpl. lia.
    - destruct (Zdigits2_bounds mx ltac:(lia)) as [_ H]. fold d in H. lia. }
  assert (He'lo : (-149 <= e')%Z) by (subst e'; unfold fexp32; lia).
  assert (He'hi : (d + ex - e' <= 24)%Z) by (subst e'; unfold fexp32; lia).
  assert (Hx : x = v * pow2 (- ex) * pow2 (ex - e')).
  { unfold x. rewrite Rmult_assoc, <- pow2_add. f_equal. f_equal. lia. }
  assert (Hxhi : x < IZR (2 ^ 24)).
  { assert (Hv2 : v * pow2 (- ex) < pow2 d).
    { rewrite (pow2_IZR d) by exact Hd0.
      apply Rlt_le_trans with (IZR mx + 1); [lra |].
      rewrite <- plus_IZR. apply IZR_le, Hmxd. }
    rewrite Hx. rewrite <- (pow2_IZR 24) by lia.
    apply Rlt_le_trans with (pow2 d * pow2 (ex - e')).
    - apply Rmult_lt_compat_r; [apply pow2_pos | exact Hv2].
    - rewrite <- pow2_add. apply pow2_le. lia. }
  assert (Hxlo : (-149 < e')%Z -> IZR (2 ^ 23) <= x).
  { intros Hnormal.
    assert (Hmx0 : (0 < mx)%Z).
    { destruct (Z.eq_dec mx 0) as [E | E]; [| lia].
      exfalso. subst mx d e'. simpl in *. unfold fexp32 in *. lia. }
    destruct (Zdigits2_bounds mx Hmx0) as [Hlo _]. fold d in Hlo.
    assert (He' : (e' = d + ex - 24)%Z) by (subst e'; unfold fexp32 in *; lia).
    rewrite Hx, <- (pow2_IZR 23) by lia.
    replace 23%Z with ((d - 1) + (ex - e'))%Z by lia. rewrite pow2_add.
    apply Rmult_le_compat_r; [left; apply pow2_pos |].
    rewrite (pow2_IZR (d - 1)) by lia.
    apply Rle_trans with (IZR mx); [apply IZR_le, Hlo | lra]. }
  assert (Hm'hi : (m' <= 2 ^ 24)%Z) by (apply Hup; lra).
  assert (Hm'lo : (0 <= m')%Z) by lia.
  exists m', e'. fold x.
  split; [exact He'lo |]. split; [lia |]. split; [exact Hxhi |].
  split; [exact Hxlo |]. split; [exact Herr |].
  split; [exact Hup |]. split; [exact Hlow |].
  apply (binary_round_aux_pack sx m' e'); lia.
Qed.
End RoundAux.

(** ** Floats of the format *)

Section Format.
Local Open Scope R_scope.

Lemma bounded_iff (m : positive) (e : Z) :
  SpecFloat.bounded prec32 emax32 m e = true <->
  fexp32 (Zdigits2 (Zpos m) + e) = e /\ (e <= 104)%Z.
Proof.
  unfold SpecFloat.bounded, canonical_mantissa. rewrite fexp32_eq.
  rewrite andb_true_iff, Z.eqb_eq, Z.leb_le. reflexivity.
Qed.

Lemma bounded_inv (m : positive) (e : Z) :
  SpecFloat.bounded prec32 emax32 m e = true ->
  (Zpos m < 2 ^ 24)%Z /\ (-149 <= e <= 104)%Z /\
  ((-149 < e)%Z -> (2 ^ 23 <= Zpos m)%Z).
Proof.
  intros H. apply bounded_iff in H. destruct H as [Hc He].
  destruct (Zdigits2_bounds (Zpos m) ltac:(lia)) as [Hlo Hhi].
  set (d := Zdigits2 (Zpos m)) in *.
  assert (Hd : (0 < d)%Z) by (subst d; simpl; lia).
  assert (Hd24 : (d <= 24)%Z) by (unfold fexp32 in Hc; lia).
  split; [| split].
  - apply Z.lt_le_trans with (2 ^ d)%Z; [exact Hhi |].
    apply Z.pow_le_mono_r; lia.
  - unfold fexp32 in Hc. lia.
  - intros Hn. assert (d = 24)%Z by (unfold fexp32 in Hc; lia).
    replace 23%Z with (d - 1)%Z by lia. exact Hlo.
Qed.

Lemma bounded_intro (m : positive) (e : Z) :
  (Zpos m < 2 ^ 24)%Z -> (-149 <= e <= 104)%Z ->
  ((-149 < e)%Z -> (2 ^ 23 <= Zpos m)%Z) ->
  SpecFloat.bounded prec32 emax32 m e = true.
Proof.
  intros Hm He Hn. apply bounded_iff. split; [| lia].
  destruct (Z.eq_dec e (-149)) as [-> | Hne].
  - assert (Zdigits2 (Zpos m) <= 24)%Z by (apply Zdigits2_le_24; lia).
    unfold fexp32. lia.
  - assert (Hd : Zdigits2 (Zpos m) = 24%Z)
      by (apply Zdigits2_unique; [split; [apply Hn |]; lia | lia]).
    rewrite Hd.
    unfold fexp32. lia.
Qed.

Lemma regular_finite (s : bool) (m : positive) (e : Z) :
  b32_regular (S754_finite s m e) = SpecFloat.bounded prec32 emax32 m e.
Proof. reflexivity. Qed.

(** The value of a float of the format is below [2^128], and a positive one
    is at least [2^-149]. *)
Lemma bounded_value (m : positive) (e : Z) :
  SpecFloat.bounded prec32 emax32 m e = true ->
  pow2 (-149) <= IZR (Zpos m) * pow2 e < pow2 128.
Proof.
  intros H. destruct (bounded_inv m e H) as (Hm & He & _).
  pose proof (pow2_pos e) as Hp. split.
  - apply Rle_trans with (1 * pow2 e).
    + rewrite Rmult_1_l. apply pow2_le. lia.
    + apply Rmult_le_compat_r; [lra |]. apply IZR_le. lia.
  - apply Rlt_le_trans with (IZR (2 ^ 24) * pow2 e).
    + apply Rmult_lt_compat_r; [exact Hp |]. apply IZR_lt, Hm.
    + rewrite <- (pow2_IZR 24), <- pow2_add by lia. apply pow2_le. lia.
Qed.

(** What [b32_pack] gives: a zero, an infinity, or a float of the format
    with the value [m * 2^e]. *)
Lemma b32_pack_cases (sx : bool) (m e : Z) :
  (0 <= m <= 2 ^ 24)%Z -> (-149 <= e)%Z ->
  ((-149 < e)%Z -> (2 ^ 23 <= m)%Z) ->
  (m = 0%Z /\ b32_pack sx m e = S754_zero sx) \/
  (pow2 128 <= IZR m * pow2 e /\ b32_pack sx m e = S754_infinity sx) \/
  (exists (p : positive) (e' : Z),
     b32_pack sx m e = S754_finite sx p e' /\
     SpecFloat.bounded prec32 emax32 p e' = true /\
     IZR (Zpos p) * pow2 e' = IZR m * pow2 e /\ (0 < m)%Z).
Proof.
  intros Hm He Hn. unfold b32_pack.
  destruct m as [| p | p]; [left; auto | right | lia].
  destruct (Z.eqb_spec (Zpos p) (2 ^ 24)) as [E | E].
  - destruct (Z.leb_spec (e + 1) 104) as [Hle | Hgt].
    + right. exists (2 ^ 23)%positive, (e + 1)%Z.
      split; [reflexivity |]. split; [| split; [| lia]].
      * apply bounded_intro; simpl; lia.
      * rewrite E, pow2_S. change (IZR (Zpos (2 ^ 23))) with (IZR (2 ^ 23)).
        change (2 ^ 24)%Z with (2 * 2 ^ 23)%Z. rewrite mult_IZR. lra.
    + left. split; [| reflexivity]. rewrite E, <- (pow2_IZR 24), <- pow2_add by lia.
      apply pow2_le. lia.
  - destruct (Z.leb_spec e 104) as [Hle | Hgt].
    + right. exists p, e. split; [reflexivity |]. split; [| split; [reflexivity | lia]].
      apply bounded_intro; [lia | lia | exact Hn].
    + left. split; [| reflexivity].
      apply Rle_trans with (IZR (2 ^ 23) * pow2 e).
      * rewrite <- (pow2_IZR 23), <- pow2_add by lia. apply pow2_le. lia.
      * apply Rmult_le_compat_r; [left; apply pow2_pos |].
        apply IZR_le, Hn. lia.
Qed.

Lemma b32_pack_regular (sx : bool) (m e : Z) :
  (0 <= m <= 2 ^ 24)%Z -> (-149 <= e)%Z ->
  ((-149 < e)%Z -> (2 ^ 23 <= m)%Z) ->
  IZR m * pow2 e < pow2 128 ->
  b32_regular (b32_pack sx m e) = true /\
  b32_to_R (b32_pack sx m e) = (if sx then - (IZR m * pow2 e) else IZR m * pow2 e).
Proof.
  intros Hm He Hn Hlt.
  destruct (b32_pack_cases sx m e Hm He Hn)
    as [[-> ->] | [[Hbig _] | (p & e' & -> & Hb & Hv & _)]].
  - split; [reflexivity |]. simpl. destruct sx; lra.
  - lra.
  - split; [exact Hb |]. simpl. rewrite <- Hv. destruct sx; lra.
Qed.
End Format.

(** ** Rounding to nearest, on the reals *)

Section Rounds.
Local Open Scope R_scope.

(** A float of the format on the grid of step [2^e']: above the grid
    exponent it is a multiple of the step, below it is less than
    [2^(23+e')]. *)
Lemma nonneg_on_grid (mg : positive) (eg e' : Z) :
  SpecFloat.bounded prec32 emax32 mg eg = true -> (-149 <= e')%Z ->
  ((e' <= eg)%Z /\
   IZR (Zpos mg * 2 ^ (eg - e')) = IZR (Zpos mg) * pow2 eg * pow2 (- e')) \/
  ((-149 < e')%Z /\ IZR (Zpos mg) * pow2 eg < pow2 (23 + e')).
Proof.
  intros Hb He'. destruct (bounded_inv mg eg Hb) as (Hm & He & _).
  destruct (Z_le_gt_dec e' eg) as [Hle | Hgt].
  - left. split; [exact Hle |].
    rewrite mult_IZR, <- (pow2_IZR (eg - e')) by lia.
    rewrite Rmult_assoc, <- pow2_add. reflexivity.
  - right. split; [lia |].
    apply Rlt_le_trans with (IZR (2 ^ 24) * pow2 eg).
    + apply Rmult_lt_compat_r; [apply pow2_pos | apply IZR_lt, Hm].
    + rewrite <- (pow2_IZR 24), <- pow2_add by lia. apply pow2_le. lia.
Qed.

Lemma rounds_normal (v : R) (sx : bool) (r : float) :
  b32_rounds v sx r ->
  exists m' e' : Z,
    (-149 <= e')%Z /\ (0 <= m' <= 2 ^ 24)%Z /\
    ((-149 < e')%Z -> (2 ^ 23 <= m')%Z) /\
    ((-149 < e')%Z -> pow2 (23 + e') <= v) /\
    Rabs (IZR m' - v * pow2 (- e')) <= / 2 /\
    (forall G : Z, v * pow2 (- e') <= IZR G -> (m' <= G)%Z) /\
    (forall G : Z, IZR G <= v * pow2 (- e') -> (G <= m')%Z) /\
    r = b32_pack sx m' e'.
Proof.
  intros (m' & e' & He' & Hm' & Hhi & Hlo & Herr & Hup & Hlow & ->).
  exists m', e'. split; [exact He' |]. split; [exact Hm' |].
  split; [intros Hn; apply Hlow, Hlo, Hn |].
  split; [| auto].
  intros Hn. specialize (Hlo Hn). rewrite <- (pow2_IZR 23) in Hlo by lia.
  rewrite pow2_add.
  apply (Rmult_le_compat_r (pow2 e')) in Hlo; [| left; apply pow2_pos].
  rewrite Rmult_assoc, (Rmult_comm (pow2 (- e'))), pow2_opp, Rmult_1_r in Hlo.
  exact Hlo.
Qed.

(** The result of rounding a magnitude with the sign bit set is at most
    zero. *)
Lemma rounds_nonpos (v : R) (r : float) :
  b32_rounds v true r -> b32_nonpos r = true.
Proof.
  intros H. destruct (rounds_normal v true r H)
    as (m' & e' & He' & Hm' & Hn & _ & _ & _ & _ & ->).
  destruct (b32_pack_cases true m' e' Hm' He' Hn)
    as [[_ ->] | [[_ ->] | (p & e2 & -> & Hb & _)]];
    [reflexivity | reflexivity | exact Hb].
Qed.

(** The value of a rounded magnitude that did not overflow. *)
Lemma rounds_value (v : R) (r : float) :
  b32_rounds v false r -> b32_nonneg r = true ->
  exists m' e' : Z,
    (-149 <= e')%Z /\ (0 <= m')%Z /\
    ((-149 < e')%Z -> (2 ^ 23 <= m')%Z) /\
    ((-149 < e')%Z -> pow2 (23 + e') <= v) /\
    Rabs (IZR m' - v * pow2 (- e')) <= / 2 /\
    (forall G : Z, v * pow2 (- e') <= IZR G -> (m' <= G)%Z) /\
    (forall G : Z, IZR G <= v * pow2 (- e') -> (G <= m')%Z) /\
    b32_to_R r = IZR m' * pow2 e'.
Proof.
  intros H Hr. destruct (rounds_normal v false r H)
    as (m' & e' & He' & Hm' & Hn & Hlo & Herr & Hup & Hlow & ->).
  exists m', e'. split; [exact He' |]. split; [lia |].
  do 5 (split; [assumption |]).
  destruct (b32_pack_cases false m' e' Hm' He' Hn)
    as [[-> ->] | [[_ E] | (p & e2 & E & Hb & Hv & _)]].
  - simpl. lra.
  - rewrite E in Hr. discriminate Hr.
  - rewrite E. simpl. exact Hv.
Qed.

(** Rounding does not cross a float of the format: upwards... *)
Lemma rounds_le (v : R) (r g : float) :
  b32_rounds v false r -> 0 <= v -> b32_nonneg g = true -> v <= b32_to_R g ->
  b32_nonneg r = true /\ b32_to_R r <= b32_to_R g.
Proof.
  intros H Hv Hg Hle. destruct (rounds_normal v false r H)
    as (m' & e' & He' & Hm' & Hn & Hlo & Herr & Hup & Hlow & ->).
  pose proof (pow2_pos e') as Hp. pose proof (pow2_pos (- e')) as Hp'.
  assert (Hbound : IZR m' * pow2 e' <= b32_to_R g /\ b32_to_R g < pow2 128).
  { destruct g as [sg | sg | | sg mg eg]; try discriminate Hg.
    - simpl in *. assert (Hm0 : (m' <= 0)%Z) by (apply Hup; simpl; nra).
      assert (m' = 0%Z) by lia. subst m'. pose proof (pow2_pos 128). lra.
    - destruct sg; [discriminate Hg |]. simpl in Hg, Hle |- *.
      split; [| apply (bounded_value mg eg Hg)].
      destruct (nonneg_on_grid mg eg e' Hg He') as [[Hge HG] | [Hlt Hsmall]].
      + assert (Hm : (m' <= Zpos mg * 2 ^ (eg - e'))%Z).
        { apply Hup. rewrite HG. apply Rmult_le_compat_r; [lra | exact Hle]. }
        apply IZR_le in Hm. rewrite HG in Hm.
        apply (Rmult_le_compat_r (pow2 e')) in Hm; [| lra].
        rewrite Rmult_assoc, (Rmult_comm (pow2 (- e'))), pow2_opp, Rmult_1_r in Hm.
        exact Hm.
      + specialize (Hlo Hlt). lra. }
  destruct Hbound as [Hb1 Hb2].
  destruct (b32_pack_regular false m' e' Hm' He' Hn) as [Hreg Hval]; [lra |].
  rewrite Hval. split; [| exact Hb1].
  destruct (b32_pack false m' e') as [s | s | | s m e] eqn:E; try discriminate Hreg.
  - reflexivity.
  - unfold b32_pack in E. destruct m' as [| p | p]; [discriminate E | | lia].
    destruct (Z.pos p =? 2 ^ 24)%Z, (e' + 1 <=? 104)%Z, (e' <=? 104)%Z;
      try discriminate E; injection E as <- <- <-; exact Hreg.
Qed.

(** ... and downwards. *)
Lemma rounds_ge (v : R) (r g : float) :
  b32_rounds v false r -> b32_nonneg r = true ->
  b32_nonneg g = true -> b32_to_R g <= v ->
  b32_to_R g <= b32_to_R r.
Proof.
  intros H Hr Hg Hle. destruct (rounds_value v r H Hr)
    as (m' & e' & He' & Hm' & Hn & Hlo & Herr & Hup & Hlow & ->).
  pose proof (pow2_pos e') as Hp. pose proof (pow2_pos (- e')) as Hp'.
  destruct g as [sg | sg | | sg mg eg]; try discriminate Hg.
  - simpl. apply Rmult_le_pos; [apply IZR_le, Hm' | lra].
  - destruct sg; [discriminate Hg |]. simpl in Hg, Hle |- *.
    destruct (nonneg_on_grid mg eg e' Hg He') as [[Hge HG] | [Hlt Hsmall]].
    + assert (Hm : (Zpos mg * 2 ^ (eg - e') <= m')%Z).
      { apply Hlow. rewrite HG. apply Rmult_le_compat_r; [lra | exact Hle]. }
      apply IZR_le in Hm. rewrite HG in Hm.
      apply (Rmult_le_compat_r (pow2 e')) in Hm; [| lra].
      rewrite Rmult_assoc, (Rmult_comm (pow2 (- e'))), pow2_opp, Rmult_1_r in Hm.
      exact Hm.
    + apply Rle_trans with (pow2 (23 + e')); [lra |].
      rewrite pow2_add, (pow2_IZR 23) by lia.
      apply Rmult_le_compat_r; [lra |]. apply IZR_le, Hn, Hlt.
Qed.

(** The error of rounding: half a unit in the last place, which is at most
    the fraction [2^-24] of the value above the subnormal range and at most
    [2^-150] inside it. *)
Lemma rounds_error (v : R) (r : float) :
  b32_rounds v false r -> b32_nonneg r = true -> 0 <= v ->
  Rabs (b32_to_R r - v) <= pow2 (-24) * v + pow2 (-150).
Proof.
  intros H Hr Hv. destruct (rounds_value v r H Hr)
    as (m' & e' & He' & Hm' & Hn & Hlo & Herr & Hup & Hlow & ->).
  pose proof (pow2_pos e') as Hp. pose proof (pow2_pos (-24)) as Hp24.
  pose proof (pow2_pos (-150)) as Hp150.
  assert (E : IZR m' * pow2 e' - v = (IZR m' - v * pow2 (- e')) * pow2 e').
  { rewrite Rmult_minus_distr_r, Rmult_assoc, (Rmult_comm (pow2 (- e'))), pow2_opp.
    lra. }
  rewrite E, Rabs_mult, (Rabs_pos_eq (pow2 e')) by lra.
  apply Rle_trans with (/ 2 * pow2 e').
  { apply Rmult_le_compat_r; [lra | exact Herr]. }
  assert (Hhalf : / 2 * pow2 e' = pow2 (e' - 1)).
  { replace e' with ((e' - 1) + 1)%Z at 1 by lia. rewrite pow2_S. lra. }
  rewrite Hhalf.
  destruct (Z.eq_dec e' (-149)) as [-> | Hne].
  - simpl (-149 - 1)%Z. nra.
  - assert (Hn' : (-149 < e')%Z) by lia. specialize (Hlo Hn').
    replace (e' - 1)%Z with (-24 + (23 + e'))%Z by lia. rewrite pow2_add. nra.
Qed.

(** No absolute term when the value is a multiple of [2^-149]. *)
Lemma rounds_error_grid (v : R) (r : float) (N : Z) :
  b32_rounds v false r -> b32_nonneg r = true -> 0 <= v ->
  v = IZR N * pow2 (-149) ->
  Rabs (b32_to_R r - v) <= pow2 (-24) * v.
Proof.
  intros H Hr Hv HN. destruct (rounds_value v r H Hr)
    as (m' & e' & He' & Hm' & Hn & Hlo & Herr & Hup & Hlow & ->).
  pose proof (pow2_pos e') as Hp. pose proof (pow2_pos (-24)) as Hp24.
  destruct (Z.eq_dec e' (-149)) as [-> | Hne].
  - assert (Hx : v * pow2 (- -149) = IZR N).
    { rewrite HN, Rmult_assoc, pow2_opp. lra. }
    assert (m' = N) by (apply Z.le_antisymm; [apply Hup | apply Hlow]; lra).
    subst m'. rewrite <- HN, Rminus_diag, Rabs_R0. nra.
  - assert (Hn' : (-149 < e')%Z) by lia. specialize (Hlo Hn').
    assert (E : IZR m' * pow2 e' - v = (IZR m' - v * pow2 (- e')) * pow2 e').
    { rewrite Rmult_minus_distr_r, Rmult_assoc, (Rmult_comm (pow2 (- e'))), pow2_opp.
      lra. }
    rewrite E, Rabs_mult, (Rabs_pos_eq (pow2 e')) by lra.
    apply Rle_trans with (/ 2 * pow2 e').
    { apply Rmult_le_compat_r; [lra | exact Herr]. }
    assert (Hhalf : / 2 * pow2 e' = pow2 (e' - 1)).
    { replace e' with ((e' - 1) + 1)%Z at 1 by lia. rewrite pow2_S. lra. }
    rewrite Hhalf.
    replace (e' - 1)%Z with (-24 + (23 + e'))%Z by lia. rewrite pow2_add. nra.
Qed.
End Rounds.

(** ** Rounding a mantissa and an exponent; addition *)

Section RoundAdd.
Local Open Scope R_scope.

Lemma shl_align_spec (mx : positive) (ex ex' : Z) :
  snd (shl_align mx ex ex') = Z.min ex ex' /\
  Zpos (fst (shl_align mx ex ex')) = (Zpos mx * 2 ^ (ex - Z.min ex ex'))%Z.
Proof.
  unfold shl_align. destruct (ex' - ex)%Z as [| d | d] eqn:E; cbn [fst snd].
  - replace (Z.min ex ex') with ex by lia. rewrite Z.sub_diag. simpl. lia.
  - replace (Z.min ex ex') with ex by lia. rewrite Z.sub_diag. simpl. lia.
  - replace (Z.min ex ex') with ex' by lia. split; [reflexivity |].
    replace (ex - ex')%Z with (Zpos d) by lia.
    change (Pos.iter xO mx d) with (shift_pos d mx).
    rewrite shift_pos_correct, Z.pow_pos_fold. lia.
Qed.

Lemma Zdigits2_shift (m k : Z) :
  (0 < m)%Z -> (0 <= k)%Z -> Zdigits2 (m * 2 ^ k) = (Zdigits2 m + k)%Z.
Proof.
  intros Hm Hk. destruct (Zdigits2_bounds m Hm) as [Hlo Hhi].
  assert (Hd : (0 < Zdigits2 m)%Z) by (destruct m; simpl; lia).
  assert (H2 : (0 < 2 ^ k)%Z) by (apply Z.pow_pos_nonneg; lia).
  apply Zdigits2_unique; [| lia]. split.
  - replace (Zdigits2 m + k - 1)%Z with ((Zdigits2 m - 1) + k)%Z by lia.
    rewrite Z.pow_add_r by lia. nia.
  - rewrite Z.pow_add_r by lia. nia.
Qed.

(** [binary_round] rounds the value [mx * 2^ex] to nearest. *)
Lemma binary_round_spec (sx : bool) (mx : positive) (ex : Z) :
  b32_rounds (IZR (Zpos mx) * pow2 ex) sx (binary_round prec32 emax32 sx mx ex).
Proof.
  unfold binary_round. rewrite fexp32_eq.
  set (e0 := fexp32 (Zpos (digits2_pos mx) + ex)).
  destruct (shl_align_spec mx ex e0) as [Hez Hmz].
  destruct (shl_align mx ex e0) as [mz ez]. cbn [fst snd] in Hez, Hmz.
  assert (Hk : (0 <= ex - ez)%Z) by lia.
  assert (Hval : IZR (Zpos mx) * pow2 ex * pow2 (- ez) = IZR (Zpos mz)).
  { rewrite Hmz, <- Hez, mult_IZR, <- (pow2_IZR (ex - ez)) by exact Hk.
    rewrite Rmult_assoc, <- pow2_add. reflexivity. }
  apply binary_round_aux_spec.
  - lia.
  - unfold shr_inv. cbn [shr_record_of_loc shr_m shr_r shr_s].
    rewrite Hval, plus_IZR, mult_IZR. lra.
  - rewrite Hmz, <- Hez, Zdigits2_shift by lia.
    change (Zdigits2 (Zpos mx)) with (Zpos (digits2_pos mx)).
    replace (Zpos (digits2_pos mx) + (ex - ez) + ez)%Z
      with (Zpos (digits2_pos mx) + ex)%Z by lia.
    fold e0. lia.
Qed.

Lemma binary_normalize_pos (m : Z) (e : Z) (szero : bool) :
  (0 < m)%Z ->
  b32_rounds (IZR m * pow2 e) false (binary_normalize prec32 emax32 m e szero).
Proof.
  destruct m as [| p | p]; try lia. intros _. apply binary_round_spec.
Qed.

Lemma binary_normalize_neg (m : Z) (e : Z) (szero : bool) :
  (m < 0)%Z ->
  b32_rounds (IZR (- m) * pow2 e) true (binary_normalize prec32 emax32 m e szero).
Proof.
  destruct m as [| p | p]; try lia. intros _. apply binary_round_spec.
Qed.

Lemma nonneg_value (x : float) : b32_nonneg x = true -> 0 <= b32_to_R x.
Proof.
  destruct x as [s | s | | s m e]; simpl; try discriminate; try lra.
  destruct s; [discriminate |]. intros _.
  apply Rmult_le_pos; [apply IZR_le; lia | left; apply pow2_pos].
Qed.

(** The value of a finite float, after its mantissa is aligned to a lower
    exponent. *)
Lemma aligned_value (m : positive) (e ez : Z) :
  (ez <= e)%Z ->
  IZR (Zpos (fst (shl_align m e ez))) * pow2 ez = IZR (Zpos m) * pow2 e.
Proof.
  intros Hle. destruct (shl_align_spec m e ez) as [_ ->].
  replace (Z.min e ez) with ez by lia.
  rewrite mult_IZR, <- (pow2_IZR (e - ez)) by lia.
  rewrite Rmult_assoc, <- pow2_add. f_equal. f_equal. lia.
Qed.

(** The sum of two positive floats is their exact sum, rounded. *)
Lemma b32_add_finite_rounds (ma mb : positive) (ea eb : Z) :
  b32_rounds (IZR (Zpos ma) * pow2 ea + IZR (Zpos mb) * pow2 eb) false
    (SFadd prec32 emax32 (S754_finite false ma ea) (S754_finite false mb eb)).
Proof.
  cbn [SFadd cond_Zopp]. set (ez := Z.min ea eb).
  set (M := (Zpos (fst (shl_align ma ea ez)) + Zpos (fst (shl_align mb eb ez)))%Z).
  assert (Hv : IZR M * pow2 ez = IZR (Zpos ma) * pow2 ea + IZR (Zpos mb) * pow2 eb).
  { unfold M. rewrite plus_IZR, Rmult_plus_distr_r.
    rewrite (aligned_value ma ea ez), (aligned_value mb eb ez)
      by (subst ez; apply Z.le_min_l || apply Z.le_min_r).
    reflexivity. }
  assert (HM : (0 < M)%Z) by (unfold M; apply Z.add_pos_pos; reflexivity).
  rewrite <- Hv. apply binary_normalize_pos, HM.
Qed.

(** The sum of two floats that are at least zero, when it does not exceed
    a float of the format: a float of the format, not below either term,
    within the fraction [2^-24] of the exact sum. *)
Lemma b32_add_spec (a b g : float) :
  b32_nonneg a = true -> b32_nonneg b = true -> b32_nonneg g = true ->
  b32_to_R a + b32_to_R b <= b32_to_R g ->
  let r := SFadd prec32 emax32 a b in
  b32_nonneg r = true /\
  b32_to_R a <= b32_to_R r /\ b32_to_R b <= b32_to_R r /\
  Rabs (b32_to_R r - (b32_to_R a + b32_to_R b))
  <= pow2 (-24) * (b32_to_R a + b32_to_R b).
Proof.
  intros Ha Hb Hg Hle r. subst r.
  pose proof (nonneg_value a Ha) as Ha0. pose proof (nonneg_value b Hb) as Hb0.
  pose proof (pow2_pos (-24)) as Hp24.
  assert (Hexact : forall r : float,
            b32_nonneg r = true -> b32_to_R r = b32_to_R a + b32_to_R b ->
            b32_nonneg r = true /\
            b32_to_R a <= b32_to_R r /\ b32_to_R b <= b32_to_R r /\
            Rabs (b32_to_R r - (b32_to_R a + b32_to_R b))
            <= pow2 (-24) * (b32_to_R a + b32_to_R b)).
  { intros r Hr E. split; [exact Hr |]. rewrite E, Rminus_diag, Rabs_R0.
    split; [lra |]. split; [lra | nra]. }
  destruct a as [sa | sa | | sa ma ea]; try discriminate Ha;
    destruct b as [sb | sb | | sb mb eb]; try discriminate Hb.
  - apply Hexact; [destruct sa, sb; reflexivity | destruct sa, sb; simpl; lra].
  - apply Hexact; [exact Hb | simpl; lra].
  - apply Hexact; [exact Ha | simpl; lra].
  - destruct sa; [discriminate Ha |]. destruct sb; [discriminate Hb |].
    cbn [b32_nonneg] in Ha, Hb.
    pose proof (b32_add_finite_rounds ma mb ea eb) as Hr.
    cbn [b32_to_R] in *.
    set (v := IZR (Zpos ma) * pow2 ea + IZR (Zpos mb) * pow2 eb) in *.
    set (r := SFadd prec32 emax32 (S754_finite false ma ea) (S754_finite false mb eb)) in *.
    assert (Hv0 : 0 <= v) by (unfold v; lra).
    destruct (rounds_le v r g Hr Hv0 Hg Hle) as [Hnn _].
    split; [exact Hnn |].
    split; [apply (rounds_ge v r (S754_finite false ma ea) Hr Hnn Ha); unfold v; simpl; lra |].
    split; [apply (rounds_ge v r (S754_finite false mb eb) Hr Hnn Hb); unfold v; simpl; lra |].
    destruct (bounded_inv ma ea Ha) as (_ & Hea & _).
    destruct (bounded_inv mb eb Hb) as (_ & Heb & _).
    set (ez := Z.min ea eb).
    apply (rounds_error_grid v r
             ((Zpos ma * 2 ^ (ea - ez) + Zpos mb * 2 ^ (eb - ez)) * 2 ^ (ez + 149))
             Hr Hnn Hv0).
    rewrite mult_IZR, plus_IZR, !mult_IZR.
    rewrite <- (pow2_IZR (ea - ez)), <- (pow2_IZR (eb - ez)), <- (pow2_IZR (ez + 149))
      by (unfold ez; lia).
    unfold v.
    replace (pow2 ea) with (pow2 (ea - ez) * pow2 ez)
      by (rewrite <- pow2_add; f_equal; lia).
    replace (pow2 eb) with (pow2 (eb - ez) * pow2 ez)
      by (rewrite <- pow2_add; f_equal; lia).
    rewrite (pow2_add ez 149).
    assert (Ho : pow2 149 * pow2 (-149) = 1) by apply (pow2_opp 149).
    set (P := pow2 149) in *. set (Q := pow2 (-149)) in *.
    replace ((IZR (Zpos ma) * pow2 (ea - ez) + IZR (Zpos mb) * pow2 (eb - ez))
             * (pow2 ez * P) * Q)
      with ((IZR (Zpos ma) * pow2 (ea - ez) + IZR (Zpos mb) * pow2 (eb - ez))
            * pow2 ez * (P * Q)) by ring.
    rewrite Ho. ring.
Qed.
End RoundAdd.

(** ** Division *)

Section Division.
Local Open Scope R_scope.

Lemma pow2_inv (e : Z) : / pow2 e = pow2 (- e).
Proof.
  pose proof (pow2_pos e) as Hp. pose proof (pow2_opp e) as Ho.
  apply (Rmult_eq_reg_l (pow2 e)); [| lra]. rewrite Rinv_r by lra. lra.
Qed.

(** The location of a quotient with remainder [r] among the integers. *)
Lemma shr_inv_of_remainder (q r m2 : Z) (x : R) :
  (0 < m2)%Z -> (0 <= r < m2)%Z ->
  x * IZR m2 = IZR q * IZR m2 + IZR r ->
  shr_inv (shr_record_of_loc q (new_location m2 r)) x.
Proof.
  intros Hm2 Hr Hx.
  assert (HM : 0 < IZR m2) by (apply IZR_lt; lia).
  assert (Hr0 : 0 <= IZR r) by (apply IZR_le; lia).
  assert (Hcmp : forall c : comparison,
            (c = Lt -> 0 < IZR r -> 2 * IZR r < IZR m2) ->
            (c = Eq -> 2 * IZR r = IZR m2) ->
            (c = Gt -> IZR m2 < 2 * IZR r) ->
            (r <> 0)%Z ->
            shr_inv (shr_record_of_loc q (loc_Inexact c)) x).
  { intros c HLt HEq HGt Hne.
    assert (Hrpos : 0 < IZR r) by (apply IZR_lt; lia).
    assert (Hrlt : IZR r < IZR m2) by (apply IZR_lt; lia).
    unfold shr_inv. destruct c; cbn [shr_record_of_loc shr_m shr_r shr_s];
      rewrite plus_IZR, mult_IZR.
    - specialize (HEq eq_refl).
      apply (Rmult_eq_reg_r (IZR m2)); [| lra]. nra.
    - specialize (HLt eq_refl Hrpos). split.
      + apply (Rmult_lt_reg_r (IZR m2)); [exact HM |]. nra.
      + apply (Rmult_lt_reg_r (IZR m2)); [exact HM |]. nra.
    - specialize (HGt eq_refl). split.
      + apply (Rmult_lt_reg_r (IZR m2)); [exact HM |]. nra.
      + apply (Rmult_lt_reg_r (IZR m2)); [exact HM |]. nra. }
  assert (Hexact : r = 0%Z -> shr_inv (shr_record_of_loc q loc_Exact) x).
  { intros ->. unfold shr_inv. cbn [shr_record_of_loc shr_m shr_r shr_s].
    rewrite plus_IZR, mult_IZR.
    assert (x = IZR q) by (apply (Rmult_eq_reg_r (IZR m2)); lra). lra. }
  unfold new_location. destruct (Z.even m2) eqn:Heven.
  - unfold new_location_even. destruct (Z.eqb_spec r 0) as [E | E];
      [apply Hexact, E |].
    apply Hcmp; [| | | exact E].
    + intros Hc _. apply Z.compare_lt_iff in Hc. apply IZR_lt in Hc.
      rewrite mult_IZR in Hc. exact Hc.
    + intros Hc. apply Z.compare_eq_iff in Hc. apply (f_equal IZR) in Hc.
      rewrite mult_IZR in Hc. exact Hc.
    + intros Hc. apply Z.compare_gt_iff in Hc. apply IZR_lt in Hc.
      rewrite mult_IZR in Hc. exact Hc.
  - unfold new_location_odd. destruct (Z.eqb_spec r 0) as [E | E];
      [apply Hexact, E |].
    assert (Hodd : (2 * r <> m2)%Z).
    { intros <-. rewrite Z.even_mul in Heven. discriminate Heven. }
    apply Hcmp; [| | | exact E].
    + intros Hc _.
      assert (H : (2 * r < m2)%Z).
      { destruct (Z.compare_spec (2 * r + 1) m2); try discriminate Hc; lia. }
      apply IZR_lt in H. rewrite mult_IZR in H. exact H.
    + intros Hc. destruct (2 * r + 1 ?= m2)%Z; discriminate Hc.
    + intros Hc.
      assert (H : (m2 < 2 * r)%Z).
      { destruct (Z.compare_spec (2 * r + 1) m2); try discriminate Hc; lia. }
      apply IZR_lt in H. rewrite mult_IZR in H. exact H.
Qed.

Lemma fexp32_mono (a b : Z) : (a <= b)%Z -> (fexp32 a <= fexp32 b)%Z.
Proof. unfold fexp32. lia. Qed.

(** The quotient, its exponent and its location, as [SFdiv] hands them to
    the rounding. *)
Lemma div_core_spec (m1 m2 : positive) (e1 e2 : Z) :
  let v := IZR (Zpos m1) * pow2 e1 / (IZR (Zpos m2) * pow2 e2) in
  let '(q, e', loc) := SFdiv_core_binary prec32 emax32 (Zpos m1) e1 (Zpos m2) e2 in
  (0 <= q)%Z /\
  shr_inv (shr_record_of_loc q loc) (v * pow2 (- e')) /\
  (e' <= fexp32 (Zdigits2 q + e'))%Z.
Proof.
  intros v. unfold SFdiv_core_binary. rewrite fexp32_eq.
  set (d1 := Zdigits2 (Zpos m1)). set (d2 := Zdigits2 (Zpos m2)).
  set (e' := Z.min (fexp32 (d1 + e1 - (d2 + e2))) (e1 - e2)).
  set (s := (e1 - e2 - e')%Z).
  assert (Hs : (0 <= s)%Z) by (unfold s, e'; lia).
  assert (Hm' : match s with
                | 0%Z => Zpos m1
                | Zpos _ => Z.shiftl (Zpos m1) s
                | Zneg _ => 0%Z
                end = (Zpos m1 * 2 ^ s)%Z).
  { destruct s as [| p | p] eqn:E; [lia | | lia].
    apply Z.shiftl_mul_pow2. lia. }
  rewrite Hm'.
  pose proof (Z_div_mod (Zpos m1 * 2 ^ s) (Zpos m2) ltac:(lia)) as Hdiv.
  destruct (Z.div_eucl (Zpos m1 * 2 ^ s) (Zpos m2)) as [q r].
  destruct Hdiv as [Heq Hr].
  assert (H2s : (0 < 2 ^ s)%Z) by (apply Z.pow_pos_nonneg; lia).
  assert (Hq : (0 <= q)%Z) by nia.
  split; [exact Hq |]. split.
  - apply shr_inv_of_remainder; [lia | exact Hr |].
    rewrite <- mult_IZR, <- plus_IZR, (Z.mul_comm q), <- Heq, mult_IZR.
    rewrite <- (pow2_IZR s) by exact Hs. unfold v, Rdiv.
    pose proof (pow2_pos e2) as Hp2.
    assert (Hm2 : 0 < IZR (Zpos m2)) by (apply IZR_lt; lia).
    rewrite Rinv_mult, pow2_inv.
    replace s with (e1 + (- e2 + - e'))%Z by (unfold s; lia).
    rewrite !pow2_add. field. lra.
  - apply Z.le_trans with (fexp32 (d1 + e1 - (d2 + e2))); [unfold e'; lia |].
    apply fexp32_mono.
    assert (Ht : (d1 - d2 + s <= Zdigits2 q)%Z).
    { destruct (Z_le_gt_dec (d1 - d2 + s) 0) as [Hle | Hgt].
      - pose proof (Zdigits2_nonneg q). lia.
      - destruct (Zdigits2_bounds (Zpos m1) ltac:(lia)) as [Hlo1 _].
        destruct (Zdigits2_bounds (Zpos m2) ltac:(lia)) as [_ Hhi2].
        fold d1 in Hlo1. fold d2 in Hhi2.
        assert (Hd1 : (0 < d1)%Z) by (unfold d1; simpl; lia).
        assert (Hd2 : (0 < d2)%Z) by (unfold d2; simpl; lia).
        set (t := (d1 - d2 + s)%Z) in *.
        assert (Hpow : (2 ^ (t - 1) * 2 ^ d2 = 2 ^ (d1 - 1) * 2 ^ s)%Z).
        { rewrite <- !Z.pow_add_r by lia. f_equal. unfold t. lia. }
        assert (Ht1 : (0 < 2 ^ (t - 1))%Z) by (apply Z.pow_pos_nonneg; lia).
        assert (Hq1 : (2 ^ (t - 1) <= q)%Z) by nia.
        assert (Hq0 : (0 < q)%Z) by lia.
        destruct (Zdigits2_bounds q Hq0) as [_ Hhiq].
        assert (Hlt : (2 ^ (t - 1) < 2 ^ Zdigits2 q)%Z) by lia.
        apply Z.pow_lt_mono_r_iff in Hlt; [lia | lia | apply Zdigits2_nonneg]. }
    unfold s in Ht. lia.
Qed.

Lemma b32_one_value : b32_to_R b32_one = 1.
Proof.
  change b32_one with (S754_finite false 8388608 (-23)).
  unfold b32_to_R. change (Zpos 8388608) with (2 ^ 23)%Z.
  rewrite <- (pow2_IZR 23) by lia. apply pow2_opp.
Qed.

(** The quotient of a float that is at least zero by a positive float that
    is not smaller: a float of the format, at most one, within the fraction
    [2^-24] of the exact quotient, or within [2^-150] of it. *)
Lemma b32_div_spec (a b : float) :
  b32_nonneg a = true -> b32_nonneg b = true ->
  0 < b32_to_R b -> b32_to_R a <= b32_to_R b ->
  let r := SFdiv prec32 emax32 a b in
  b32_nonneg r = true /\ b32_to_R r <= 1 /\
  Rabs (b32_to_R r - b32_to_R a / b32_to_R b)
  <= pow2 (-24) * (b32_to_R a / b32_to_R b) + pow2 (-150).
Proof.
  intros Ha Hb Hb0 Hle r. subst r.
  pose proof (nonneg_value a Ha) as Ha0.
  pose proof (pow2_pos (-24)) as Hp24. pose proof (pow2_pos (-150)) as Hp150.
  destruct b as [sb | sb | | sb mb eb]; try discriminate Hb;
    [simpl in Hb0; lra |].
  destruct sb; [discriminate Hb |].
  destruct a as [sa | sa | | sa ma ea]; try discriminate Ha.
  - cbn [SFdiv]. split; [reflexivity |]. cbn [b32_to_R]. unfold Rdiv.
    rewrite Rmult_0_l, Rminus_diag, Rabs_R0. split; lra.
  - destruct sa; [discriminate Ha |]. cbn [SFdiv xorb].
    set (v := b32_to_R (S754_finite false ma ea) / b32_to_R (S754_finite false mb eb)) in *.
    pose proof (div_core_spec ma mb ea eb) as Hcore. cbv zeta in Hcore.
    destruct (SFdiv_core_binary prec32 emax32 (Zpos ma) ea (Zpos mb) eb)
      as [[q e'] loc].
    destruct Hcore as (Hq & Hinv & He').
    assert (Hr : b32_rounds v false (binary_round_aux prec32 emax32 false q e' loc))
      by (apply binary_round_aux_spec; assumption).
    assert (Hv0 : 0 <= v).
    { unfold v. apply Rmult_le_pos; [exact Ha0 |]. left. apply Rinv_0_lt_compat, Hb0. }
    assert (Hv1 : v <= b32_to_R b32_one).
    { rewrite b32_one_value. unfold v.
      apply (Rmult_le_reg_r (b32_to_R (S754_finite false mb eb))); [exact Hb0 |].
      unfold Rdiv. rewrite Rmult_assoc, Rinv_l by lra. lra. }
    destruct (rounds_le v _ b32_one Hr Hv0 eq_refl Hv1) as [Hnn Hle1].
    rewrite b32_one_value in Hle1.
    split; [exact Hnn |]. split; [exact Hle1 |].
    apply rounds_error; assumption.
Qed.
End Division.

(** ** Comparison and subtraction *)

Section Compare.
Local Open Scope R_scope.

(** Floats of the format compare by exponent first. *)
Lemma bounded_lt_exponent (m1 m2 : positive) (e1 e2 : Z) :
  SpecFloat.bounded prec32 emax32 m1 e1 = true ->
  SpecFloat.bounded prec32 emax32 m2 e2 = true ->
  (e1 < e2)%Z ->
  IZR (Zpos m1) * pow2 e1 < IZR (Zpos m2) * pow2 e2.
Proof.
  intros H1 H2 Hlt.
  destruct (bounded_inv m1 e1 H1) as (Hm1 & He1 & _).
  destruct (bounded_inv m2 e2 H2) as (_ & He2 & Hn2).
  apply Rlt_le_trans with (IZR (2 ^ 24) * pow2 e1).
  - apply Rmult_lt_compat_r; [apply pow2_pos | apply IZR_lt, Hm1].
  - apply Rle_trans with (IZR (2 ^ 23) * pow2 e2).
    + rewrite <- (pow2_IZR 24), <- (pow2_IZR 23), <- !pow2_add by lia.
      apply pow2_le. lia.
    + apply Rmult_le_compat_r; [left; apply pow2_pos |].
      apply IZR_le, Hn2. lia.
Qed.

Lemma bounded_compare (m1 m2 : positive) (e1 e2 : Z) :
  SpecFloat.bounded prec32 emax32 m1 e1 = true ->
  SpecFloat.bounded prec32 emax32 m2 e2 = true ->
  match (match (e1 ?= e2)%Z with
         | Lt => Lt
         | Gt => Gt
         | Eq => Pos.compare_cont Eq m1 m2
         end) with
  | Lt => IZR (Zpos m1) * pow2 e1 < IZR (Zpos m2) * pow2 e2
  | Eq => IZR (Zpos m1) * pow2 e1 = IZR (Zpos m2) * pow2 e2
  | Gt => IZR (Zpos m2) * pow2 e2 < IZR (Zpos m1) * pow2 e1
  end.
Proof.
  intros H1 H2. destruct (Z.compare_spec e1 e2) as [-> | Hlt | Hgt].
  - change (Pos.compare_cont Eq m1 m2) with (Pos.compare m1 m2).
    pose proof (pow2_pos e2) as Hp.
    destruct (Pos.compare_spec m1 m2) as [-> | Hlt | Hgt].
    + reflexivity.
    + apply Rmult_lt_compat_r; [exact Hp |]. apply IZR_lt. lia.
    + apply Rmult_lt_compat_r; [exact Hp |]. apply IZR_lt. lia.
  - apply bounded_lt_exponent; assumption.
  - apply bounded_lt_exponent; assumption.
Qed.

Lemma finite_value_pos (m : positive) (e : Z) : 0 < IZR (Zpos m) * pow2 e.
Proof. apply Rmult_lt_0_compat; [apply IZR_lt; lia | apply pow2_pos]. Qed.

(** On floats of the format [SFcompare] is the order of the reals. *)
Lemma b32_compare_spec (x y : float) :
  b32_regular x = true -> b32_regular y = true ->
  match SFcompare x y with
  | Some Lt => b32_to_R x < b32_to_R y
  | Some Eq => b32_to_R x = b32_to_R y
  | Some Gt => b32_to_R y < b32_to_R x
  | None => False
  end.
Proof.
  intros Hx Hy.
  destruct x as [sx | sx | | sx mx ex]; try discriminate Hx;
    destruct y as [sy | sy | | sy my ey]; try discriminate Hy.
  - simpl. reflexivity.
  - pose proof (finite_value_pos my ey). destruct sy; simpl; lra.
  - pose proof (finite_value_pos mx ex). destruct sx; simpl; lra.
  - rewrite regular_finite in Hx, Hy.
    pose proof (finite_value_pos mx ex). pose proof (finite_value_pos my ey).
    destruct sx, sy; cbn [SFcompare b32_to_R]; try lra.
    + pose proof (bounded_compare mx my ex ey Hx Hy) as Hc.
      destruct (ex ?= ey)%Z; [destruct (Pos.compare_cont Eq mx my) | |];
        cbn [CompOpp]; lra.
    + exact (bounded_compare mx my ex ey Hx Hy).
Qed.

Lemma b32_ltb_spec (x y : float) :
  b32_regular x = true -> b32_regular y = true ->
  (SFltb x y = true -> b32_to_R x < b32_to_R y) /\
  (SFltb x y = false -> b32_to_R y <= b32_to_R x).
Proof.
  intros Hx Hy. pose proof (b32_compare_spec x y Hx Hy) as H. unfold SFltb.
  destruct (SFcompare x y) as [[| |] |]; split; intros E;
    try discriminate E; try contradiction; lra.
Qed.

Lemma b32_leb_intro (x y : float) :
  b32_regular x = true -> b32_regular y = true ->
  b32_to_R x <= b32_to_R y -> SFleb x y = true.
Proof.
  intros Hx Hy Hle. pose proof (b32_compare_spec x y Hx Hy) as H. unfold SFleb.
  destruct (SFcompare x y) as [[| |] |]; try reflexivity; [lra | contradiction].
Qed.

Lemma nonneg_regular (x : float) : b32_nonneg x = true -> b32_regular x = true.
Proof.
  destruct x as [s | s | | s m e]; try discriminate; [reflexivity |].
  destruct s; [discriminate | exact (fun H => H)].
Qed.

(** A float of the format that is at most one, as a float and as a real. *)
Lemma b32_unit_intro (x : float) :
  b32_nonneg x = true -> b32_to_R x <= 1 -> b32_unit x = true.
Proof.
  intros Hx Hle. unfold b32_unit. rewrite Hx. simpl.
  apply b32_leb_intro; [apply nonneg_regular, Hx | reflexivity |].
  rewrite b32_one_value. exact Hle.
Qed.

Lemma b32_unit_inv (x : float) :
  b32_unit x = true -> b32_nonneg x = true /\ 0 <= b32_to_R x <= 1.
Proof.
  unfold b32_unit. intros H. apply andb_true_iff in H. destruct H as [Hx Hle].
  split; [exact Hx |]. split; [apply nonneg_value, Hx |].
  pose proof (b32_compare_spec x b32_one (nonneg_regular x Hx) eq_refl) as H.
  rewrite b32_one_value in H. unfold SFleb in Hle.
  destruct (SFcompare x b32_one) as [[| |] |]; try discriminate Hle; lra.
Qed.

(** A float of the format minus one that is not smaller is at most zero:
    zero, a negative float of the format, or [-inf] when the difference
    overflows. *)
Lemma b32_sub_nonpos (z mx : float) :
  b32_regular z = true -> b32_regular mx = true ->
  b32_to_R z <= b32_to_R mx ->
  b32_nonpos (SFsub prec32 emax32 z mx) = true.
Proof.
  intros Hz Hmx Hle.
  destruct z as [sz | sz | | sz mz ez]; try discriminate Hz;
    destruct mx as [sm | sm | | sm mm em]; try discriminate Hmx.
  - destruct sz, sm; reflexivity.
  - pose proof (finite_value_pos mm em). destruct sm; simpl in Hle; [lra |].
    exact Hmx.
  - pose proof (finite_value_pos mz ez). destruct sz; simpl in Hle; [| lra].
    exact Hz.
  - cbn [SFsub]. set (e0 := Z.min ez em).
    set (M := (cond_Zopp sz (Zpos (fst (shl_align mz ez e0)))
               - cond_Zopp sm (Zpos (fst (shl_align mm em e0))))%Z).
    assert (HM : IZR M * pow2 e0
                 = b32_to_R (S754_finite sz mz ez) - b32_to_R (S754_finite sm mm em)).
    { pose proof (aligned_value mz ez e0 ltac:(subst e0; apply Z.le_min_l)) as A1.
      pose proof (aligned_value mm em e0 ltac:(subst e0; apply Z.le_min_r)) as A2.
      unfold M. rewrite minus_IZR, Rmult_minus_distr_r. cbn [b32_to_R].
      destruct sz, sm; cbn [cond_Zopp]; rewrite ?opp_IZR; lra. }
    assert (HM0 : (M <= 0)%Z).
    { apply le_IZR. pose proof (pow2_pos e0) as Hp.
      apply (Rmult_le_reg_r (pow2 e0)); [exact Hp |]. lra. }
    destruct (Z.eq_dec M 0) as [E | E].
    + rewrite E. reflexivity.
    + apply (rounds_nonpos (IZR (- M) * pow2 e0)).
      apply binary_normalize_neg. lia.
Qed.

(** A finite float minus itself is [+0]. *)
Lemma b32_sub_same (z : float) :
  b32_finite z = true -> SFsub prec32 emax32 z z = b32_zero.
Proof.
  destruct z as [s | s | | s m e]; try discriminate; intros _.
  - destruct s; reflexivity.
  - cbn [SFsub]. rewrite Z.sub_diag. reflexivity.
Qed.
End Compare.

(** ** [std::max_element] on floats of the format *)

Section MaxElement32.
Variable expf : float -> float.
Local Open Scope R_scope.

Lemma b32_max_element_from_max (rest : list float) (largest first : nat)
    (lv : float) (all : list float) :
  nth largest all b32_zero = lv -> (largest < length all)%nat ->
  (first + length rest = length all)%nat ->
  (forall i : nat, (i < length rest)%nat ->
                   nth (first + i) all b32_zero = nth i rest b32_zero) ->
  b32_regular lv = true -> Forall (fun y => b32_regular y = true) rest ->
  let r := max_element_from (ops := binary32 expf) largest lv first rest in
  (r < length all)%nat /\
  b32_to_R lv <= b32_to_R (nth r all b32_zero) /\
  forall y, In y rest -> b32_to_R y <= b32_to_R (nth r all b32_zero).
Proof.
  revert largest first lv. induction rest as [| y rest IH];
    intros largest first lv Hlv Hlt Hlen Hrest Hreg Hall; cbn [max_element_from].
  - rewrite Hlv. split; [exact Hlt |]. split; [lra | contradiction].
  - assert (Hy : nth first all b32_zero = y).
    { rewrite <- (Nat.add_0_r first). apply (Hrest 0%nat). simpl. lia. }
    assert (Hrest' : forall i, (i < length rest)%nat ->
                               nth (S first + i) all b32_zero = nth i rest b32_zero).
    { intros i Hi. replace (S first + i)%nat with (first + S i)%nat by lia.
      apply (Hrest (S i)). simpl. lia. }
    inversion Hall as [| y' rest' Hyreg Hall' E]; subst y' rest'.
    simpl in Hlen.
    destruct (b32_ltb_spec lv y Hreg Hyreg) as [Htrue Hfalse].
    change (fltb (FloatOps := binary32 expf) lv y) with (SFltb lv y).
    destruct (SFltb lv y) eqn:Hcmp.
    + destruct (IH first (S first) y Hy ltac:(lia) ltac:(lia) Hrest' Hyreg Hall')
        as (H0 & H1 & H2).
      specialize (Htrue eq_refl).
      split; [exact H0 |]. split; [lra |].
      intros y' [<- | Hin]; [exact H1 | apply H2, Hin].
    + destruct (IH largest (S first) lv Hlv Hlt ltac:(lia) Hrest' Hreg Hall')
        as (H0 & H1 & H2).
      specialize (Hfalse eq_refl).
      split; [exact H0 |]. split; [exact H1 |].
      intros y' [<- | Hin]; [lra | apply H2, Hin].
Qed.

(** On a vector of floats of the format that is not empty,
    [std::max_element] returns the position of an entry that no entry
    exceeds. *)
Lemma b32_max_element_max (logits : list float) :
  logits <> [] -> Forall (fun y => b32_regular y = true) logits ->
  let mx := nth (max_element (ops := binary32 expf) logits) logits b32_zero in
  (max_element (ops := binary32 expf) logits < length logits)%nat /\
  In mx logits /\
  forall z, In z logits -> b32_to_R z <= b32_to_R mx.
Proof.
  intros Hne Hall. destruct logits as [| x rest]; [congruence |].
  inversion Hall as [| x' rest' Hx Hrest E]; subst x' rest'.
  cbn zeta. cbn [max_element].
  destruct (b32_max_element_from_max rest 0 1 x (x :: rest))
    as (H0 & H1 & H2); try assumption; try reflexivity.
  - simpl. lia.
  - split; [exact H0 |]. split; [apply nth_In, H0 |].
    intros z [<- | Hin]; [exact H1 | apply H2, Hin].
Qed.
End MaxElement32.

(** ** The softmax in binary32: accumulated rounding *)

Section SoftmaxRounding.
Local Open Scope R_scope.

(** One more term in a sum accumulated with relative error [u] per
    addition. *)
Lemma sum_step_upper (A s' e s u n : R) :
  0 <= A -> 0 <= e -> 0 <= u -> 0 <= n -> 2 * n * u <= 1 ->
  s' <= A * (1 + 2 * n * u) -> s <= (s' + e) * (1 + u) ->
  s <= (A + e) * (1 + 2 * (n + 1) * u).
Proof.
  intros HA He Hu Hn Hnu Hs' Hs.
  assert (H1 : (s' + e) * (1 + u) <= (A * (1 + 2 * n * u) + e) * (1 + u))
    by (apply Rmult_le_compat_r; lra).
  assert (H2 : 0 <= A * u * (1 - 2 * n * u))
    by (apply Rmult_le_pos; [apply Rmult_le_pos |]; lra).
  assert (H3 : 0 <= e * u * (2 * n + 1))
    by (apply Rmult_le_pos; [apply Rmult_le_pos |]; lra).
  nra.
Qed.

Lemma sum_step_lower (A s' e s u n : R) :
  0 <= A -> 0 <= e -> 0 <= u <= 1 -> 0 <= n -> n * u <= 1 ->
  A * (1 - n * u) <= s' -> (s' + e) * (1 - u) <= s ->
  (A + e) * (1 - (n + 1) * u) <= s.
Proof.
  intros HA He Hu Hn Hnu Hs' Hs.
  assert (H1 : (A * (1 - n * u) + e) * (1 - u) <= (s' + e) * (1 - u))
    by (apply Rmult_le_compat_r; lra).
  assert (H2 : 0 <= A * n * (u * u))
    by (apply Rmult_le_pos; [apply Rmult_le_pos |]; nra).
  assert (H3 : 0 <= e * n * u)
    by (apply Rmult_le_pos; [apply Rmult_le_pos |]; lra).
  nra.
Qed.

Lemma Rabs_le_both (a b : R) : Rabs a <= b -> - b <= a <= b.
Proof. intros H. unfold Rabs in H. destruct (Rcase_abs a); lra. Qed.

Lemma pow2_m24 : pow2 (-24) = / 16777216.
Proof.
  replace (pow2 (-24)) with (/ pow2 24) by apply pow2_inv.
  rewrite (pow2_IZR 24) by lia. reflexivity.
Qed.

Lemma pow2_m150_small : pow2 (-150) <= / 1099511627776.
Proof.
  apply Rle_trans with (pow2 (-40)); [apply pow2_le; lia |].
  replace (pow2 (-40)) with (/ pow2 40) by apply pow2_inv.
  rewrite (pow2_IZR 40) by lia. simpl. lra.
Qed.

Lemma b32_sum_cap_value : b32_to_R b32_sum_cap = 32768.
Proof.
  unfold b32_sum_cap, b32_to_R. change (Zpos 8388608) with (2 ^ 23)%Z.
  rewrite <- (pow2_IZR 23), <- pow2_add, (pow2_IZR (23 + -8)) by lia.
  reflexivity.
Qed.

(** The sum of at most [8192] floats between zero and one, accumulated
    from the left as the loop does: a float of the format, not below any
    term, and within the fractions [n*2^-24] below and [2n*2^-24] above of
    the exact sum. *)
Lemma b32_sum_bounds (es : list float) :
  Forall (fun e => b32_unit e = true) es -> (Z.of_nat (length es) <= 8192)%Z ->
  let s := fold_left (SFadd prec32 emax32) es b32_zero in
  let A := fold_left Rplus (map b32_to_R es) 0 in
  let n := INR (length es) in
  b32_nonneg s = true /\
  (forall e, In e es -> b32_to_R e <= b32_to_R s) /\
  0 <= A <= n /\
  A * (1 - n * pow2 (-24)) <= b32_to_R s <= A * (1 + 2 * n * pow2 (-24)).
Proof.
  induction es as [| e es IH] using rev_ind; intros Hall Hlen.
  - cbn [fold_left map length INR]. change (b32_to_R b32_zero) with 0.
    split; [reflexivity |]. split; [intros e [] |]. lra.
  - apply Forall_app in Hall. destruct Hall as [Hes He].
    inversion He as [| e' l' Hunit _ E]; subst e' l'.
    rewrite length_app in Hlen. cbn [length] in Hlen.
    destruct (IH Hes ltac:(lia)) as (Hnn & Hin & HA & Hs). clear IH.
    rewrite fold_left_app, map_app, fold_left_app, length_app, plus_INR.
    cbn [fold_left map length]. change (INR 1) with 1.
    set (s' := fold_left (SFadd prec32 emax32) es b32_zero) in *.
    set (A := fold_left Rplus (map b32_to_R es) 0) in *.
    set (n := INR (length es)) in *.
    destruct (b32_unit_inv e Hunit) as (Henn & He0 & He1).
    assert (Hn : 0 <= n) by apply pos_INR.
    assert (Hn8 : n + 1 <= 8192).
    { unfold n. rewrite <- (S_INR (length es)), INR_IZR_INZ.
      apply IZR_le. lia. }
    pose proof pow2_m24 as Hu. set (u := pow2 (-24)) in *.
    assert (Hnu : 2 * n * u <= 1) by (rewrite Hu; lra).
    assert (Hs'hi : b32_to_R s' <= 2 * n) by nra.
    assert (Hcap : b32_to_R s' + b32_to_R e <= b32_to_R b32_sum_cap)
      by (rewrite b32_sum_cap_value; lra).
    destruct (b32_add_spec s' e b32_sum_cap Hnn Henn eq_refl Hcap)
      as (Hsnn & Hs'le & Hele & Herr).
    fold u in Herr. apply Rabs_le_both in Herr.
    change (fold_left (SFadd prec32 emax32) es b32_zero) with s'.
    change (fold_left Rplus (map b32_to_R es) 0) with A.
    split; [exact Hsnn |]. split; [| split].
    + intros e0 Hin0. apply in_app_or in Hin0.
      destruct Hin0 as [Hin0 | [<- | []]]; [| exact Hele].
      specialize (Hin e0 Hin0). lra.
    + lra.
    + split.
      * apply (sum_step_lower A (b32_to_R s') (b32_to_R e) _ u n);
          try lra; rewrite ?Hu; lra.
      * apply (sum_step_upper A (b32_to_R s') (b32_to_R e) _ u n); lra.
Qed.

(** The sum of the quotients, each within its rounding error. *)
Lemma div_sum_bounds (es : list float) (s : float) (u eta : R) :
  (forall e, In e es ->
     (1 - u) * (b32_to_R e / b32_to_R s) - eta
     <= b32_to_R (SFdiv prec32 emax32 e s)
     <= (1 + u) * (b32_to_R e / b32_to_R s) + eta) ->
  let P := fold_left Rplus
             (map b32_to_R (map (fun e => SFdiv prec32 emax32 e s) es)) 0 in
  let Q := fold_left Rplus (map b32_to_R es) 0 / b32_to_R s in
  (1 - u) * Q - INR (length es) * eta <= P <= (1 + u) * Q + INR (length es) * eta.
Proof.
  induction es as [| e es IH]; intros Hes.
  - simpl. unfold Rdiv. lra.
  - cbn [map fold_left length]. rewrite S_INR.
    rewrite (fold_left_Rplus _ (0 + b32_to_R (SFdiv prec32 emax32 e s))).
    rewrite (fold_left_Rplus _ (0 + b32_to_R e)).
    specialize (IH (fun e0 H => Hes e0 (or_intror H))). cbv zeta in IH.
    pose proof (Hes e (or_introl eq_refl)) as He.
    unfold Rdiv in *. lra.
Qed.

(** From the bounds of the accumulated sum [S] of the exponentials to the
    sum [P] of the quotients: with [c = n * 2^-24], [P] lies between
    [(1 - 2c)(1 - 2^-24) - n * 2^-150] and [(1 + 2c)(1 + 2^-24) + n * 2^-150]. *)
Lemma normalised_sum_bounds (A S P n : R) :
  1 <= A -> 0 < S -> 0 <= n <= 8192 ->
  A * (1 - n * pow2 (-24)) <= S <= A * (1 + 2 * n * pow2 (-24)) ->
  (1 - pow2 (-24)) * (A / S) - n * pow2 (-150) <= P
  <= (1 + pow2 (-24)) * (A / S) + n * pow2 (-150) ->
  (1 - 2 * (n * pow2 (-24))) * (1 - pow2 (-24)) - n * pow2 (-150) <= P
  <= (1 + 2 * (n * pow2 (-24))) * (1 + pow2 (-24)) + n * pow2 (-150).
Proof.
  intros HA HS Hn HSb HP.
  pose proof pow2_m24 as Hu. pose proof (pow2_pos (-150)) as Heta0.
  set (u := pow2 (-24)) in *. set (eta := pow2 (-150)) in *.
  set (c := n * u) in *.
  assert (Hc : 0 <= c <= / 2048) by (unfold c; rewrite Hu; lra).
  assert (Hu0 : 0 < u < 1) by (rewrite Hu; lra).
  set (rho := A / S) in *.
  assert (Hrho : rho * S = A).
  { unfold rho, Rdiv. rewrite Rmult_assoc, Rinv_l by lra. lra. }
  assert (Hrho0 : 0 < rho) by (unfold rho; apply Rdiv_lt_0_compat; lra).
  assert (Hhi : rho <= 1 + 2 * c).
  { assert (H1 : rho * (1 - c) <= 1).
    { apply (Rmult_le_reg_r A); [lra |].
      replace (rho * (1 - c) * A) with (rho * (A * (1 - c))) by ring.
      apply Rle_trans with (rho * S); [| lra].
      apply Rmult_le_compat_l; lra. }
    nra. }
  assert (Hlo : 1 - 2 * c <= rho).
  { assert (H1 : 1 <= rho * (1 + 2 * c)).
    { apply (Rmult_le_reg_r A); [lra |].
      replace (rho * (1 + 2 * c) * A) with (rho * (A * (1 + 2 * c))) by ring.
      replace (A * (1 + 2 * c)) with (A * (1 + 2 * n * u)) by (unfold c; ring).
      apply Rle_trans with (rho * S); [lra |].
      apply Rmult_le_compat_l; lra. }
    nra. }
  split.
  - apply Rle_trans with ((1 - u) * rho - n * eta); [| lra].
    apply Rplus_le_compat_r. rewrite (Rmult_comm (1 - 2 * c)).
    apply Rmult_le_compat_l; lra.
  - apply Rle_trans with ((1 + u) * rho + n * eta); [lra |].
    apply Rplus_le_compat_r. rewrite (Rmult_comm (1 + 2 * c)).
    apply Rmult_le_compat_l; lra.
Qed.

(** Up to 8192 terms the sum of the quotients is within [1/1000] of one. *)
Lemma normalised_sum_close (P n : R) :
  0 <= n <= 8192 ->
  (1 - 2 * (n * pow2 (-24))) * (1 - pow2 (-24)) - n * pow2 (-150) <= P
  <= (1 + 2 * (n * pow2 (-24))) * (1 + pow2 (-24)) + n * pow2 (-150) ->
  Rabs (P - 1) <= / 1000.
Proof.
  intros Hn HP.
  pose proof pow2_m24 as Hu. pose proof pow2_m150_small as Heta.
  pose proof (pow2_pos (-150)) as Heta0.
  set (u := pow2 (-24)) in *. set (eta := pow2 (-150)) in *.
  set (c := n * u) in *.
  assert (Hc : 0 <= c <= / 2048) by (unfold c; rewrite Hu; lra).
  assert (Hne : 0 <= n * eta <= / 1000000).
  { split; [apply Rmult_le_pos; lra |].
    apply Rle_trans with (8192 * / 1099511627776); [| lra].
    apply Rmult_le_compat; lra. }
  assert (Hcu : 0 <= c * u <= / 1000000).
  { split; [apply Rmult_le_pos; lra |]. rewrite Hu. nra. }
  apply Rabs_le. rewrite Hu in HP. nra.
Qed.

(** Up to 4096 terms the quotients, accumulated in binary32 with relative
    error [2^-24] per addition, also sum to one within [1/1000]. *)
Lemma accumulated_sum_close (P T n : R) :
  0 <= n <= 4096 ->
  (1 - 2 * (n * pow2 (-24))) * (1 - pow2 (-24)) - n * pow2 (-150) <= P
  <= (1 + 2 * (n * pow2 (-24))) * (1 + pow2 (-24)) + n * pow2 (-150) ->
  P * (1 - n * pow2 (-24)) <= T <= P * (1 + 2 * n * pow2 (-24)) ->
  Rabs (T - 1) <= / 1000.
Proof.
  intros Hn HP HT.
  pose proof pow2_m24 as Hu. pose proof pow2_m150_small as Heta.
  pose proof (pow2_pos (-150)) as Heta0.
  set (u := pow2 (-24)) in *. set (eta := pow2 (-150)) in *.
  replace (2 * n * u) with (2 * (n * u)) in HT by ring.
  set (c := n * u) in *.
  assert (Hc : 0 <= c <= / 4096) by (unfold c; rewrite Hu; lra).
  assert (Hne : 0 <= n * eta <= / 1000000).
  { split; [apply Rmult_le_pos; lra |].
    apply Rle_trans with (4096 * / 1099511627776); [| lra].
    apply Rmult_le_compat; lra. }
  assert (Hcu : 0 <= c * u <= / 1000000).
  { split; [apply Rmult_le_pos; lra |]. rewrite Hu. nra. }
  assert (HP' : 1 - 2 * c - / 100000 <= P <= 1 + 2 * c + / 100000).
  { rewrite Hu in HP. nra. }
  assert (Hcc : 0 <= c * c <= / 1000000) by nra.
  apply Rabs_le. nra.
Qed.
End SoftmaxRounding.

(** ** The softmax in binary32: a distribution up to rounding *)

Section SoftmaxBinary32.
Variable expf : float -> float.
Local Open Scope R_scope.

Lemma fold_left_Rplus_ge (l : list R) (x : R) :
  Forall (fun p => 0 <= p) l -> In x l -> x <= fold_left Rplus l 0.
Proof.
  induction 1 as [| y l Hy Hl IH]; simpl; [contradiction |].
  assert (H0 : 0 <= fold_left Rplus l 0).
  { clear IH. induction Hl as [| z l Hz Hl IH]; simpl; [lra |].
    rewrite fold_left_Rplus. lra. }
  intros [<- | Hin]; rewrite fold_left_Rplus; [lra |].
  specialize (IH Hin). lra.
Qed.

Lemma regular_is_finite (x : float) : b32_regular x = true -> b32_finite x = true.
Proof. unfold b32_regular. intros H. apply andb_true_iff in H. apply H. Qed.

(** The shifted logits are at most zero, and the one of the maximum is
    [+0]. *)
Lemma b32_shifted_logits (logits : list float) :
  logits <> [] -> Forall (fun z => b32_regular z = true) logits ->
  let mx := nth (max_element (ops := binary32 expf) logits) logits b32_zero in
  In mx logits /\
  SFsub prec32 emax32 mx mx = b32_zero /\
  Forall (fun z => SFleb z mx = true /\
                   b32_nonpos (SFsub prec32 emax32 z mx) = true) logits.
Proof.
  intros Hne Hall mx.
  destruct (b32_max_element_max expf logits Hne Hall) as (_ & Hin & Hmax).
  fold mx in Hin, Hmax.
  assert (Hmx : b32_regular mx = true)
    by (exact (proj1 (Forall_forall _ logits) Hall mx Hin)).
  split; [exact Hin |]. split; [apply b32_sub_same, regular_is_finite, Hmx |].
  apply Forall_forall. intros z Hz.
  assert (Hzr : b32_regular z = true)
    by (exact (proj1 (Forall_forall _ logits) Hall z Hz)).
  split; [apply b32_leb_intro | apply b32_sub_nonpos]; auto.
Qed.

(** The softmax of at most 8192 logits that are floats of the format, for
    a [std::exp] that is one at [+0] and returns a float between zero and
    one on every shifted logit: every entry is a float of the format
    between zero and one, and the entries sum to one within [1/1000], added
    as reals and, up to 4096 logits, also when accumulated in binary32. *)
Lemma b32_softmax_distribution (logits : list float) :
  logits <> [] -> (Z.of_nat (length logits) <= 8192)%Z ->
  Forall (fun z => b32_regular z = true) logits ->
  expf b32_zero = b32_one ->
  let mx := nth (max_element (ops := binary32 expf) logits) logits b32_zero in
  Forall (fun z => b32_unit (expf (SFsub prec32 emax32 z mx)) = true) logits ->
  let out := softmax_spec (ops := binary32 expf) logits in
  length out = length logits /\
  Forall (fun p => b32_unit p = true) out /\
  Rabs (fold_left Rplus (map b32_to_R out) 0 - 1) <= / 1000 /\
  ((Z.of_nat (length logits) <= 4096)%Z ->
   b32_nonneg (fold_left (SFadd prec32 emax32) out b32_zero) = true /\
   Rabs (b32_to_R (fold_left (SFadd prec32 emax32) out b32_zero) - 1) <= / 1000).
Proof.
  intros Hne Hlen Hall Hexp0 mx Hexp out. subst out. unfold softmax_spec.
  cbn [fsub fexp fadd fdiv f0 binary32]. fold mx.
  set (exps := map (fun z => expf (SFsub prec32 emax32 z mx)) logits).
  set (s := fold_left (SFadd prec32 emax32) exps b32_zero).
  assert (Hlexps : length exps = length logits) by (unfold exps; apply length_map).
  assert (Hunit : Forall (fun e => b32_unit e = true) exps).
  { unfold exps. apply Forall_forall. intros e He. apply in_map_iff in He.
    destruct He as (z & <- & Hz).
    exact (proj1 (Forall_forall _ logits) Hexp z Hz). }
  destruct (b32_sum_bounds exps Hunit ltac:(rewrite Hlexps; exact Hlen))
    as (Hsnn & Hin & HA & Hs).
  fold s in Hsnn, Hin, Hs.
  set (A := fold_left Rplus (map b32_to_R exps) 0) in *.
  set (n := INR (length exps)) in *.
  destruct (b32_shifted_logits logits Hne Hall) as (Hmxin & Hself & _).
  fold mx in Hmxin, Hself.
  assert (Hone : In b32_one exps).
  { unfold exps. apply in_map_iff. exists mx. split; [| exact Hmxin].
    rewrite Hself. exact Hexp0. }
  assert (Hs1 : 1 <= b32_to_R s).
  { rewrite <- b32_one_value. apply Hin, Hone. }
  assert (HA1 : 1 <= A).
  { rewrite <- b32_one_value. unfold A. apply fold_left_Rplus_ge.
    - apply Forall_forall. intros v Hv. apply in_map_iff in Hv.
      destruct Hv as (e & <- & He).
      apply (b32_unit_inv e), (proj1 (Forall_forall _ exps) Hunit e He).
    - apply in_map, Hone. }
  assert (Hdiv : forall e, In e exps ->
            b32_unit (SFdiv prec32 emax32 e s) = true /\
            (1 - pow2 (-24)) * (b32_to_R e / b32_to_R s) - pow2 (-150)
            <= b32_to_R (SFdiv prec32 emax32 e s)
            <= (1 + pow2 (-24)) * (b32_to_R e / b32_to_R s) + pow2 (-150)).
  { intros e He.
    destruct (b32_unit_inv e (proj1 (Forall_forall _ exps) Hunit e He))
      as (Henn & _).
    destruct (b32_div_spec e s Henn Hsnn ltac:(lra) (Hin e He))
      as (Hpnn & Hp1 & Herr).
    split; [apply b32_unit_intro; assumption |].
    apply Rabs_le_both in Herr. lra. }
  set (out := map (fun p => SFdiv prec32 emax32 p s) exps).
  assert (Hlout : length out = length exps) by (unfold out; apply length_map).
  assert (Hout : Forall (fun p => b32_unit p = true) out).
  { apply Forall_forall. intros p Hp. apply in_map_iff in Hp.
    destruct Hp as (e & <- & He). apply (Hdiv e He). }
  assert (Hn : 0 <= n <= 8192).
  { split; [apply pos_INR |]. unfold n. rewrite Hlexps, INR_IZR_INZ.
    apply IZR_le, Hlen. }
  pose proof (div_sum_bounds exps s (pow2 (-24)) (pow2 (-150))
                (fun e He => proj2 (Hdiv e He))) as Hsum.
  cbv zeta in Hsum. fold A n out in Hsum.
  pose proof (normalised_sum_bounds A (b32_to_R s) _ n HA1 ltac:(lra) Hn Hs Hsum)
    as HP.
  change (length out = length logits /\
          Forall (fun p => b32_unit p = true) out /\
          Rabs (fold_left Rplus (map b32_to_R out) 0 - 1) <= / 1000 /\
          ((Z.of_nat (length logits) <= 4096)%Z ->
           b32_nonneg (fold_left (SFadd prec32 emax32) out b32_zero) = true /\
           Rabs (b32_to_R (fold_left (SFadd prec32 emax32) out b32_zero) - 1)
           <= / 1000)).
  clearbody out.
  split; [rewrite Hlout; exact Hlexps |]. split; [exact Hout |]. split.
  - apply (normalised_sum_close _ n Hn HP).
  - intros Hlen4.
    assert (Hlen8 : (Z.of_nat (length out) <= 8192)%Z)
      by (rewrite Hlout, Hlexps; exact Hlen).
    pose proof (b32_sum_bounds out Hout Hlen8) as HB. cbv zeta in HB.
    destruct HB as (HTnn & _ & _ & HT).
    match type of HT with
    | context [INR ?l] =>
        assert (En : INR l = n) by (unfold n; f_equal; exact Hlout);
        rewrite En in HT
    end.
    split; [exact HTnn |].
    refine (accumulated_sum_close _ _ n _ HP HT).
    split; [apply pos_INR |]. unfold n. rewrite Hlexps, INR_IZR_INZ.
    apply IZR_le, Hlen4.
Qed.

(** For a [std::exp] that returns a float between zero and one on every
    argument that is at most zero, the premise on the shifted logits
    holds. *)
Lemma b32_shifted_exp_unit (logits : list float) :
  logits <> [] -> Forall (fun z => b32_regular z = true) logits ->
  (forall a : float, b32_nonpos a = true -> b32_unit (expf a) = true) ->
  let mx := nth (max_element (ops := binary32 expf) logits) logits b32_zero in
  Forall (fun z => b32_unit (expf (SFsub prec32 emax32 z mx)) = true) logits.
Proof.
  intros Hne Hall Hexp mx.
  destruct (b32_shifted_logits logits Hne Hall) as (_ & _ & Hsh). fold mx in Hsh.
  apply Forall_forall. intros z Hz.
  apply Hexp, (proj1 (Forall_forall _ logits) Hsh z Hz).
Qed.
End SoftmaxBinary32.

(** ** The accumulated sum stops growing at [2^24] *)

Section Stagnation.
Variable expf : float -> float.
Local Open Scope R_scope.

(** An integer up to [2^24] is a float of the format: rounding leaves it
    as it is. *)
Lemma rounds_exact_int (N : Z) (r : float) :
  b32_rounds (IZR N) false r -> (0 <= N <= 2 ^ 24)%Z ->
  b32_nonneg r = true /\ b32_to_R r = IZR N.
Proof.
  intros Hr HN.
  assert (Hv0 : 0 <= IZR N) by (apply IZR_le; lia).
  assert (Hcap : IZR N <= b32_to_R b32_two_24).
  { unfold b32_two_24, b32_to_R. change (Zpos 8388608) with (2 ^ 23)%Z.
    rewrite <- (pow2_IZR 23), <- pow2_add, (pow2_IZR (23 + 1)) by lia.
    apply IZR_le. simpl. lia. }
  destruct (rounds_le (IZR N) r b32_two_24 Hr Hv0 eq_refl Hcap) as [Hnn _].
  split; [exact Hnn |].
  destruct (rounds_value (IZR N) r Hr Hnn)
    as (m' & e' & He' & Hm' & Hn & Hlo & Herr & Hup & Hlow & ->).
  assert (He1 : (e' <= 1)%Z).
  { destruct (Z_le_gt_dec e' 1) as [H | H]; [exact H | exfalso].
    specialize (Hlo ltac:(lia)).
    assert (H25 : pow2 25 <= pow2 (23 + e')) by (apply pow2_le; lia).
    rewrite (pow2_IZR 25) in H25 by lia.
    assert (HN' : IZR N < IZR (2 ^ 25)) by (apply IZR_lt; simpl; lia).
    lra. }
  assert (Hint : exists G : Z, IZR N * pow2 (- e') = IZR G).
  { destruct (Z.eq_dec e' 1) as [-> | Hne].
    - specialize (Hlo ltac:(lia)). simpl (23 + 1)%Z in Hlo.
      rewrite (pow2_IZR 24) in Hlo by lia. apply le_IZR in Hlo.
      assert (N = (2 ^ 24)%Z) by lia. subst N. exists (2 ^ 23)%Z.
      rewrite <- (pow2_IZR 24), <- (pow2_IZR 23), <- pow2_add by lia.
      reflexivity.
    - exists (N * 2 ^ (- e'))%Z. rewrite mult_IZR, <- pow2_IZR by lia. reflexivity. }
  destruct Hint as [G HG].
  assert (m' = G) by (apply Z.le_antisymm; [apply Hup | apply Hlow]; lra).
  subst m'. rewrite <- HG, Rmult_assoc, (Rmult_comm (pow2 (- e'))), pow2_opp.
  lra.
Qed.

(** Adding two floats that are at least zero is exact when the sum is an
    integer up to [2^24]. *)
Lemma b32_add_exact (a b : float) (N : Z) :
  b32_nonneg a = true -> b32_nonneg b = true ->
  b32_to_R a + b32_to_R b = IZR N -> (N <= 2 ^ 24)%Z ->
  b32_nonneg (SFadd prec32 emax32 a b) = true /\
  b32_to_R (SFadd prec32 emax32 a b) = IZR N.
Proof.
  intros Ha Hb Hsum HN.
  pose proof (nonneg_value a Ha) as Ha0. pose proof (nonneg_value b Hb) as Hb0.
  destruct a as [sa | sa | | sa ma ea]; try discriminate Ha;
    destruct b as [sb | sb | | sb mb eb]; try discriminate Hb.
  - split; [destruct sa, sb; reflexivity |].
    rewrite <- Hsum. destruct sa, sb; simpl; lra.
  - split; [exact Hb |]. rewrite <- Hsum. simpl. lra.
  - split; [exact Ha |]. rewrite <- Hsum. simpl. lra.
  - destruct sa; [discriminate Ha |]. destruct sb; [discriminate Hb |].
    pose proof (b32_add_finite_rounds ma mb ea eb) as Hr.
    cbn [b32_to_R] in Hsum. rewrite Hsum in Hr.
    apply rounds_exact_int; [exact Hr |]. split; [| exact HN].
    apply le_IZR. rewrite <- Hsum. simpl in Ha0, Hb0. lra.
Qed.

(** Two positive floats of the format with the same value are the same
    float. *)
Lemma nonneg_value_inj (x y : float) :
  b32_nonneg x = true -> b32_nonneg y = true ->
  0 < b32_to_R x -> b32_to_R x = b32_to_R y -> x = y.
Proof.
  intros Hx Hy Hpos E.
  destruct x as [sx | sx | | sx mx ex]; try discriminate Hx; [simpl in Hpos; lra |].
  destruct y as [sy | sy | | sy my ey]; try discriminate Hy;
    [simpl in E, Hpos; lra |].
  destruct sx; [discriminate Hx |]. destruct sy; [discriminate Hy |].
  cbn [b32_nonneg b32_to_R] in *.
  pose proof (bounded_compare mx my ex ey Hx Hy) as Hc.
  destruct (Z.compare_spec ex ey) as [-> | Hlt | Hgt]; [| lra | lra].
  destruct (Pos.compare_cont Eq mx my) eqn:Hm; [| lra | lra].
  apply Pcompare_Eq_eq in Hm. subst my. reflexivity.
Qed.

(** The count of [n <= 2^24] ones is [n]. *)
Lemma b32_count_exact (n : nat) :
  (Z.of_nat n <= 2 ^ 24)%Z ->
  let s := fold_left (SFadd prec32 emax32) (repeat b32_one n) b32_zero in
  b32_nonneg s = true /\ b32_to_R s = IZR (Z.of_nat n).
Proof.
  induction n as [| n IH]; intros Hn; cbv zeta.
  - split; [reflexivity |]. simpl. reflexivity.
  - change (repeat b32_one (S n)) with (b32_one :: repeat b32_one n).
    rewrite repeat_cons, fold_left_app. cbn [fold_left].
    specialize (IH ltac:(lia)). cbv zeta in IH. destruct IH as [Hnn Hval].
    apply b32_add_exact; [exact Hnn | reflexivity | | exact Hn].
    transitivity (IZR (Z.of_nat n) + 1);
      [f_equal; [exact Hval | apply b32_one_value] |].
    rewrite <- plus_IZR. f_equal. lia.
Qed.

(** At [2^24] the count is stuck: [2^24 + 1] rounds back to [2^24]. *)
Lemma b32_count_stuck (m : nat) :
  fold_left (SFadd prec32 emax32) (repeat b32_one m) b32_two_24 = b32_two_24.
Proof.
  induction m as [| m IH]; [reflexivity |].
  cbn [repeat fold_left].
  replace (SFadd prec32 emax32 b32_two_24 b32_one) with b32_two_24
    by (vm_compute; reflexivity).
  exact IH.
Qed.

Lemma b32_count_of_ones_stuck (k n m : nat) :
  Z.of_nat n = (2 ^ 24)%Z -> k = (n + m)%nat ->
  count_of_ones (ops := binary32 expf) k = b32_two_24.
Proof.
  intros Hn ->. unfold count_of_ones. cbn [f0 f1 fadd binary32].
  rewrite repeat_app, fold_left_app.
  destruct (b32_count_exact n ltac:(lia)) as [Hnn Hval]. cbv zeta in Hnn, Hval.
  assert (E : fold_left (SFadd prec32 emax32) (repeat b32_one n) b32_zero
              = b32_two_24).
  { apply nonneg_value_inj; [exact Hnn | reflexivity | |].
    - rewrite Hval, Hn. apply IZR_lt. reflexivity.
    - rewrite Hval, Hn. unfold b32_two_24, b32_to_R.
      change (Zpos 8388608) with (2 ^ 23)%Z.
      rewrite <- (pow2_IZR 23), <- pow2_add, (pow2_IZR (23 + 1)) by lia.
      reflexivity. }
  transitivity (fold_left (SFadd prec32 emax32) (repeat b32_one m) b32_two_24);
    [f_equal; exact E | apply b32_count_stuck].
Qed.

Lemma sum_of_repeat (p : float) (k : nat) :
  fold_left Rplus (map b32_to_R (repeat p k)) 0 = INR k * b32_to_R p.
Proof.
  induction k as [| k IH].
  - simpl. lra.
  - cbn [repeat map fold_left]. rewrite fold_left_Rplus, IH, S_INR. lra.
Qed.

(** With [2^25] classes and equal logits every entry is [2^-24], and the
    entries sum to two. *)
Lemma b32_uniform_sum_two (k : nat) :
  Z.of_nat k = (2 ^ 25)%Z ->
  fold_left Rplus
    (map b32_to_R
       (repeat (SFdiv prec32 emax32 b32_one
                  (count_of_ones (ops := binary32 expf) k)) k)) 0 = 2.
Proof.
  intros Hk.
  rewrite (b32_count_of_ones_stuck k (Z.to_nat (2 ^ 24)) (Z.to_nat (2 ^ 24)));
    [| apply Z2Nat.id; lia
     | apply Nat2Z.inj; rewrite Nat2Z.inj_add, Z2Nat.id, Hk by lia; reflexivity].
  replace (SFdiv prec32 emax32 b32_one b32_two_24)
    with (S754_finite false 8388608 (-47)) by (vm_compute; reflexivity).
  rewrite sum_of_repeat, INR_IZR_INZ, Hk. unfold b32_to_R.
  change (Zpos 8388608) with (2 ^ 23)%Z. change (2 ^ 25)%Z with (2 * 2 ^ 24)%Z.
  rewrite mult_IZR, <- (pow2_IZR 23), <- (pow2_IZR 24) by lia.
  rewrite Rmult_assoc, <- !pow2_add. simpl (24 + (23 + -47))%Z. rewrite pow2_0. lra.
Qed.
End Stagnation.

(** ** The sigmoid and the softmax in binary32 *)





(** A logit that overflows: the output is NaN. *)
Lemma overflow_softmax_value (expf : float -> float) :
  let ops := binary32 expf in
  MultiClassClassifier.forward
    (snd (MultiClassClassifier.set_parameters overflow_params
            (MultiClassClassifier.ctor 1 1)))
    [b32_lit 10 1]
  = Returns [SFdiv prec32 emax32 (expf b32_nan)
               (SFadd prec32 emax32 b32_zero (expf b32_nan))].
Proof. intros ops. vm_compute. reflexivity. Qed.

Lemma overflow_softmax_nan (expf : float -> float) :
  expf b32_nan = b32_nan ->
  let ops := binary32 expf in
  MultiClassClassifier.forward
    (snd (MultiClassClassifier.set_parameters overflow_params
            (MultiClassClassifier.ctor 1 1)))
    [b32_lit 10 1]
  = Returns [b32_nan].
Proof.
  intros Hexp ops. unfold ops. rewrite overflow_softmax_value, Hexp. reflexivity.
Qed.

(** Logits 1000 and -1000: the exponents are 0 and -2000. *)
Lemma large_logit_softmax_value (expf : float -> float) :
  let ops := binary32 expf in
  MultiClassClassifier.forward
    (snd (MultiClassClassifier.set_parameters large_logit_params
            (MultiClassClassifier.ctor 1 2)))
    [b32_one]
  = Returns
      (let e0 := expf b32_zero in
       let e1 := expf (b32_lit (-2000) 1) in
       let sum_exp := SFadd prec32 emax32 (SFadd prec32 emax32 b32_zero e0) e1 in
       [SFdiv prec32 emax32 e0 sum_exp; SFdiv prec32 emax32 e1 sum_exp]).
Proof. intros ops. vm_compute. reflexivity. Qed.

Lemma large_logit_softmax (expf : float -> float) :
  expf b32_zero = b32_one -> expf (b32_lit (-2000) 1) = b32_zero ->
  let ops := binary32 expf in
  MultiClassClassifier.forward
    (snd (MultiClassClassifier.set_parameters large_logit_params
            (MultiClassClassifier.ctor 1 2)))
    [b32_one]
  = Returns [b32_one; b32_zero].
Proof.
  intros H0 H1 ops. unfold ops. rewrite large_logit_softmax_value. cbv zeta.
  rewrite H0, H1. reflexivity.
Qed.




(** Logits -1000 and 1000, the maximum in the second place: the exponents
    are -2000 and 0. *)
Lemma large_logit_second_value (expf : float -> float) :
  let ops := binary32 expf in
  MultiClassClassifier.forward
    (snd (MultiClassClassifier.set_parameters large_logit_params
            (MultiClassClassifier.ctor 1 2)))
    [b32_lit (-1) 1]
  = Returns
      (let e0 := expf (b32_lit (-2000) 1) in
       let e1 := expf b32_zero in
       let sum_exp := SFadd prec32 emax32 (SFadd prec32 emax32 b32_zero e0) e1 in
       [SFdiv prec32 emax32 e0 sum_exp; SFdiv prec32 emax32 e1 sum_exp]).
Proof. intros ops. vm_compute. reflexivity. Qed.

Lemma large_logit_second (expf : float -> float) :
  expf b32_zero = b32_one -> expf (b32_lit (-2000) 1) = b32_zero ->
  let ops := binary32 expf in
  MultiClassClassifier.forward
    (snd (MultiClassClassifier.set_parameters large_logit_params
            (MultiClassClassifier.ctor 1 2)))
    [b32_lit (-1) 1]
  = Returns [b32_zero; b32_one].
Proof.
  intros H0 H1 ops. unfold ops. rewrite large_logit_second_value. cbv zeta.
  rewrite H0, H1. reflexivity.
Qed.

Lemma nth_map_inside {A B : Type} (f : A -> B) (l : list A) (c : nat) (d : B) (d' : A) :
  c < length l -> nth c (map f l) d = f (nth c l d').
Proof.
  intros H. rewrite (nth_indep _ d (f d')) by (rewrite length_map; exact H).
  apply map_nth.
Qed.

(** The output of [forward] in binary32 while the logits are floats of the
    format. *)
Lemma b32_forward_distribution (expf : float -> float)
    (self : MultiClassClassifier.t float) (x logits : list float) :
  MultiClassClassifier.wf self ->
  length x = MultiClassClassifier.input_size_ self ->
  1 <= MultiClassClassifier.num_classes_ self ->
  (Z.of_nat (MultiClassClassifier.num_classes_ self) <= 8192)%Z ->
  MultiClassClassifier.compute_logits (ops := binary32 expf) self x = Returns logits ->
  Forall (fun z => b32_regular z = true) logits ->
  expf b32_zero = b32_one ->
  Forall (fun z => b32_unit
                     (expf (SFsub prec32 emax32 z
                              (nth (max_element (ops := binary32 expf) logits)
                                   logits b32_zero))) = true) logits ->
  exists out : list float,
    MultiClassClassifier.forward (ops := binary32 expf) self x = Returns out /\
    length out = MultiClassClassifier.num_classes_ self /\
    Forall (fun p => b32_unit p = true /\ (0 <= b32_to_R p <= 1)%R) out /\
    (Rabs (fold_left Rplus (map b32_to_R out) 0 - 1) <= / 1000)%R /\
    ((Z.of_nat (MultiClassClassifier.num_classes_ self) <= 4096)%Z ->
     b32_nonneg (fold_left (SFadd prec32 emax32) out b32_zero) = true /\
     (Rabs (b32_to_R (fold_left (SFadd prec32 emax32) out b32_zero) - 1)
      <= / 1000)%R).
Proof.
  intros Hwf Hx Hk Hk8 Hlogits Hall Hexp0 Hexp.
  rewrite MultiClass_compute_logits_wf in Hlogits by assumption.
  injection Hlogits as Hlogits.
  assert (Hlen : length logits = MultiClassClassifier.num_classes_ self)
    by (rewrite <- Hlogits, length_map, length_seq; reflexivity).
  assert (Hne : logits <> [])
    by (intros E; rewrite E in Hlen; simpl in Hlen; lia).
  destruct (b32_softmax_distribution expf logits Hne
              ltac:(rewrite Hlen; exact Hk8) Hall Hexp0 Hexp)
    as (Hl & Hunit & Hsum & Hacc).
  exists (softmax_spec (ops := binary32 expf) logits).
  split; [rewrite <- Hlogits; apply MultiClass_forward_wf; [assumption | lia | assumption] |].
  split; [rewrite Hl; exact Hlen |]. split; [| split; [exact Hsum |]].
  - apply Forall_forall. intros p Hp.
    pose proof (proj1 (Forall_forall _ _) Hunit p Hp) as Hpu.
    split; [exact Hpu | apply (b32_unit_inv p Hpu)].
  - intros Hk4. apply Hacc. rewrite Hlen. exact Hk4.
Qed.

(** C4, as stated, fails in binary32: finite parameters and a finite input
    whose logit overflows give the output [NaN], for every [std::exp] that
    returns NaN on NaN, the reference one among them. *)
Lemma softmax_output_nan :
  exists ps x : list float,
    all_finite ps /\ all_finite x /\
    (forall expf : float -> float,
       expf b32_nan = b32_nan ->
       let ops := binary32 expf in
       MultiClassClassifier.forward
         (snd (MultiClassClassifier.set_parameters ps
                 (MultiClassClassifier.ctor 1 1)))
         x
       = Returns [b32_nan]) /\
    exp_reference b32_nan = b32_nan.
Proof.
  exists overflow_params, [b32_lit 10 1].
  split; [repeat constructor |]. split; [repeat constructor |].
  split; [exact overflow_softmax_nan | reflexivity].
Qed.

(** C4, amended: the output of [forward] is a probability distribution
    while the logits are finite.  For every arithmetic, [forward] returns
    for class [c] the quotient of [exp (z_c - z_max)] by the sum of these
    exponentials accumulated from the left, where [z_max] is the entry of
    the logits that [std::max_element] finds.  In binary32, for a
    classifier with at most 8192 classes whose logits are floats of the
    format (finite, no NaN), [z_max] is a logit that no logit exceeds, so
    every shifted logit is at most zero (zero, negative, or [-inf] when the
    difference overflows); then, for a [std::exp] that is one at [+0] and
    returns a float between zero and one on these arguments, every output
    entry is a float of the format between zero and one, and the entries
    sum to one within [1/1000], added as reals and, up to 4096 classes,
    also when accumulated in binary32.  Logits 1000 and -1000, in
    either order, give the outputs [1, 0] and [0, 1], where [std::exp]
    underflows to zero at -2000.  Evaluated in exact real arithmetic the
    output sums to one exactly, each entry in (0, 1].  Finite parameters
    and a finite input whose logit overflows give [NaN].  The number of
    classes has to be bounded: with [2^25] classes and all parameters zero
    the accumulated sum of the exponentials stops at [2^24], every entry is
    [2^-24], and the entries sum to two. *)
Theorem softmax_output_spec :
  (forall (F : Type) (ops : FloatOps F) (self : MultiClassClassifier.t F)
          (x : list F),
     MultiClassClassifier.wf self ->
     1 <= MultiClassClassifier.num_classes_ self ->
     length x = MultiClassClassifier.input_size_ self ->
     exists logits : list F,
       MultiClassClassifier.compute_logits self x = Returns logits /\
       length logits = MultiClassClassifier.num_classes_ self /\
       MultiClassClassifier.forward self x = Returns (softmax_spec logits) /\
       forall c, c < MultiClassClassifier.num_classes_ self ->
         let z_max := nth (max_element logits) logits f0 in
         nth c (softmax_spec logits) f0
         = fdiv (fexp (fsub (nth c logits f0) z_max))
                (fold_left fadd (map (fun z => fexp (fsub z z_max)) logits) f0)) /\
  (forall (expf : float -> float) (self : MultiClassClassifier.t float)
          (x logits : list float),
     MultiClassClassifier.wf self ->
     length x = MultiClassClassifier.input_size_ self ->
     1 <= MultiClassClassifier.num_classes_ self ->
     (Z.of_nat (MultiClassClassifier.num_classes_ self) <= 8192)%Z ->
     MultiClassClassifier.compute_logits (ops := binary32 expf) self x
     = Returns logits ->
     Forall (fun z => b32_regular z = true) logits ->
     expf b32_zero = b32_one ->
     let z_max := nth (max_element (ops := binary32 expf) logits) logits b32_zero in
     let distribution :=
       exists out : list float,
         MultiClassClassifier.forward (ops := binary32 expf) self x = Returns out /\
         length out = MultiClassClassifier.num_classes_ self /\
         Forall (fun p => b32_unit p = true /\ (0 <= b32_to_R p <= 1)%R) out /\
         (Rabs (fold_left Rplus (map b32_to_R out) 0 - 1) <= / 1000)%R /\
         ((Z.of_nat (MultiClassClassifier.num_classes_ self) <= 4096)%Z ->
          b32_nonneg (fold_left (SFadd prec32 emax32) out b32_zero) = true /\
          (Rabs (b32_to_R (fold_left (SFadd prec32 emax32) out b32_zero) - 1)
           <= / 1000)%R) in
     In z_max logits /\
     Forall (fun z => SFleb z z_max = true /\ (b32_to_R z <= b32_to_R z_max)%R /\
                      b32_nonpos (SFsub prec32 emax32 z z_max) = true) logits /\
     (Forall (fun z => b32_unit (expf (SFsub prec32 emax32 z z_max)) = true) logits ->
      distribution) /\
     ((forall a : float, b32_nonpos a = true -> b32_unit (expf a) = true) ->
      distribution)) /\
  (forall (self : MultiClassClassifier.t R) (x : list R),
     MultiClassClassifier.wf self ->
     1 <= MultiClassClassifier.num_classes_ self ->
     length x = MultiClassClassifier.input_size_ self ->
     exists logits out : list R,
       MultiClassClassifier.compute_logits (ops := real_arith) self x
       = Returns logits /\
       MultiClassClassifier.forward (ops := real_arith) self x = Returns out /\
       out = softmax_spec (ops := real_arith) logits /\
       length out = MultiClassClassifier.num_classes_ self /\
       Forall (fun p => 0 < p <= 1)%R out /\
       fold_left Rplus out 0%R = 1%R /\
       Forall (fun z => z - nth (max_element (ops := real_arith) logits) logits 0 <= 0)%R
              logits) /\
  (forall expf : float -> float,
     expf b32_zero = b32_one -> expf (b32_lit (-2000) 1) = b32_zero ->
     let ops := binary32 expf in
     MultiClassClassifier.forward
       (snd (MultiClassClassifier.set_parameters large_logit_params
               (MultiClassClassifier.ctor 1 2)))
       [b32_one]
     = Returns [b32_one; b32_zero]) /\
  (forall expf : float -> float,
     expf b32_zero = b32_one -> expf (b32_lit (-2000) 1) = b32_zero ->
     let ops := binary32 expf in
     MultiClassClassifier.forward
       (snd (MultiClassClassifier.set_parameters large_logit_params
               (MultiClassClassifier.ctor 1 2)))
       [b32_lit (-1) 1]
     = Returns [b32_zero; b32_one]) /\
  (forall expf : float -> float,
     expf b32_nan = b32_nan ->
     let ops := binary32 expf in
     MultiClassClassifier.forward
       (snd (MultiClassClassifier.set_parameters overflow_params
               (MultiClassClassifier.ctor 1 1)))
       [b32_lit 10 1]
     = Returns [b32_nan]) /\
  (forall (expf : float -> float) (n : nat) (x : list float),
     expf b32_zero = b32_one -> length x = n -> all_finite x ->
     let k := Z.to_nat (2 ^ 25) in
     exists out : list float,
       MultiClassClassifier.forward (ops := binary32 expf)
         (MultiClassClassifier.ctor (ops := binary32 expf) n k) x = Returns out /\
       out = repeat (S754_finite false 8388608 (-47)) k /\
       fold_left Rplus (map b32_to_R out) 0%R = 2%R).
Proof.
  split; [| split; [| split; [| split; [| split; [| split]]]]].
  - intros F ops self x Hwf Hk Hx.
    set (logits := map (MultiClassClassifier.stored_logit self x)
                       (seq 0 (MultiClassClassifier.num_classes_ self))).
    assert (Hlen : length logits = MultiClassClassifier.num_classes_ self)
      by (unfold logits; rewrite length_map, length_seq; reflexivity).
    exists logits.
    split; [apply MultiClass_compute_logits_wf; assumption |].
    split; [exact Hlen |].
    split; [apply MultiClass_forward_wf; [assumption | lia | assumption] |].
    intros c Hc z_max. unfold softmax_spec. fold z_max.
    rewrite (nth_map_inside _ _ c f0 f0) by (rewrite length_map, Hlen; exact Hc).
    rewrite (nth_map_inside _ _ c f0 f0) by (rewrite Hlen; exact Hc).
    reflexivity.
  - intros expf self x logits Hwf Hx Hk Hk8 Hlogits Hall Hexp0 z_max distribution.
    assert (Hlen : length logits = MultiClassClassifier.num_classes_ self).
    { rewrite MultiClass_compute_logits_wf in Hlogits by assumption.
      injection Hlogits as <-. rewrite length_map, length_seq. reflexivity. }
    assert (Hne : logits <> [])
      by (intros E; rewrite E in Hlen; simpl in Hlen; lia).
    destruct (b32_max_element_max expf logits Hne Hall) as (_ & Hin & Hmax).
    destruct (b32_shifted_logits expf logits Hne Hall) as (_ & _ & Hsh).
    fold z_max in Hin, Hmax, Hsh.
    split; [exact Hin |]. split; [| split].
    + apply Forall_forall. intros z Hz.
      destruct (proj1 (Forall_forall _ _) Hsh z Hz) as [Hle Hnp].
      split; [exact Hle |]. split; [apply Hmax, Hz | exact Hnp].
    + intros Hexp. unfold distribution.
      apply (b32_forward_distribution expf self x logits); assumption.
    + intros Hexp. unfold distribution.
      apply (b32_forward_distribution expf self x logits); try assumption.
      apply b32_shifted_exp_unit; assumption.
  - intros self x Hwf Hk Hx.
    set (logits := map (MultiClassClassifier.stored_logit (ops := real_arith) self x)
                       (seq 0 (MultiClassClassifier.num_classes_ self))).
    assert (Hlen : length logits = MultiClassClassifier.num_classes_ self)
      by (unfold logits; rewrite length_map, length_seq; reflexivity).
    assert (Hne : logits <> [])
      by (intros E; rewrite E in Hlen; simpl in Hlen; lia).
    destruct (real_softmax_distribution logits Hne) as (Hl & Hin & Hsum & Hmax).
    exists logits, (softmax_spec (ops := real_arith) logits).
    split; [apply MultiClass_compute_logits_wf; assumption |].
    split; [apply MultiClass_forward_wf; [assumption | lia | assumption] |].
    split; [reflexivity |].
    split; [rewrite Hl; exact Hlen |].
    split; [exact Hin |]. split; [exact Hsum | exact Hmax].
  - exact large_logit_softmax.
  - exact large_logit_second.
  - exact overflow_softmax_nan.
  - intros expf n x Hexp Hx Hfin k.
    assert (Hk : Z.of_nat k = (2 ^ 25)%Z) by (apply Z2Nat.id; lia).
    clearbody k.
    exists (repeat (S754_finite false 8388608 (-47)) k).
    assert (Hp : SFdiv prec32 emax32 b32_one (count_of_ones (ops := binary32 expf) k)
                 = S754_finite false 8388608 (-47)).
    { rewrite (b32_count_of_ones_stuck expf k (Z.to_nat (2 ^ 24)) (Z.to_nat (2 ^ 24)));
        [vm_compute; reflexivity
        | apply Z2Nat.id; lia
        | apply Nat2Z.inj; rewrite Nat2Z.inj_add, Z2Nat.id, Hk by lia; reflexivity]. }
    split; [| split; [reflexivity |]].
    + rewrite (fresh_multiclass_forward expf n k x Hexp ltac:(lia) Hx Hfin).
      cbn [fdiv f1 binary32]. rewrite Hp. reflexivity.
    + rewrite <- Hp. apply b32_uniform_sum_two, Hk.
Qed.

Lemma softmax_output_spec_witness :
  let expf := exp_reference in
  let self := snd (MultiClassClassifier.set_parameters
                     multiclass_example_params
                     (MultiClassClassifier.ctor (ops := binary32 expf) 2 3)) in
  let x := multiclass_example_input in
  let logits := [S754_finite false 10066330 (-24);
                 S754_finite true 16106128 (-25);
                 S754_finite false 8891924 (-23)] in
  MultiClassClassifier.wf self /\
  length x = MultiClassClassifier.input_size_ self /\
  1 <= MultiClassClassifier.num_classes_ self /\
  (Z.of_nat (MultiClassClassifier.num_classes_ self) <= 8192)%Z /\
  MultiClassClassifier.compute_logits (ops := binary32 expf) self x = Returns logits /\
  Forall (fun z => b32_regular z = true) logits /\
  expf b32_zero = b32_one /\
  Forall (fun z => b32_unit
                     (expf (SFsub prec32 emax32 z
                              (nth (max_element (ops := binary32 expf) logits)
                                   logits b32_zero))) = true) logits /\
  exists out : list float,
    MultiClassClassifier.forward (ops := binary32 expf) self x = Returns out /\
    length out = MultiClassClassifier.num_classes_ self /\
    Forall (fun p => b32_unit p = true /\ (0 <= b32_to_R p <= 1)%R) out /\
    (Rabs (fold_left Rplus (map b32_to_R out) 0 - 1) <= / 1000)%R /\
    ((Z.of_nat (MultiClassClassifier.num_classes_ self) <= 4096)%Z ->
     b32_nonneg (fold_left (SFadd prec32 emax32) out b32_zero) = true /\
     (Rabs (b32_to_R (fold_left (SFadd prec32 emax32) out b32_zero) - 1)
      <= / 1000)%R).
Proof.
  intros expf self x logits.
  assert (Hwf : MultiClassClassifier.wf self)
    by (vm_compute; repeat split; repeat constructor).
  assert (Hx : length x = MultiClassClassifier.input_size_ self) by reflexivity.
  assert (Hk : 1 <= MultiClassClassifier.num_classes_ self) by (vm_compute; lia).
  assert (Hk8 : (Z.of_nat (MultiClassClassifier.num_classes_ self) <= 8192)%Z)
    by (vm_compute; discriminate).
  assert (Hlogits : MultiClassClassifier.compute_logits (ops := binary32 expf) self x
                    = Returns logits) by (vm_compute; reflexivity).
  assert (Hall : Forall (fun z => b32_regular z = true) logits)
    by (repeat constructor).
  assert (Hexp0 : expf b32_zero = b32_one) by reflexivity.
  assert (Hexp : Forall (fun z => b32_unit
                     (expf (SFsub prec32 emax32 z
                              (nth (max_element (ops := binary32 expf) logits)
                                   logits b32_zero))) = true) logits)
    by (repeat constructor; vm_compute; reflexivity).
  do 8 (split; [assumption |]).
  destruct softmax_output_spec as (_ & Hb32 & _).
  exact (proj1 (proj2 (proj2 (Hb32 expf self x logits Hwf Hx Hk Hk8 Hlogits Hall Hexp0)))
           Hexp).
Defined.

Lemma create_model_spec_witness :
  let ops := binary32 exp_reference in
  (ModelRegistry.is_registered "bogus" = false /\ 1 <= length [2] <= 3 /\
   exists e, ModelRegistry.create_model (F := float) "bogus" [2] = Some (Throws e) /\
             UnknownModelType e) /\
  (ModelRegistry.arity "mlp" = Some 3 /\ length [4; 2] <> 3 /\
   1 <= length [4; 2] <= 3 /\
   exists e, ModelRegistry.create_model (F := float) "mlp" [4; 2] = Some (Throws e) /\
             UnknownModelType e).
Proof.
  intros ops.
  destruct (create_model_spec float ops) as (_ & _ & Hunknown & Harity & _).
  assert (Hreg : ModelRegistry.is_registered "bogus" = false) by reflexivity.
  assert (Hlen1 : 1 <= length [2] <= 3) by (simpl; lia).
  assert (Har : ModelRegistry.arity "mlp" = Some 3) by reflexivity.
  assert (Hne : length [4; 2] <> 3) by (simpl; lia).
  assert (Hlen2 : 1 <= length [4; 2] <= 3) by (simpl; lia).
  split.
  - split; [exact Hreg |]. split; [exact Hlen1 |].
    exact (Hunknown "bogus" [2] Hreg Hlen1).
  - split; [exact Har |]. split; [exact Hne |]. split; [exact Hlen2 |].
    exact (Harity "mlp" [4; 2] 3 Har Hne Hlen2).
Defined.

(* ================================================================= *)
(** * Further properties of the models *)

(** ** [forward]: the dimension check and the size of the result *)

Section ForwardShape.
Context {F : Type} {ops : FloatOps F}.

Lemma length_stored_output (self : TwoLayerMLP.t F) (hidden : list F) :
  length (TwoLayerMLP.stored_output self hidden) = TwoLayerMLP.output_size_ self.
Proof. unfold TwoLayerMLP.stored_output. rewrite length_map, length_seq. reflexivity. Qed.

Lemma length_softmax_spec (logits : list F) :
  length (softmax_spec logits) = length logits.
Proof. unfold softmax_spec. rewrite !length_map. reflexivity. Qed.

End ForwardShape.

(** X1.  Through the interface, [forward] on an input whose length is not
    [input_size()] throws [std::invalid_argument("Input size mismatch")],
    for each of the four classes and whatever the object holds: the check
    is the first statement of every [forward], so it also comes before the
    end-iterator dereference of a classifier with no class. *)
Theorem forward_rejects_wrong_length :
  forall (F : Type) (ops : FloatOps F) (self : NeuralNetwork F) (x : list F),
    length x <> input_size self ->
    forward self x = Throws (invalid_argument "Input size mismatch").
Proof.
  intros F ops self x H. destruct self as [m | m | m | m]; simpl in *.
  - apply Linear_forward_mismatch, H.
  - apply Logistic_forward_mismatch, H.
  - apply MultiClass_forward_mismatch, H.
  - apply MLP_forward_mismatch, H.
Qed.

Lemma forward_rejects_wrong_length_witness :
  let ops := binary32 (fun x => x) in
  let self := MultiClass (MultiClassClassifier.ctor 2 0) in
  let x := [b32_one; b32_one; b32_one] in
  length x <> input_size self /\
  forward self x = Throws (invalid_argument "Input size mismatch").
Proof.
  intros ops self x.
  assert (H : length x <> input_size self) by (simpl; lia).
  split; [exact H |].
  exact (forward_rejects_wrong_length float ops self x H).
Defined.

(** X2.  On an object that satisfies its class invariant, with a shape
    whose parameter count a [size_t] holds, [forward] on an input of length
    [input_size()] returns, and the vector it returns has [output_size()]
    entries; a multi-class classifier needs at least one class. *)
Theorem forward_returns_output_size :
  forall (F : Type) (ops : FloatOps F) (self : NeuralNetwork F) (x : list F),
    wf self -> fits (parameter_count self) ->
    (forall m, self = MultiClass m -> MultiClassClassifier.num_classes_ m <> 0) ->
    length x = input_size self ->
    exists out, forward self x = Returns out /\ length out = output_size self.
Proof.
  intros F ops self x Hwf Hfit Hk Hx.
  destruct self as [m | m | m | m]; simpl in *.
  - eexists. split; [apply Linear_forward_wf; assumption | reflexivity].
  - eexists. split; [apply Logistic_forward_wf; assumption | reflexivity].
  - eexists. split.
    + apply MultiClass_forward_wf; [assumption | apply Hk; reflexivity | assumption].
    + rewrite length_softmax_spec, length_map, length_seq. reflexivity.
  - eexists. split.
    + apply MLP_forward_wf; try assumption;
        (eapply fits_le; [| exact Hfit]); lia.
    + apply length_stored_output.
Qed.

Lemma forward_returns_output_size_witness :
  let ops := binary32 exp_reference in
  let self := MLP (TwoLayerMLP.ctor 2 3 2) in
  let x := multiclass_example_input in
  wf self /\ fits (parameter_count self) /\
  (forall m, self = MultiClass m -> MultiClassClassifier.num_classes_ m <> 0) /\
  length x = input_size self /\
  exists out, forward self x = Returns out /\ length out = output_size self.
Proof.
  intros ops self x.
  assert (Hwf : wf self) by (apply MLP_ctor_wf; reflexivity).
  assert (Hfit : fits (parameter_count self)) by reflexivity.
  assert (Hk : forall m, self = MultiClass m ->
                         MultiClassClassifier.num_classes_ m <> 0)
    by (intros m E; discriminate E).
  assert (Hx : length x = input_size self) by reflexivity.
  split; [exact Hwf |]. split; [exact Hfit |]. split; [exact Hk |].
  split; [exact Hx |].
  exact (forward_returns_output_size float ops self x Hwf Hfit Hk Hx).
Defined.

(** ** [set_parameters]: what a sequence of calls leaves behind *)

Lemma firstn_exact {A : Type} (a b : list A) (n : nat) :
  length a = n -> firstn n (a ++ b) = a.
Proof.
  intros <-. rewrite firstn_app, Nat.sub_diag, firstn_all. simpl.
  apply app_nil_r.
Qed.

Lemma skipn_exact {A : Type} (a b : list A) (n : nat) :
  length a = n -> skipn n (a ++ b) = b.
Proof.
  intros <-. rewrite skipn_app, Nat.sub_diag, skipn_all. reflexivity.
Qed.

Lemma length_concat_rows {A : Type} (n : nat) (rows : list (list A)) :
  Forall (fun row => length row = n) rows ->
  length (concat rows) = length rows * n.
Proof.
  induction 1 as [| row rows Hrow _ IH]; simpl; [reflexivity |].
  rewrite length_app, IH, Hrow. reflexivity.
Qed.

Lemma rows_of_concat {A : Type} (n : nat) (rows : list (list A)) (rest : list A) :
  Forall (fun row => length row = n) rows ->
  rows_of n (length rows) (concat rows ++ rest) = rows.
Proof.
  induction 1 as [| row rows Hrow _ IH]; [reflexivity |].
  unfold rows_of in *. cbn [length concat seq map].
  rewrite <- seq_shift, map_map, <- app_assoc. f_equal.
  - simpl. apply firstn_exact, Hrow.
  - rewrite <- IH at 2. apply map_ext. intros c.
    replace (S c * n) with (c * n + n) by lia.
    rewrite <- skipn_skipn, (skipn_exact row _ n Hrow). reflexivity.
Qed.

Section CallSequences.
Context {F : Type} {ops : FloatOps F}.

(** What the factory returns is an object fresh from its constructor. *)
Lemma created_model_fresh (type_name : string) (shape : list nat)
    (model : NeuralNetwork F) :
  ModelRegistry.create_model type_name shape = Some (Returns model) ->
  (exists n, model = Linear (LinearRegression.ctor n)) \/
  (exists n, model = Logistic (LogisticRegression.ctor n)) \/
  (exists n k, model = MultiClass (MultiClassClassifier.ctor n k)) \/
  (exists n h m, model = MLP (TwoLayerMLP.ctor n h m)).
Proof.
  unfold ModelRegistry.create_model, ModelRegistry.create_model1,
    ModelRegistry.create_model2, ModelRegistry.create_model3.
  destruct shape as [| a [| b [| c [| d rest]]]]; try discriminate.
  - destruct (String.eqb type_name "linear");
      [| destruct (String.eqb type_name "logistic")];
      intros H; inversion H; eauto.
  - destruct (String.eqb type_name "multiclass");
      intros H; inversion H; eauto 6.
  - destruct (String.eqb type_name "mlp");
      intros H; inversion H; eauto 8.
Qed.

Lemma created_model_wf (type_name : string) (shape : list nat)
    (model : NeuralNetwork F) :
  ModelRegistry.create_model type_name shape = Some (Returns model) ->
  fits (parameter_count model) -> wf model.
Proof.
  intros Hc Hfit.
  destruct (created_model_fresh _ _ _ Hc)
    as [(n & ->) | [(n & ->) | [(n & k & ->) | (n & h & m & ->)]]].
  - apply Linear_ctor_wf.
  - apply Logistic_ctor_wf.
  - apply MultiClass_ctor_wf.
  - simpl in Hfit. apply MLP_ctor_wf; (eapply fits_le; [| exact Hfit]); lia.
Qed.

(** The state an accepted call leaves depends on the shape and on the
    vector only. *)
Lemma set_parameters_overwrites (self : NeuralNetwork F) (ps1 ps2 : list F) :
  wf self -> fits (parameter_count self) ->
  length ps1 = parameter_count self -> length ps2 = parameter_count self ->
  set_parameters ps2 (snd (set_parameters ps1 self)) = set_parameters ps2 self.
Proof.
  destruct self as [m | m | m | m]; simpl; intros Hwf Hfit H1 H2.
  - rewrite (Linear_set_parameters_ok m ps1) by assumption. simpl.
    rewrite !Linear_set_parameters_ok; try assumption; [reflexivity |].
    unfold LinearRegression.wf. simpl. rewrite length_firstn. lia.
  - rewrite (Logistic_set_parameters_ok m ps1) by assumption. simpl.
    rewrite !Logistic_set_parameters_ok; try assumption; [reflexivity |].
    unfold LogisticRegression.wf. simpl. rewrite length_firstn. lia.
  - rewrite (MultiClass_set_parameters_ok m ps1) by assumption. simpl.
    rewrite !MultiClass_set_parameters_ok; try assumption; [reflexivity |].
    apply MultiClass_loaded_wf, H1.
  - rewrite (MLP_set_parameters_ok m ps1) by assumption. simpl.
    rewrite !MLP_set_parameters_ok; try assumption; [reflexivity |].
    apply MLP_loaded_wf, H1.
Qed.

Lemma set_parameters_keeps (self : NeuralNetwork F) (ps : list F) :
  wf self -> fits (parameter_count self) ->
  let self' := snd (set_parameters ps self) in
  wf self' /\ input_size self' = input_size self /\
  output_size self' = output_size self /\
  get_model_type self' = get_model_type self /\
  parameter_count self' = parameter_count self.
Proof.
  intros Hwf Hfit self'. subst self'.
  destruct (Nat.eq_dec (length ps) (parameter_count self)) as [Hlen | Hlen].
  - destruct self as [m | m | m | m]; simpl in *.
    + rewrite Linear_set_parameters_ok by assumption. simpl.
      unfold LinearRegression.wf. simpl. rewrite length_firstn. repeat split. lia.
    + rewrite Logistic_set_parameters_ok by assumption. simpl.
      unfold LogisticRegression.wf. simpl. rewrite length_firstn. repeat split. lia.
    + rewrite MultiClass_set_parameters_ok by assumption. simpl.
      split; [apply MultiClass_loaded_wf, Hlen | repeat split].
    + rewrite MLP_set_parameters_ok by assumption. simpl.
      split; [apply MLP_loaded_wf, Hlen | repeat split].
  - rewrite set_parameters_mismatch
      by (rewrite expected_parameter_count_exact; assumption).
    simpl. auto.
Qed.

Lemma set_parameters_sequence (calls : list (list F)) (self : NeuralNetwork F) :
  wf self -> fits (parameter_count self) ->
  let self' := fold_left (fun m ps => snd (set_parameters ps m)) calls self in
  wf self' /\ input_size self' = input_size self /\
  output_size self' = output_size self /\
  get_model_type self' = get_model_type self /\
  parameter_count self' = parameter_count self.
Proof.
  revert self. induction calls as [| ps calls IH]; intros self Hwf Hfit; simpl.
  - auto.
  - destruct (set_parameters_keeps self ps Hwf Hfit) as (Hwf1 & Hi & Ho & Ht & Hp).
    destruct (IH (snd (set_parameters ps self)) Hwf1) as (Hwf2 & Hi2 & Ho2 & Ht2 & Hp2).
    + rewrite Hp. exact Hfit.
    + repeat split; try assumption; congruence.
Qed.

(** Loading an object with the parameters it holds changes nothing. *)
Lemma set_parameters_stored (self : NeuralNetwork F) :
  wf self -> fits (parameter_count self) ->
  set_parameters (stored_parameters self) self = (Returns tt, self).
Proof.
  destruct self as [m | m | m | m]; simpl; intros Hwf Hfit.
  - destruct m as [w b n]. unfold LinearRegression.wf in Hwf. simpl in *.
    rewrite Linear_set_parameters_ok;
      [| exact Hwf | exact Hfit | simpl; rewrite length_app, Hwf; reflexivity].
    simpl. rewrite (firstn_exact w [b] n Hwf).
    rewrite <- Hwf, nth_middle. reflexivity.
  - destruct m as [w b n]. unfold LogisticRegression.wf in Hwf. simpl in *.
    rewrite Logistic_set_parameters_ok;
      [| exact Hwf | exact Hfit | simpl; rewrite length_app, Hwf; reflexivity].
    simpl. rewrite (firstn_exact w [b] n Hwf).
    rewrite <- Hwf, nth_middle. reflexivity.
  - destruct m as [w b n k]. pose proof Hwf as (Hw & Hrows & Hb). simpl in *.
    assert (Hc : length (concat w) = k * n)
      by (rewrite (length_concat_rows n w Hrows), Hw; reflexivity).
    rewrite MultiClass_set_parameters_ok;
      [| exact Hwf | exact Hfit | simpl; rewrite length_app, Hc, Hb; reflexivity].
    simpl. rewrite (skipn_exact (concat w) b (k * n) Hc).
    rewrite <- Hb at 2. rewrite firstn_all.
    rewrite <- Hw at 1. rewrite (rows_of_concat n w b Hrows). reflexivity.
  - destruct m as [W1 b1 W2 b2 n h o]. pose proof Hwf as (H1 & H2 & H3 & H4).
    simpl in *.
    rewrite MLP_set_parameters_ok;
      [| exact Hwf | exact Hfit
       | simpl; rewrite !length_app, H1, H2, H3, H4; lia].
    simpl.
    rewrite (firstn_exact W1 _ (n * h) H1).
    rewrite (skipn_exact W1 _ (n * h) H1), (firstn_exact b1 _ h H2).
    replace (n * h + h) with (length (W1 ++ b1)) by (rewrite length_app; lia).
    rewrite (app_assoc W1 b1), (skipn_exact (W1 ++ b1) _ _ eq_refl).
    rewrite (firstn_exact W2 _ (h * o) H3).
    replace (length (W1 ++ b1) + h * o) with (length ((W1 ++ b1) ++ W2))
      by (rewrite !length_app; lia).
    rewrite (app_assoc (W1 ++ b1) W2), (skipn_exact ((W1 ++ b1) ++ W2) _ _ eq_refl).
    rewrite <- H4, firstn_all. reflexivity.
Qed.
End CallSequences.

(** X3.  The class invariant is kept along every run.  An object the
    factory has returned, after any sequence of [set_parameters] calls,
    accepted or rejected, still has vectors of the sizes of its shape,
    reports the same [input_size()], [output_size()] and
    [get_model_type()], and [print_info()] writes the same line.  The shape
    is one whose parameter count a [size_t] holds. *)
Theorem class_invariant_kept :
  forall (F : Type) (ops : FloatOps F) (type_name : string) (shape : list nat)
         (model : NeuralNetwork F) (calls : list (list F)),
    ModelRegistry.create_model type_name shape = Some (Returns model) ->
    fits (parameter_count model) ->
    let model' := fold_left (fun m ps => snd (set_parameters ps m)) calls model in
    wf model' /\ input_size model' = input_size model /\
    output_size model' = output_size model /\
    get_model_type model' = get_model_type model /\
    print_info model' = print_info model /\
    parameter_count model' = parameter_count model.
Proof.
  intros F ops type_name shape model calls Hc Hfit model'.
  destruct (set_parameters_sequence calls model
              (created_model_wf type_name shape model Hc Hfit) Hfit)
    as (Hwf & Hi & Ho & Ht & Hp).
  fold model' in Hwf, Hi, Ho, Ht, Hp.
  repeat split; try assumption.
  unfold print_info. rewrite Hi, Ho, Ht. reflexivity.
Qed.

Lemma class_invariant_kept_witness :
  let ops := binary32 (fun x => x) in
  let model := MultiClass (MultiClassClassifier.ctor 2 3) in
  let calls := [multiclass_example_params; linear_example_params;
                repeat b32_one 9] in
  let model' := fold_left (fun m ps => snd (set_parameters ps m)) calls model in
  ModelRegistry.create_model "multiclass" [2; 3] = Some (Returns model) /\
  fits (parameter_count model) /\
  wf model' /\ input_size model' = 2 /\ output_size model' = 3 /\
  get_model_type model' = "Multi-Class Classifier (3 classes)" /\
  stored_parameters model' = repeat b32_one 9.
Proof.
  intros ops model calls model'.
  assert (Hc : ModelRegistry.create_model "multiclass" [2; 3] = Some (Returns model))
    by reflexivity.
  assert (Hfit : fits (parameter_count model)) by reflexivity.
  destruct (class_invariant_kept float ops "multiclass" [2; 3] model calls Hc Hfit)
    as (Hwf & Hi & Ho & Ht & _ & _).
  split; [exact Hc |]. split; [exact Hfit |]. split; [exact Hwf |].
  split; [exact Hi |]. split; [exact Ho |]. split; [exact Ht |].
  vm_compute. reflexivity.
Defined.

(** X4.  The last accepted vector wins: an accepted [set_parameters] leaves
    the object in a state that depends on its shape and on the vector only,
    so nothing of an earlier vector survives, whether that earlier call was
    accepted or rejected. *)
Theorem set_parameters_last_wins :
  forall (F : Type) (ops : FloatOps F) (self : NeuralNetwork F)
         (ps1 ps2 : list F),
    wf self -> fits (parameter_count self) ->
    length ps2 = parameter_count self ->
    set_parameters ps2 (snd (set_parameters ps1 self)) = set_parameters ps2 self.
Proof.
  intros F ops self ps1 ps2 Hwf Hfit H2.
  destruct (Nat.eq_dec (length ps1) (parameter_count self)) as [H1 | H1].
  - apply set_parameters_overwrites; assumption.
  - rewrite (set_parameters_mismatch self ps1)
      by (rewrite expected_parameter_count_exact; assumption).
    reflexivity.
Qed.

Lemma set_parameters_last_wins_witness :
  let ops := binary32 (fun x => x) in
  let self := Linear (LinearRegression.ctor 3) in
  let ps1 := repeat b32_one 4 in
  let ps2 := linear_example_params in
  wf self /\ fits (parameter_count self) /\ length ps2 = parameter_count self /\
  set_parameters ps2 (snd (set_parameters ps1 self)) = set_parameters ps2 self.
Proof.
  intros ops self ps1 ps2.
  assert (Hwf : wf self) by apply Linear_ctor_wf.
  assert (Hfit : fits (parameter_count self)) by reflexivity.
  assert (H2 : length ps2 = parameter_count self) by reflexivity.
  split; [exact Hwf |]. split; [exact Hfit |]. split; [exact H2 |].
  exact (set_parameters_last_wins float ops self ps1 ps2 Hwf Hfit H2).
Defined.

(** X5.  The parameter vector and the stored state determine each other:
    [set_parameters] called with the parameters the object holds, read in
    the order of its layout, is accepted and leaves the object as it
    was. *)
Theorem set_parameters_of_stored :
  forall (F : Type) (ops : FloatOps F) (self : NeuralNetwork F),
    wf self -> fits (parameter_count self) ->
    length (stored_parameters self) = parameter_count self /\
    set_parameters (stored_parameters self) self = (Returns tt, self).
Proof.
  intros F ops self Hwf Hfit.
  pose proof (set_parameters_stored self Hwf Hfit) as Hset.
  split; [| exact Hset].
  destruct (Nat.eq_dec (length (stored_parameters self)) (parameter_count self))
    as [E | E]; [exact E |].
  rewrite set_parameters_mismatch in Hset
    by (rewrite expected_parameter_count_exact; assumption).
  discriminate Hset.
Qed.

Lemma set_parameters_of_stored_witness :
  let ops := binary32 (fun x => x) in
  let self := snd (set_parameters (repeat b32_one 17)
                     (MLP (TwoLayerMLP.ctor 2 3 2))) in
  wf self /\ fits (parameter_count self) /\
  length (stored_parameters self) = parameter_count self /\
  set_parameters (stored_parameters self) self = (Returns tt, self).
Proof.
  intros ops self.
  assert (Hwf : wf self) by (vm_compute; auto).
  assert (Hfit : fits (parameter_count self)) by reflexivity.
  split; [exact Hwf |]. split; [exact Hfit |].
  exact (set_parameters_of_stored float ops self Hwf Hfit).
Defined.

(** ** Degenerate shapes *)

Section DegenerateShapes.
Context {F : Type} {ops : FloatOps F}.

Lemma fits_zero : fits 0.
Proof. reflexivity. Qed.

Lemma Linear_no_input (self : LinearRegression.t F) :
  LinearRegression.wf self -> LinearRegression.input_size_ self = 0 ->
  LinearRegression.forward self [] = Returns [LinearRegression.bias_ self].
Proof.
  intros Hwf Hn. rewrite Linear_forward_wf by (try assumption; rewrite Hn; reflexivity).
  rewrite Hn. reflexivity.
Qed.

Lemma Logistic_no_input (self : LogisticRegression.t F) :
  LogisticRegression.wf self -> LogisticRegression.input_size_ self = 0 ->
  LogisticRegression.forward self []
  = Returns [sigmoid (LogisticRegression.bias_ self)].
Proof.
  intros Hwf Hn. rewrite Logistic_forward_wf by (try assumption; rewrite Hn; reflexivity).
  rewrite Hn. reflexivity.
Qed.

Lemma MLP_no_hidden (self : TwoLayerMLP.t F) (x : list F) :
  TwoLayerMLP.wf self -> TwoLayerMLP.hidden_size_ self = 0 ->
  length x = TwoLayerMLP.input_size_ self ->
  TwoLayerMLP.forward self x = Returns (TwoLayerMLP.b2_ self).
Proof.
  intros Hwf Hh Hx.
  rewrite MLP_forward_wf;
    try assumption; try (rewrite Hh, ?Nat.mul_0_r; apply fits_zero).
  destruct Hwf as (_ & _ & _ & Hb2).
  unfold TwoLayerMLP.stored_output. rewrite Hh, <- Hb2. cbn [sum_from seq fold_left].
  f_equal. apply map_nth_seq_all.
Qed.

Lemma MLP_no_output (self : TwoLayerMLP.t F) (x : list F) :
  TwoLayerMLP.wf self -> TwoLayerMLP.output_size_ self = 0 ->
  fits (TwoLayerMLP.input_size_ self * TwoLayerMLP.hidden_size_ self) ->
  length x = TwoLayerMLP.input_size_ self ->
  TwoLayerMLP.forward self x = Returns [].
Proof.
  intros Hwf Hm Hfit Hx.
  rewrite MLP_forward_wf;
    try assumption; try (rewrite Hm, ?Nat.mul_0_r; apply fits_zero).
  unfold TwoLayerMLP.stored_output. rewrite Hm. reflexivity.
Qed.
End DegenerateShapes.

(** X6.  No constructor rejects a size of zero, and the objects work.  A
    linear regressor with no input returns its bias on the empty input and
    a logistic regressor the sigmoid of its bias; a perceptron with no
    hidden unit ignores its input and returns its second-layer biases; a
    perceptron with no output returns the empty vector. *)
Theorem zero_sizes :
  forall (F : Type) (ops : FloatOps F),
    (forall self : LinearRegression.t F,
       LinearRegression.wf self -> LinearRegression.input_size_ self = 0 ->
       LinearRegression.forward self [] = Returns [LinearRegression.bias_ self]) /\
    (forall self : LogisticRegression.t F,
       LogisticRegression.wf self -> LogisticRegression.input_size_ self = 0 ->
       LogisticRegression.forward self []
       = Returns [sigmoid (LogisticRegression.bias_ self)]) /\
    (forall (self : TwoLayerMLP.t F) (x : list F),
       TwoLayerMLP.wf self -> TwoLayerMLP.hidden_size_ self = 0 ->
       length x = TwoLayerMLP.input_size_ self ->
       TwoLayerMLP.forward self x = Returns (TwoLayerMLP.b2_ self)) /\
    (forall (self : TwoLayerMLP.t F) (x : list F),
       TwoLayerMLP.wf self -> TwoLayerMLP.output_size_ self = 0 ->
       fits (TwoLayerMLP.input_size_ self * TwoLayerMLP.hidden_size_ self) ->
       length x = TwoLayerMLP.input_size_ self ->
       TwoLayerMLP.forward self x = Returns []).
Proof.
  intros F ops.
  split; [exact Linear_no_input |]. split; [exact Logistic_no_input |].
  split; [exact MLP_no_hidden | exact MLP_no_output].
Qed.

Lemma zero_sizes_witness :
  let ops := binary32 (fun x => x) in
  let lin := snd (LinearRegression.set_parameters [b32_lit 7 10]
                    (LinearRegression.ctor 0)) in
  let mlp := snd (TwoLayerMLP.set_parameters linear_example_input
                    (TwoLayerMLP.ctor 2 0 3)) in
  LinearRegression.wf lin /\ LinearRegression.input_size_ lin = 0 /\
  TwoLayerMLP.wf mlp /\ TwoLayerMLP.hidden_size_ mlp = 0 /\
  length multiclass_example_input = TwoLayerMLP.input_size_ mlp /\
  LinearRegression.forward lin [] = Returns [b32_lit 7 10] /\
  TwoLayerMLP.forward mlp multiclass_example_input = Returns linear_example_input.
Proof.
  intros ops lin mlp.
  assert (Hl : LinearRegression.wf lin) by reflexivity.
  assert (Hn : LinearRegression.input_size_ lin = 0) by reflexivity.
  assert (Hm : TwoLayerMLP.wf mlp) by (vm_compute; auto).
  assert (Hh : TwoLayerMLP.hidden_size_ mlp = 0) by reflexivity.
  assert (Hx : length multiclass_example_input = TwoLayerMLP.input_size_ mlp)
    by reflexivity.
  destruct (zero_sizes float ops) as (Hlin & _ & Hmlp & _).
  do 5 (split; [assumption |]).
  split; [exact (Hlin lin Hl Hn) | exact (Hmlp mlp multiclass_example_input Hm Hh Hx)].
Defined.

(** ** Not-a-number in the input *)

Lemma b32_add_nan_r (x : float) : SFadd prec32 emax32 x b32_nan = b32_nan.
Proof. destruct x as [s | s | | s m e]; reflexivity. Qed.

Lemma b32_mul_nan_r (x : float) : SFmul prec32 emax32 x b32_nan = b32_nan.
Proof. destruct x as [s | s | | s m e]; reflexivity. Qed.

Section Absorbed.
Context {F : Type} {ops : FloatOps F}.

(** A value that absorbs every addition, once a term of the sum, is the
    sum. *)
Lemma sum_from_absorbed (bad init : F) (n : nat) (term : nat -> F) (i0 : nat) :
  (forall y, fadd bad y = bad) -> (forall acc, fadd acc bad = bad) ->
  i0 < n -> term i0 = bad -> sum_from init n term = bad.
Proof.
  intros Hl Hr Hi Ht. unfold sum_from.
  replace n with (i0 + S (n - S i0)) by lia.
  rewrite seq_app, fold_left_app. cbn [seq fold_left Nat.add].
  rewrite Ht, Hr.
  generalize (seq (S i0) (n - S i0)). intros l.
  induction l as [| i l IH]; simpl; [reflexivity |]. rewrite Hl. exact IH.
Qed.
End Absorbed.

Section NanInput.
Variable expf : float -> float.
Let ops : FloatOps float := binary32 expf.
Existing Instance ops.

Lemma b32_nan_term (w : nat -> float) (x : list float) :
  In b32_nan x ->
  exists i0, i0 < length x /\ fmul (w i0) (nth i0 x f0) = b32_nan.
Proof.
  intros Hin. destruct (In_nth x b32_nan f0 Hin) as (i0 & Hi & Hnth).
  exists i0. split; [exact Hi |]. rewrite Hnth. apply b32_mul_nan_r.
Qed.

Lemma b32_nan_sum (init : float) (n : nat) (w : nat -> float) (x : list float) :
  length x = n -> In b32_nan x ->
  sum_from init n (fun i => fmul (w i) (nth i x f0)) = b32_nan.
Proof.
  intros Hx Hin. destruct (b32_nan_term w x Hin) as (i0 & Hi & Ht).
  apply (sum_from_absorbed b32_nan init n _ i0);
    [reflexivity | exact b32_add_nan_r | lia | exact Ht].
Qed.

Lemma Linear_nan_input (self : LinearRegression.t float) (x : list float) :
  LinearRegression.wf self -> length x = LinearRegression.input_size_ self ->
  In b32_nan x -> LinearRegression.forward self x = Returns [b32_nan].
Proof.
  intros Hwf Hx Hin. rewrite Linear_forward_wf by assumption.
  rewrite (b32_nan_sum _ _ (fun i => nth i (LinearRegression.weights_ self) f0))
    by assumption.
  reflexivity.
Qed.

Lemma Logistic_nan_input (self : LogisticRegression.t float) (x : list float) :
  expf b32_nan = b32_nan ->
  LogisticRegression.wf self -> length x = LogisticRegression.input_size_ self ->
  In b32_nan x -> LogisticRegression.forward self x = Returns [b32_nan].
Proof.
  intros Hexp Hwf Hx Hin. rewrite Logistic_forward_wf by assumption.
  rewrite (b32_nan_sum _ _ (fun i => nth i (LogisticRegression.weights_ self) f0))
    by assumption.
  unfold sigmoid. cbn [fneg fexp fadd fdiv ops binary32 SFopp b32_nan].
  fold b32_nan. rewrite Hexp. reflexivity.
Qed.

Lemma fold_add_nan (k : nat) (acc : float) :
  k <> 0 -> fold_left (SFadd prec32 emax32) (repeat b32_nan k) acc = b32_nan.
Proof.
  destruct k as [| k]; [congruence |]. intros _. simpl.
  rewrite b32_add_nan_r. induction k as [| k IH]; simpl; [reflexivity | exact IH].
Qed.

Lemma softmax_spec_nan (k : nat) :
  expf b32_nan = b32_nan -> k <> 0 ->
  softmax_spec (repeat b32_nan k) = repeat b32_nan k.
Proof.
  intros Hexp Hk. unfold softmax_spec. rewrite map_repeat.
  cbn [fsub fexp fadd fdiv f0 ops binary32].
  replace (SFsub prec32 emax32 b32_nan
             (nth (max_element (repeat b32_nan k)) (repeat b32_nan k) b32_zero))
    with b32_nan by reflexivity.
  rewrite Hexp, map_repeat, fold_add_nan by exact Hk. reflexivity.
Qed.

Lemma MultiClass_nan_input (self : MultiClassClassifier.t float) (x : list float) :
  expf b32_nan = b32_nan ->
  MultiClassClassifier.wf self -> MultiClassClassifier.num_classes_ self <> 0 ->
  length x = MultiClassClassifier.input_size_ self -> In b32_nan x ->
  MultiClassClassifier.forward self x
  = Returns (repeat b32_nan (MultiClassClassifier.num_classes_ self)).
Proof.
  intros Hexp Hwf Hk Hx Hin. rewrite MultiClass_forward_wf by assumption.
  rewrite (map_ext _ (fun _ => b32_nan)).
  - rewrite map_const_seq, softmax_spec_nan by assumption. reflexivity.
  - intros c. unfold MultiClassClassifier.stored_logit.
    apply (b32_nan_sum _ _
             (fun i => nth i (nth c (MultiClassClassifier.weights_ self) []) f0));
      assumption.
Qed.

(** In the perceptron the rectifier [std::max(0.0f, x)] returns its first
    argument when the comparison fails, so a NaN pre-activation gives the
    activation zero. *)
Lemma MLP_nan_hidden (self : TwoLayerMLP.t float) (x : list float) :
  length x = TwoLayerMLP.input_size_ self -> In b32_nan x ->
  TwoLayerMLP.stored_hidden self x
  = repeat b32_zero (TwoLayerMLP.hidden_size_ self).
Proof.
  intros Hx Hin. unfold TwoLayerMLP.stored_hidden.
  rewrite (map_ext _ (fun _ => b32_zero)); [apply map_const_seq |].
  intros j.
  rewrite (b32_nan_sum _ _
             (fun i => nth (i * TwoLayerMLP.hidden_size_ self + j)
                           (TwoLayerMLP.W1_ self) f0)) by assumption.
  reflexivity.
Qed.

Lemma MLP_nan_input (self : TwoLayerMLP.t float) (x : list float) :
  TwoLayerMLP.wf self ->
  fits (TwoLayerMLP.input_size_ self * TwoLayerMLP.hidden_size_ self) ->
  fits (TwoLayerMLP.hidden_size_ self * TwoLayerMLP.output_size_ self) ->
  length x = TwoLayerMLP.input_size_ self -> In b32_nan x ->
  TwoLayerMLP.hidden_layer self x
  = Returns (repeat b32_zero (TwoLayerMLP.hidden_size_ self)) /\
  TwoLayerMLP.forward self x
  = Returns (TwoLayerMLP.stored_output self
               (repeat b32_zero (TwoLayerMLP.hidden_size_ self))).
Proof.
  intros Hwf Hf1 Hf2 Hx Hin. split.
  - rewrite MLP_hidden_layer_wf by assumption. rewrite MLP_nan_hidden by assumption.
    reflexivity.
  - rewrite MLP_forward_wf by assumption. rewrite MLP_nan_hidden by assumption.
    reflexivity.
Qed.

(** With the hidden activations at zero, finite second-layer parameters
    give finite outputs. *)
Lemma b32_finite_add_mul_zero (acc w : float) :
  b32_finite acc = true -> b32_finite w = true ->
  b32_finite (SFadd prec32 emax32 acc (SFmul prec32 emax32 w b32_zero)) = true.
Proof.
  destruct acc as [s | s | | s m e], w as [s' | s' | | s' m' e'];
    try discriminate; intros _ _; try destruct s; try destruct s'; reflexivity.
Qed.

Lemma MLP_dead_output_finite (self : TwoLayerMLP.t float) :
  TwoLayerMLP.wf self ->
  all_finite (TwoLayerMLP.W2_ self) -> all_finite (TwoLayerMLP.b2_ self) ->
  all_finite (TwoLayerMLP.stored_output self
                (repeat b32_zero (TwoLayerMLP.hidden_size_ self))).
Proof.
  intros (_ & _ & HW2 & Hb2) HfW Hfb. unfold all_finite in *.
  rewrite Forall_forall in *. intros y Hy.
  unfold TwoLayerMLP.stored_output in Hy. apply in_map_iff in Hy.
  destruct Hy as (o & <- & Ho). apply in_seq in Ho.
  apply (sum_from_invariant (fun acc => b32_finite acc = true)).
  - apply Hfb, nth_In. lia.
  - intros acc j Hj Hacc.
    rewrite nth_repeat_default.
    apply b32_finite_add_mul_zero; [exact Hacc |].
    apply HfW, nth_In. rewrite HW2.
    assert (j * TwoLayerMLP.output_size_ self + TwoLayerMLP.output_size_ self
            <= TwoLayerMLP.hidden_size_ self * TwoLayerMLP.output_size_ self) by nia.
    lia.
Qed.
End NanInput.

(** X7.  In binary32 a NaN entry of the input reaches every output of the
    linear regressor, whatever the parameters, and, where [std::exp] is NaN
    at NaN, every output of the logistic regressor and of a multi-class
    classifier with at least one class. *)
Theorem nan_input_reaches_every_output :
  forall expf : float -> float,
    let ops := binary32 expf in
    (forall (self : LinearRegression.t float) (x : list float),
       LinearRegression.wf self -> length x = LinearRegression.input_size_ self ->
       In b32_nan x -> LinearRegression.forward self x = Returns [b32_nan]) /\
    (expf b32_nan = b32_nan ->
     (forall (self : LogisticRegression.t float) (x : list float),
        LogisticRegression.wf self ->
        length x = LogisticRegression.input_size_ self ->
        In b32_nan x -> LogisticRegression.forward self x = Returns [b32_nan]) /\
     (forall (self : MultiClassClassifier.t float) (x : list float),
        MultiClassClassifier.wf self ->
        MultiClassClassifier.num_classes_ self <> 0 ->
        length x = MultiClassClassifier.input_size_ self -> In b32_nan x ->
        MultiClassClassifier.forward self x
        = Returns (repeat b32_nan (MultiClassClassifier.num_classes_ self)))).
Proof.
  intros expf ops. split; [exact (Linear_nan_input expf) |].
  intros Hexp. split.
  - intros self x. exact (Logistic_nan_input expf self x Hexp).
  - intros self x. exact (MultiClass_nan_input expf self x Hexp).
Qed.

Lemma nan_input_reaches_every_output_witness :
  let ops := binary32 exp_reference in
  let self := snd (MultiClassClassifier.set_parameters multiclass_example_params
                     (MultiClassClassifier.ctor 2 3)) in
  let x := [b32_lit 6 10; b32_nan] in
  exp_reference b32_nan = b32_nan /\
  MultiClassClassifier.wf self /\ MultiClassClassifier.num_classes_ self <> 0 /\
  length x = MultiClassClassifier.input_size_ self /\ In b32_nan x /\
  MultiClassClassifier.forward self x = Returns [b32_nan; b32_nan; b32_nan].
Proof.
  intros ops self x.
  assert (Hexp : exp_reference b32_nan = b32_nan) by reflexivity.
  assert (Hwf : MultiClassClassifier.wf self)
    by (vm_compute; repeat split; repeat constructor).
  assert (Hk : MultiClassClassifier.num_classes_ self <> 0) by discriminate.
  assert (Hx : length x = MultiClassClassifier.input_size_ self) by reflexivity.
  assert (Hin : In b32_nan x) by (right; left; reflexivity).
  destruct (nan_input_reaches_every_output exp_reference) as (_ & Hrest).
  destruct (Hrest Hexp) as (_ & Hmc).
  do 5 (split; [assumption |]).
  exact (Hmc self x Hwf Hk Hx Hin).
Defined.

(** X8.  In binary32 the perceptron does not pass a NaN of its input on.
    The rectifier is [std::max(0.0f, x)], which returns [0.0f] when the
    comparison with NaN fails: on an input with a NaN entry every hidden
    activation is zero, the result is the read-out of the zero vector, the
    same for every such input, and it is finite when the second-layer
    parameters are. *)
Theorem mlp_masks_nan_input :
  forall (expf : float -> float) (self : TwoLayerMLP.t float) (x : list float),
    let ops := binary32 expf in
    let zeros := repeat b32_zero (TwoLayerMLP.hidden_size_ self) in
    TwoLayerMLP.wf self ->
    fits (TwoLayerMLP.input_size_ self * TwoLayerMLP.hidden_size_ self) ->
    fits (TwoLayerMLP.hidden_size_ self * TwoLayerMLP.output_size_ self) ->
    length x = TwoLayerMLP.input_size_ self -> In b32_nan x ->
    TwoLayerMLP.hidden_layer self x = Returns zeros /\
    TwoLayerMLP.forward self x = Returns (TwoLayerMLP.stored_output self zeros) /\
    (all_finite (TwoLayerMLP.W2_ self) -> all_finite (TwoLayerMLP.b2_ self) ->
     all_finite (TwoLayerMLP.stored_output self zeros)).
Proof.
  intros expf self x ops zeros Hwf Hf1 Hf2 Hx Hin.
  destruct (MLP_nan_input expf self x Hwf Hf1 Hf2 Hx Hin) as [Hh Hf].
  split; [exact Hh |]. split; [exact Hf |].
  apply MLP_dead_output_finite, Hwf.
Qed.

Lemma mlp_masks_nan_input_witness :
  let ops := binary32 (fun x => x) in
  let self := snd (TwoLayerMLP.set_parameters (repeat (b32_lit 1 10) 17)
                     (TwoLayerMLP.ctor 2 3 2)) in
  let x := [b32_nan; b32_lit 5 10] in
  TwoLayerMLP.wf self /\
  fits (TwoLayerMLP.input_size_ self * TwoLayerMLP.hidden_size_ self) /\
  fits (TwoLayerMLP.hidden_size_ self * TwoLayerMLP.output_size_ self) /\
  length x = TwoLayerMLP.input_size_ self /\ In b32_nan x /\
  TwoLayerMLP.forward self x = Returns [b32_lit 1 10; b32_lit 1 10].
Proof.
  intros ops self x.
  assert (Hwf : TwoLayerMLP.wf self) by (vm_compute; auto).
  assert (Hf1 : fits (TwoLayerMLP.input_size_ self * TwoLayerMLP.hidden_size_ self))
    by reflexivity.
  assert (Hf2 : fits (TwoLayerMLP.hidden_size_ self * TwoLayerMLP.output_size_ self))
    by reflexivity.
  assert (Hx : length x = TwoLayerMLP.input_size_ self) by reflexivity.
  assert (Hin : In b32_nan x) by (left; reflexivity).
  destruct (mlp_masks_nan_input (fun x => x) self x Hwf Hf1 Hf2 Hx Hin)
    as (_ & Hf & _).
  do 5 (split; [assumption |]).
  etransitivity; [exact Hf | vm_compute; reflexivity].
Defined.

(** ** Equal logits *)

Lemma b32_lt_irrefl (z : float) : SFltb z z = false.
Proof.
  unfold SFltb, SFcompare.
  destruct z as [s | s | | s m e]; try destruct s; try reflexivity;
    rewrite Z.compare_refl, Pos.compare_cont_refl; reflexivity.
Qed.

Lemma b32_sub_self (z : float) :
  b32_finite z = true -> SFsub prec32 emax32 z z = b32_zero.
Proof.
  destruct z as [s | s | | s m e]; try discriminate; intros _.
  - destruct s; reflexivity.
  - unfold SFsub. cbv zeta. rewrite Z.sub_diag. reflexivity.
Qed.

Lemma max_element_repeat (expf : float -> float) (z : float) (k : nat) :
  max_element (ops := binary32 expf) (repeat z k) = 0.
Proof.
  destruct k as [| k]; [reflexivity |]. simpl.
  generalize 1. induction k as [| k IH]; intros first; simpl; [reflexivity |].
  rewrite b32_lt_irrefl. apply IH.
Qed.

Lemma softmax_spec_equal (expf : float -> float) (z : float) (k : nat) :
  expf b32_zero = b32_one -> b32_finite z = true ->
  softmax_spec (ops := binary32 expf) (repeat z k) = repeat (b32_uniform_entry k) k.
Proof.
  intros Hexp Hz. unfold softmax_spec.
  rewrite max_element_repeat.
  destruct k as [| k]; [reflexivity |].
  cbn [repeat nth]. change (z :: repeat z k) with (repeat z (S k)).
  rewrite map_repeat. cbn [fsub fexp fadd fdiv f0 binary32].
  rewrite (b32_sub_self z Hz), Hexp, map_repeat. reflexivity.
Qed.

(** X9.  In binary32, when the logits of a multi-class classifier are all
    the same finite number the output is uniform, whatever that number is:
    each logit minus the maximum is [+0], [std::exp] is one there, and each
    entry is one divided by the sum of [k] ones, the float nearest to [1/k]
    for [k <= 256].  A classifier with a single class answers exactly 1
    whenever its logit is finite. *)
Theorem equal_logits_give_uniform_output :
  forall (expf : float -> float) (self : MultiClassClassifier.t float)
         (x : list float) (z : float),
    let ops := binary32 expf in
    let k := MultiClassClassifier.num_classes_ self in
    expf b32_zero = b32_one ->
    MultiClassClassifier.wf self -> k <> 0 ->
    length x = MultiClassClassifier.input_size_ self ->
    b32_finite z = true ->
    MultiClassClassifier.compute_logits self x = Returns (repeat z k) ->
    MultiClassClassifier.forward self x = Returns (repeat (b32_uniform_entry k) k) /\
    (k <= 256 ->
     MultiClassClassifier.forward self x = Returns (repeat (b32_lit 1 (Z.of_nat k)) k)) /\
    (k = 1 -> MultiClassClassifier.forward self x = Returns [b32_one]).
Proof.
  intros expf self x z ops k Hexp Hwf Hk Hx Hz Hlogits.
  rewrite MultiClass_compute_logits_wf in Hlogits by assumption.
  injection Hlogits as Hlogits. fold k in Hlogits.
  assert (Hout : MultiClassClassifier.forward self x
                 = Returns (repeat (b32_uniform_entry k) k)).
  { rewrite MultiClass_forward_wf by assumption. fold k. rewrite Hlogits.
    f_equal. exact (softmax_spec_equal expf z k Hexp Hz). }
  split; [exact Hout |]. split.
  - intros Hle. rewrite Hout, b32_uniform_entry_small by exact Hle. reflexivity.
  - intros E. rewrite Hout, E. reflexivity.
Qed.

Lemma equal_logits_give_uniform_output_witness :
  let ops := binary32 exp_reference in
  let self := snd (MultiClassClassifier.set_parameters
                     (floats [(0, 1); (0, 1); (0, 1); (0, 1); (0, 1); (0, 1);
                              (15, 10); (15, 10); (15, 10)]%Z)
                     (MultiClassClassifier.ctor 2 3)) in
  let x := multiclass_example_input in
  let z := b32_lit 15 10 in
  exp_reference b32_zero = b32_one /\
  MultiClassClassifier.wf self /\ MultiClassClassifier.num_classes_ self <> 0 /\
  length x = MultiClassClassifier.input_size_ self /\
  b32_finite z = true /\
  MultiClassClassifier.compute_logits self x = Returns (repeat z 3) /\
  MultiClassClassifier.forward self x = Returns (repeat (b32_lit 1 3) 3).
Proof.
  intros ops self x z.
  assert (Hexp : exp_reference b32_zero = b32_one) by reflexivity.
  assert (Hwf : MultiClassClassifier.wf self)
    by (vm_compute; repeat split; repeat constructor).
  assert (Hk : MultiClassClassifier.num_classes_ self <> 0) by discriminate.
  assert (Hx : length x = MultiClassClassifier.input_size_ self) by reflexivity.
  assert (Hz : b32_finite z = true) by reflexivity.
  assert (Hl : MultiClassClassifier.compute_logits self x = Returns (repeat z 3))
    by (vm_compute; reflexivity).
  do 6 (split; [assumption |]).
  destruct (equal_logits_give_uniform_output exp_reference self x z
              Hexp Hwf Hk Hx Hz Hl) as (_ & Hle & _).
  apply Hle. simpl. lia.
Defined.

(** ** One linear combination for every unit *)

Section SharedSum.
Context {F : Type} {ops : FloatOps F}.

Lemma Logistic_over_linear (self : LogisticRegression.t F) (x : list F) :
  LogisticRegression.wf self -> length x = LogisticRegression.input_size_ self ->
  exists z,
    LinearRegression.forward
      {| LinearRegression.weights_ := LogisticRegression.weights_ self;
         LinearRegression.bias_ := LogisticRegression.bias_ self;
         LinearRegression.input_size_ := LogisticRegression.input_size_ self |} x
    = Returns [z] /\
    LogisticRegression.forward self x = Returns [sigmoid z].
Proof.
  intros Hwf Hx. eexists. split.
  - apply Linear_forward_wf; [exact Hwf | exact Hx].
  - apply Logistic_forward_wf; assumption.
Qed.

Lemma MultiClass_over_linear (self : MultiClassClassifier.t F) (x : list F) (c : nat) :
  MultiClassClassifier.wf self -> length x = MultiClassClassifier.input_size_ self ->
  c < MultiClassClassifier.num_classes_ self ->
  exists z logits,
    LinearRegression.forward
      {| LinearRegression.weights_ := nth c (MultiClassClassifier.weights_ self) [];
         LinearRegression.bias_ := nth c (MultiClassClassifier.biases_ self) f0;
         LinearRegression.input_size_ := MultiClassClassifier.input_size_ self |} x
    = Returns [z] /\
    MultiClassClassifier.compute_logits self x = Returns logits /\
    nth c logits f0 = z.
Proof.
  intros Hwf Hx Hc. do 2 eexists. split; [| split].
  - apply Linear_forward_wf; [| exact Hx].
    destruct Hwf as (Hw & Hrows & _). unfold LinearRegression.wf. simpl.
    rewrite Forall_forall in Hrows. apply Hrows, nth_In. lia.
  - apply MultiClass_compute_logits_wf; assumption.
  - rewrite (nth_map_seq (MultiClassClassifier.stored_logit self x)) by exact Hc.
    reflexivity.
Qed.
End SharedSum.

(** X10.  The models share one linear combination, added in one order:
    bias first, then the products from the first input to the last.  So
    the pre-activation of a logistic regressor, and each logit of a
    multi-class classifier, is the very number a linear regressor with the
    same weights and bias returns, in any arithmetic and to the last bit in
    binary32. *)
Theorem units_are_linear_regressors :
  forall (F : Type) (ops : FloatOps F),
    (forall (self : LogisticRegression.t F) (x : list F),
       LogisticRegression.wf self ->
       length x = LogisticRegression.input_size_ self ->
       exists z,
         LinearRegression.forward
           {| LinearRegression.weights_ := LogisticRegression.weights_ self;
              LinearRegression.bias_ := LogisticRegression.bias_ self;
              LinearRegression.input_size_ := LogisticRegression.input_size_ self |} x
         = Returns [z] /\
         LogisticRegression.forward self x = Returns [sigmoid z]) /\
    (forall (self : MultiClassClassifier.t F) (x : list F) (c : nat),
       MultiClassClassifier.wf self ->
       length x = MultiClassClassifier.input_size_ self ->
       c < MultiClassClassifier.num_classes_ self ->
       exists z logits,
         LinearRegression.forward
           {| LinearRegression.weights_ := nth c (MultiClassClassifier.weights_ self) [];
              LinearRegression.bias_ := nth c (MultiClassClassifier.biases_ self) f0;
              LinearRegression.input_size_ := MultiClassClassifier.input_size_ self |} x
         = Returns [z] /\
         MultiClassClassifier.compute_logits self x = Returns logits /\
         nth c logits f0 = z).
Proof.
  intros F ops. split; [exact Logistic_over_linear | exact MultiClass_over_linear].
Qed.

Lemma units_are_linear_regressors_witness :
  let ops := binary32 exp_reference in
  let self := snd (MultiClassClassifier.set_parameters multiclass_example_params
                     (MultiClassClassifier.ctor 2 3)) in
  let x := multiclass_example_input in
  MultiClassClassifier.wf self /\
  length x = MultiClassClassifier.input_size_ self /\
  2 < MultiClassClassifier.num_classes_ self /\
  exists z logits,
    LinearRegression.forward
      {| LinearRegression.weights_ := nth 2 (MultiClassClassifier.weights_ self) [];
         LinearRegression.bias_ := nth 2 (MultiClassClassifier.biases_ self) f0;
         LinearRegression.input_size_ := MultiClassClassifier.input_size_ self |} x
    = Returns [z] /\
    MultiClassClassifier.compute_logits self x = Returns logits /\
    nth 2 logits f0 = z.
Proof.
  intros ops self x.
  assert (Hwf : MultiClassClassifier.wf self)
    by (vm_compute; repeat split; repeat constructor).
  assert (Hx : length x = MultiClassClassifier.input_size_ self) by reflexivity.
  assert (Hc : 2 < MultiClassClassifier.num_classes_ self) by (simpl; lia).
  do 3 (split; [assumption |]).
  exact (proj2 (units_are_linear_regressors float ops) self x 2 Hwf Hx Hc).
Defined.

(** ** Order in exact arithmetic *)

Section ExactOrder.
Local Open Scope R_scope.

Lemma real_sigmoid_increasing (z z' : R) :
  z < z' -> sigmoid (ops := real_arith) z < sigmoid (ops := real_arith) z'.
Proof.
  intros Hlt. unfold sigmoid. simpl.
  assert (He : exp (- z') < exp (- z)) by (apply exp_increasing; lra).
  pose proof (exp_pos (- z')) as Hp.
  unfold Rdiv. rewrite !Rmult_1_l.
  apply Rinv_lt_contravar; [| lra].
  apply Rmult_lt_0_compat; lra.
Qed.

Lemma real_sigmoid_half (z : R) :
  (z = 0 -> sigmoid (ops := real_arith) z = 1 / 2) /\
  (0 < z <-> 1 / 2 < sigmoid (ops := real_arith) z).
Proof.
  assert (H0 : sigmoid (ops := real_arith) 0 = 1 / 2).
  { unfold sigmoid. simpl. rewrite Ropp_0, exp_0. lra. }
  split; [intros ->; exact H0 |]. split.
  - intros Hz. rewrite <- H0. apply real_sigmoid_increasing, Hz.
  - intros Hy. destruct (Rlt_le_dec 0 z) as [Hz | Hz]; [exact Hz |].
    exfalso. destruct Hz as [Hz | Hz].
    + pose proof (real_sigmoid_increasing z 0 Hz). lra.
    + subst z. lra.
Qed.

Lemma real_softmax_entry (logits : list R) (c : nat) :
  (c < length logits)%nat ->
  let mx := nth (max_element (ops := real_arith) logits) logits 0 in
  let s := fold_left Rplus (map (fun z => exp (z - mx)) logits) 0 in
  nth c (softmax_spec (ops := real_arith) logits) 0
  = exp (nth c logits 0 - mx) / s /\ 0 < s.
Proof.
  intros Hc mx s. split.
  - unfold softmax_spec. simpl. fold mx. fold s.
    rewrite (nth_indep _ 0 ((fun p => p / s) 0))
      by (rewrite !length_map; exact Hc).
    rewrite (map_nth (fun p => p / s)).
    rewrite (nth_indep _ 0 ((fun z => exp (z - mx)) 0))
      by (rewrite length_map; exact Hc).
    rewrite (map_nth (fun z => exp (z - mx))). reflexivity.
  - assert (Hpos : Forall (fun p => 0 < p) (map (fun z => exp (z - mx)) logits)).
    { apply Forall_forall. intros p Hp. apply in_map_iff in Hp.
      destruct Hp as (z & <- & _). apply exp_pos. }
    destruct (fold_left_Rplus_bounds _ (exp (nth c logits 0 - mx)) Hpos) as [H1 H2].
    + apply in_map_iff. exists (nth c logits 0). split; [reflexivity |].
      apply nth_In, Hc.
    + fold s in H2. lra.
Qed.

Lemma real_softmax_order (logits : list R) (a b : nat) :
  (a < length logits)%nat -> (b < length logits)%nat ->
  let out := softmax_spec (ops := real_arith) logits in
  (nth a logits 0 < nth b logits 0 -> nth a out 0 < nth b out 0) /\
  (nth a logits 0 = nth b logits 0 -> nth a out 0 = nth b out 0).
Proof.
  intros Ha Hb out. subst out.
  destruct (real_softmax_entry logits a Ha) as [-> Hs].
  destruct (real_softmax_entry logits b Hb) as [-> _].
  set (mx := nth (max_element (ops := real_arith) logits) logits 0) in *.
  set (s := fold_left Rplus (map (fun z => exp (z - mx)) logits) 0) in *.
  split.
  - intros Hlt.
    assert (He : exp (nth a logits 0 - mx) < exp (nth b logits 0 - mx))
      by (apply exp_increasing; lra).
    unfold Rdiv. apply Rmult_lt_compat_r; [apply Rinv_0_lt_compat, Hs | exact He].
  - intros ->. reflexivity.
Qed.

Lemma real_softmax_argmax (logits : list R) (c : nat) :
  (c < length logits)%nat ->
  let out := softmax_spec (ops := real_arith) logits in
  nth c out 0 <= nth (max_element (ops := real_arith) logits) out 0.
Proof.
  intros Hc out. subst out.
  assert (Hne : logits <> []) by (intros E; rewrite E in Hc; simpl in Hc; lia).
  pose proof (max_element_lt (ops := real_arith) logits Hne) as Hm.
  pose proof (real_max_element_max logits (nth c logits 0) (nth_In _ _ Hc)) as Hle.
  destruct (real_softmax_order logits c _ Hc Hm) as [Hlt Heq].
  destruct Hle as [Hle | Hle]; [left; apply Hlt, Hle | right; apply Heq, Hle].
Qed.
End ExactOrder.

(** X11.  Evaluated in exact real arithmetic, the logistic regressor is
    increasing in its pre-activation [z = bias + sum_i weight[i]*input[i]],
    and its decision threshold is at zero: the output is 1/2 for [z = 0]
    and is above 1/2 exactly when [z] is positive. *)
Theorem logistic_output_order :
  forall (self : LogisticRegression.t R) (x x' : list R),
    LogisticRegression.wf self ->
    length x = LogisticRegression.input_size_ self ->
    length x' = LogisticRegression.input_size_ self ->
    exists z z' y y' : R,
      LogisticRegression.linear_output (ops := real_arith) self x = Returns z /\
      LogisticRegression.linear_output (ops := real_arith) self x' = Returns z' /\
      LogisticRegression.forward (ops := real_arith) self x = Returns [y] /\
      LogisticRegression.forward (ops := real_arith) self x' = Returns [y'] /\
      (z < z' -> y < y')%R /\
      (z = 0 -> y = 1 / 2)%R /\
      (0 < z <-> 1 / 2 < y)%R.
Proof.
  intros self x x' Hwf Hx Hx'. do 4 eexists.
  split; [apply Logistic_linear_output_wf; assumption |].
  split; [apply Logistic_linear_output_wf; assumption |].
  split; [apply Logistic_forward_wf; assumption |].
  split; [apply Logistic_forward_wf; assumption |].
  split; [apply real_sigmoid_increasing |].
  apply real_sigmoid_half.
Qed.

Lemma logistic_output_order_witness :
  let self := {| LogisticRegression.weights_ := [2; -1]%R;
                 LogisticRegression.bias_ := 3%R;
                 LogisticRegression.input_size_ := 2 |} in
  let x := [1; 4]%R in
  let x' := [1; 2]%R in
  LogisticRegression.wf self /\
  length x = LogisticRegression.input_size_ self /\
  length x' = LogisticRegression.input_size_ self /\
  exists y y' : R,
    LogisticRegression.forward (ops := real_arith) self x = Returns [y] /\
    LogisticRegression.forward (ops := real_arith) self x' = Returns [y'] /\
    (y < y')%R.
Proof.
  intros self x x'.
  assert (Hwf : LogisticRegression.wf self) by reflexivity.
  assert (Hx : length x = LogisticRegression.input_size_ self) by reflexivity.
  assert (Hx' : length x' = LogisticRegression.input_size_ self) by reflexivity.
  do 3 (split; [assumption |]).
  destruct (logistic_output_order self x x' Hwf Hx Hx')
    as (z & z' & y & y' & Hz & Hz' & Hy & Hy' & Hlt & _).
  exists y, y'. split; [exact Hy |]. split; [exact Hy' |].
  apply Hlt.
  vm_compute in Hz. vm_compute in Hz'.
  injection Hz as <-. injection Hz' as <-. lra.
Defined.

(** X12.  Evaluated in exact real arithmetic, the softmax keeps the order
    of the logits: of two classes the one with the larger logit has the
    larger probability, equal logits have equal probabilities, and the
    class [std::max_element] picks among the logits has the largest
    probability. *)
Theorem softmax_keeps_order :
  forall (self : MultiClassClassifier.t R) (x : list R),
    MultiClassClassifier.wf self ->
    1 <= MultiClassClassifier.num_classes_ self ->
    length x = MultiClassClassifier.input_size_ self ->
    exists logits out : list R,
      MultiClassClassifier.compute_logits (ops := real_arith) self x
      = Returns logits /\
      MultiClassClassifier.forward (ops := real_arith) self x = Returns out /\
      (forall a b,
         a < MultiClassClassifier.num_classes_ self ->
         b < MultiClassClassifier.num_classes_ self ->
         (nth a logits 0 < nth b logits 0 -> nth a out 0 < nth b out 0)%R /\
         (nth a logits 0 = nth b logits 0 -> nth a out 0 = nth b out 0)%R) /\
      (forall c,
         c < MultiClassClassifier.num_classes_ self ->
         (nth c out 0 <= nth (max_element (ops := real_arith) logits) out 0)%R).
Proof.
  intros self x Hwf Hk Hx.
  set (logits := map (MultiClassClassifier.stored_logit (ops := real_arith) self x)
                     (seq 0 (MultiClassClassifier.num_classes_ self))).
  assert (Hlen : length logits = MultiClassClassifier.num_classes_ self)
    by (unfold logits; rewrite length_map, length_seq; reflexivity).
  exists logits, (softmax_spec (ops := real_arith) logits).
  split; [apply MultiClass_compute_logits_wf; assumption |].
  split; [apply MultiClass_forward_wf; [assumption | lia | assumption] |].
  split.
  - intros a b Ha Hb. apply real_softmax_order; rewrite Hlen; assumption.
  - intros c Hc. apply real_softmax_argmax. rewrite Hlen. exact Hc.
Qed.

Lemma softmax_keeps_order_witness :
  let self := {| MultiClassClassifier.weights_ := [[1; 2]; [0; -1]; [3; 1]]%R;
                 MultiClassClassifier.biases_ := [0; 1; -1]%R;
                 MultiClassClassifier.input_size_ := 2;
                 MultiClassClassifier.num_classes_ := 3 |} in
  let x := [1; 1]%R in
  MultiClassClassifier.wf self /\
  1 <= MultiClassClassifier.num_classes_ self /\
  length x = MultiClassClassifier.input_size_ self /\
  exists out : list R,
    MultiClassClassifier.forward (ops := real_arith) self x = Returns out /\
    (nth 1 out 0 < nth 0 out 0)%R.
Proof.
  intros self x.
  assert (Hwf : MultiClassClassifier.wf self)
    by (repeat split; repeat constructor).
  assert (Hk : 1 <= MultiClassClassifier.num_classes_ self) by (simpl; lia).
  assert (Hx : length x = MultiClassClassifier.input_size_ self) by reflexivity.
  do 3 (split; [assumption |]).
  destruct (softmax_keeps_order self x Hwf Hk Hx)
    as (logits & out & Hl & Hf & Hord & _).
  exists out. split; [exact Hf |].
  assert (H1 : 1 < MultiClassClassifier.num_classes_ self) by (simpl; lia).
  assert (H0 : 0 < MultiClassClassifier.num_classes_ self) by (simpl; lia).
  apply (Hord 1 0 H1 H0).
  rewrite MultiClass_compute_logits_wf in Hl by assumption.
  injection Hl as <-. cbv.  lra.
Defined.

(** ** The registry and the type strings *)

Section RegistryNames.
Context {F : Type} {ops : FloatOps F}.

Lemma is_registered_listed (type_name : string) :
  ModelRegistry.is_registered type_name = true <->
  In type_name ModelRegistry.get_registered_types.
Proof.
  unfold ModelRegistry.is_registered, ModelRegistry.get_registered_types.
  rewrite !orb_true_iff, !String.eqb_eq. simpl.
  split.
  - intros [[[H | H] | H] | H]; subst; auto.
  - intros [H | [H | [H | [H | []]]]]; subst; auto.
Qed.

Lemma is_registered_created (type_name : string) :
  ModelRegistry.is_registered type_name = true <->
  exists shape model,
    ModelRegistry.create_model (F := F) type_name shape = Some (Returns model).
Proof.
  split.
  - intros H. apply is_registered_listed in H.
    destruct H as [H | [H | [H | [H | []]]]]; subst type_name.
    + exists [0]. eexists. reflexivity.
    + exists [0]. eexists. reflexivity.
    + exists [0; 0]. eexists. reflexivity.
    + exists [0; 0; 0]. eexists. reflexivity.
  - intros (shape & model & H). unfold ModelRegistry.is_registered.
    unfold ModelRegistry.create_model, ModelRegistry.create_model1,
      ModelRegistry.create_model2, ModelRegistry.create_model3 in H.
    destruct shape as [| a [| b [| c [| d rest]]]]; try discriminate.
    + destruct (String.eqb type_name "linear"); [reflexivity |].
      destruct (String.eqb type_name "logistic"); [reflexivity | discriminate].
    + destruct (String.eqb type_name "multiclass");
        [rewrite !orb_true_r; reflexivity | discriminate].
    + destruct (String.eqb type_name "mlp");
        [rewrite !orb_true_r; reflexivity | discriminate].
Qed.
End RegistryNames.

(** X13.  The three views of the registry agree.  The names
    [get_registered_types] lists are four different names, they are the
    names [is_registered] accepts, and they are the names for which some
    overload of [create_model] returns an object. *)
Theorem registered_types_agree :
  NoDup ModelRegistry.get_registered_types /\
  length ModelRegistry.get_registered_types = 4 /\
  forall type_name : string,
    (ModelRegistry.is_registered type_name = true <->
     In type_name ModelRegistry.get_registered_types) /\
    (forall (F : Type) (ops : FloatOps F),
       ModelRegistry.is_registered type_name = true <->
       exists shape model,
         ModelRegistry.create_model (F := F) type_name shape = Some (Returns model)).
Proof.
  split; [| split; [reflexivity |]].
  - unfold ModelRegistry.get_registered_types.
    repeat constructor; simpl; intuition discriminate.
  - intros type_name. split; [apply is_registered_listed |].
    intros F ops. apply is_registered_created.
Qed.

(** [std::to_string] of a [size_t] tells the number. *)
Lemma to_string_inj (a b : nat) : to_string a = to_string b -> a = b.
Proof.
  unfold to_string. intros H.
  assert (E : Some (Nat.to_uint a) = Some (Nat.to_uint b)).
  { rewrite <- !DecimalString.NilEmpty.usu, H. reflexivity. }
  injection E as E.
  rewrite <- (DecimalNat.Unsigned.of_to a), <- (DecimalNat.Unsigned.of_to b), E.
  reflexivity.
Qed.

Lemma string_length_app (a b : string) :
  String.length (a ++ b) = String.length a + String.length b.
Proof. induction a as [| c a IH]; simpl; [reflexivity | rewrite IH; reflexivity]. Qed.

Lemma string_app_inv_tail (a b c : string) : (a ++ c = b ++ c)%string -> a = b.
Proof.
  revert b. induction a as [| x a IH]; intros [| y b] H; simpl in H.
  - reflexivity.
  - apply (f_equal String.length) in H. simpl in H.
    rewrite string_length_app in H. lia.
  - apply (f_equal String.length) in H. simpl in H.
    rewrite string_length_app in H. lia.
  - injection H as -> H. f_equal. apply IH, H.
Qed.

(** X14.  [get_model_type()] tells the class of the object behind the
    interface, and for the classifier its number of classes: two objects
    with the same type string are of the same class, and two classifiers
    with the same type string have the same [output_size()].  The string is
    never empty. *)
Theorem model_type_identifies :
  forall (F : Type) (ops : FloatOps F) (a b : NeuralNetwork F),
    get_model_type a <> "" /\
    (get_model_type a = get_model_type b ->
     match a, b with
     | Linear _, Linear _ | Logistic _, Logistic _ | MLP _, MLP _ => True
     | MultiClass ma, MultiClass mb =>
         MultiClassClassifier.num_classes_ ma = MultiClassClassifier.num_classes_ mb /\
         output_size a = output_size b
     | _, _ => False
     end).
Proof.
  intros F ops a b. split.
  - destruct a; discriminate.
  - destruct a as [ma | ma | ma | ma], b as [mb | mb | mb | mb]; simpl;
      try discriminate; auto.
    unfold MultiClassClassifier.get_model_type, MultiClassClassifier.output_size.
    intros H. simpl in H. repeat (injection H as H).
    apply string_app_inv_tail, to_string_inj in H. auto.
Qed.

Lemma model_type_identifies_witness :
  let ops := binary32 (fun x => x) in
  let a := MultiClass (MultiClassClassifier.ctor 2 3) in
  let b := snd (set_parameters multiclass_example_params
                  (MultiClass (MultiClassClassifier.ctor 2 3))) in
  get_model_type a = get_model_type b /\ output_size a = output_size b.
Proof.
  intros ops a b.
  assert (H : get_model_type a = get_model_type b) by reflexivity.
  split; [exact H |].
  exact (proj2 (proj2 (model_type_identifies float ops a b) H)).
Defined.

(** ** [trim] *)

Section TrimProps.
Import TestDataLoader.

Lemma all_blank_first (s : string) :
  all_blank s = true -> find_first_not_of s = None.
Proof.
  induction s as [| c s IH]; simpl; [reflexivity |].
  intros H. apply andb_true_iff in H. destruct H as [-> H].
  rewrite (IH H). reflexivity.
Qed.

Lemma all_blank_last (s : string) :
  all_blank s = true -> find_last_not_of s = None.
Proof.
  induction s as [| c s IH]; simpl; [reflexivity |].
  intros H. apply andb_true_iff in H. destruct H as [-> H].
  rewrite (IH H). reflexivity.
Qed.

Lemma all_blank_app (a b : string) :
  all_blank a = true -> all_blank b = true -> all_blank (a ++ b) = true.
Proof.
  induction a as [| c a IH]; simpl; [auto |].
  intros H Hb. apply andb_true_iff in H. destruct H as [-> H]. simpl. auto.
Qed.

Lemma trim_all_blank (s : string) : all_blank s = true -> trim s = "".
Proof. intros H. unfold trim. rewrite (all_blank_first s H). reflexivity. Qed.

Lemma trim_cons_blank (c : ascii) (s : string) :
  is_blank c = true -> trim (String c s) = trim s.
Proof.
  intros Hc. unfold trim. simpl. rewrite Hc.
  destruct (find_first_not_of s) as [start |]; simpl; [| reflexivity].
  destruct (find_last_not_of s) as [end_ |]; reflexivity.
Qed.

Lemma trim_blank_prefix (bl s : string) :
  all_blank bl = true -> trim (bl ++ s) = trim s.
Proof.
  induction bl as [| c bl IH]; simpl; [reflexivity |].
  intros H. apply andb_true_iff in H. destruct H as [Hc H].
  rewrite trim_cons_blank by exact Hc. apply IH, H.
Qed.

Lemma find_last_app_blank (core br : string) :
  all_blank br = true -> find_last_not_of (core ++ br) = find_last_not_of core.
Proof.
  intros Hbr. induction core as [| c core IH]; simpl.
  - apply all_blank_last, Hbr.
  - rewrite IH. reflexivity.
Qed.

Lemma find_last_of_last (core : string) (c : ascii) :
  last_char core = Some c -> is_blank c = false ->
  find_last_not_of core = Some (String.length core - 1).
Proof.
  intros Hlast Hc. induction core as [| a rest IH]; [discriminate |].
  destruct rest as [| b rest].
  - simpl in Hlast. injection Hlast as ->. simpl. rewrite Hc. reflexivity.
  - change (last_char (String a (String b rest))) with (last_char (String b rest))
      in Hlast.
    change (find_last_not_of (String a (String b rest)))
      with (match find_last_not_of (String b rest) with
            | Some i => Some (S i)
            | None => if is_blank a then None else Some 0
            end).
    rewrite (IH Hlast). simpl. rewrite Nat.sub_0_r. reflexivity.
Qed.

Lemma substring_prefix (core br : string) :
  substring 0 (String.length core) (core ++ br) = core.
Proof.
  induction core as [| c core IH]; simpl.
  - destruct br; reflexivity.
  - rewrite IH. reflexivity.
Qed.

Lemma substring_none (s : string) : substring 0 0 s = "".
Proof. destruct s; reflexivity. Qed.

Lemma trim_padded (bl core br : string) :
  all_blank bl = true -> all_blank br = true -> unpadded core = true ->
  trim (bl ++ core ++ br) = core.
Proof.
  intros Hbl Hbr Hcore. rewrite trim_blank_prefix by exact Hbl.
  unfold unpadded in Hcore.
  destruct core as [| a rest]; [discriminate |]. simpl get in Hcore.
  destruct (last_char (String a rest)) as [b |] eqn:Hlast; [| discriminate].
  apply andb_true_iff in Hcore. destruct Hcore as [Ha Hb].
  apply negb_true_iff in Ha. apply negb_true_iff in Hb.
  unfold trim.
  rewrite find_last_app_blank by exact Hbr.
  rewrite (find_last_of_last _ b Hlast Hb).
  simpl find_first_not_of. rewrite Ha.
  replace (String.length (String a rest) - 1 - 0 + 1)
    with (String.length (String a rest)) by (simpl; lia).
  apply substring_prefix.
Qed.

(** What [find_last_not_of] finds: the string up to there ends with a
    character that is not blank, and only blanks follow. *)
Lemma find_last_not_of_spec (s : string) :
  match find_last_not_of s with
  | None => all_blank s = true
  | Some i =>
      exists br c,
        all_blank br = true /\ s = (substring 0 (S i) s ++ br)%string /\
        last_char (substring 0 (S i) s) = Some c /\ is_blank c = false
  end.
Proof.
  induction s as [| a rest IH]; [reflexivity |].
  cbn [find_last_not_of].
  destruct (find_last_not_of rest) as [i |].
  - destruct IH as (br & c & Hbr & Hrest & Hlast & Hc).
    exists br, c. split; [exact Hbr |].
    change (substring 0 (S (S i)) (String a rest))
      with (String a (substring 0 (S i) rest)).
    split; [simpl; rewrite <- Hrest; reflexivity |].
    split; [| exact Hc].
    destruct (substring 0 (S i) rest) eqn:E; [discriminate Hlast | exact Hlast].
  - destruct (is_blank a) eqn:Ha.
    + simpl. rewrite Ha, IH. reflexivity.
    + exists rest, a. split; [exact IH |].
      change (substring 0 1 (String a rest)) with (String a (substring 0 0 rest)).
      rewrite substring_none. auto.
Qed.

Lemma trim_decompose (s : string) :
  (all_blank s = true /\ trim s = "") \/
  (exists bl br,
     all_blank bl = true /\ all_blank br = true /\ unpadded (trim s) = true /\
     s = (bl ++ trim s ++ br)%string).
Proof.
  induction s as [| a rest IH]; [left; split; reflexivity |].
  destruct (is_blank a) eqn:Ha.
  - rewrite trim_cons_blank by exact Ha.
    destruct IH as [[Hb Ht] | (bl & br & Hbl & Hbr & Hu & Hs)].
    + left. split; [simpl; rewrite Ha, Hb; reflexivity | exact Ht].
    + right. exists (String a bl), br.
      split; [simpl; rewrite Ha, Hbl; reflexivity |].
      split; [exact Hbr |]. split; [exact Hu |].
      simpl. rewrite <- Hs. reflexivity.
  - right. clear IH.
    pose proof (find_last_not_of_spec (String a rest)) as Hspec.
    unfold trim. cbn [find_first_not_of]. rewrite Ha.
    destruct (find_last_not_of (String a rest)) as [i |].
    + destruct Hspec as (br & c & Hbr & Hs & Hlast & Hc).
      replace (i - 0 + 1) with (S i) by lia.
      exists "", br. split; [reflexivity |]. split; [exact Hbr |].
      split; [| exact Hs].
      unfold unpadded. rewrite Hlast.
      change (substring 0 (S i) (String a rest))
        with (String a (substring 0 i rest)).
      simpl. rewrite Ha, Hc. reflexivity.
    + simpl in Hspec. rewrite Ha in Hspec. discriminate.
Qed.

Lemma trim_idempotent (s : string) : trim (trim s) = trim s.
Proof.
  destruct (trim_decompose s) as [[_ ->] | (bl & br & _ & _ & Hu & _)];
    [reflexivity |].
  pose proof (trim_padded "" (trim s) "" eq_refl eq_refl Hu) as H.
  simpl in H. rewrite <- H at 2. f_equal.
  clear. induction (trim s) as [| c t IH]; simpl; [reflexivity | rewrite <- IH; reflexivity].
Qed.
End TrimProps.

(** X15.  [trim] removes the blanks (space, tab, carriage return, line
    feed) at both ends of a string and nothing else: every string is
    blanks, its trimmed form, blanks; the trimmed form is empty, when the
    string holds blanks only, or begins and ends with a character that is
    not blank.  So a string with no blank at either end comes back from
    any padding, and trimming twice is trimming once. *)
Theorem trim_removes_outer_blanks :
  (forall s : string,
     (all_blank s = true /\ TestDataLoader.trim s = "") \/
     (exists bl br,
        all_blank bl = true /\ all_blank br = true /\
        unpadded (TestDataLoader.trim s) = true /\
        s = (bl ++ TestDataLoader.trim s ++ br)%string)) /\
  (forall bl core br : string,
     all_blank bl = true -> all_blank br = true -> unpadded core = true ->
     TestDataLoader.trim (bl ++ core ++ br) = core) /\
  (forall s : string,
     TestDataLoader.trim (TestDataLoader.trim s) = TestDataLoader.trim s).
Proof.
  split; [exact trim_decompose |]. split; [exact trim_padded | exact trim_idempotent].
Qed.

Lemma trim_removes_outer_blanks_witness :
  let bl := String (ascii_of_nat 9) " " in
  let br := String " " (String (ascii_of_nat 13) "") in
  let core := "1.5 e" in
  all_blank bl = true /\ all_blank br = true /\ unpadded core = true /\
  TestDataLoader.trim (bl ++ core ++ br) = core.
Proof.
  intros bl br core.
  assert (Hbl : all_blank bl = true) by reflexivity.
  assert (Hbr : all_blank br = true) by reflexivity.
  assert (Hc : unpadded core = true) by reflexivity.
  do 3 (split; [assumption |]).
  exact (proj1 (proj2 trim_removes_outer_blanks) bl core br Hbl Hbr Hc).
Defined.

(** ** Comma-separated fields *)

Lemma string_app_assoc (a b c : string) : ((a ++ b) ++ c = a ++ (b ++ c))%string.
Proof. induction a as [| x a IH]; simpl; [reflexivity | rewrite IH; reflexivity]. Qed.

Lemma string_app_nil_r (a : string) : (a ++ "")%string = a.
Proof. induction a as [| x a IH]; simpl; [reflexivity | rewrite IH; reflexivity]. Qed.

Section Fields.
Import TestDataLoader.
Variable delim : ascii.

(** A field without the delimiter is read into the token as a whole. *)
Lemma getline_tokens_field (f rest token : string) :
  free_of delim f = true ->
  getline_tokens delim (f ++ rest) token = getline_tokens delim rest (token ++ f).
Proof.
  revert token. induction f as [| c f IH]; intros token Hf; simpl.
  - rewrite string_app_nil_r. reflexivity.
  - simpl in Hf. apply andb_true_iff in Hf. destruct Hf as [Hc Hf].
    apply negb_true_iff in Hc. rewrite Hc, (IH _ Hf), string_app_assoc.
    reflexivity.
Qed.

(** The tokens of fields put together with the delimiter are the fields,
    but for an empty last field, after which the stream is at its end. *)
Lemma getline_tokens_join (fields : list string) :
  Forall (fun f => free_of delim f = true) fields ->
  getline_tokens delim (String.concat (String delim "") fields) ""
  = if String.eqb (last fields "") "" then removelast fields else fields.
Proof.
  induction fields as [| f [| g rest] IH]; intros Hfree.
  - reflexivity.
  - inversion Hfree as [| ? ? Hf _]; subst. cbn [String.concat last removelast].
    rewrite <- (string_app_nil_r f) at 1.
    rewrite (getline_tokens_field f "" "" Hf). simpl.
    destruct (String.eqb f ""); reflexivity.
  - inversion Hfree as [| ? ? Hf Hrest]; subst.
    change (String.concat (String delim "") (f :: g :: rest))
      with (f ++ String delim (String.concat (String delim "") (g :: rest)))%string.
    rewrite (getline_tokens_field f _ "" Hf).
    cbn [getline_tokens append]. rewrite Ascii.eqb_refl, (IH Hrest).
    change (last (f :: g :: rest) "") with (last (g :: rest) "").
    destruct (String.eqb (last (g :: rest) "") ""); reflexivity.
Qed.

Lemma concat_trailing (fields : list string) :
  fields <> [] ->
  String.concat (String delim "") (fields ++ [""])
  = (String.concat (String delim "") fields ++ String delim "")%string.
Proof.
  induction fields as [| f [| g rest] IH]; intros Hne; [congruence | reflexivity |].
  change ((f :: g :: rest) ++ [""]) with (f :: (g :: rest) ++ [""]).
  change (String.concat (String delim "") (f :: (g :: rest) ++ [""]))
    with (f ++ String delim "" ++
          String.concat (String delim "") ((g :: rest) ++ [""]))%string.
  rewrite IH by discriminate.
  change (String.concat (String delim "") (f :: g :: rest))
    with (f ++ String delim "" ++ String.concat (String delim "") (g :: rest))%string.
  rewrite !string_app_assoc. reflexivity.
Qed.
End Fields.

Section FieldValues.
Context {F : Type}.
Variable stof : string -> exception + F.
Import TestDataLoader.

Let step (acc : outcome (list F)) (token : string) : outcome (list F) :=
  values <- acc ;;
  let token := trim token in
  if negb (String.eqb token "") then
    v <- call_stof stof token ;; Returns (values ++ [v])
  else Returns values.

Lemma step_empty (acc : outcome (list F)) : step acc "" = acc.
Proof. destruct acc; reflexivity. Qed.

Lemma step_thrown (e : exception) (tokens : list string) :
  fold_left step tokens (Throws e) = Throws e.
Proof. induction tokens as [| t tokens IH]; simpl; [reflexivity | exact IH]. Qed.

Lemma parse_float_list_join (fields : list string) :
  Forall (fun f => free_of ","%char f = true) fields ->
  parse_float_list stof (String.concat "," fields)
  = fold_left step fields (Returns []).
Proof.
  intros Hfree. unfold parse_float_list. fold step.
  rewrite (getline_tokens_join ","%char fields Hfree).
  destruct (String.eqb_spec (last fields "") "") as [E | E]; [| reflexivity].
  destruct fields as [| f rest]; [reflexivity |].
  rewrite (app_removelast_last "" (l := f :: rest)) at 2 by discriminate.
  rewrite fold_left_app, E. simpl. rewrite step_empty. reflexivity.
Qed.

Lemma step_fields (fields : list string) (held : list (option F)) (values : list F) :
  Forall2 (field_holds stof) fields held ->
  fold_left step fields (Returns values) = Returns (values ++ some_values held).
Proof.
  intros H. revert values.
  induction H as [| f o fields held Hf _ IH]; intros values; simpl.
  - rewrite app_nil_r. reflexivity.
  - destruct o as [v |]; simpl in Hf.
    + destruct Hf as [Hne Hv]. apply String.eqb_neq in Hne.
      unfold call_stof. rewrite Hne, Hv. simpl.
      rewrite IH, <- app_assoc. reflexivity.
    + rewrite Hf. simpl. apply IH.
Qed.

Lemma parse_float_list_fields (fields : list string) (held : list (option F)) :
  Forall (fun f => free_of ","%char f = true) fields ->
  Forall2 (field_holds stof) fields held ->
  parse_float_list stof (String.concat "," fields) = Returns (some_values held).
Proof.
  intros Hfree Hheld. rewrite parse_float_list_join by exact Hfree.
  apply (step_fields fields held [] Hheld).
Qed.

Lemma parse_float_list_first_error (before after : list string) (f : string)
    (held : list (option F)) (e : exception) :
  Forall (fun f => free_of ","%char f = true) (before ++ f :: after) ->
  Forall2 (field_holds stof) before held ->
  trim f <> "" -> stof (trim f) = inl e ->
  parse_float_list stof (String.concat "," (before ++ f :: after)) = Throws e.
Proof.
  intros Hfree Hheld Hne He. rewrite parse_float_list_join by exact Hfree.
  rewrite fold_left_app, (step_fields before held [] Hheld). simpl.
  apply String.eqb_neq in Hne. unfold call_stof. rewrite Hne, He. simpl.
  apply step_thrown.
Qed.
End FieldValues.

(** X16.  [parse_float_list] reads a comma-separated list field by field.
    Each field is trimmed; a field that is then empty is passed over, also
    between two commas and after the last one, and every other field is
    given to [std::stof].  When [std::stof] reads them all the result is
    the values in the order of the fields; when it throws on one the
    exception of the first such field leaves [parse_float_list] and no
    value is returned. *)
Theorem parse_float_list_reads_fields :
  forall (F : Type) (stof : string -> exception + F),
    (forall (fields : list string) (held : list (option F)),
       Forall (fun f => free_of ","%char f = true) fields ->
       Forall2 (field_holds stof) fields held ->
       TestDataLoader.parse_float_list stof (String.concat "," fields)
       = Returns (some_values held)) /\
    (forall (before after : list string) (f : string) (held : list (option F))
            (e : exception),
       Forall (fun f => free_of ","%char f = true) (before ++ f :: after) ->
       Forall2 (field_holds stof) before held ->
       TestDataLoader.trim f <> "" -> stof (TestDataLoader.trim f) = inl e ->
       TestDataLoader.parse_float_list stof
         (String.concat "," (before ++ f :: after))
       = Throws e).
Proof.
  intros F stof.
  split; [apply parse_float_list_fields | apply parse_float_list_first_error].
Qed.

Lemma parse_float_list_reads_fields_witness :
  let fields := [" 0.5 "; ""; "0.25"; " "] in
  let held := [Some (b32_lit 5 10); None; Some (b32_lit 25 100); None] in
  Forall (fun f => free_of ","%char f = true) fields /\
  Forall2 (field_holds stof_decimal) fields held /\
  TestDataLoader.parse_float_list stof_decimal " 0.5 ,,0.25, "
  = Returns [b32_lit 5 10; b32_lit 25 100].
Proof.
  intros fields held.
  assert (Hfree : Forall (fun f => free_of ","%char f = true) fields)
    by (repeat constructor).
  assert (Hheld : Forall2 (field_holds stof_decimal) fields held).
  { repeat constructor; try discriminate. }
  split; [exact Hfree |]. split; [exact Hheld |].
  exact (proj1 (parse_float_list_reads_fields float stof_decimal) fields held
           Hfree Hheld).
Defined.

(** ** Every line is accounted for *)

Section LoaderAccounts.
Context {F : Type}.
Variable stof : string -> exception + F.
Import TestDataLoader.

Lemma loader_counts (filename : string) (line_number : Z) (lines : list string) :
  length (cases_from stof line_number lines)
  + length (reports_from stof filename line_number lines)
  + length (filter skipped lines) = length lines.
Proof.
  revert line_number. induction lines as [| line rest IH]; intros line_number.
  - reflexivity.
  - cbn [cases_from reports_from filter]. specialize (IH (line_number + 1)%Z).
    destruct (skipped line); [simpl; lia |].
    pose proof (parse_line_defined stof line (line_number + 1)) as Hdef.
    destruct (parse_line stof line (line_number + 1)); [| | congruence];
      simpl; lia.
Qed.

Lemma parse_line_description (line : string) (line_number : Z) (tc : TestCase F) :
  parse_line stof line line_number = Returns tc ->
  description tc = ("Line " ++ to_string_int line_number)%string.
Proof.
  unfold parse_line. destruct (index 0 "->" line) as [pos |]; [| discriminate].
  destruct (parse_float_list stof (trim (substring 0 pos line)));
    simpl; try discriminate.
  destruct (parse_float_list stof
              (trim (substring (pos + 2) (String.length line - (pos + 2)) line)));
    simpl; try discriminate.
  intros H. injection H as <-. reflexivity.
Qed.

Lemma cases_from_origin (line_number : Z) (lines : list string) (tc : TestCase F) :
  In tc (cases_from stof line_number lines) ->
  exists i,
    i < length lines /\ skipped (nth i lines "") = false /\
    parse_line stof (nth i lines "") (line_number + Z.of_nat i + 1) = Returns tc.
Proof.
  revert line_number. induction lines as [| line rest IH]; intros line_number Hin.
  - contradiction.
  - cbn [cases_from] in Hin. apply in_app_or in Hin. destruct Hin as [Hin | Hin].
    + destruct (skipped line) eqn:Hs; [contradiction |].
      destruct (parse_line stof line (line_number + 1)) as [tc' | e |] eqn:Hp;
        try contradiction.
      destruct Hin as [<- | []].
      exists 0. split; [simpl; lia |]. split; [exact Hs |].
      simpl. rewrite Z.add_0_r. exact Hp.
    + destruct (IH _ Hin) as (i & Hi & Hs & Hp).
      exists (S i). split; [simpl; lia |]. split; [exact Hs |].
      cbn [nth]. rewrite <- Hp. f_equal. lia.
Qed.

Lemma load_from_file_result (filename : string) (lines : list string) :
  (Z.of_nat (length lines) <= INT_MAX)%Z ->
  load_from_file stof filename (Some lines)
  = Returns {| test_cases := cases_from stof 0 lines;
               cerr := reports_from stof filename 0 lines;
               cout := [("Loaded " ++ to_string (length (cases_from stof 0 lines)) ++
                         " test cases from " ++ filename)%string] |}.
Proof.
  intros Hmax. unfold load_from_file.
  rewrite load_lines by lia. reflexivity.
Qed.
End LoaderAccounts.

(** X17.  [load_from_file] accounts for every line of a file it can open:
    a line is skipped (empty or a comment), or yields one test case, or
    yields one report on [std::cerr], and nothing else; the run ends with
    one line on [std::cout] that tells the number of test cases returned.
    The file has at most [INT_MAX] lines. *)
Theorem load_from_file_accounts_for_every_line :
  forall (F : Type) (stof : string -> exception + F) (filename : string)
         (lines : list string),
    (Z.of_nat (length lines) <= INT_MAX)%Z ->
    exists r,
      TestDataLoader.load_from_file stof filename (Some lines) = Returns r /\
      length (TestDataLoader.test_cases r) + length (TestDataLoader.cerr r)
      + length (filter TestDataLoader.skipped lines) = length lines /\
      TestDataLoader.cout r
      = [("Loaded " ++ to_string (length (TestDataLoader.test_cases r)) ++
          " test cases from " ++ filename)%string].
Proof.
  intros F stof filename lines Hmax. eexists.
  split; [apply load_from_file_result, Hmax |].
  split; [apply loader_counts | reflexivity].
Qed.

Lemma load_from_file_accounts_for_every_line_witness :
  let lines := loader_example_lines in
  (Z.of_nat (length lines) <= INT_MAX)%Z /\
  exists r,
    TestDataLoader.load_from_file stof_decimal "cases.txt" (Some lines) = Returns r /\
    length (TestDataLoader.test_cases r) + length (TestDataLoader.cerr r)
    + length (filter TestDataLoader.skipped lines) = 6 /\
    TestDataLoader.cout r = ["Loaded 2 test cases from cases.txt"].
Proof.
  intros lines.
  assert (Hmax : (Z.of_nat (length lines) <= INT_MAX)%Z) by (vm_compute; discriminate).
  split; [exact Hmax |].
  destruct (load_from_file_accounts_for_every_line float stof_decimal "cases.txt"
              lines Hmax) as (r & Hr & Hcount & Hcout).
  exists r. split; [exact Hr |]. split; [exact Hcount |].
  rewrite Hcout. rewrite (load_from_file_result stof_decimal "cases.txt" lines Hmax) in Hr.
  injection Hr as <-. vm_compute. reflexivity.
Defined.

(** X18.  [load_from_file] invents nothing: every test case it returns is
    what [parse_line] makes of one line of the file, a line that is neither
    empty nor a comment, and its description is ["Line "] followed by the
    number of that line, counted from one over all the lines of the file,
    the skipped ones too. *)
Theorem loaded_case_comes_from_its_line :
  forall (F : Type) (stof : string -> exception + F) (filename : string)
         (lines : list string) (r : TestDataLoader.loaded F)
         (tc : TestDataLoader.TestCase F),
    (Z.of_nat (length lines) <= INT_MAX)%Z ->
    TestDataLoader.load_from_file stof filename (Some lines) = Returns r ->
    In tc (TestDataLoader.test_cases r) ->
    exists i,
      i < length lines /\
      TestDataLoader.skipped (nth i lines "") = false /\
      TestDataLoader.parse_line stof (nth i lines "") (Z.of_nat i + 1) = Returns tc /\
      TestDataLoader.description tc
      = ("Line " ++ to_string_int (Z.of_nat i + 1))%string.
Proof.
  intros F stof filename lines r tc Hmax Hr Hin.
  rewrite load_from_file_result in Hr by exact Hmax. injection Hr as <-.
  destruct (cases_from_origin stof 0 lines tc Hin) as (i & Hi & Hs & Hp).
  exists i. split; [exact Hi |]. split; [exact Hs |].
  split; [exact Hp |]. exact (parse_line_description stof _ _ tc Hp).
Qed.

Lemma loaded_case_comes_from_its_line_witness :
  let lines := loader_example_lines in
  let tc := {| TestDataLoader.input := floats [(5, 10); (25, 100)]%Z;
               TestDataLoader.expected_output := floats [(2, 1)]%Z;
               TestDataLoader.description := "Line 6" |} in
  exists r,
    (Z.of_nat (length lines) <= INT_MAX)%Z /\
    TestDataLoader.load_from_file stof_decimal "cases.txt" (Some lines) = Returns r /\
    In tc (TestDataLoader.test_cases r) /\
    exists i,
      i < length lines /\
      TestDataLoader.parse_line stof_decimal (nth i lines "") (Z.of_nat i + 1)
      = Returns tc.
Proof.
  intros lines tc.
  assert (Hmax : (Z.of_nat (length lines) <= INT_MAX)%Z) by (vm_compute; discriminate).
  eexists. 
  assert (Hr : TestDataLoader.load_from_file stof_decimal "cases.txt" (Some lines)
               = Returns _) by (apply load_from_file_result, Hmax).
  assert (Hin : In tc (TestDataLoader.test_cases
                         {| TestDataLoader.test_cases :=
                              TestDataLoader.cases_from stof_decimal 0 lines;
                            TestDataLoader.cerr :=
                              TestDataLoader.reports_from stof_decimal "cases.txt" 0 lines;
                            TestDataLoader.cout :=
                              [("Loaded " ++
                                to_string (length (TestDataLoader.cases_from
                                                     stof_decimal 0 lines)) ++
                                " test cases from " ++ "cases.txt")%string] |}))
    by (vm_compute; auto).
  split; [exact Hmax |]. split; [exact Hr |]. split; [exact Hin |].
  destruct (loaded_case_comes_from_its_line float stof_decimal "cases.txt" lines
              _ tc Hmax Hr Hin) as (i & Hi & _ & Hp & _).
  exists i. split; [exact Hi | exact Hp].
Defined.

(** ** The loader of the unit tests, line by line *)

Section HarnessAccounts.
Context {F : Type}.
Variable stof : string -> exception + F.
Import TestHarness.

Lemma harness_counts (line_number : Z) (lines : list string) :
  length (cases_from stof line_number lines)
  + length (reports_from stof line_number lines)
  + length (filter TestDataLoader.skipped lines)
  + length (filter dropped lines) = length lines.
Proof.
  revert line_number. induction lines as [| line rest IH]; intros line_number.
  - reflexivity.
  - cbn [cases_from reports_from filter]. specialize (IH (line_number + 1)%Z).
    unfold dropped at 1.
    destruct (TestDataLoader.skipped line); [simpl; lia |].
    destruct (find_pipes line) as [[pipe1 |] [pipe2 |]]; try (simpl; lia).
    pose proof (parse_fields_defined stof line (line_number + 1) pipe1 pipe2) as Hdef.
    destruct (parse_fields stof line (line_number + 1) pipe1 pipe2);
      [| | congruence]; simpl; lia.
Qed.

Let step (acc : outcome (list F)) (value : string) : outcome (list F) :=
  values <- acc ;;
  v <- TestDataLoader.call_stof stof value ;;
  Returns (values ++ [v]).

Lemma harness_step_thrown (e : exception) (tokens : list string) :
  fold_left step tokens (Throws e) = Throws e.
Proof. induction tokens as [| t tokens IH]; simpl; [reflexivity | exact IH]. Qed.

Lemma harness_step_values (fields : list string) (vs values : list F) :
  Forall2 (fun f v => stof f = inr v) fields vs ->
  fold_left step fields (Returns values) = Returns (values ++ vs).
Proof.
  intros H. revert values.
  induction H as [| f v fields vs Hf _ IH]; intros values; simpl.
  - rewrite app_nil_r. reflexivity.
  - unfold TestDataLoader.call_stof. rewrite Hf. simpl.
    rewrite IH, <- app_assoc. reflexivity.
Qed.

Lemma parse_values_fields (fields : list string) (vs : list F) :
  Forall (fun f => free_of ","%char f = true) fields ->
  last fields "" <> "" ->
  Forall2 (fun f v => stof f = inr v) fields vs ->
  parse_values stof (String.concat "," fields) = Returns vs.
Proof.
  intros Hfree Hlast Hvs. unfold parse_values. fold step.
  rewrite (getline_tokens_join ","%char fields Hfree).
  apply String.eqb_neq in Hlast. rewrite Hlast.
  apply (harness_step_values fields vs [] Hvs).
Qed.

Lemma parse_values_trailing_comma (fields : list string) (vs : list F) :
  Forall (fun f => free_of ","%char f = true) fields ->
  fields <> [] ->
  Forall2 (fun f v => stof f = inr v) fields vs ->
  parse_values stof (String.concat "," fields ++ ",") = Returns vs.
Proof.
  intros Hfree Hne Hvs. unfold parse_values. fold step.
  rewrite <- (concat_trailing ","%char fields Hne).
  rewrite (getline_tokens_join ","%char (fields ++ [""])).
  - rewrite last_last, removelast_last. simpl.
    apply (harness_step_values fields vs [] Hvs).
  - apply Forall_app. split; [exact Hfree | repeat constructor].
Qed.

Lemma parse_values_first_error (before after : list string) (f : string)
    (vs : list F) (e : exception) :
  Forall (fun f => free_of ","%char f = true) (before ++ f :: after) ->
  f <> "" \/ after <> [] ->
  Forall2 (fun f v => stof f = inr v) before vs ->
  stof f = inl e ->
  parse_values stof (String.concat "," (before ++ f :: after)) = Throws e.
Proof.
  intros Hfree Hne Hvs He. unfold parse_values. fold step.
  rewrite (getline_tokens_join ","%char _ Hfree).
  assert (Hthrow : fold_left step (before ++ f :: after) (Returns []) = Throws e).
  { rewrite fold_left_app, (harness_step_values before vs [] Hvs). simpl.
    unfold TestDataLoader.call_stof. rewrite He. simpl. apply harness_step_thrown. }
  destruct (String.eqb_spec (last (before ++ f :: after) "") "") as [E | E];
    [| exact Hthrow].
  destruct after as [| g after].
  - rewrite last_last in E. destruct Hne as [Hne | Hne]; congruence.
  - replace (before ++ f :: g :: after) with ((before ++ [f]) ++ g :: after)
      by (rewrite <- app_assoc; reflexivity).
    rewrite removelast_app by discriminate.
    rewrite <- app_assoc, fold_left_app, (harness_step_values before vs [] Hvs).
    simpl. unfold TestDataLoader.call_stof. rewrite He. simpl.
    apply harness_step_thrown.
Qed.
End HarnessAccounts.

(** X19.  [load_test_cases] of the unit tests accounts for every line of a
    file it can open: a line is skipped (empty or a comment), or dropped
    without any report because [" | "] is not found twice in it, or yields
    one test case, or yields one report on [std::cout]; the last line on
    [std::cout] tells the number of test cases returned.  The file has at
    most [INT_MAX] lines. *)
Theorem load_test_cases_accounts_for_every_line :
  forall (F : Type) (stof : string -> exception + F) (filename : string)
         (lines : list string),
    (Z.of_nat (length lines) <= INT_MAX)%Z ->
    exists r reports,
      TestHarness.load_test_cases stof filename (Some lines) = Returns r /\
      TestHarness.cout r
      = reports ++ [("Loaded " ++ to_string (length (TestHarness.cases r)) ++
                     " test cases from " ++ filename)%string] /\
      length (TestHarness.cases r) + length reports
      + length (filter TestDataLoader.skipped lines)
      + length (filter dropped lines) = length lines.
Proof.
  intros F stof filename lines Hmax.
  destruct (load_test_cases_lines stof filename lines Hmax) as (r & Hr & Hc & Ho).
  exists r, (TestHarness.reports_from stof 0 lines).
  split; [exact Hr |]. rewrite Hc. split; [exact Ho |].
  apply harness_counts.
Qed.

Lemma load_test_cases_accounts_for_every_line_witness :
  let lines := loader_example_lines in
  (Z.of_nat (length lines) <= INT_MAX)%Z /\
  length (filter TestDataLoader.skipped lines) = 2 /\
  length (filter dropped lines) = 3 /\
  exists r reports,
    TestHarness.load_test_cases stof_decimal "cases.txt" (Some lines) = Returns r /\
    TestHarness.cout r
    = reports ++ [("Loaded " ++ to_string (length (TestHarness.cases r)) ++
                   " test cases from cases.txt")%string] /\
    length (TestHarness.cases r) + length reports + 2 + 3 = 6.
Proof.
  intros lines.
  assert (Hmax : (Z.of_nat (length lines) <= INT_MAX)%Z) by (vm_compute; discriminate).
  assert (Hs : length (filter TestDataLoader.skipped lines) = 2) by reflexivity.
  assert (Hd : length (filter dropped lines) = 3) by reflexivity.
  do 3 (split; [assumption |]).
  destruct (load_test_cases_accounts_for_every_line float stof_decimal "cases.txt"
              lines Hmax) as (r & reports & Hr & Hcout & Hcount).
  exists r, reports. split; [exact Hr |]. split; [exact Hcout |].
  rewrite Hs, Hd in Hcount. exact Hcount.
Defined.

(** X20.  The loader of the unit tests gives every comma-separated field to
    [std::stof] as it stands, blanks included and without passing over an
    empty one.  When [std::stof] reads every field the result is the
    values in order, and one comma after the last field changes nothing;
    when it throws on a field, an empty field between two commas among
    them, the exception of the first such field leaves [parse_values]. *)
Theorem parse_values_reads_fields :
  forall (F : Type) (stof : string -> exception + F),
    (forall (fields : list string) (vs : list F),
       Forall (fun f => free_of ","%char f = true) fields ->
       last fields "" <> "" ->
       Forall2 (fun f v => stof f = inr v) fields vs ->
       TestHarness.parse_values stof (String.concat "," fields) = Returns vs /\
       TestHarness.parse_values stof (String.concat "," fields ++ ",") = Returns vs) /\
    (forall (before after : list string) (f : string) (vs : list F) (e : exception),
       Forall (fun f => free_of ","%char f = true) (before ++ f :: after) ->
       f <> "" \/ after <> [] ->
       Forall2 (fun f v => stof f = inr v) before vs ->
       stof f = inl e ->
       TestHarness.parse_values stof (String.concat "," (before ++ f :: after))
       = Throws e).
Proof.
  intros F stof. split.
  - intros fields vs Hfree Hlast Hvs.
    split; [apply parse_values_fields; assumption |].
    apply parse_values_trailing_comma; try assumption.
    intros E. rewrite E in Hlast. apply Hlast. reflexivity.
  - apply parse_values_first_error.
Qed.

Lemma parse_values_reads_fields_witness :
  let before := ["1.0"] in
  let after := ["2.0"] in
  Forall (fun f => free_of ","%char f = true) (before ++ "" :: after) /\
  ("" <> "" \/ after <> []) /\
  Forall2 (fun f v => stof_decimal f = inr v) before [b32_lit 1 1] /\
  stof_decimal "" = inl (invalid_argument "stof") /\
  TestHarness.parse_values stof_decimal "1.0,,2.0"
  = Throws (invalid_argument "stof").
Proof.
  intros before after.
  assert (Hfree : Forall (fun f => free_of ","%char f = true) (before ++ "" :: after))
    by (repeat constructor).
  assert (Hne : "" <> "" \/ after <> []) by (right; discriminate).
  assert (Hvs : Forall2 (fun f v => stof_decimal f = inr v) before [b32_lit 1 1])
    by (repeat constructor).
  assert (He : stof_decimal "" = inl (invalid_argument "stof")) by reflexivity.
  do 4 (split; [assumption |]).
  exact (proj2 (parse_values_reads_fields float stof_decimal) before after ""
           [b32_lit 1 1] (invalid_argument "stof") Hfree Hne Hvs He).
Defined.

(** ** Lines of blanks *)

Section BlankLines.
Context {F : Type}.
Variable stof : string -> exception + F.
Import TestDataLoader.

Lemma blank_not_dash (c : ascii) : is_blank c = true -> c <> "-"%char.
Proof. intros H ->. discriminate H. Qed.

Lemma blank_not_hash (c : ascii) : is_blank c = true -> Ascii.eqb c "#" = false.
Proof.
  intros H. destruct (Ascii.eqb_spec c "#") as [-> |]; [discriminate H | reflexivity].
Qed.

Lemma all_blank_no_arrow (line : string) :
  all_blank line = true -> index 0 "->" line = None.
Proof.
  induction line as [| c rest IH]; [reflexivity |].
  intros H. simpl in H. apply andb_true_iff in H. destruct H as [Hc H].
  cbn [index prefix].
  destruct (ascii_dec "-" c) as [E | _];
    [symmetry in E; apply blank_not_dash in Hc; contradiction |].
  rewrite (IH H). reflexivity.
Qed.

Lemma blank_line_not_skipped (line : string) :
  all_blank line = true -> line <> "" -> skipped line = false.
Proof.
  destruct line as [| c rest]; [congruence |]. intros H _.
  simpl in H. apply andb_true_iff in H. destruct H as [Hc _].
  unfold skipped. simpl. apply blank_not_hash, Hc.
Qed.

Lemma reports_from_app (filename : string) (line_number : Z)
    (before after : list string) :
  reports_from stof filename line_number (before ++ after)
  = reports_from stof filename line_number before
    ++ reports_from stof filename (line_number + Z.of_nat (length before)) after.
Proof.
  revert line_number. induction before as [| line rest IH]; intros line_number.
  - simpl. rewrite Z.add_0_r. reflexivity.
  - cbn [app reports_from length]. rewrite IH, <- app_assoc.
    rewrite Nat2Z.inj_succ. do 3 f_equal. lia.
Qed.

Lemma blank_line_report (filename : string) (before after : list string)
    (line : string) :
  all_blank line = true -> line <> "" ->
  In ("Error parsing line " ++ to_string_int (Z.of_nat (length before) + 1) ++
      " in " ++ filename ++ ": Missing '->' separator")%string
     (reports_from stof filename 0 (before ++ line :: after)).
Proof.
  intros Hb Hne. rewrite reports_from_app. apply in_or_app. right.
  cbn [reports_from]. rewrite (blank_line_not_skipped line Hb Hne).
  rewrite (parse_line_no_arrow stof line _ (all_blank_no_arrow line Hb)).
  left. reflexivity.
Qed.
End BlankLines.

(** X21.  For [load_from_file] a line is empty only when it has no
    character at all.  A line of blanks, such as the single carriage return
    that [std::getline] leaves of an empty line of a file with CR-LF line
    ends, is not skipped: it has no ["->"], so it is reported on
    [std::cerr] as malformed, with its number, and yields no test case. *)
Theorem blank_line_is_reported :
  forall (F : Type) (stof : string -> exception + F) (filename : string)
         (before after : list string) (line : string),
    all_blank line = true -> line <> "" ->
    (Z.of_nat (length (before ++ line :: after)) <= INT_MAX)%Z ->
    TestDataLoader.skipped line = false /\
    (forall line_number,
       TestDataLoader.parse_line stof line line_number
       = Throws (runtime_error "Missing '->' separator")) /\
    exists r,
      TestDataLoader.load_from_file stof filename (Some (before ++ line :: after))
      = Returns r /\
      In ("Error parsing line " ++ to_string_int (Z.of_nat (length before) + 1) ++
          " in " ++ filename ++ ": Missing '->' separator")%string
         (TestDataLoader.cerr r).
Proof.
  intros F stof filename before after line Hb Hne Hmax.
  split; [apply blank_line_not_skipped; assumption |].
  split; [intros k; apply parse_line_no_arrow, all_blank_no_arrow, Hb |].
  eexists. split; [apply load_from_file_result, Hmax |].
  apply blank_line_report; assumption.
Qed.

Lemma blank_line_is_reported_witness :
  let line := String (ascii_of_nat 13) "" in
  let before := ["1.0 -> 2.0"] in
  let after := ["3.0 -> 4.0"] in
  all_blank line = true /\ line <> "" /\
  (Z.of_nat (length (before ++ line :: after)) <= INT_MAX)%Z /\
  exists r,
    TestDataLoader.load_from_file stof_decimal "cases.txt"
      (Some (before ++ line :: after)) = Returns r /\
    In "Error parsing line 2 in cases.txt: Missing '->' separator"
       (TestDataLoader.cerr r).
Proof.
  intros line before after.
  assert (Hb : all_blank line = true) by reflexivity.
  assert (Hne : line <> "") by discriminate.
  assert (Hmax : (Z.of_nat (length (before ++ line :: after)) <= INT_MAX)%Z)
    by (vm_compute; discriminate).
  do 3 (split; [assumption |]).
  exact (proj2 (proj2 (blank_line_is_reported float stof_decimal "cases.txt"
                         before after line Hb Hne Hmax))).
Defined.

(** ** The first arrow *)

Section FirstArrow.
Context {F : Type}.
Variable stof : string -> exception + F.
Import TestDataLoader.

(** A string starts with the arrow exactly when it is the arrow followed by
    some text. *)
Lemma prefix_arrow (s : string) :
  prefix "->" s = true <-> exists rest, s = ("->" ++ rest)%string.
Proof.
  split.
  - destruct s as [| c [| d rest]]; cbn [prefix].
    + discriminate.
    + destruct (ascii_dec "-" c); discriminate.
    + destruct (ascii_dec "-" c) as [<- |]; [| discriminate].
      destruct (ascii_dec ">" d) as [<- |]; [| discriminate].
      intros _. exists rest. reflexivity.
  - intros [rest ->]. change (("->" ++ rest)%string) with (String "-" (String ">" rest)).
    cbn [prefix].
    destruct (ascii_dec "-" "-") as [_ | n]; [| congruence].
    destruct (ascii_dec ">" ">") as [_ | n]; [| congruence].
    destruct rest; reflexivity.
Qed.

Lemma prefix_nil (s : string) : prefix "" s = true.
Proof. destruct s; reflexivity. Qed.

Lemma index_cons (c : ascii) (s : string) :
  index 0 "->" (String c s)
  = if prefix "->" (String c s) then Some 0
    else match index 0 "->" s with Some n => Some (S n) | None => None end.
Proof. reflexivity. Qed.

Lemma index_cons_none (c : ascii) (s : string) :
  index 0 "->" (String c s) = None ->
  prefix "->" (String c s) = false /\ index 0 "->" s = None.
Proof.
  rewrite index_cons. destruct (prefix "->" (String c s)); [discriminate |].
  destruct (index 0 "->" s); [discriminate | auto].
Qed.

(** Whether a string starts with the arrow is decided by its first two
    characters. *)
Lemma prefix_arrow_app (c : ascii) (left right : string) :
  prefix "->" (String c left) = false ->
  prefix "->" (String c (left ++ "->" ++ right)) = false.
Proof.
  destruct left as [| d left]; cbn [append prefix].
  - intros _. destruct (ascii_dec "-" c) as [_ | _]; [| reflexivity].
    change (("->" ++ right)%string) with (String "-" (String ">" right)).
    destruct (ascii_dec ">" "-") as [E | _]; [discriminate E | reflexivity].
  - destruct (ascii_dec "-" c) as [_ | _]; [| reflexivity].
    destruct (ascii_dec ">" d) as [_ | _]; [| reflexivity].
    rewrite prefix_nil. discriminate.
Qed.

Lemma prefix_arrow_cut (c : ascii) (left right : string) :
  prefix "->" (String c (left ++ "->" ++ right)) = false ->
  prefix "->" (String c left) = false.
Proof.
  destruct left as [| d left]; cbn [append prefix].
  - intros _. destruct (ascii_dec "-" c); reflexivity.
  - destruct (ascii_dec "-" c) as [_ | _]; [| reflexivity].
    destruct (ascii_dec ">" d) as [_ | _]; [| reflexivity].
    rewrite prefix_nil. discriminate.
Qed.

(** The text before the first arrow holds no arrow, and that is all it
    takes: [find] then returns its length. *)
Lemma index_arrow (left right : string) :
  index 0 "->" left = None ->
  index 0 "->" (left ++ "->" ++ right) = Some (String.length left).
Proof.
  induction left as [| c left IH]; intros Hnone.
  - change (("" ++ "->" ++ right)%string) with (String "-" (String ">" right)).
    rewrite index_cons.
    rewrite (proj2 (prefix_arrow (String "-" (String ">" right))))
      by (exists right; reflexivity).
    reflexivity.
  - apply index_cons_none in Hnone. destruct Hnone as [Hp Hnone].
    change ((String c left ++ "->" ++ right)%string)
      with (String c (left ++ "->" ++ right)%string).
    rewrite index_cons, (prefix_arrow_app c left right Hp), (IH Hnone).
    reflexivity.
Qed.

(** Conversely the position [find] returns cuts the line into a text
    without arrow, the arrow, and the rest. *)
Lemma index_arrow_inv (line : string) (pos : nat) :
  index 0 "->" line = Some pos ->
  exists left right,
    line = (left ++ "->" ++ right)%string /\ String.length left = pos /\
    index 0 "->" left = None.
Proof.
  revert pos. induction line as [| c line IH]; intros pos H.
  - discriminate H.
  - rewrite index_cons in H.
    destruct (prefix "->" (String c line)) eqn:Hp.
    + injection H as <-. apply prefix_arrow in Hp. destruct Hp as [rest ->].
      exists "", rest. auto.
    + destruct (index 0 "->" line) as [n |] eqn:Hi; [| discriminate H].
      injection H as <-.
      destruct (IH n eq_refl) as (left & right & -> & Hlen & Hnone).
      exists (String c left), right. split; [reflexivity |].
      split; [simpl; rewrite Hlen; reflexivity |].
      rewrite index_cons, (prefix_arrow_cut c left right Hp), Hnone. reflexivity.
Qed.

(** A string without arrow is one that cannot be cut around an arrow. *)
Lemma index_none_iff (s : string) :
  index 0 "->" s = None <-> forall a b : string, s <> (a ++ "->" ++ b)%string.
Proof.
  split.
  - intros Hnone a b ->.
    destruct (index 0 "->" a) as [p |] eqn:Ha.
    + destruct (index_arrow_inv a p Ha) as (l & r & -> & _ & Hl).
      rewrite string_app_assoc in Hnone.
      change (("->" ++ r) ++ "->" ++ b)%string
        with ("->" ++ (r ++ "->" ++ b))%string in Hnone.
      rewrite (index_arrow l _ Hl) in Hnone. discriminate Hnone.
    + rewrite (index_arrow a b Ha) in Hnone. discriminate Hnone.
  - intros H. destruct (index 0 "->" s) as [p |] eqn:E; [| reflexivity].
    destruct (index_arrow_inv s p E) as (l & r & -> & _). exfalso.
    exact (H l r eq_refl).
Qed.

(** A text free of [>] holds no arrow. *)
Lemma free_of_no_arrow (s : string) :
  free_of ">" s = true -> index 0 "->" s = None.
Proof.
  intros Hfree. apply index_none_iff. intros a b ->.
  induction a as [| c a IH].
  - discriminate Hfree.
  - simpl in Hfree. apply andb_true_iff in Hfree. apply IH, Hfree.
Qed.

Lemma string_app_same_length (a b x y : string) :
  (a ++ x = b ++ y)%string -> String.length a = String.length b ->
  a = b /\ x = y.
Proof.
  revert b. induction a as [| c a IH]; intros [| d b] H Hlen;
    try discriminate Hlen.
  - auto.
  - simpl in H, Hlen. injection H as -> H. injection Hlen as Hlen.
    destruct (IH b H Hlen) as [-> ->]. auto.
Qed.

(** The cut at the first arrow is the only cut whose left part has no
    arrow. *)
Lemma first_arrow_unique (left right left' right' : string) :
  (left ++ "->" ++ right = left' ++ "->" ++ right')%string ->
  index 0 "->" left = None -> index 0 "->" left' = None ->
  left' = left /\ right' = right.
Proof.
  intros E Hl Hl'.
  assert (Hlen : String.length left' = String.length left).
  { pose proof (index_arrow left right Hl) as H1.
    rewrite E, (index_arrow left' right' Hl') in H1. congruence. }
  symmetry in E. destruct (string_app_same_length _ _ _ _ E Hlen) as [-> E'].
  split; [reflexivity |]. injection E' as E'. exact E'.
Qed.

Lemma substring_suffix (a b : string) :
  substring (String.length a) (String.length b) (a ++ b) = b.
Proof.
  induction a as [| c a IH]; simpl; [| exact IH].
  rewrite <- (string_app_nil_r b) at 2. apply substring_prefix.
Qed.

Lemma parse_line_split (left right : string) (line_number : Z) :
  index 0 "->" left = None ->
  parse_line stof (left ++ "->" ++ right) line_number
  = (inputs <- parse_float_list stof (trim left) ;;
     outputs <- parse_float_list stof (trim right) ;;
     Returns {| input := inputs; expected_output := outputs;
                description := ("Line " ++ to_string_int line_number)%string |}).
Proof.
  intros Hnone. unfold parse_line. rewrite (index_arrow left right Hnone).
  rewrite substring_prefix.
  replace (String.length (left ++ "->" ++ right) - (String.length left + 2))
    with (String.length right)
    by (rewrite !string_length_app; simpl; lia).
  replace (String.length left + 2) with (String.length (left ++ "->"))
    by (rewrite string_length_app; reflexivity).
  rewrite <- (string_app_assoc left "->" right), substring_suffix.
  reflexivity.
Qed.

Lemma parse_line_bare_arrow (bl br : string) (line_number : Z) :
  all_blank bl = true -> all_blank br = true ->
  parse_line stof (bl ++ "->" ++ br) line_number
  = Returns {| input := []; expected_output := [];
               description := ("Line " ++ to_string_int line_number)%string |}.
Proof.
  intros Hbl Hbr. rewrite parse_line_split by (apply all_blank_no_arrow, Hbl).
  rewrite (trim_all_blank bl Hbl), (trim_all_blank br Hbr). reflexivity.
Qed.
End FirstArrow.

(** X22.  [parse_line] splits a line at its first ["->"]: what stands
    before it is the list of inputs, what follows it, further arrows
    included, is the list of expected outputs, and each side is trimmed and
    read by [parse_float_list].  The text before the first arrow is any text
    that holds no arrow (it may hold [>] or [-]), every line with an arrow
    is cut in this way in exactly one place, and a line without arrow is
    rejected.  Neither side has to hold a number: a line that holds the
    arrow and blanks only is accepted and yields a test case with an empty
    input and an empty expected output. *)
Theorem parse_line_splits_at_first_arrow :
  forall (F : Type) (stof : string -> exception + F) (line_number : Z),
    (forall left right : string,
       index 0 "->" left = None ->
       TestDataLoader.parse_line stof (left ++ "->" ++ right) line_number
       = (inputs <- TestDataLoader.parse_float_list stof (TestDataLoader.trim left) ;;
          outputs <- TestDataLoader.parse_float_list stof (TestDataLoader.trim right) ;;
          Returns {| TestDataLoader.input := inputs;
                     TestDataLoader.expected_output := outputs;
                     TestDataLoader.description :=
                       ("Line " ++ to_string_int line_number)%string |})) /\
    (forall left : string,
       index 0 "->" left = None <->
       forall a b : string, left <> (a ++ "->" ++ b)%string) /\
    (forall left : string, free_of ">" left = true -> index 0 "->" left = None) /\
    (forall line : string,
       (exists a b : string, line = (a ++ "->" ++ b)%string) ->
       exists left right : string,
         line = (left ++ "->" ++ right)%string /\ index 0 "->" left = None /\
         forall left' right' : string,
           line = (left' ++ "->" ++ right')%string ->
           index 0 "->" left' = None -> left' = left /\ right' = right) /\
    (forall line : string,
       (forall a b : string, line <> (a ++ "->" ++ b)%string) ->
       TestDataLoader.parse_line stof line line_number
       = Throws (runtime_error "Missing '->' separator")) /\
    (forall bl br : string,
       all_blank bl = true -> all_blank br = true ->
       TestDataLoader.parse_line stof (bl ++ "->" ++ br) line_number
       = Returns {| TestDataLoader.input := [];
                    TestDataLoader.expected_output := [];
                    TestDataLoader.description :=
                      ("Line " ++ to_string_int line_number)%string |}).
Proof.
  intros F stof line_number.
  split; [intros left right; apply parse_line_split |].
  split; [exact index_none_iff |].
  split; [exact free_of_no_arrow |].
  split; [| split].
  - intros line (a & b & ->).
    destruct (index 0 "->" (a ++ "->" ++ b)) as [pos |] eqn:E.
    + destruct (index_arrow_inv _ pos E) as (left & right & Hline & _ & Hnone).
      exists left, right. split; [exact Hline |]. split; [exact Hnone |].
      intros left' right' Hline' Hnone'. rewrite Hline in Hline'.
      apply (first_arrow_unique left right left' right'); assumption.
    + exfalso. exact (proj1 (index_none_iff _) E a b eq_refl).
  - intros line Hline. apply parse_line_no_arrow, index_none_iff, Hline.
  - intros bl br. apply parse_line_bare_arrow.
Qed.

Lemma parse_line_splits_at_first_arrow_witness :
  let left := "1>2 " in
  let right := " 3 -> 4" in
  index 0 "->" left = None /\
  TestDataLoader.parse_line stof_decimal "1>2 -> 3 -> 4" 7
  = Returns {| TestDataLoader.input := floats [(1, 1)]%Z;
               TestDataLoader.expected_output := floats [(3, 1)]%Z;
               TestDataLoader.description := "Line 7" |}.
Proof.
  intros left right.
  assert (Hnone : index 0 "->" left = None) by reflexivity.
  split; [exact Hnone |].
  etransitivity;
    [exact (proj1 (parse_line_splits_at_first_arrow float stof_decimal 7)
              left right Hnone)
    | vm_compute; reflexivity].
Defined.
